(* ===== verification/_CoqProject ===== *)
-Q . S2P
Prelude.v
GoStrings.v
UvTypes.v
TssTypes.v
UxTypes.v
RegTypes.v
World.v
Canonical.v
UvValidator.v
UvBallot.v
UvMsg.v
UvAbci.v
Registry.v
Utss.v
TssInv.v
TssVotes.v
TssOps.v
TssGenesis.v
UxKeys.v
UxPayload.v
UxEvm.v
UxOutbound.v
UxSettle.v
UxInbound.v
UxChainMeta.v
UxFinality.v
UxPending.v
UxLedger.v
UxInboundSpec.v
UxMsg.v
UxQuery.v
UcStore.v
UcChain.v
UcEvm.v
UcSvm.v
UcCoord.v
UcSession.v
UcEvmTx.v
UcSvmTx.v
UcLogic.v
UcEvmSpec.v
UcWatch.v
UcEvmWatch.v
UcEvmScan.v
UcSvmWatch.v
UcSvmScan.v
UcEvmTxSpec.v
UcSvmTxSpec.v
UcSvmSent.v
UcCoordSpec.v
UcSessionSpec.v
UcFlow.v
UcFlowSpec.v
UcSpeak.v
UcSettled.v
UcAgreed.v
UcDrain.v
UcNonces.v
UcSigner.v
UcChains.v
UcRpc.v
UcBuilders.v
UcFleet.v
App.v
AppAnte.v
Scenario.v
Witness.v
UcWitness.v
UcWatchWitness.v
UcTxWitness.v
EdgeWitness.v
