(* ===== verification/Prelude.v ===== *)
(** * Push Chain node: a verification library

    Push Chain is a Cosmos SDK chain with an EVM.  A set of universal validators
    watches other chains; what they agree on is executed on the EVM of Push Chain,
    and transfers out of it are signed by a threshold key (TSS) they share.  This
    library models the four modules that implement this, under [src/x/], with the
    helpers of [src/utils/], the wiring of [src/app/app.go] and the admission of
    transactions ([src/app/ante/]), and the client that every universal validator runs
    ([src/universalClient/]): its watchers, its threshold signer, the transactions it
    builds and its votes.  It proves what makes them correct.

    ** The program

    - x/uvalidator keeps the set of universal validators and the ballots.  Every
      agreement (an inbound, an outbound, a key, a migration) is a ballot with an
      electorate, a threshold and a deadline.  It also splits the block's fees.
    - x/uregistry keeps the chains and tokens the network supports, and an index
      from the PRC20 contract of a token to its row.
    - x/utss runs key generation, refresh and quorum changes, one process at a
      time, and moves the funds of a chain from a retired key to the current one.
    - x/uexecutor executes inbounds agreed on by ballot, creates and settles
      outbounds, keeps the record of every transfer (the universal transactions)
      and an oracle of gas prices and heights.

    - universalClient is the process of a universal validator beside the chain.  It
      keeps a row per event of Push Chain that needs the threshold key: a
      coordinator, by rotation, invites others to a session; what is signed is
      broadcast to its chain and followed to its end, which is voted on the chain.
      Beside that it watches each chain: a listener stores the events of the gateway
      as rows, a confirmer waits for their depth, a processor votes on them, a cleaner
      deletes what is done and an oracle votes on the price of gas and the height.
      A builder per chain makes the transaction whose hash is signed, and makes it again
      around the signature; a signer casts the votes as transactions of a hot key that
      the validator authorized; a manager starts and stops chains as the registry says.
    - The application admits votes and payloads without a fee, also from accounts that
      do not exist yet, which it opens.

    The modules interact by calls between keepers and by hooks: x/uvalidator tells x/utss
    and x/uexecutor when a validator joins or leaves (a key rotation starts, its
    oracle votes go), and x/uexecutor when a ballot ends (the audit trail moves).
    x/utss asks x/uexecutor for pending outbounds before it moves funds.

    ** How it is modelled

    Go code that can fail is in the monad [M] of this file: state passing over the
    shared store [World] (World.v), with errors and panics as values; the store is
    returned on every outcome, and [atomically] is a cache context (or a message)
    whose writes are dropped on failure.  [uint64] and [int64] wrap ([u64],
    [i64]); [big.Int] and [sdk.Dec] are [Z].  Store maps are [gmap]s and a [Walk]
    visits keys in the order of the store ([walk]).

    The client has a store of its own ([Node], UcStore.v) in the same monad.  What
    it asks of chains, peers, files, dice and the clock is a [Call], a type indexed
    by the type of the answer; a type class answers, and the node logs questions
    with answers.  Nothing is assumed of the answers unless a theorem says so.  Each
    handler and each tick of a timer runs to its end.

    Code that is not in the repository is a parameter: a type class with the
    operations the source calls and a second class with the documented laws that a
    theorem relies on (Bech32 and base58 codecs, SHA-256, staking and slashing,
    bank and distribution, decimals, the indexed map of the collections library, the
    EVM with its contracts and ABI).
    Scenario.v instantiates every class and discharges its laws.  The interfaces
    between the modules are classes too ([BallotHooks], [UValidatorHooks],
    [UtssKeeper], [UExecutorKeeper]); the modules are proved against them, and
    App.v gives the instances the application wires and proves their laws.

    ** Files

    - Prelude.v: this header, the monad, its reasoning rules and tactics ([mrun],
      [wrun], [keep], hint base [keeper]), record update, ordered maps.
    - GoStrings.v, Canonical.v: Go strings, hex, numbers; [utils/canonical.go],
      [utils/address.go], [utils/conversion.go].
    - UvTypes.v, TssTypes.v, UxTypes.v, RegTypes.v: the protobuf records and enums
      of each module and the pure methods on them; World.v: the stores and the
      interfaces.
    - UvValidator.v: [keeper/validator.go] and the validator messages; the
      lifecycle state machine.  UvBallot.v: [keeper/ballot.go],
      [keeper/voting.go]; ballots as polls.  UvMsg.v: the message server, queries,
      genesis, migration, staking hooks.  UvAbci.v: [abci.go].
    - Registry.v: x/uregistry with its index, messages, genesis, migrations.
    - Utss.v: x/utss; TssInv.v, TssVotes.v, TssOps.v, TssGenesis.v: its invariant,
      votes, runs and genesis.
    - UxKeys.v ([types/keys.go]), UxPayload.v ([types/decode_payload.go],
      [types/inbound.go]), UxEvm.v ([keeper/evm.go], [keeper/fees.go],
      [keeper/execute_payload.go], [keeper/gas_fee.go]), UxOutbound.v
      ([keeper/create_outbound.go], [keeper/evm_hooks.go], event decoding),
      UxSettle.v ([keeper/outbound.go], [keeper/msg_vote_outbound.go]),
      UxInbound.v ([keeper/inbound.go], [keeper/msg_vote_inbound.go],
      [keeper/execute_inbound*.go], [keeper/ballot_hooks.go], admin revert,
      payload messages), UxChainMeta.v ([keeper/chain_meta.go],
      [keeper/gas_price.go]): x/uexecutor.
    - UxFinality.v, UxPending.v, UxLedger.v, UxInboundSpec.v: its specifications.
    - UxMsg.v: its message server, validation and genesis; UxQuery.v: its queries
      ([keeper/query_server.go], [keeper/query_keys.go]) and migrations.
    - UcStore.v: the client's rows ([store/models.go], [tss/eventstore],
      [chains/push/event_parser.go]) and the outside world; UcChain.v:
      [chains/common] (rows and height of a chain, processor, cleaner), the oracles
      and [chains/push/event_listener.go]; UcEvm.v and UcSvm.v: parser, listener and
      confirmer of [chains/evm] and [chains/svm]; UcCoord.v: [tss/coordinator];
      UcSession.v: [tss/sessionmanager] and the routing of [tss/tss.go]; UcFlow.v:
      [tss/txflow], [tss/txbroadcaster], [tss/txresolver], [tss/expirysweeper].
    - UcEvmTx.v: [chains/evm/tx_builder.go]; UcSvmTx.v: [chains/svm/tx_builder.go] and
      [chains/svm/rent_reclaimer.go]; UcEvmTxSpec.v, UcSvmTxSpec.v, UcSvmSent.v: what is
      signed and what is sent.  UcBuilders.v: the builders as the environment of the
      threshold signer; UcFleet.v: the client over all of its chains.
    - UcSigner.v: [pushsigner], votes as transactions; UcChains.v: [chains/chains.go],
      the manager of chains with its lock; UcRpc.v: the pools of endpoints
      ([chains/evm/rpc_client.go], [chains/svm/rpc_client.go], [pushcore]).
    - UcLogic.v: what a program of the client may ask and change, as a calculus over
      the log; UcCoordSpec.v (invitations and acknowledgements), UcSessionSpec.v
      (messages), UcFlowSpec.v (votes), UcSpeak.v (the invariants that handlers and
      ticks keep), UcNonces.v (nonces), UcSettled.v (settled transfers), UcAgreed.v
      (what rows, sessions and hand-overs have to do with the events of Push Chain),
      UcDrain.v (the ticks that loop): the client's specifications.
    - UcEvmSpec.v: what the log of a deposit becomes; UcWatch.v: the invariant of a
      watcher against an interface ([Observer]: what was seen, what was confirmed);
      UcEvmWatch.v, UcSvmWatch.v: its instances, and votes; UcEvmScan.v, UcSvmScan.v:
      what a listener reaches.
    - App.v: the wiring.  AppAnte.v: [app/ante], [app/txpolicy], [app/cosmos].
    - Scenario.v: a concrete network.  Witness.v: the theorems applied on it.
      UcWitness.v: a concrete client; UcWatchWitness.v: concrete watchers;
      UcTxWitness.v: concrete transactions; EdgeWitness.v: a node, a manager of chains
      and accounts.

    ** What is proved

    - Ballots: voting refines an abstract poll; the index sets stay exact and a
      decided ballot is final; the expiry sweep is complete; recomputing a quorum
      restricts the poll to the new electorate, and can strand it.
    - Validators: every history of operations keeps the lifecycle a walk of the
      state machine; unbonding and rebonding is the identity on the status; a
      removal by the administrator is final; messages are gated; fees are
      conserved; genesis round trips.
    - Registry: when each message is accepted and which row it changes; the PRC20 index
      equals a scan; lookups ignore spelling; migrations.
    - TSS: the outcome of a key vote on every branch, unanimity, an invariant over
      all runs with append-only history, genesis.
    - Transfers: ballot keys commit to every field; a vote on an inbound or an
      outbound, on every branch; an inbound is executed at most once and a rejected
      one is refunded; an outbound is settled at most once; the pending index stays
      exact under votes, and under new outbounds exactly when their identifiers are
      fresh; the ledger only grows; the Solana payload decoder reads exactly the bytes
      that start with an encoding.
    - Oracle: votes refine a map of votes with medians that a minority cannot move.
    - The application: a fund migration waits for pending outbounds; the audit
      trail follows ballots, except for those x/utss sweeps.

    - The client: it votes that a transfer of its database failed only with evidence; a
      message moves a row only by an invitation of the validator whose turn it is, with a
      session of its own or a signature it verified; a settled transfer
      stays settled, except that an expiring session reopens it; whom the coordinator
      invites is accepted, a session starts when all acknowledged, the nonces of the
      outbounds of a poll increase; a broadcaster tick ends when the chains take its transactions, and
      spins for ever on a full batch that does not move.
    - The watchers: whatever the endpoints answer, a vote is for an event that was
      seen, in a transaction that succeeded, at the depth its kind requires; no block
      between the last start of the listener without a saved height and its cursor is
      left out, over crashes and restarts; a deposit is voted for as the inbound it stands for, under a key of its
      own; the pages of Solana reach back to the last slot.  And where they fail: the
      logs on which the parser crashes, the head that lags and confirms at once, the
      Solana transaction that could not be fetched and is lost.
    - The transactions: the hash that is signed commits to the whole outbound, on EVM
      chains and on Solana; what is sent is what was signed, which on Solana fails
      exactly when the payload names a target other than the recipient; over any run
      from an empty database the client sends an EVM chain nothing but the transactions
      of the events of Push Chain, with signatures over their own hashes that it verified
      or that its own sessions made; a migration moves the whole
      balance; the decoder of Solana payloads is exact; an unreadable Solana record
      past its deadline is voted as a failure.
    - The edges: when a vote carries the sequence number that the chain expects, though
      the account query lags, and when it counts as cast; the manager follows
      the registry, and locks itself out when a running chain is missing from it; one
      good endpoint of a pool is enough; which transactions are free, and who may open
      an account: anyone with a signature of some key.

    ** Bounds

    No fuel is needed for keeper code: loops run over finite collections.  The two
    ticks of the client that loop while their batch is full take fuel and return
    whether it was enough; safety is proved for every fuel, and one unit per 100 rows,
    and one more, is enough for the broadcaster when its rows move.  The
    loop of the EVM listener over chunks of blocks has the number of chunks as fuel,
    which is always enough; the loop of the Solana listener over pages takes fuel, and
    one page more than there are transactions is enough.  A broadcast is tried three
    times and a vote polled at most thirty times, as in the source; how many ticks come
    before the deadline is a parameter.  The byte-level helpers that
    recurse on a length ([trim_with]) take the length of their input as fuel, and
    their lemmas show that it is enough.

    ** Not modelled

    Events, logs and telemetry; gas metering; gRPC and CLI plumbing; the query
    servers of x/utss and x/uregistry, and the queries of x/uexecutor that only call
    the SDK's paginator; the deployment of the system contracts at genesis (byte
    code) is a parameter.  Of the client: the calls behind the pools of endpoints, the
    constructors of the chain clients, the network, key files, configuration and
    services; the threshold protocol is a library.  Of the application: the decorators
    of the SDK, wasm, IBC and the EVM are parameters.  [precompiles/] (signature
    verification), [cmd/] and the generated code under [api/] have no logic of
    their own to model. *)
From stdpp Require Export base gmap strings list fin_maps sorting pretty.
From Stdlib Require String Ascii.
#[global] Unset Printing Use Implicit Types.

Declare Scope push_scope.
Delimit Scope push_scope with push.
#[global] Open Scope Z_scope.
#[global] Open Scope push_scope.

(** ** Results of Go code

    A Go function returns a value, returns an error, or panics.  Errors are
    their message; a panic is not caught by [if err != nil]. *)
Abbreviation error := string (only parsing).

Inductive res (A : Type) : Type :=
| Ok (a : A)
| Err (e : error)
| Panic (e : error).
Arguments Ok {_} _.
Arguments Err {_} _.
Arguments Panic {_} _.

Definition is_ok {A} (r : res A) : bool :=
  match r with Ok _ => true | _ => false end.

#[export] Instance res_ret : MRet res := λ A a, Ok a.
#[export] Instance res_bind : MBind res := λ A B f r,
  match r with Ok a => f a | Err e => Err e | Panic e => Panic e end.
#[export] Instance res_fmap : FMap res := λ A B f r,
  match r with Ok a => Ok (f a) | Err e => Err e | Panic e => Panic e end.

(** A pointer dereferenced without a nil check, and [errors.Wrap]. *)
Definition deref_res {A} (o : option A) : res A :=
  match o with
  | Some a => Ok a
  | None => Panic "invalid memory address or nil pointer dereference"
  end.
Definition wrap_res {A} (msg : string) (r : res A) : res A :=
  match r with Err e => Err (msg +:+ ": " +:+ e) | r => r end.
Definition check (b : bool) (e : error) : res unit := if b then Ok tt else Err e.

Lemma res_bind_ok {A B} (r : res A) (f : A → res B) b :
  r ≫= f = Ok b ↔ ∃ a, r = Ok a ∧ f a = Ok b.
Proof. destruct r; cbn; naive_solver. Qed.
Lemma check_ok b e u : check b e = Ok u ↔ b = true.
Proof. by destruct b, u. Qed.
Lemma wrap_res_ok {A} msg (r : res A) a : wrap_res msg r = Ok a ↔ r = Ok a.
Proof. destruct r; cbn; naive_solver. Qed.

(** ** The keeper monad

    Keeper code reads and writes the store [W] and may stop early.  The store
    is returned on every outcome: a write made before an error stays in the
    context unless the caller discards it ([atomically]). *)
Definition M (W A : Type) : Type := W → res A * W.

#[export] Instance M_ret {W} : MRet (M W) := λ A a w, (Ok a, w).
#[export] Instance M_bind {W} : MBind (M W) := λ A B f m w,
  match m w with
  | (Ok a, w') => f a w'
  | (Err e, w') => (Err e, w')
  | (Panic e, w') => (Panic e, w')
  end.

Section combinators.
Context {W : Type}.

Definition throw {A} (e : error) : M W A := λ w, (Err e, w).
Definition panic {A} (e : error) : M W A := λ w, (Panic e, w).
Definition lift_res {A} (r : res A) : M W A := λ w, (r, w).
Definition gets {A} (f : W → A) : M W A := λ w, (Ok (f w), w).
Definition modify (f : W → W) : M W unit := λ w, (Ok tt, f w).

(** [if !b { return err }] *)
Definition require (b : bool) (e : error) : M W unit :=
  if b then mret tt else throw e.
(** a lookup that returns [err] when the key is absent *)
Definition lift_option {A} (o : option A) (e : error) : M W A :=
  match o with Some a => mret a | None => throw e end.
(** a pointer that the code dereferences without a nil check *)
Definition deref {A} (o : option A) : M W A :=
  match o with
  | Some a => mret a
  | None => panic "invalid memory address or nil pointer dereference"
  end.

(** [x, err := m()] : the error becomes a value, a panic does not *)
Definition attempt {A} (m : M W A) : M W (res A) := λ w,
  match m w with
  | (Panic e, w') => (Panic e, w')
  | (r, w') => (Ok r, w')
  end.
(** [if err := m(); err != nil { log }] : the error is swallowed and the
    writes made before it are kept *)
Definition swallow (m : M W unit) : M W unit := λ w,
  match m w with
  | (Panic e, w') => (Panic e, w')
  | (_, w') => (Ok tt, w')
  end.
(** [errors.Wrap(err, msg)] *)
Definition wrap {A} (msg : string) (m : M W A) : M W A := λ w,
  match m w with
  | (Err e, w') => (Err (msg +:+ ": " +:+ e), w')
  | r => r
  end.
(** [tmpCtx, commit := ctx.CacheContext()], with [commit()] on the success
    path only; also a whole message in [baseapp]: writes reach the store
    only when the code returns without error *)
Definition atomically {A} (m : M W A) : M W A := λ w,
  match m w with
  | (Ok a, w') => (Ok a, w')
  | (Err e, _) => (Err e, w)
  | (Panic e, _) => (Panic e, w)
  end.

(** [for _, x := range l { ... return err ... }] *)
Fixpoint for_each {A} (f : A → M W unit) (l : list A) : M W unit :=
  match l with
  | [] => mret tt
  | x :: l' => f x ;; for_each f l'
  end.
End combinators.

Arguments throw : simpl never.
Arguments panic : simpl never.
Arguments require : simpl never.
Arguments lift_option : simpl never.
Arguments deref : simpl never.
Arguments attempt : simpl never.
Arguments swallow : simpl never.
Arguments wrap : simpl never.
Arguments atomically : simpl never.

(** ** Reasoning about keeper code

    [spec m w Q]: running [m] on [w] ends in an outcome and a store that [Q]
    accepts. *)
Definition spec {W A} (m : M W A) (w : W) (Q : res A → W → Prop) : Prop :=
  let '(r, w') := m w in Q r w'.

(** [keeps I m]: [m] preserves [I], whatever its outcome. *)
Definition keeps {W A} (I : W → Prop) (m : M W A) : Prop :=
  ∀ w, I w → I (m w).2.

(** [into I J m]: [m] takes a store that [I] accepts to one that [J] accepts. *)
Definition into {W A} (I J : W → Prop) (m : M W A) : Prop := ∀ w, I w → J (m w).2.

(** [stable f m]: [m] leaves the component [f] of the store alone. *)
Definition stable {W A B} (f : W → B) (m : M W A) : Prop :=
  ∀ w, f (m w).2 = f w.

Create HintDb keeper.

Section reasoning.
Context {W : Type}.
Implicit Types (w : W) (I : W → Prop).

Lemma bind_unfold {A B} (m : M W A) (f : A → M W B) w :
  (m ≫= f) w = match m w with
               | (Ok a, w') => f a w'
               | (Err e, w') => (Err e, w')
               | (Panic e, w') => (Panic e, w')
               end.
Proof. reflexivity. Qed.

(** A run that succeeds went through every step. *)
Lemma bind_ok {A B} (m : M W A) (f : A → M W B) w b w' :
  (m ≫= f) w = (Ok b, w') ↔ ∃ a w1, m w = (Ok a, w1) ∧ f a w1 = (Ok b, w').
Proof.
  rewrite bind_unfold. destruct (m w) as [[a|e|e] w1] eqn:E; split.
  - eauto.
  - by intros (? & ? & [= -> ->] & ?).
  - done.
  - by intros (? & ? & [=] & ?).
  - done.
  - by intros (? & ? & [=] & ?).
Qed.

Lemma require_ok b e w u w' :
  require b e w = (Ok u, w') ↔ b = true ∧ u = tt ∧ w' = w.
Proof. destruct b, u; unfold require; (split; [by intros [=] | by intros (? & _ & ->)]). Qed.

Lemma lift_option_ok {A} (o : option A) e w a w' :
  lift_option o e w = (Ok a, w') ↔ o = Some a ∧ w' = w.
Proof. destruct o; (split; [by intros [=]; subst | by intros ([=] & ->); subst]). Qed.

Lemma deref_ok {A} (o : option A) w a w' :
  deref o w = (Ok a, w') ↔ o = Some a ∧ w' = w.
Proof. destruct o; (split; [by intros [=]; subst | by intros ([=] & ->); subst]). Qed.

Lemma wrap_ok {A} msg (m : M W A) w a w' :
  wrap msg m w = (Ok a, w') ↔ m w = (Ok a, w').
Proof. unfold wrap. destruct (m w) as [[]]; naive_solver. Qed.

Lemma atomically_ok {A} (m : M W A) w a w' :
  atomically m w = (Ok a, w') ↔ m w = (Ok a, w').
Proof. unfold atomically. destruct (m w) as [[]]; naive_solver. Qed.

(** Discarding the cache context: a failed run changes nothing. *)
Lemma atomically_not_ok {A} (m : M W A) w :
  is_ok (atomically m w).1 = false → (atomically m w).2 = w.
Proof. unfold atomically. by destruct (m w) as [[]]. Qed.

Lemma atomically_idemp {A} (m : M W A) w :
  atomically (atomically m) w = atomically m w.
Proof. unfold atomically. by destruct (m w) as [[]]. Qed.

(** *** [keeps] *)
Lemma keeps_ret {A} I (a : A) : keeps I (mret a : M W A).
Proof. by intros w ?. Qed.
Lemma keeps_throw {A} I e : keeps I (throw e : M W A).
Proof. by intros w ?. Qed.
Lemma keeps_panic {A} I e : keeps I (panic e : M W A).
Proof. by intros w ?. Qed.
Lemma keeps_lift_res {A} I r : keeps I (lift_res r : M W A).
Proof. by intros w ?. Qed.
Lemma keeps_gets {A} I (f : W → A) : keeps I (gets f).
Proof. by intros w ?. Qed.
Lemma keeps_require I b e : keeps I (require b e).
Proof. by destruct b; intros w ?. Qed.
Lemma keeps_lift_option {A} I (o : option A) e : keeps I (lift_option o e).
Proof. by destruct o; intros w ?. Qed.
Lemma keeps_deref {A} I (o : option A) : keeps I (deref o).
Proof. by destruct o; intros w ?. Qed.
Lemma keeps_modify I f : (∀ w, I w → I (f w)) → keeps I (modify f).
Proof. intros H w ?. by apply H. Qed.
Lemma keeps_bind {A B} I (m : M W A) (f : A → M W B) :
  keeps I m → (∀ a, keeps I (f a)) → keeps I (m ≫= f).
Proof.
  intros Hm Hf w Hw. rewrite bind_unfold. specialize (Hm w Hw).
  destruct (m w) as [[a|e|e] w']; [by apply Hf | done | done].
Qed.
Lemma keeps_attempt {A} I (m : M W A) : keeps I m → keeps I (attempt m).
Proof. intros H w Hw. specialize (H w Hw). unfold attempt. by destruct (m w) as [[]]. Qed.
Lemma keeps_swallow I (m : M W unit) : keeps I m → keeps I (swallow m).
Proof. intros H w Hw. specialize (H w Hw). unfold swallow. by destruct (m w) as [[]]. Qed.
Lemma keeps_wrap {A} I msg (m : M W A) : keeps I m → keeps I (wrap msg m).
Proof. intros H w Hw. specialize (H w Hw). unfold wrap. by destruct (m w) as [[]]. Qed.
Lemma keeps_atomically {A} I (m : M W A) : keeps I m → keeps I (atomically m).
Proof. intros H w Hw. specialize (H w Hw). unfold atomically. by destruct (m w) as [[]]. Qed.
Lemma keeps_for_each {A} I (f : A → M W unit) l :
  (∀ x, keeps I (f x)) → keeps I (for_each f l).
Proof. intros H. induction l; [apply keeps_ret | by apply keeps_bind]. Qed.
(** a loop body need only preserve the invariant on the elements it meets *)
Lemma keeps_for_each_in {A} I (f : A → M W unit) l :
  (∀ x, x ∈ l → keeps I (f x)) → keeps I (for_each f l).
Proof.
  induction l as [|x l IH]; intros H; [apply keeps_ret|].
  apply keeps_bind; [apply H; left | intros _; apply IH; intros; apply H; by right].
Qed.
Lemma keeps_mono {A} (I J : W → Prop) (m : M W A) :
  (∀ w, J w → I w) → (∀ w, J w → I w → I (m w).2 → J (m w).2) →
  keeps I m → keeps J m.
Proof. intros H1 H2 Hm w Hw. apply H2; auto. Qed.

(** *** [into] *)
Lemma into_bind {A B} (I J : W → Prop) (m : M W A) (f : A → M W B) :
  (∀ w, I w → J w) → keeps I m → (∀ a, into I J (f a)) → into I J (m ≫= f).
Proof.
  intros HIJ Hm Hf w Hw. rewrite bind_unfold. specialize (Hm w Hw).
  destruct (m w) as [[a|e|e] w1]; [by apply Hf|by apply HIJ..].
Qed.
Lemma into_then {A B} (I J : W → Prop) (m : M W A) (f : A → M W B) :
  into I J m → (∀ a, keeps J (f a)) → into I J (m ≫= f).
Proof.
  intros Hm Hf w Hw. rewrite bind_unfold. specialize (Hm w Hw). destruct (m w) as [[a|e|e] w1]; [by apply Hf|done..].
Qed.
Lemma into_wrap {A} (I J : W → Prop) msg (m : M W A) : into I J m → into I J (wrap msg m).
Proof. intros H w Hw. specialize (H w Hw). unfold wrap. by destruct (m w) as [[]]. Qed.

(** *** [stable]: a component the code does not touch *)
Lemma stable_keeps {A B} (f : W → B) (m : M W A) :
  stable f m ↔ ∀ b, keeps (λ w, f w = b) m.
Proof.
  split.
  - intros H b w <-. apply H.
  - intros H w. by apply (H (f w)).
Qed.
End reasoning.

#[export] Hint Resolve keeps_ret keeps_throw keeps_panic keeps_lift_res keeps_gets
  keeps_require keeps_lift_option keeps_deref keeps_attempt keeps_swallow
  keeps_wrap keeps_atomically keeps_for_each : keeper.

(** *** Running keeper code forward

    One equation per primitive; [mrun] rewrites with them and reduces the
    matches they expose. *)
Section run_equations.
Context {W : Type}.
Lemma ret_run {A} (a : A) (w : W) : (mret a : M W A) w = (Ok a, w).
Proof. reflexivity. Qed.
Lemma throw_run {A} e (w : W) : (throw e : M W A) w = (Err e, w).
Proof. reflexivity. Qed.
Lemma panic_run {A} e (w : W) : (panic e : M W A) w = (Panic e, w).
Proof. reflexivity. Qed.
Lemma lift_res_run {A} (r : res A) (w : W) : lift_res r w = (r, w).
Proof. reflexivity. Qed.
Lemma gets_run {A} (f : W → A) w : gets f w = (Ok (f w), w).
Proof. reflexivity. Qed.
Lemma modify_run f (w : W) : modify f w = (Ok tt, f w).
Proof. reflexivity. Qed.
Lemma require_run b e (w : W) : require b e w = (if b then Ok tt else Err e, w).
Proof. by destruct b. Qed.
Lemma lift_option_run {A} (o : option A) e (w : W) :
  lift_option o e w = (match o with Some a => Ok a | None => Err e end, w).
Proof. by destruct o. Qed.
Lemma deref_run {A} (o : option A) (w : W) : deref o w = (deref_res o, w).
Proof. by destruct o. Qed.
Lemma attempt_run {A} (m : M W A) w :
  attempt m w = match m w with (Panic e, w') => (Panic e, w') | (r, w') => (Ok r, w') end.
Proof. reflexivity. Qed.
Lemma swallow_run (m : M W unit) w :
  swallow m w = match m w with (Panic e, w') => (Panic e, w') | (_, w') => (Ok tt, w') end.
Proof. reflexivity. Qed.
Lemma wrap_run {A} msg (m : M W A) w :
  wrap msg m w = match m w with (r, w') => (wrap_res msg r, w') end.
Proof. unfold wrap. by destruct (m w) as [[]]. Qed.
(** Forms that change the outcome only. *)
Lemma swallow_state (m : M W unit) w : (swallow m w).2 = (m w).2.
Proof. unfold swallow. by destruct (m w) as [[]]. Qed.
Lemma attempt_state {A} (m : M W A) w : (attempt m w).2 = (m w).2.
Proof. unfold attempt. by destruct (m w) as [[]]. Qed.
Lemma wrap_state {A} msg (m : M W A) w : (wrap msg m w).2 = (m w).2.
Proof. rewrite wrap_run. by destruct (m w). Qed.
Lemma then_ret_state {A B} (m : M W A) (b : B) w : ((m ;; mret b) w).2 = (m w).2.
Proof. rewrite bind_unfold. by destruct (m w) as [[]]. Qed.
Lemma atomically_run {A} (m : M W A) w :
  atomically m w = match m w with
                   | (Ok a, w') => (Ok a, w')
                   | (Err e, _) => (Err e, w)
                   | (Panic e, _) => (Panic e, w)
                   end.
Proof. reflexivity. Qed.
Lemma for_each_nil_run {A} (f : A → M W unit) w : for_each f [] w = (Ok tt, w).
Proof. reflexivity. Qed.
Lemma for_each_cons_run {A} (f : A → M W unit) x l w :
  for_each f (x :: l) w = (f x ;; for_each f l) w.
Proof. reflexivity. Qed.
End run_equations.

Create Rewrite HintDb run.
#[export] Hint Rewrite @bind_unfold @ret_run @throw_run @panic_run @lift_res_run @gets_run
  @modify_run @require_run @lift_option_run @deref_run @attempt_run @swallow_run @wrap_run
  @atomically_run @for_each_nil_run @for_each_cons_run : run.
Ltac mrun := repeat (progress (autorewrite with run; cbv beta iota; cbn [wrap_res deref_res fst snd])).

(** [keep]: walk through keeper code, closing the steps the database knows and
    leaving the writes. *)
Ltac keep_step :=
  lazymatch goal with
  | |- keeps _ (_ ≫= _) => apply keeps_bind; [| intros ?]
  | |- keeps _ (mbind _ _) => apply keeps_bind; [| intros ?]
  | |- keeps _ (match ?x with _ => _ end) => destruct x eqn:?
  | |- keeps _ (attempt _) => apply keeps_attempt
  | |- keeps _ (swallow _) => apply keeps_swallow
  | |- keeps _ (wrap _ _) => apply keeps_wrap
  | |- keeps _ (atomically _) => apply keeps_atomically
  | |- keeps _ _ => solve [eauto with keeper]
  end.
Ltac keep := repeat keep_step.

(** [run H]: decompose a successful run [H] into its steps. *)
Ltac run_step H :=
  lazymatch type of H with
  | (_ ≫= _) _ = (Ok _, _) =>
      apply bind_ok in H; let H1 := fresh "Hs" in
      destruct H as (? & ? & H1 & H); run_step H1
  | require _ _ _ = (Ok _, _) => apply require_ok in H as (? & ? & ?); subst
  | lift_option _ _ _ = (Ok _, _) => apply lift_option_ok in H as (? & ?); subst
  | deref _ _ = (Ok _, _) => apply deref_ok in H as (? & ?); subst
  | wrap _ _ _ = (Ok _, _) => apply wrap_ok in H; run_step H
  | atomically _ _ = (Ok _, _) => apply atomically_ok in H; run_step H
  | gets _ _ = (Ok _, _) => injection H as <- <-
  | modify _ _ = (Ok _, _) => injection H as <- <-
  | mret _ _ = (Ok _, _) => injection H as <- <-
  | throw _ _ = (Ok _, _) => discriminate H
  | panic _ _ = (Ok _, _) => discriminate H
  | _ => idtac
  end.
Tactic Notation "run" hyp(H) := repeat (progress run_step H).

(** ** Record update

    [r <| field := v |>], for every record with an [Eta] instance. *)
Class Eta (R : Type) : Type := eta : R → R.
Class Setter {R T : Type} (proj : R → T) : Type := upd : (T → T) → R → R.
Arguments upd {R T} proj {_} _ _ /.

Ltac build_setter :=
  lazymatch goal with
  | |- @Setter ?R ?T ?proj =>
      let f := fresh "f" in
      let r := fresh "r" in
      refine (λ (f : T → T) (r : R), _);
      let t := eval hnf in (@eta R _ r) in
      let p := eval pattern (proj r) in t in
      lazymatch p with
      | ?g _ => let u := eval cbv beta in (g (f (proj r))) in exact u
      end
  end.
#[export] Hint Extern 0 (Setter _) => build_setter : typeclass_instances.

Notation "r <| p := v |>" := (upd p (λ _, v) r)
  (at level 1, left associativity, format "r  <| p  :=  v |>") : push_scope.
Notation "r <| p ::= f |>" := (upd p f r)
  (at level 1, left associativity, format "r  <| p  ::=  f |>") : push_scope.

(** ** Ordered walks over a store

    The collections framework iterates a map in the order of its keys' byte
    encoding.  [walk] and [walk_keys] list a [gmap] and a [gset] in that
    order. *)
Class KeyOrder (K : Type) := key_le : relation K.
Class KeyOrderLaws (K : Type) `{EqDecision K, Countable K, KeyOrder K,
    !RelDecision (key_le (K:=K))} : Prop := {
  key_le_trans :: Transitive (key_le (K:=K));
  key_le_total :: Total (key_le (K:=K));
  key_le_anti :: AntiSymm (=) (key_le (K:=K));
}.

#[export] Instance string_key_order : KeyOrder string := λ a b, String.leb a b = true.
#[export] Instance string_key_dec : RelDecision (key_le (K:=string)).
Proof. intros a b. unfold key_le, string_key_order. apply _. Defined.
#[export] Instance N_key_order : KeyOrder N := N.le.
#[export] Instance N_key_dec : RelDecision (key_le (K:=N)) := N.le_dec.

Lemma string_compare_trans a b c o :
  String.compare a b = o → String.compare b c = o → String.compare a c = o.
Proof.
  revert b c. induction a as [|x a IH]; intros [|y b] [|z c]; cbn; try congruence.
  unfold Ascii.compare.
  destruct (N.compare_spec (Ascii.N_of_ascii x) (Ascii.N_of_ascii y)) as [E1|E1|E1];
  destruct (N.compare_spec (Ascii.N_of_ascii y) (Ascii.N_of_ascii z)) as [E2|E2|E2];
  intros H1 H2; subst; try congruence;
  destruct (N.compare_spec (Ascii.N_of_ascii x) (Ascii.N_of_ascii z)) as [E3|E3|E3];
  try congruence; try (exfalso; lia); eauto.
Qed.

Lemma string_compare_refl a : String.compare a a = Eq.
Proof. induction a as [|x a IH]; [done|]. cbn. unfold Ascii.compare. by rewrite N.compare_refl. Qed.

#[export] Instance string_key_laws : KeyOrderLaws string.
Proof.
  split.
  - intros a b c. unfold key_le, string_key_order, String.leb.
    destruct (String.compare a b) eqn:E1, (String.compare b c) eqn:E2; try done; intros _ _.
    + by rewrite (string_compare_trans _ _ _ _ E1 E2).
    + apply String.compare_eq_iff in E1 as ->. by rewrite E2.
    + apply String.compare_eq_iff in E2 as ->. by rewrite E1.
    + by rewrite (string_compare_trans _ _ _ _ E1 E2).
  - intros a b. unfold key_le, string_key_order. apply String.leb_total.
  - intros a b. apply String.leb_antisym.
Qed.

#[export] Instance N_key_laws : KeyOrderLaws N.
Proof. split; unfold key_le, N_key_order; [intros ???; lia | intros ??; lia | intros ??; lia]. Qed.

Definition pair_le {K V} `{KeyOrder K} (p q : K * V) : Prop := key_le p.1 q.1.
#[export] Instance pair_le_dec {K V} `{KeyOrder K, !RelDecision (key_le (K:=K))} :
  RelDecision (pair_le (K:=K) (V:=V)) := λ p q, decide (key_le p.1 q.1).

Definition walk {K V} `{Countable K, KeyOrder K, !RelDecision (key_le (K:=K))}
  (m : gmap K V) : list (K * V) := merge_sort pair_le (map_to_list m).
Definition walk_values {K V} `{Countable K, KeyOrder K, !RelDecision (key_le (K:=K))}
  (m : gmap K V) : list V := (walk m).*2.
Definition walk_keys {K} `{Countable K, KeyOrder K, !RelDecision (key_le (K:=K))}
  (s : gset K) : list K := merge_sort key_le (elements s).

Section walks.
Context {K V : Type} `{Countable K, KeyOrder K, !RelDecision (key_le (K:=K))}.
Implicit Types (m : gmap K V) (s : gset K).

Lemma elem_of_walk m k v : (k, v) ∈ walk m ↔ m !! k = Some v.
Proof. unfold walk. rewrite merge_sort_Permutation. apply elem_of_map_to_list. Qed.
Lemma elem_of_walk_values m v : v ∈ walk_values m ↔ ∃ k, m !! k = Some v.
Proof.
  unfold walk_values. rewrite list_elem_of_fmap. split.
  - intros ([k v'] & -> & ?%elem_of_walk). eauto.
  - intros (k & ?%elem_of_walk). by exists (k, v).
Qed.
Lemma elem_of_walk_keys s k : k ∈ walk_keys s ↔ k ∈ s.
Proof. unfold walk_keys. rewrite merge_sort_Permutation. apply elem_of_elements. Qed.
Lemma NoDup_walk_keys s : NoDup (walk_keys s).
Proof. unfold walk_keys. rewrite merge_sort_Permutation. apply NoDup_elements. Qed.
Lemma NoDup_walk m : NoDup (walk m).
Proof. unfold walk. rewrite merge_sort_Permutation. apply NoDup_map_to_list. Qed.
Lemma NoDup_walk_fst m : NoDup (walk m).*1.
Proof. unfold walk. rewrite merge_sort_Permutation. apply NoDup_fst_map_to_list. Qed.
Lemma walk_empty : walk (∅ : gmap K V) = [].
Proof. unfold walk. by rewrite map_to_list_empty. Qed.
Lemma length_walk m : length (walk m) = size m.
Proof. unfold walk. rewrite merge_sort_Permutation. apply length_map_to_list. Qed.

(** A store is determined by its walk: writing the walked entries back into
    an empty store gives the store. *)
Lemma list_to_map_walk m : list_to_map (walk m) = m.
Proof.
  unfold walk. rewrite (list_to_map_proper _ (map_to_list m)).
  - apply list_to_map_to_list.
  - rewrite merge_sort_Permutation. apply NoDup_fst_map_to_list.
  - apply merge_sort_Permutation.
Qed.
Lemma list_to_set_walk_keys s : list_to_set (walk_keys s) = s.
Proof. apply set_eq. intros x. by rewrite elem_of_list_to_set, elem_of_walk_keys. Qed.
End walks.

(** ** Machine integers *)
Definition i64 (z : Z) : Z := (z + 2^63) mod 2^64 - 2^63.
Definition u64 (z : Z) : Z := z mod 2^64.

Lemma i64_id z : - 2^63 ≤ z < 2^63 → i64 z = z.
Proof. intros. unfold i64. rewrite Z.mod_small; lia. Qed.
Lemma u64_id z : 0 ≤ z < 2^64 → u64 z = z.
Proof. intros. unfold u64. by rewrite Z.mod_small. Qed.

(** [%d] *)
Definition fmt_d (z : Z) : string := pretty z.
(** [%t] *)
Definition fmt_t (b : bool) : string := if b then "true" else "false".

(** ** Generic list lemmas *)
Fixpoint find_index {A} (P : A → bool) (l : list A) : option nat :=
  match l with
  | [] => None
  | x :: l' => if P x then Some O else S <$> find_index P l'
  end.

Lemma find_index_Some {A} (P : A → bool) l i :
  find_index P l = Some i ↔
  ∃ x, l !! i = Some x ∧ P x = true ∧
       ∀ j y, (j < i)%nat → l !! j = Some y → P y = false.
Proof.
  revert i. induction l as [|x l IH]; intros i; cbn.
  { split; [done | by intros (? & ? & _)]. }
  destruct (P x) eqn:Px.
  - split.
    + intros [= <-]. exists x. repeat split; [done|]. intros; lia.
    + intros (y & Hy & Py & Hmin). destruct i as [|i]; [done|].
      specialize (Hmin O x ltac:(lia) eq_refl). congruence.
  - rewrite fmap_Some. split.
    + intros (j & Hj & ->). apply IH in Hj as (y & Hy & Py & Hmin).
      exists y. repeat split; [done|done|]. intros [|j'] z Hlt Hz.
      * cbn in Hz. congruence.
      * eapply Hmin; [|exact Hz]. lia.
    + intros (y & Hy & Py & Hmin). destruct i as [|i]; [cbn in Hy; congruence|].
      exists i. split; [|done]. apply IH. exists y. repeat split; [done|done|].
      intros j z ??. apply (Hmin (S j) z); [lia|done].
Qed.

Lemma find_index_None {A} (P : A → bool) l :
  find_index P l = None ↔ ∀ x, x ∈ l → P x = false.
Proof.
  induction l as [|x l IH]; cbn.
  { split; [by intros _ ? ?%elem_of_nil | done]. }
  destruct (P x) eqn:Px.
  - split; [done|]. intros Hn. rewrite (Hn x) in Px; [done|left].
  - rewrite fmap_None, IH. split.
    + intros Hn y [->|?]%elem_of_cons; auto.
    + intros Hn y ?. apply Hn. by right.
Qed.

(** The number of elements a test accepts. *)
Definition count {A} (P : A → bool) (l : list A) : Z :=
  Z.of_nat (length (List.filter P l)).

Lemma count_nil {A} (P : A → bool) : count P [] = 0.
Proof. done. Qed.
Lemma count_cons {A} (P : A → bool) x l :
  count P (x :: l) = (if P x then 1 else 0) + count P l.
Proof. unfold count. cbn. destruct (P x); cbn; lia. Qed.
Lemma count_bounds {A} (P : A → bool) l : 0 ≤ count P l ≤ Z.of_nat (length l).
Proof. induction l as [|x l IH]; [done|]. rewrite count_cons. cbn. destruct (P x); lia. Qed.
Lemma count_insert {A} (P : A → bool) l i x y :
  l !! i = Some x →
  count P (<[i:=y]> l) = count P l - (if P x then 1 else 0) + (if P y then 1 else 0).
Proof.
  revert i. induction l as [|z l IH]; intros [|i] Hi; simpl in Hi; simplify_eq.
  - change (<[0%nat:=y]> (x :: l)) with (y :: l). rewrite !count_cons. lia.
  - change (<[S i:=y]> (z :: l)) with (z :: <[i:=y]> l).
    rewrite !count_cons, (IH _ Hi). lia.
Qed.
Lemma count_replicate {A} (P : A → bool) n x :
  count P (replicate n x) = if P x then Z.of_nat n else 0.
Proof. induction n; cbn; [by destruct (P x)|]. rewrite count_cons, IHn. destruct (P x); lia. Qed.
Lemma count_disjoint {A} (P Q : A → bool) l :
  (∀ x, P x = true → Q x = false) → count P l + count Q l ≤ Z.of_nat (length l).
Proof.
  intros Hd. induction l as [|x l IH]; [done|]. rewrite !count_cons. cbn.
  destruct (P x) eqn:E; [rewrite (Hd _ E); lia | destruct (Q x); lia].
Qed.

(** Two accepted sets of positions of a list of length [n] overlap in at least
    the sum of their sizes minus [n]. *)
Lemma count_zip_overlap {A B} (P : A → bool) (Q : B → bool) (l : list A) (k : list B) :
  length l = length k →
  count P l + count Q k - Z.of_nat (length l)
    ≤ count (λ p, P p.1 && Q p.2) (zip l k).
Proof.
  revert k. induction l as [|x l IH]; intros [|y k] Hlen; try done.
  injection Hlen as Hlen. specialize (IH k Hlen).
  change (zip (x :: l) (y :: k)) with ((x, y) :: zip l k).
  rewrite !count_cons. cbn [fst snd length]. destruct (P x), (Q y); cbn [andb]; lia.
Qed.

Lemma count_ext {A} (P Q : A → bool) l :
  (∀ x, x ∈ l → P x = Q x) → count P l = count Q l.
Proof.
  induction l as [|x l IH]; intros H; [done|]. rewrite !count_cons, (H x) by left.
  rewrite IH; [done|]. intros. apply H. by right.
Qed.

Lemma count_full {A} (P : A → bool) l :
  count P l = Z.of_nat (length l) ↔ ∀ x, x ∈ l → P x = true.
Proof.
  induction l as [|x l IH].
  { split; [by intros _ ? ?%elem_of_nil | done]. }
  rewrite count_cons. pose proof (count_bounds P l). cbn [length]. split.
  - intros Hc. destruct (P x) eqn:Px; [|lia].
    intros y [->|Hy]%elem_of_cons; [done|]. apply IH; [lia|done].
  - intros Hall. rewrite (Hall x) by left.
    rewrite (proj2 IH) by (intros; apply Hall; by right). lia.
Qed.

(** Keep the elements a fallible test accepts, stopping at the first failure. *)
Fixpoint res_filter {A} (f : A → res bool) (l : list A) : res (list A) :=
  match l with
  | [] => mret []
  | x :: l' =>
      b ← f x;
      r ← res_filter f l';
      mret (if (b : bool) then x :: r else r)
  end.

Lemma res_filter_ok {A} (f : A → res bool) (g : A → bool) l :
  (∀ x, x ∈ l → f x = Ok (g x)) → res_filter f l = Ok (List.filter g l).
Proof.
  induction l as [|x l IH]; intros H; [done|]. cbn.
  rewrite (H x) by left. cbn. rewrite IH by (intros; apply H; by right). done.
Qed.

Lemma res_filter_elem {A} (f : A → res bool) l r x :
  res_filter f l = Ok r → x ∈ r ↔ x ∈ l ∧ f x = Ok true.
Proof.
  revert r. induction l as [|y l IH]; intros r; cbn.
  { intros [= <-]. split; [by intros ?%elem_of_nil | by intros [?%elem_of_nil _]]. }
  intros (b & Hb & (r' & Hr & Hret)%res_bind_ok)%res_bind_ok. injection Hret as <-.
  specialize (IH _ Hr). rewrite elem_of_cons. destruct b; rewrite ?elem_of_cons, IH.
  - split; [intros [->|[]]; auto | intros [[->|] ]; auto].
  - split; [intros []; auto | intros [[->|] ?]; [congruence | auto]].
Qed.

Lemma last_cons_default {A} (l : list A) a d : List.last (a :: l) d = List.last l a.
Proof.
  revert a d. induction l as [|b l IH]; intros a d; [done|].
  change (List.last (b :: l) d = List.last (b :: l) a). by rewrite !IH.
Qed.

(** Writing a list of entries one by one. *)
Section writes.
Context {K V : Type} `{Countable K}.
Lemma filter_perm {A} (P : A → bool) l k : l ≡ₚ k → List.filter P l ≡ₚ List.filter P k.
Proof.
  induction 1 as [|x l k _ IH|x y l|l k j _ IH1 _ IH2]; cbn; [done|..].
  - destruct (P x); [by f_equiv|done].
  - destruct (P x), (P y); try done. apply Permutation_swap.
  - by rewrite IH1.
Qed.
Lemma foldl_insert (l : list (K * V)) (m : gmap K V) :
  NoDup l.*1 → foldl (λ m kv, <[ kv.1 := kv.2 ]> m) m l = list_to_map l ∪ m.
Proof.
  revert m. induction l as [|[k v] l IH]; intros m Hnd; cbn.
  { by rewrite map_empty_union. }
  cbn in Hnd. apply NoDup_cons in Hnd as [Hk Hnd]. rewrite IH by done.
  rewrite <- insert_union_r by (by apply not_elem_of_list_to_map_1). by rewrite insert_union_l.
Qed.
Lemma foldl_union (l : list K) (X : gset K) :
  foldl (λ X x, {[ x ]} ∪ X) X l = list_to_set l ∪ X.
Proof. revert X. induction l as [|x l IH]; intros X; cbn; [set_solver|]. rewrite IH. set_solver. Qed.
End writes.

(** [sort.Slice]: a sorted permutation, in any order among equal elements. *)
Class SortSlice : Type := sort_Slice : ∀ {A}, (A → A → bool) → list A → list A.
Class SortSliceLaws `{SortSlice} : Prop := {
  sort_Slice_perm {A} less (l : list A) : sort_Slice less l ≡ₚ l;
  sort_Slice_sorted {A} (key : A → Z) less l :
    (∀ a b, less a b = bool_decide (key a < key b)) → StronglySorted (λ a b, key a ≤ key b) (sort_Slice less l);
}.
