(* ===== verification/GoStrings.v ===== *)
(** * The parts of Go's [strings], [encoding/hex] and [math/big] the sources use

    A Go string is a sequence of bytes; it is modelled by [string], and the
    functions that scan it work on its list of bytes. *)
From S2P Require Import Prelude.
From Stdlib Require Import Ascii.
From Stdlib Require String.
#[local] Open Scope list_scope.

Abbreviation bytes := (list ascii) (only parsing).
Definition to_bytes (s : string) : bytes := String.list_ascii_of_string s.
Definition of_bytes (l : bytes) : string := String.string_of_list_ascii l.

Lemma of_to_bytes s : of_bytes (to_bytes s) = s.
Proof. apply String.string_of_list_ascii_of_string. Qed.
Lemma to_of_bytes l : to_bytes (of_bytes l) = l.
Proof. apply String.list_ascii_of_string_of_list_ascii. Qed.
Lemma to_bytes_inj s t : to_bytes s = to_bytes t → s = t.
Proof. intros H. by rewrite <- (of_to_bytes s), <- (of_to_bytes t), H. Qed.
Lemma to_bytes_app s t : to_bytes (s +:+ t) = to_bytes s ++ to_bytes t.
Proof. unfold to_bytes. induction s as [|c s IH]; [done|]. change (String c s +:+ t) with (String c (s +:+ t)). cbn. by rewrite IH. Qed.

#[global] Instance ascii_eq_dec : EqDecision ascii := ascii_dec.

(** ** [strings.TrimSpace]

    Unicode white space, as the UTF-8 encodings of its code points: U+0009 to
    U+000D, U+0020, U+0085, U+00A0, U+1680, U+2000 to U+200A, U+2028, U+2029,
    U+202F, U+205F, U+3000. *)
Definition space_codes : list (list nat) :=
  ((λ c, [c]) <$> [9; 10; 11; 12; 13; 32]%nat)
  ++ [[194; 133]; [194; 160]; [225; 154; 128]]%nat
  ++ ((λ c, [226; 128; c]%nat) <$> [128; 129; 130; 131; 132; 133; 134; 135; 136; 137; 138; 168; 169; 175]%nat)
  ++ [[226; 129; 159]; [227; 128; 128]]%nat.
Definition spaces : list bytes := Eval vm_compute in map (map ascii_of_nat) space_codes.

Definition strip_any (ps : list bytes) (l : bytes) : option bytes :=
  list_find (λ p, p `prefix_of` l) ps ≫= λ '(_, p), Some (drop (length p) l).

Fixpoint trim_with (fuel : nat) (ps : list bytes) (l : bytes) : bytes :=
  match fuel with
  | O => l
  | S fuel => match strip_any ps l with Some l' => trim_with fuel ps l' | None => l end
  end.

Definition trim_left (ps : list bytes) (l : bytes) : bytes := trim_with (length l) ps l.
Definition trim_right (ps : list bytes) (l : bytes) : bytes :=
  rev (trim_left (map (@rev ascii) ps) (rev l)).

Definition TrimSpace (s : string) : string :=
  of_bytes (trim_right spaces (trim_left spaces (to_bytes s))).

Definition nonempty (ps : list bytes) : Prop := Forall (λ p, p ≠ []) ps.

Lemma strip_any_None ps l : strip_any ps l = None ↔ ∀ p, p ∈ ps → ¬ p `prefix_of` l.
Proof.
  unfold strip_any. destruct (list_find _ ps) as [[i p]|] eqn:E; cbn.
  - split; [done|]. intros H. apply list_find_Some in E as (Hp & Hpre & _).
    exfalso. eapply H; [|done]. by eapply list_elem_of_lookup_2.
  - apply list_find_None in E. rewrite Forall_forall in E. naive_solver.
Qed.

Lemma strip_any_Some ps l l' :
  nonempty ps → strip_any ps l = Some l' →
  (∃ k, l' = drop k l ∧ (0 < k)%nat) ∧ (length l' < length l)%nat.
Proof.
  unfold strip_any. intros Hne. destruct (list_find _ ps) as [[i p]|] eqn:E; [|done].
  apply list_find_Some in E as (Hp & Hpre & _). intros [= <-].
  assert (p ≠ []) as Hp0.
  { apply list_elem_of_lookup_2 in Hp. unfold nonempty in Hne. rewrite Forall_forall in Hne. auto. }
  destruct p as [|c p]; [done|]. apply prefix_length in Hpre. cbn in Hpre.
  split; [exists (length (c :: p)); cbn; split; [done|lia]|]. rewrite length_drop. cbn. lia.
Qed.

(** Trimming with enough fuel ends at a list no pattern prefixes. *)
Lemma trim_with_done ps n l :
  nonempty ps → (length l ≤ n)%nat → strip_any ps (trim_with n ps l) = None.
Proof.
  intros Hne. revert l. induction n as [|n IH]; intros l Hn; cbn.
  - destruct l; [|cbn in Hn; lia]. apply strip_any_None. intros p Hp Hpre.
    apply prefix_nil_inv in Hpre. unfold nonempty in Hne. rewrite Forall_forall in Hne. naive_solver.
  - destruct (strip_any ps l) as [l'|] eqn:E; [|done].
    apply IH. apply strip_any_Some in E as [_ ?]; [|done]. lia.
Qed.

Lemma trim_left_done ps l : nonempty ps → strip_any ps (trim_left ps l) = None.
Proof. intros. by apply trim_with_done. Qed.

Lemma trim_with_fix n ps l : strip_any ps l = None → trim_with n ps l = l.
Proof. destruct n; cbn; [done|]. by intros ->. Qed.

Lemma trim_left_fix ps l : strip_any ps l = None → trim_left ps l = l.
Proof. apply trim_with_fix. Qed.

Lemma trim_with_suffix n ps l : ∃ k, trim_with n ps l = drop k l.
Proof.
  revert l. induction n as [|n IH]; intros l; cbn; [by exists O|].
  unfold strip_any. destruct (list_find _ ps) as [[i p]|]; cbn; [|by exists O].
  destruct (IH (drop (length p) l)) as [k ->]. rewrite drop_drop. eauto.
Qed.

Lemma trim_right_prefix ps l : trim_right ps l `prefix_of` l.
Proof.
  unfold trim_right, trim_left. destruct (trim_with_suffix (length (rev l)) (map (@rev ascii) ps) (rev l)) as [k ->].
  rewrite <- (rev_involutive l) at 2. exists (rev (take k (rev l))).
  by rewrite <- rev_app_distr, take_drop.
Qed.

Lemma trim_right_left_done ps l :
  nonempty ps → strip_any ps l = None → strip_any ps (trim_right ps l) = None.
Proof.
  intros Hne. rewrite !strip_any_None. intros H p Hp Hpre. apply (H p Hp).
  etrans; [exact Hpre | apply trim_right_prefix].
Qed.

Lemma trim_right_idemp ps l :
  nonempty ps → trim_right ps (trim_right ps l) = trim_right ps l.
Proof.
  intros Hne. unfold trim_right. rewrite rev_involutive. f_equal.
  apply trim_with_fix, trim_left_done. unfold nonempty in *.
  apply List.Forall_map. eapply Forall_impl; [exact Hne|]. intros p Hp Hr. apply Hp.
  cbn in Hr. by rewrite <- (rev_involutive p), Hr.
Qed.

Lemma spaces_nonempty : nonempty spaces.
Proof. unfold nonempty, spaces. repeat constructor; discriminate. Qed.

Lemma TrimSpace_idemp s : TrimSpace (TrimSpace s) = TrimSpace s.
Proof.
  unfold TrimSpace. rewrite to_of_bytes. f_equal.
  rewrite (trim_left_fix spaces (trim_right spaces _)).
  - apply trim_right_idemp, spaces_nonempty.
  - apply trim_right_left_done; [apply spaces_nonempty | apply trim_left_done, spaces_nonempty].
Qed.

(** ** Hexadecimal strings *)
Definition hexval (c : ascii) : option Z :=
  let n := Z.of_nat (nat_of_ascii c) in
  if decide (48 ≤ n ≤ 57) then Some (n - 48)
  else if decide (97 ≤ n ≤ 102) then Some (n - 87)
  else if decide (65 ≤ n ≤ 70) then Some (n - 55)
  else None.
(** [encoding/hex.DecodeString]: [None] on an odd length or a foreign byte. *)
Fixpoint hex_decode (l : bytes) : option (list Z) :=
  match l with
  | [] => Some []
  | a :: b :: l' =>
      x ← hexval a; y ← hexval b; r ← hex_decode l'; Some (16 * x + y :: r)
  | _ => None
  end.
(** [strings.ToLower] on ASCII bytes, the only ones it is applied to. *)
Definition lower (c : ascii) : ascii :=
  let n := nat_of_ascii c in
  if decide (65 ≤ n ≤ 90)%nat then ascii_of_nat (n + 32) else c.
Definition ToLower (s : string) : string := of_bytes (lower <$> to_bytes s).
(** [encoding/hex.EncodeToString] of bytes given as numbers *)
Definition hexdigit (z : Z) : ascii :=
  ascii_of_nat (Z.to_nat (if decide (z < 10) then 48 + z else 87 + z)).
Definition hex_encode (l : list Z) : bytes :=
  mjoin ((λ z, [hexdigit (z / 16); hexdigit (z mod 16)]) <$> l).

Definition all_ascii : list ascii := ascii_of_nat <$> seq 0 256.
Lemma all_ascii_elem c : c ∈ all_ascii.
Proof.
  unfold all_ascii. apply list_elem_of_fmap. exists (nat_of_ascii c).
  split; [by rewrite ascii_nat_embedding|]. apply elem_of_seq. pose proof (nat_ascii_bounded c). lia.
Qed.
(** A statement about every byte is checked byte by byte. *)
Lemma ascii_forall (P : ascii → bool) : forallb P all_ascii = true → ∀ c, P c = true.
Proof.
  intros H c. eapply (proj1 (forallb_forall P all_ascii)); [done|].
  apply list_elem_of_In, all_ascii_elem.
Qed.

Lemma hexval_lower c : hexval (lower c) = hexval c.
Proof.
  apply (bool_decide_unpack _). 
  apply Is_true_true. revert c. apply ascii_forall. vm_compute. reflexivity.
Qed.
Lemma lower_idemp c : lower (lower c) = lower c.
Proof.
  apply (bool_decide_unpack _).
  apply Is_true_true. revert c. apply ascii_forall. vm_compute. reflexivity.
Qed.
(** A lower-case digit is the digit of its value. *)
Lemma lower_hexdigit c x : hexval c = Some x → lower c = hexdigit x ∧ 0 ≤ x < 16.
Proof.
  intros Hx.
  assert (match hexval c with
          | Some x => bool_decide (lower c = hexdigit x ∧ 0 ≤ x < 16) | None => true end = true) as Hc.
  { clear Hx. revert c. apply (ascii_forall (λ c, match hexval c with
          | Some x => bool_decide (lower c = hexdigit x ∧ 0 ≤ x < 16) | None => true end)). vm_compute. reflexivity. }
  rewrite Hx in Hc. by apply bool_decide_eq_true in Hc.
Qed.

(** The lower-case form of a hex string depends on the bytes it denotes only. *)
Lemma hex_decode_lower l : hex_decode (lower <$> l) = hex_decode l.
Proof.
  revert l. fix IH 1. intros [|a [|b l]]; [done..|]. cbn. rewrite !hexval_lower, IH. done.
Qed.
Lemma hex_decode_encode l r :
  hex_decode l = Some r → lower <$> l = hex_encode r.
Proof.
  revert l r. fix IH 1. intros [|a [|b l]] r; cbn; [by intros [= <-]|done|].
  destruct (hexval a) as [x|] eqn:Ha; [|done]. destruct (hexval b) as [y|] eqn:Hb; [|done]. cbn.
  destruct (hex_decode l) as [r'|] eqn:Hl; [|done]. cbn. intros [= <-].
  apply lower_hexdigit in Ha as [-> Hx], Hb as [-> Hy].
  unfold hex_encode. cbn -[Z.mul Z.div Z.modulo].
  replace ((16 * x + y) / 16) with x by (apply (Z.div_unique _ _ _ y); lia).
  replace ((16 * x + y) mod 16) with y by (apply (Z.mod_unique _ _ x); lia).
  by rewrite (IH l r' Hl).
Qed.

(** ** [math/big]

    [new(big.Int).SetString(s, 10)]: an optional sign and decimal digits. *)
Definition digit (c : ascii) : option Z :=
  let n := Z.of_nat (nat_of_ascii c) - 48 in if decide (0 ≤ n < 10) then Some n else None.
Fixpoint digits (acc : Z) (l : bytes) : option Z :=
  match l with
  | [] => Some acc
  | c :: l' => d ← digit c; digits (10 * acc + d) l'
  end.
Definition big_SetString (s : string) : option Z :=
  let num l := match l with [] => None | _ => digits 0 l end in
  match to_bytes s with
  | c :: l => if decide (c = "-"%char) then Z.opp <$> num l
              else if decide (c = "+"%char) then num l else num (c :: l)
  | [] => None
  end.
(** [utils.StringToBigInt]: [nil] when the string is not a number. *)
Definition StringToBigInt (s : string) : option Z := big_SetString s.

(** ** [time.Duration.Seconds]

    Two [float64] operations, rounded to nearest even, truncated by the
    conversion to [int64]. A float is its mantissa and exponent. *)
Definition round_half_even (n d : Z) : Z :=
  let q := n / d in let r := n mod d in
  if decide (2 * r < d) then q else if decide (d < 2 * r) then q + 1
  else if Z.even q then q else q + 1.
Definition float64 (n d : Z) : Z * Z :=
  if decide (n = 0) then (0, 0)
  else
    let scaled e := if decide (0 ≤ e) then (n, d * 2 ^ e) else (n * 2 ^ (- e), d) in
    let e := Z.log2 n - Z.log2 d - 52 in
    let e := if decide ((scaled e).1 < 2 ^ 52 * (scaled e).2) then e - 1 else e in
    (round_half_even (scaled e).1 (scaled e).2, e).
Definition float_trunc (f : Z * Z) : Z := if decide (0 ≤ f.2) then f.1 * 2 ^ f.2 else f.1 / 2 ^ (- f.2).
Definition Duration_Seconds (d : Z) : Z :=        (* of a non-negative duration, in nanoseconds *)
  let sec := d / 1000000000 in
  let frac := float64 (d mod 1000000000) 1000000000 in
  let '(m, e) := frac in
  float_trunc (if decide (0 ≤ e) then float64 (sec + m * 2 ^ e) 1
               else float64 (sec * 2 ^ (- e) + m) (2 ^ (- e))).

Example Duration_Seconds_exact : Duration_Seconds 600000000000 = 600.
Proof. vm_compute. reflexivity. Qed.
Example Duration_Seconds_rounds : Duration_Seconds 8000000000999999999 = 8000000001.
Proof. vm_compute. reflexivity. Qed.

(** A printed number reads back. *)
Example big_SetString_signed : big_SetString "-0042" = Some (-42) ∧ big_SetString "" = None ∧ big_SetString "1_0" = None.
Proof. vm_compute. done. Qed.
