(* ===== verification/UvTypes.v ===== *)
(** * x/uvalidator/types: ballots, universal validators and their checks

    [Ballot] models [types/ballot.go], [UV] the validator records of
    [validator.proto] with the [ValidateBasic] methods of [types/*.go].  Ballots
    are data of the keeper (file UvBallot); this file holds what can be said of
    one ballot alone. *)
From S2P Require Import Prelude GoStrings.

(** ** Ballots *)
Module Ballot.

Inductive BallotStatus :=
| BALLOT_STATUS_UNSPECIFIED
| BALLOT_STATUS_PENDING
| BALLOT_STATUS_PASSED
| BALLOT_STATUS_REJECTED
| BALLOT_STATUS_EXPIRED.
#[global] Instance BallotStatus_eq_dec : EqDecision BallotStatus.
Proof. solve_decision. Defined.

Inductive BallotObservationType :=
| BALLOT_OBSERVATION_TYPE_UNSPECIFIED
| BALLOT_OBSERVATION_TYPE_INBOUND_TX
| BALLOT_OBSERVATION_TYPE_OUTBOUND_TX
| BALLOT_OBSERVATION_TYPE_TSS_KEY
| BALLOT_OBSERVATION_TYPE_FUND_MIGRATION.
#[global] Instance BallotObservationType_eq_dec : EqDecision BallotObservationType.
Proof. solve_decision. Defined.

Inductive VoteResult :=
| VOTE_RESULT_NOT_YET_VOTED
| VOTE_RESULT_SUCCESS
| VOTE_RESULT_FAILURE.
#[global] Instance VoteResult_eq_dec : EqDecision VoteResult.
Proof. solve_decision. Defined.

Record Ballot := mkBallot {
  Id : string;
  BallotType : BallotObservationType;
  EligibleVoters : list string;
  Votes : list VoteResult;            (* parallel to EligibleVoters *)
  VotingThreshold : Z;                (* int64 *)
  Status : BallotStatus;
  BlockHeightCreated : Z;             (* int64 *)
  BlockHeightExpiry : Z               (* int64 *)
}.
#[global] Instance Ballot_eta : Eta Ballot := λ b,
  mkBallot (Id b) (BallotType b) (EligibleVoters b) (Votes b) (VotingThreshold b)
    (Status b) (BlockHeightCreated b) (BlockHeightExpiry b).
#[global] Instance Ballot_eq_dec : EqDecision Ballot.
Proof. solve_decision. Defined.

(** [-1] when the address is absent is [None]. *)
Definition GetVoterIndex (b : Ballot) (address : string) : option nat :=
  find_index (λ addr, bool_decide (addr = address)) (EligibleVoters b).

(** The index into [Votes] is not bounds-checked by the code. *)
Definition HasVoted (b : Ballot) (address : string) : res bool :=
  match GetVoterIndex b address with
  | None => Ok false
  | Some idx =>
      match Votes b !! idx with
      | Some v => Ok (bool_decide (v ≠ VOTE_RESULT_NOT_YET_VOTED))
      | None => Panic "index out of range"
      end
  end.

Definition AddVote (b : Ballot) (address : string) (vote : VoteResult) : res Ballot :=
  if decide (Status b ≠ BALLOT_STATUS_PENDING)
  then Err ("cannot vote on ballot " +:+ Id b +:+ ": not pending")
  else match GetVoterIndex b address with
       | None => Err ("voter " +:+ address +:+ " not eligible")
       | Some idx =>
           voted ← HasVoted b address;
           if (voted : bool) then Err ("voter " +:+ address +:+ " already voted")
           else Ok (b <| Votes := <[idx := vote]> (Votes b) |>)
       end.

Definition is_yes (v : VoteResult) : bool := bool_decide (v = VOTE_RESULT_SUCCESS).
Definition is_no (v : VoteResult) : bool := bool_decide (v = VOTE_RESULT_FAILURE).

Definition CountVotes (b : Ballot) : Z * Z :=
  (count is_yes (Votes b), count is_no (Votes b)).

Definition InitEmptyVotes (b : Ballot) : Ballot :=
  b <| Votes := replicate (length (EligibleVoters b)) VOTE_RESULT_NOT_YET_VOTED |>.

Definition IsExpired (b : Ballot) (currentHeight : Z) : bool :=
  bool_decide (BlockHeightExpiry b ≤ currentHeight).

Definition IsFinalized (b : Ballot) : bool :=
  bool_decide (Status b = BALLOT_STATUS_PASSED) || bool_decide (Status b = BALLOT_STATUS_REJECTED).

Definition ShouldPass (b : Ballot) : bool :=
  let '(yesVotes, _) := CountVotes b in bool_decide (VotingThreshold b ≤ yesVotes).

Definition ShouldReject (b : Ballot) : bool :=
  let '(_, noVotes) := CountVotes b in
  let potentialYesVotes := Z.of_nat (length (EligibleVoters b)) - noVotes in
  bool_decide (potentialYesVotes < VotingThreshold b).

Definition NewBallot (id : string) (ballotType : BallotObservationType)
    (voters : list string) (votesNeeded createdHeight expiryAfterBlocks : Z) : Ballot :=
  InitEmptyVotes {|
    Id := id; BallotType := ballotType; EligibleVoters := voters; Votes := [];
    VotingThreshold := votesNeeded; Status := BALLOT_STATUS_PENDING;
    BlockHeightCreated := createdHeight;
    BlockHeightExpiry := i64 (createdHeight + expiryAfterBlocks) |}.

Definition RemainingTime (b : Ballot) (currentHeight : Z) : Z :=
  if IsExpired b currentHeight then 0 else i64 (BlockHeightExpiry b - currentHeight).

Definition Age (b : Ballot) (currentHeight : Z) : Z :=
  i64 (currentHeight - BlockHeightCreated b).

Definition IsFinalizingVote (b : Ballot) : Ballot * bool :=
  if decide (Status b ≠ BALLOT_STATUS_PENDING) then (b, false)
  else
    let yesVotes := count is_yes (Votes b) in
    let noVotes := count is_no (Votes b) in
    if decide (VotingThreshold b ≤ yesVotes) then (b <| Status := BALLOT_STATUS_PASSED |>, true)
    else if decide (VotingThreshold b ≤ noVotes) then (b <| Status := BALLOT_STATUS_REJECTED |>, true)
    else (b, false).

(** *** Facts about one ballot *)

(** The two parallel arrays have one slot per eligible voter. *)
Definition wf (b : Ballot) : Prop := length (Votes b) = length (EligibleVoters b).

Definition terminal (s : BallotStatus) : Prop :=
  s = BALLOT_STATUS_PASSED ∨ s = BALLOT_STATUS_REJECTED ∨ s = BALLOT_STATUS_EXPIRED.
#[global] Instance terminal_dec s : Decision (terminal s).
Proof. unfold terminal. apply _. Defined.

(** The vote a voter has on record: [None] when it is not eligible. *)
Definition vote_of (b : Ballot) (address : string) : option VoteResult :=
  GetVoterIndex b address ≫= λ i, Votes b !! i.

Definition voted (b : Ballot) (address : string) : Prop :=
  match vote_of b address with
  | Some v => v ≠ VOTE_RESULT_NOT_YET_VOTED
  | None => False
  end.
#[global] Instance voted_dec b a : Decision (voted b a).
Proof. unfold voted. destruct (vote_of b a); apply _. Defined.

Lemma GetVoterIndex_Some b a i :
  GetVoterIndex b a = Some i →
  EligibleVoters b !! i = Some a ∧ (i < length (EligibleVoters b))%nat.
Proof.
  intros (x & Hx & Hp%bool_decide_eq_true & _)%find_index_Some. subst.
  split; [done|]. by eapply lookup_lt_Some.
Qed.

Lemma GetVoterIndex_None b a : GetVoterIndex b a = None ↔ a ∉ EligibleVoters b.
Proof.
  unfold GetVoterIndex. rewrite find_index_None. split.
  - intros H Hin. specialize (H a Hin). by apply bool_decide_eq_false in H.
  - intros H x Hin. apply bool_decide_eq_false. by intros ->.
Qed.

(** On a well-formed ballot no vote lookup can go out of range. *)
Lemma wf_vote_of b a i :
  wf b → GetVoterIndex b a = Some i → ∃ v, Votes b !! i = Some v ∧ vote_of b a = Some v.
Proof.
  intros Hwf Hi. destruct (GetVoterIndex_Some _ _ _ Hi) as [_ Hlt].
  destruct (lookup_lt_is_Some_2 (Votes b) i) as [v Hv]; [by rewrite Hwf|].
  exists v. split; [done|]. unfold vote_of. by rewrite Hi.
Qed.

Lemma HasVoted_wf b a :
  wf b → HasVoted b a = Ok (bool_decide (voted b a)).
Proof.
  intros Hwf. unfold HasVoted. destruct (GetVoterIndex b a) as [i|] eqn:Hi.
  - destruct (wf_vote_of b a i Hwf Hi) as (v & -> & Hv). f_equal.
    apply bool_decide_ext. unfold voted. by rewrite Hv.
  - f_equal. symmetry. apply bool_decide_eq_false. unfold voted, vote_of. rewrite Hi. by intros ?.
Qed.

Lemma vote_of_update b i a v :
  wf b → GetVoterIndex b a = Some i →
  let b' := b <| Votes := <[i := v]> (Votes b) |> in
  wf b' ∧ vote_of b' a = Some v ∧ (∀ a', a' ≠ a → vote_of b' a' = vote_of b a').
Proof.
  intros Hwf Hi b'. destruct (GetVoterIndex_Some _ _ _ Hi) as [Ha Hlt].
  assert (∀ x, GetVoterIndex b' x = GetVoterIndex b x) as Hidx by done.
  repeat split.
  - unfold wf. cbn. by rewrite length_insert.
  - unfold vote_of. rewrite Hidx, Hi. cbn.
    apply list_lookup_insert_eq. by rewrite Hwf.
  - intros a' Hne. unfold vote_of. rewrite Hidx.
    destruct (GetVoterIndex b a') as [j|] eqn:Hj; [|done]. cbn.
    apply list_lookup_insert_ne. intros ->.
    apply GetVoterIndex_Some in Hj as [Ha' _]. congruence.
Qed.

(** Adding a vote, on every branch: it is recorded exactly when the ballot is
    pending, the voter is eligible and has no vote yet; it changes that
    voter's slot and nothing else; no input makes it panic. *)
Lemma AddVote_spec b a v :
  wf b →
  match AddVote b a v with
  | Ok b' =>
      (Status b = BALLOT_STATUS_PENDING ∧ a ∈ EligibleVoters b ∧ ¬ voted b a) ∧
      b' = b <| Votes := Votes b' |> ∧ wf b' ∧ vote_of b' a = Some v ∧
      (∀ a', a' ≠ a → vote_of b' a' = vote_of b a')
  | Err _ => Status b ≠ BALLOT_STATUS_PENDING ∨ a ∉ EligibleVoters b ∨ voted b a
  | Panic _ => False
  end.
Proof.
  intros Hwf. unfold AddVote. case_decide as Hs; [by left|].
  destruct (GetVoterIndex b a) as [i|] eqn:Hi; [|right; left; by apply GetVoterIndex_None].
  rewrite (HasVoted_wf b a Hwf). cbn. case_bool_decide as Hv; [by right; right|].
  destruct (vote_of_update b i a v Hwf Hi) as (? & ? & ?). repeat split; try done.
  apply GetVoterIndex_Some in Hi as [Hi _]. by eapply list_elem_of_lookup_2.
Qed.

(** The vote moves the tally by one, on its side only. *)
Lemma AddVote_count b a v b' :
  wf b → AddVote b a v = Ok b' →
  count is_yes (Votes b') = count is_yes (Votes b) + (if is_yes v then 1 else 0) ∧
  count is_no (Votes b') = count is_no (Votes b) + (if is_no v then 1 else 0).
Proof.
  intros Hwf. unfold AddVote. case_decide as Hs; [done|].
  destruct (GetVoterIndex b a) as [i|] eqn:Hi; [|done].
  rewrite (HasVoted_wf b a Hwf). cbn. case_bool_decide as Hv; [done|]. intros [= <-]. cbn.
  destruct (wf_vote_of b a i Hwf Hi) as (u & Hu & Hvo).
  unfold voted in Hv. rewrite Hvo in Hv. apply dec_stable in Hv as ->.
  rewrite !(count_insert _ _ _ _ v Hu).
  change (is_yes VOTE_RESULT_NOT_YET_VOTED) with false.
  change (is_no VOTE_RESULT_NOT_YET_VOTED) with false. destruct (is_yes v), (is_no v); lia.
Qed.

Lemma NewBallot_wf id ty vs n h e : wf (NewBallot id ty vs n h e).
Proof. unfold wf. cbn. apply length_replicate. Qed.

Lemma NewBallot_no_votes id ty vs n h e a : ¬ voted (NewBallot id ty vs n h e) a.
Proof.
  unfold voted, vote_of. destruct (GetVoterIndex _ a) as [i|] eqn:Hi; cbn; [|by intros ?].
  destruct (_ !! i) eqn:Hl; [|by intros ?]. apply lookup_replicate in Hl as [-> _]. by intros ?.
Qed.

(** When a vote finalizes, and how. *)
Lemma IsFinalizingVote_spec b b' fin :
  IsFinalizingVote b = (b', fin) →
  (fin = true ↔ Status b = BALLOT_STATUS_PENDING ∧
     (VotingThreshold b ≤ count is_yes (Votes b) ∨ VotingThreshold b ≤ count is_no (Votes b))) ∧
  b' = b <| Status := Status b' |> ∧
  (fin = true → Status b' = if decide (VotingThreshold b ≤ count is_yes (Votes b))
                            then BALLOT_STATUS_PASSED else BALLOT_STATUS_REJECTED) ∧
  (fin = false → b' = b).
Proof.
  unfold IsFinalizingVote. destruct b as [i ty vs votes thr st cr ex]. cbn.
  repeat case_decide; intros [= <- <-]; cbn; naive_solver.
Qed.

(** *** Quorums *)

(** [(2 * n) / 3 + 1], the threshold used for inbound, outbound and fund
    migration ballots and by [RecomputeBallotQuorum]. *)
Definition quorum (n : Z) : Z := Z.quot (2 * n) 3 + 1.

Lemma quorum_bounds n : 0 ≤ n → 2 * n < 3 * quorum n ≤ 2 * n + 3.
Proof.
  intros. unfold quorum. rewrite Z.quot_div_nonneg by lia.
  pose proof (Z.div_mod (2 * n) 3). pose proof (Z.mod_pos_bound (2 * n) 3). lia.
Qed.

Lemma quorum_reachable n : 0 < n → 0 < quorum n ≤ n.
Proof.
  intros. unfold quorum. rewrite Z.quot_div_nonneg by lia.
  pose proof (Z.div_mod (2 * n) 3). pose proof (Z.mod_pos_bound (2 * n) 3). lia.
Qed.

(** No ballot can satisfy both the pass and the reject rule at quorum. *)
Lemma quorum_exclusive b :
  wf b → VotingThreshold b = quorum (Z.of_nat (length (EligibleVoters b))) →
  ¬ (VotingThreshold b ≤ count is_yes (Votes b) ∧ VotingThreshold b ≤ count is_no (Votes b)).
Proof.
  intros Hwf Ht [Hy Hn]. rewrite Ht in *.
  pose proof (quorum_bounds (Z.of_nat (length (EligibleVoters b))) ltac:(lia)).
  assert (count is_yes (Votes b) + count is_no (Votes b) ≤ Z.of_nat (length (Votes b))) as Hd.
  { apply count_disjoint. by intros x ->%bool_decide_eq_true. }
  rewrite Hwf in Hd. lia.
Qed.

(** Ballots over the same voters whose tallies both reach the quorum share
    more than a third of the voters. *)
Lemma quorum_intersection b1 b2 :
  wf b1 → wf b2 → EligibleVoters b1 = EligibleVoters b2 →
  let n := Z.of_nat (length (EligibleVoters b1)) in
  quorum n ≤ count is_yes (Votes b1) → quorum n ≤ count is_yes (Votes b2) →
  n < 3 * count (λ p, is_yes p.1 && is_yes p.2) (zip (Votes b1) (Votes b2)).
Proof.
  intros Hw1 Hw2 Heq n H1 H2. unfold wf in *.
  pose proof (quorum_bounds n ltac:(lia)).
  pose proof (count_zip_overlap is_yes is_yes (Votes b1) (Votes b2)) as Ho.
  rewrite Hw1, Hw2, Heq in Ho. specialize (Ho eq_refl). subst n. rewrite Heq in *. lia.
Qed.
End Ballot.

(** ** Universal validators *)

(** Bech32 codecs of the SDK, a parameter of the development.  An account and a
    validator operator address are the same bytes under two prefixes. *)
Class Bech32 : Type := {
  AccAddressFromBech32 : string → res string;
  ValAddressFromBech32 : string → res string;
  ValAddress_String : string → string;
}.
(** Documented behaviour of the codec: printing a non-empty operator address
    and parsing it gives the address back. *)
Class Bech32Laws `{Bech32} : Prop := {
  ValAddress_roundtrip a : a ≠ "" → ValAddressFromBech32 (ValAddress_String a) = Ok a;
}.

Module UV.

Inductive UVStatus :=
| UV_STATUS_UNSPECIFIED
| UV_STATUS_ACTIVE
| UV_STATUS_PENDING_JOIN
| UV_STATUS_PENDING_LEAVE
| UV_STATUS_INACTIVE
| UV_STATUS_other (n : Z).    (* a wire value outside the enum *)
#[global] Instance UVStatus_eq_dec : EqDecision UVStatus.
Proof. solve_decision. Defined.

Definition UVStatus_String (s : UVStatus) : string :=
  match s with
  | UV_STATUS_UNSPECIFIED => "UV_STATUS_UNSPECIFIED"
  | UV_STATUS_ACTIVE => "UV_STATUS_ACTIVE"
  | UV_STATUS_PENDING_JOIN => "UV_STATUS_PENDING_JOIN"
  | UV_STATUS_PENDING_LEAVE => "UV_STATUS_PENDING_LEAVE"
  | UV_STATUS_INACTIVE => "UV_STATUS_INACTIVE"
  | UV_STATUS_other n => fmt_d n
  end.
(** membership in [UVStatus_name] *)
Definition UVStatus_known (s : UVStatus) : bool :=
  match s with UV_STATUS_other _ => false | _ => true end.

Inductive TransitionReason :=
| TRANSITION_REASON_UNSPECIFIED
| TRANSITION_REASON_ADMIN
| TRANSITION_REASON_STAKING_HOOK.
#[global] Instance TransitionReason_eq_dec : EqDecision TransitionReason.
Proof. solve_decision. Defined.

Record IdentityInfo := mkIdentityInfo { CoreValidatorAddress : string }.
Record NetworkInfo := mkNetworkInfo { PeerId : string; MultiAddrs : list string }.
Record LifecycleEvent := mkLifecycleEvent {
  EventStatus : UVStatus; BlockHeight : Z; Reason : TransitionReason }.
Record LifecycleInfo := mkLifecycleInfo {
  CurrentStatus : UVStatus; History : list LifecycleEvent }.
Record UniversalValidator := mkUniversalValidator {
  IdentifyInfo : option IdentityInfo;       (* pointers in the Go struct *)
  NetworkInfoOf : option NetworkInfo;
  LifecycleInfoOf : option LifecycleInfo }.
Record Params := mkParams { Admin : string }.

#[global] Instance LifecycleInfo_eta : Eta LifecycleInfo := λ r,
  mkLifecycleInfo (CurrentStatus r) (History r).
#[global] Instance UniversalValidator_eta : Eta UniversalValidator := λ r,
  mkUniversalValidator (IdentifyInfo r) (NetworkInfoOf r) (LifecycleInfoOf r).

Definition IdentityInfo_ValidateBasic `{Bech32} (p : IdentityInfo) : res unit :=
  wrap_res "invalid core validator address" (ValAddressFromBech32 (CoreValidatorAddress p)) ;;
  mret tt.

(** A nil and an empty [MultiAddrs] are the same list; both are refused. *)
Definition NetworkInfo_ValidateBasic (p : NetworkInfo) : res unit :=
  if decide (TrimSpace (PeerId p) = "") then Err "peerId cannot be empty"
  else if decide (MultiAddrs p = []) then Err "multi_addrs must contain at least one value"
  else Ok tt.

Definition LifecycleEvent_ValidateBasic (p : LifecycleEvent) : res unit :=
  if UVStatus_known (EventStatus p) then Ok tt else Err "invalid uv_status".

Fixpoint heights_ordered (h : list LifecycleEvent) : bool :=
  match h with
  | e1 :: (e2 :: _) as t => bool_decide (BlockHeight e1 ≤ BlockHeight e2) && heights_ordered t
  | _ => true
  end.

Definition LifecycleInfo_ValidateBasic (p : LifecycleInfo) : res unit :=
  if negb (UVStatus_known (CurrentStatus p)) then Err "invalid current_status"
  else if negb (forallb (λ e, is_ok (LifecycleEvent_ValidateBasic e)) (History p))
  then Err "invalid history"
  else if negb (heights_ordered (History p)) then Err "history not ordered"
  else Ok tt.

Definition Params_ValidateBasic (p : Params) : res unit :=
  if decide (TrimSpace (Admin p) = "") then Err "admin address cannot be empty" else Ok tt.

Definition UniversalValidator_ValidateBasic `{Bech32} (p : UniversalValidator) : res unit :=
  i ← deref_res (IdentifyInfo p);
  wrap_res "invalid identify info" (IdentityInfo_ValidateBasic i) ;;
  l ← deref_res (LifecycleInfoOf p);
  wrap_res "invalid lifecycle info" (LifecycleInfo_ValidateBasic l) ;;
  n ← deref_res (NetworkInfoOf p);
  wrap_res "invalid network info" (NetworkInfo_ValidateBasic n).
End UV.
