(* ===== verification/TssTypes.v ===== *)
(** * x/utss/types: key processes, keys, events and fund migrations *)
From S2P Require Import Prelude GoStrings.

Module Tss.
Inductive TssKeyProcessStatus :=
| TSS_KEY_PROCESS_PENDING | TSS_KEY_PROCESS_SUCCESS | TSS_KEY_PROCESS_FAILED.
#[global] Instance TssKeyProcessStatus_eq_dec : EqDecision TssKeyProcessStatus.
Proof. solve_decision. Defined.

Inductive TssProcessType :=
| TSS_PROCESS_KEYGEN | TSS_PROCESS_REFRESH | TSS_PROCESS_QUORUM_CHANGE
| TSS_PROCESS_other (n : Z).   (* a wire value outside the enum *)
#[global] Instance TssProcessType_eq_dec : EqDecision TssProcessType.
Proof. solve_decision. Defined.
Definition TssProcessType_String (t : TssProcessType) : string :=
  match t with
  | TSS_PROCESS_KEYGEN => "TSS_PROCESS_KEYGEN"
  | TSS_PROCESS_REFRESH => "TSS_PROCESS_REFRESH"
  | TSS_PROCESS_QUORUM_CHANGE => "TSS_PROCESS_QUORUM_CHANGE"
  | TSS_PROCESS_other n => fmt_d n
  end.

Inductive TssEventType := TSS_EVENT_PROCESS_INITIATED | TSS_EVENT_KEY_FINALIZED.
#[global] Instance TssEventType_eq_dec : EqDecision TssEventType.
Proof. solve_decision. Defined.
Inductive TssEventStatus := TSS_EVENT_ACTIVE | TSS_EVENT_COMPLETED | TSS_EVENT_EXPIRED.
#[global] Instance TssEventStatus_eq_dec : EqDecision TssEventStatus.
Proof. solve_decision. Defined.
Inductive FundMigrationStatus :=
| FUND_MIGRATION_STATUS_PENDING | FUND_MIGRATION_STATUS_COMPLETED | FUND_MIGRATION_STATUS_FAILED.
#[global] Instance FundMigrationStatus_eq_dec : EqDecision FundMigrationStatus.
Proof. solve_decision. Defined.

Record TssKeyProcess := mkTssKeyProcess {
  Status : TssKeyProcessStatus;
  Participants : list string;
  BlockHeight : Z;                 (* int64 *)
  ExpiryHeight : Z;                (* int64 *)
  ProcessType : TssProcessType;
  ProcId : N                       (* uint64 *)
}.
#[global] Instance TssKeyProcess_eta : Eta TssKeyProcess := λ r,
  mkTssKeyProcess (Status r) (Participants r) (BlockHeight r) (ExpiryHeight r)
    (ProcessType r) (ProcId r).

Record TssKey := mkTssKey {
  TssPubkey : string;
  KeyId : string;
  KeyParticipants : list string;
  FinalizedBlockHeight : Z;
  KeygenBlockHeight : Z;
  ProcessId : N
}.

Record TssEvent := mkTssEvent {
  EvId : N;
  EventType : TssEventType;
  EvStatus : TssEventStatus;
  EvProcessId : N;
  EvProcessType : string;
  EvParticipants : list string;
  EvExpiryHeight : Z;
  EvBlockHeight : Z;
  EvKeyId : string;
  EvTssPubkey : string
}.
#[global] Instance TssEvent_eta : Eta TssEvent := λ r,
  mkTssEvent (EvId r) (EventType r) (EvStatus r) (EvProcessId r) (EvProcessType r)
    (EvParticipants r) (EvExpiryHeight r) (EvBlockHeight r) (EvKeyId r) (EvTssPubkey r).

Record FundMigration := mkFundMigration {
  MigId : N;
  OldKeyId : string;
  OldTssPubkey : string;
  CurrentKeyId : string;
  CurrentTssPubkey : string;
  MigChain : string;
  MigStatus : FundMigrationStatus;
  InitiatedBlock : Z;
  CompletedBlock : Z;
  MigTxHash : string;
  MigGasPrice : string;
  MigGasLimit : Z;
  MigL1GasFee : string
}.
#[global] Instance FundMigration_eta : Eta FundMigration := λ r,
  mkFundMigration (MigId r) (OldKeyId r) (OldTssPubkey r) (CurrentKeyId r)
    (CurrentTssPubkey r) (MigChain r) (MigStatus r) (InitiatedBlock r)
    (CompletedBlock r) (MigTxHash r) (MigGasPrice r) (MigGasLimit r) (MigL1GasFee r).

Record Params := mkParams { Admin : string }.

Definition DefaultTssProcessExpiryAfterBlocks : Z := 500.

(** A process whose type is outside the enum is refused; every status value the
    record can hold is in the enum. *)
Definition TssKeyProcess_ValidateBasic (p : TssKeyProcess) : res unit :=
  check (negb (bool_decide (Participants p = []))) "participants list cannot be empty" ;;
  check (forallb (λ a, negb (bool_decide (a = ""))) (Participants p)) "participant is empty" ;;
  check (bool_decide (0 ≤ BlockHeight p)) "invalid block height" ;;
  check (bool_decide (BlockHeight p < ExpiryHeight p)) "expiry height must be greater than block height" ;;
  check (match ProcessType p with TSS_PROCESS_other _ => false | _ => true end) "invalid process type".

Definition TssKey_ValidateBasic (p : TssKey) : res unit :=
  check (negb (bool_decide (TrimSpace (TssPubkey p) = ""))) "tss_pubkey cannot be empty" ;;
  check (negb (bool_decide (TrimSpace (KeyId p) = ""))) "key_id cannot be empty" ;;
  check (negb (bool_decide (KeyParticipants p = []))) "participants list cannot be empty" ;;
  check (forallb (λ a, negb (bool_decide (TrimSpace a = ""))) (KeyParticipants p)) "participant is empty" ;;
  check (bool_decide (0 < KeygenBlockHeight p)) "invalid keygen_block_height" ;;
  check (bool_decide (KeygenBlockHeight p ≤ FinalizedBlockHeight p))
    "finalized_block_height cannot be less than keygen_block_height" ;;
  check (negb (bool_decide (ProcessId p = 0%N))) "process_id cannot be zero".
End Tss.
