(* ===== verification/UxTypes.v ===== *)
(** * x/uexecutor/types: inbounds, outbounds, universal transactions *)
From S2P Require Import Prelude GoStrings UvTypes.

Module Ux.
Inductive TxType :=
| UNSPECIFIED_TX
| GAS
| GAS_AND_PAYLOAD
| FUNDS
| FUNDS_AND_PAYLOAD
| PAYLOAD
| INBOUND_REVERT
| RESCUE_FUNDS
| TxType_other (n : Z).   (* a wire value outside the enum *)
#[global] Instance TxType_eq_dec : EqDecision TxType.
Proof. solve_decision. Defined.
Definition TxType_num (t : TxType) : Z :=
  match t with
  | UNSPECIFIED_TX => 0 | GAS => 1 | GAS_AND_PAYLOAD => 2 | FUNDS => 3
  | FUNDS_AND_PAYLOAD => 4 | PAYLOAD => 5 | INBOUND_REVERT => 6 | RESCUE_FUNDS => 7
  | TxType_other n => n
  end.
(** membership in [TxType_name] *)
Definition TxType_known (t : TxType) : bool :=
  match t with TxType_other _ => false | _ => true end.

Inductive Status :=
| STATUS_UNSPECIFIED
| PENDING
| OBSERVED
| REVERTED
| ABORTED.
#[global] Instance Status_eq_dec : EqDecision Status.
Proof. solve_decision. Defined.
Inductive VerificationType :=
| signedVerification
| universalTxVerification
| VerificationType_other (n : Z).   (* a wire value outside the enum *)
#[global] Instance VerificationType_eq_dec : EqDecision VerificationType.
Proof. solve_decision. Defined.
Record UniversalPayload := mkUniversalPayload {
  To : string;
  Value : string;
  Data : string;
  PayGasLimit : string;
  MaxFeePerGas : string;
  MaxPriorityFeePerGas : string;
  Nonce : string;
  Deadline : string;
  VType : VerificationType
}.
#[global] Instance UniversalPayload_eta : Eta UniversalPayload := λ r,
  mkUniversalPayload (To r) (Value r) (Data r) (PayGasLimit r) (MaxFeePerGas r) (MaxPriorityFeePerGas r) (Nonce r) (Deadline r) (VType r).
Record RevertInstructions := mkRevertInstructions {
  FundRecipient : string
}.
#[global] Instance RevertInstructions_eta : Eta RevertInstructions := λ r,
  mkRevertInstructions (FundRecipient r).
Record Inbound := mkInbound {
  SourceChain : string;
  TxHash : string;
  Sender : string;
  Recipient : string;
  Amount : string;
  AssetAddr : string;
  LogIndex : string;
  InTxType : TxType;
  UniversalPayloadOf : option UniversalPayload;
  VerificationData : string;
  RevertInstructionsOf : option RevertInstructions;
  IsCEA : bool;
  RawPayload : string
}.
#[global] Instance Inbound_eta : Eta Inbound := λ r,
  mkInbound (SourceChain r) (TxHash r) (Sender r) (Recipient r) (Amount r) (AssetAddr r) (LogIndex r) (InTxType r) (UniversalPayloadOf r) (VerificationData r) (RevertInstructionsOf r) (IsCEA r) (RawPayload r).
Record PCTx := mkPCTx {
  PcTxHash : string;
  PcSender : string;
  GasUsed : Z;
  PcBlockHeight : Z;
  PcStatus : string;
  PcErrorMsg : string
}.
#[global] Instance PCTx_eta : Eta PCTx := λ r,
  mkPCTx (PcTxHash r) (PcSender r) (GasUsed r) (PcBlockHeight r) (PcStatus r) (PcErrorMsg r).
Record OutboundObservation := mkOutboundObservation {
  Success : bool;
  ObsBlockHeight : Z;
  ObsTxHash : string;
  ErrorMsg : string;
  GasFeeUsed : string
}.
#[global] Instance OutboundObservation_eta : Eta OutboundObservation := λ r,
  mkOutboundObservation (Success r) (ObsBlockHeight r) (ObsTxHash r) (ErrorMsg r) (GasFeeUsed r).
Record OriginatingPcTx := mkOriginatingPcTx {
  OrigTxHash : string;
  OrigLogIndex : string
}.
#[global] Instance OriginatingPcTx_eta : Eta OriginatingPcTx := λ r,
  mkOriginatingPcTx (OrigTxHash r) (OrigLogIndex r).
Record OutboundTx := mkOutboundTx {
  DestinationChain : string;
  ObRecipient : string;
  ObAmount : string;
  ExternalAssetAddr : string;
  Prc20AssetAddr : string;
  ObSender : string;
  Payload : string;
  GasLimit : string;
  ObTxType : TxType;
  OrigPcTx : option OriginatingPcTx;
  ObservedTx : option OutboundObservation;
  ObId : string;
  OutboundStatus : Status;
  ObRevertInstructions : option RevertInstructions;
  PcRevertExecution : option PCTx;
  GasPrice : string;
  GasFee : string;
  PcRefundExecution : option PCTx;
  RefundSwapError : string;
  GasToken : string;
  AbortReason : string
}.
#[global] Instance OutboundTx_eta : Eta OutboundTx := λ r,
  mkOutboundTx (DestinationChain r) (ObRecipient r) (ObAmount r) (ExternalAssetAddr r) (Prc20AssetAddr r) (ObSender r) (Payload r) (GasLimit r) (ObTxType r) (OrigPcTx r) (ObservedTx r) (ObId r) (OutboundStatus r) (ObRevertInstructions r) (PcRevertExecution r) (GasPrice r) (GasFee r) (PcRefundExecution r) (RefundSwapError r) (GasToken r) (AbortReason r).
Record UniversalTx := mkUniversalTx {
  UtxId : string;
  InboundTx : option Inbound;
  PcTx : list PCTx;
  OutboundTxs : list OutboundTx;
  RevertError : string
}.
#[global] Instance UniversalTx_eta : Eta UniversalTx := λ r,
  mkUniversalTx (UtxId r) (InboundTx r) (PcTx r) (OutboundTxs r) (RevertError r).
Record InboundVariant := mkInboundVariant {
  BallotId : string;
  VarInbound : option Inbound;
  Voters : list string;
  FirstVotedAtHeight : Z;
  LastVotedAtHeight : Z;
  TerminalStatus : Ballot.BallotStatus
}.
#[global] Instance InboundVariant_eta : Eta InboundVariant := λ r,
  mkInboundVariant (BallotId r) (VarInbound r) (Voters r) (FirstVotedAtHeight r) (LastVotedAtHeight r) (TerminalStatus r).
Record PendingInboundEntry := mkPendingInboundEntry {
  UtxKey : string;
  Variants : list InboundVariant;
  CreatedAtHeight : Z
}.
#[global] Instance PendingInboundEntry_eta : Eta PendingInboundEntry := λ r,
  mkPendingInboundEntry (UtxKey r) (Variants r) (CreatedAtHeight r).
Record ExpiredInboundEntry := mkExpiredInboundEntry {
  ExpUtxKey : string;
  ExpVariants : list InboundVariant;
  ExpiredAtHeight : Z
}.
#[global] Instance ExpiredInboundEntry_eta : Eta ExpiredInboundEntry := λ r,
  mkExpiredInboundEntry (ExpUtxKey r) (ExpVariants r) (ExpiredAtHeight r).
Record OutboundObservationVariant := mkOutboundObservationVariant {
  ObsBallotId : string;
  VarObservedTx : OutboundObservation;
  ObsVoters : list string;
  ObsFirstVotedAtHeight : Z;
  ObsLastVotedAtHeight : Z
}.
#[global] Instance OutboundObservationVariant_eta : Eta OutboundObservationVariant := λ r,
  mkOutboundObservationVariant (ObsBallotId r) (VarObservedTx r) (ObsVoters r) (ObsFirstVotedAtHeight r) (ObsLastVotedAtHeight r).
Record PendingOutboundEntry := mkPendingOutboundEntry {
  OutboundId : string;
  UniversalTxId : string;
  CreatedAt : Z;
  SigningDeadline : Z;
  ObsVariants : list OutboundObservationVariant
}.
#[global] Instance PendingOutboundEntry_eta : Eta PendingOutboundEntry := λ r,
  mkPendingOutboundEntry (OutboundId r) (UniversalTxId r) (CreatedAt r) (SigningDeadline r) (ObsVariants r).
Record ChainMeta := mkChainMeta {
  ObservedChainId : string;
  Signers : list string;
  Prices : list Z;
  ChainHeights : list Z;
  StoredAts : list Z;
  MedianIndex : Z;
  LastAppliedChainHeight : Z
}.
#[global] Instance ChainMeta_eta : Eta ChainMeta := λ r,
  mkChainMeta (ObservedChainId r) (Signers r) (Prices r) (ChainHeights r) (StoredAts r) (MedianIndex r) (LastAppliedChainHeight r).
Record GasPriceEntry := mkGasPriceEntry {
  GpObservedChainId : string;
  GpSigners : list string;
  GpPrices : list Z;
  GpBlockNums : list Z;
  GpMedianIndex : Z
}.
#[global] Instance GasPriceEntry_eta : Eta GasPriceEntry := λ r,
  mkGasPriceEntry (GpObservedChainId r) (GpSigners r) (GpPrices r) (GpBlockNums r) (GpMedianIndex r).

Record UniversalAccountId := mkUniversalAccountId {
  ChainNamespace : string;
  ChainId : string;
  Owner : string
}.
Record MigrationPayload := mkMigrationPayload {
  Migration : string;
  MpNonce : string;
  MpDeadline : string
}.
Record Params := mkParams { SomeValue : bool }.

(** [VerificationType(n)] and [uint8(v)] *)
Definition VerificationType_of (n : Z) : VerificationType :=
  if decide (n = 0) then signedVerification
  else if decide (n = 1) then universalTxVerification else VerificationType_other n.
Definition VerificationType_num (v : VerificationType) : Z :=
  match v with signedVerification => 0 | universalTxVerification => 1 | VerificationType_other n => n end.

(** The zero values of the Go structs. *)
Definition empty_ChainMeta : ChainMeta := mkChainMeta "" [] [] [] [] 0 0.
Definition empty_PCTx : PCTx := mkPCTx "" "" 0 0 "" "".
Definition empty_OutboundTx : OutboundTx :=
  mkOutboundTx "" "" "" "" "" "" "" "" UNSPECIFIED_TX None None "" STATUS_UNSPECIFIED
    None None "" "" None "" "" "".
End Ux.
