(* ===== verification/RegTypes.v ===== *)
(** * x/uregistry/types: chain and token configurations *)
From S2P Require Import Prelude GoStrings.

Module Reg.
Inductive VmType :=
| UNKNOWN_VM
| EVM
| SVM
| MOVE_VM
| WASM_VM
| CAIRO_VM
| TRON_VM
| STELLAR_VM
| BITCOIN_SCRIPT
| OTHER_VM
| VmType_other (n : Z).   (* a wire value outside the enum *)
#[global] Instance VmType_eq_dec : EqDecision VmType.
Proof. solve_decision. Defined.
Inductive TokenType :=
| UNKNOWN_TOKEN
| ERC20
| ERC721
| ERC1155
| SPL
| TokenType_other (n : Z).   (* a wire value outside the enum *)
#[global] Instance TokenType_eq_dec : EqDecision TokenType.
Proof. solve_decision. Defined.
Inductive ConfirmationType :=
| CONFIRMATION_UNKNOWN
| CONFIRMATION_TYPE_STANDARD
| CONFIRMATION_TYPE_FAST
| ConfirmationType_other (n : Z).   (* a wire value outside the enum *)
#[global] Instance ConfirmationType_eq_dec : EqDecision ConfirmationType.
Proof. solve_decision. Defined.
Record GatewayMethods := mkGatewayMethods {
  GmName : string;
  GmIdentifier : string;
  GmEventIdentifier : string;
  GmConfirmationType : ConfirmationType
}.
#[global] Instance GatewayMethods_eta : Eta GatewayMethods := λ r,
  mkGatewayMethods (GmName r) (GmIdentifier r) (GmEventIdentifier r) (GmConfirmationType r).
Record VaultMethods := mkVaultMethods {
  VmName : string;
  VmIdentifier : string;
  VmEventIdentifier : string;
  VmConfirmationType : ConfirmationType
}.
#[global] Instance VaultMethods_eta : Eta VaultMethods := λ r,
  mkVaultMethods (VmName r) (VmIdentifier r) (VmEventIdentifier r) (VmConfirmationType r).
Record BlockConfirmation := mkBlockConfirmation {
  FastInbound : Z;
  StandardInbound : Z
}.
#[global] Instance BlockConfirmation_eta : Eta BlockConfirmation := λ r,
  mkBlockConfirmation (FastInbound r) (StandardInbound r).
Record ChainEnabled := mkChainEnabled {
  IsInboundEnabled : bool;
  IsOutboundEnabled : bool
}.
#[global] Instance ChainEnabled_eta : Eta ChainEnabled := λ r,
  mkChainEnabled (IsInboundEnabled r) (IsOutboundEnabled r).
Record ChainConfig := mkChainConfig {
  Chain : string;
  VmTypeOf : VmType;
  PublicRpcUrl : string;
  GatewayAddress : string;
  BlockConfirmationOf : option BlockConfirmation;
  GatewayMethodsOf : list GatewayMethods;
  Enabled : option ChainEnabled;
  GasOracleFetchInterval : Z;
  VaultMethodsOf : list VaultMethods;
  TssSigningDeadline : option Z
}.
#[global] Instance ChainConfig_eta : Eta ChainConfig := λ r,
  mkChainConfig (Chain r) (VmTypeOf r) (PublicRpcUrl r) (GatewayAddress r) (BlockConfirmationOf r) (GatewayMethodsOf r) (Enabled r) (GasOracleFetchInterval r) (VaultMethodsOf r) (TssSigningDeadline r).
Record NativeRepresentation := mkNativeRepresentation {
  Denom : string;
  ContractAddress : string
}.
#[global] Instance NativeRepresentation_eta : Eta NativeRepresentation := λ r,
  mkNativeRepresentation (Denom r) (ContractAddress r).
Record TokenConfig := mkTokenConfig {
  TokChain : string;
  TokAddress : string;
  TokName : string;
  TokSymbol : string;
  Decimals : Z;
  TokEnabled : bool;
  LiquidityCap : string;
  TokenTypeOf : TokenType;
  NativeRepresentationOf : option NativeRepresentation
}.
#[global] Instance TokenConfig_eta : Eta TokenConfig := λ r,
  mkTokenConfig (TokChain r) (TokAddress r) (TokName r) (TokSymbol r) (Decimals r) (TokEnabled r) (LiquidityCap r) (TokenTypeOf r) (NativeRepresentationOf r).
Record Params := mkParams { Admin : string }.
End Reg.
