(* ===== verification/World.v ===== *)
(** * The multistore and the interfaces between modules

    [World E] is the committed state the four custom modules share: one record
    per keeper ([x/*/keeper/keeper.go]), and [E], the state of the code that is
    not part of the repository (EVM, bank, distribution).  A [collections.Item]
    is an [option], a [collections.Map] a [gmap], a [collections.KeySet] a
    [gset], a [collections.Sequence] an [option N]. *)
From S2P Require Import Prelude GoStrings UvTypes TssTypes UxTypes RegTypes.

(** The parts of [sdk.Context] the keepers read. *)
Record Ctx := mkCtx {
  BlockHeight : Z;       (* int64 *)
  BlockTime : Z;         (* Unix seconds *)
  ChainID : string
}.

Record UvState := mkUvState {
  UvParams : option UV.Params;
  UniversalValidatorSet : gmap string UV.UniversalValidator;
  Ballots : gmap string Ballot.Ballot;
  ActiveBallotIDs : gset string;
  ExpiredBallotIDs : gset string;
  FinalizedBallotIDs : gset string
}.
#[global] Instance UvState_eta : Eta UvState := λ r,
  mkUvState (UvParams r) (UniversalValidatorSet r) (Ballots r) (ActiveBallotIDs r)
    (ExpiredBallotIDs r) (FinalizedBallotIDs r).

Record TssState := mkTssState {
  TssParams : option Tss.Params;
  NextProcessId : option N;
  CurrentTssProcess : option Tss.TssKeyProcess;
  ProcessHistory : gmap N Tss.TssKeyProcess;
  CurrentTssKey : option Tss.TssKey;
  TssKeyHistory : gmap string Tss.TssKey;
  TssEvents : gmap N Tss.TssEvent;
  NextTssEventId : option N;
  PendingTssEvents : gmap N N;
  FundMigrations : gmap N Tss.FundMigration;
  NextMigrationId : option N;
  PendingMigrations : gmap N N
}.
#[global] Instance TssState_eta : Eta TssState := λ r,
  mkTssState (TssParams r) (NextProcessId r) (CurrentTssProcess r) (ProcessHistory r)
    (CurrentTssKey r) (TssKeyHistory r) (TssEvents r) (NextTssEventId r)
    (PendingTssEvents r) (FundMigrations r) (NextMigrationId r) (PendingMigrations r).

Record UxState := mkUxState {
  UxParams : option Ux.Params;
  PendingInbounds : gmap string Ux.PendingInboundEntry;
  ExpiredInbounds : gmap string Ux.ExpiredInboundEntry;
  UniversalTxs : gmap string Ux.UniversalTx;
  ModuleAccountNonce : option Z;             (* uint64 *)
  GasPrices : gmap string Ux.GasPriceEntry;
  ChainMetas : gmap string Ux.ChainMeta;
  PendingOutbounds : gmap string Ux.PendingOutboundEntry
}.
#[global] Instance UxState_eta : Eta UxState := λ r,
  mkUxState (UxParams r) (PendingInbounds r) (ExpiredInbounds r) (UniversalTxs r) (ModuleAccountNonce r)
    (GasPrices r) (ChainMetas r) (PendingOutbounds r).

Record RegState := mkRegState {
  RegParams : option Reg.Params;
  ChainConfigs : gmap string Reg.ChainConfig;
  TokenConfigs : gmap string Reg.TokenConfig;
  (* indexes.Multi: the set of (reference key, primary key) pairs *)
  PRC20Index : gset (string * string)
}.
#[global] Instance RegState_eta : Eta RegState := λ r,
  mkRegState (RegParams r) (ChainConfigs r) (TokenConfigs r) (PRC20Index r).

Record World (E : Type) := mkWorld {
  uv : UvState;
  tss : TssState;
  ux : UxState;
  reg : RegState;
  ext : E
}.
Arguments mkWorld {_} _ _ _ _ _.
Arguments uv {_} _.
Arguments tss {_} _.
Arguments ux {_} _.
Arguments reg {_} _.
Arguments ext {_} _.
#[global] Instance World_eta {E} : Eta (World E) := λ r,
  mkWorld (uv r) (tss r) (ux r) (reg r) (ext r).

Definition empty_uv : UvState := mkUvState None ∅ ∅ ∅ ∅ ∅.
Definition empty_tss : TssState :=
  mkTssState None None None ∅ None ∅ ∅ None ∅ ∅ None ∅.
Definition empty_ux : UxState := mkUxState None ∅ ∅ ∅ None ∅ ∅ ∅.
Definition empty_reg : RegState := mkRegState None ∅ ∅ ∅.
Definition empty_world {E} (e : E) : World E := mkWorld empty_uv empty_tss empty_ux empty_reg e.

(** Writes to one module's store. *)
Definition set_uv {E} (f : UvState → UvState) : M (World E) unit := modify (λ w, w <| uv ::= f |>).
Definition set_tss {E} (f : TssState → TssState) : M (World E) unit := modify (λ w, w <| tss ::= f |>).
Definition set_ux {E} (f : UxState → UxState) : M (World E) unit := modify (λ w, w <| ux ::= f |>).
Definition set_reg {E} (f : RegState → RegState) : M (World E) unit := modify (λ w, w <| reg ::= f |>).
Definition get_uv {E A} (f : UvState → A) : M (World E) A := gets (λ w, f (uv w)).
Definition get_tss {E A} (f : TssState → A) : M (World E) A := gets (λ w, f (tss w)).
Definition get_ux {E A} (f : UxState → A) : M (World E) A := gets (λ w, f (ux w)).
Definition get_reg {E A} (f : RegState → A) : M (World E) A := gets (λ w, f (reg w)).

(** ** Staking and slashing, as the keepers see them

    [x/uvalidator/types/expected_keepers.go]. The SDK's staking and slashing
    keepers are a parameter; a query error is [None]. *)
Record StakingValidator := mkStakingValidator {
  IsBonded : bool;
  GetConsAddr : option string;
  OperatorAddress : string
}.
Class StakingKeeper : Type := {
  GetValidator : string → option StakingValidator;
  ValidatorByConsAddr : string → option StakingValidator;
  IsTombstoned : string → bool;
}.

(** ** Hooks

    [x/uvalidator/types/hooks.go]: what other modules run when a ballot ends or
    a validator changes status. *)
Class BallotHooks (E : Type) : Type := {
  AfterBallotTerminal :
    Ctx → string → Ballot.BallotObservationType → Ballot.BallotStatus → M (World E) unit;
}.
(** The contract of [BallotHooks] that the ballot keeper relies on: a hook
    leaves the stores of x/uvalidator and x/utss alone and never panics. *)
Class BallotHooksLaws (E : Type) `{BallotHooks E} : Prop := {
  ballot_hook_uv ctx id ty st : stable uv (AfterBallotTerminal ctx id ty st);
  ballot_hook_tss ctx id ty st : stable tss (AfterBallotTerminal ctx id ty st);
  ballot_hook_no_panic ctx id ty st w e : (AfterBallotTerminal ctx id ty st w).1 ≠ Panic e;
}.

(** No hook registered: [k.ballotHooks == nil]. *)
Definition nil_ballot_hooks (E : Type) : BallotHooks E :=
  {| AfterBallotTerminal := λ _ _ _ _, mret tt |}.
Lemma nil_ballot_hooks_laws E : @BallotHooksLaws E (nil_ballot_hooks E).
Proof. by split. Qed.

Class UValidatorHooks (E : Type) : Type := {
  AfterValidatorAdded : Ctx → string → M (World E) unit;
  AfterValidatorRemoved : Ctx → string → M (World E) unit;
  AfterValidatorStatusChanged : Ctx → string → UV.UVStatus → UV.UVStatus → M (World E) unit;
}.
Class UValidatorHooksLaws (E : Type) `{UValidatorHooks E} : Prop := {
  added_hook_uv ctx a : stable uv (AfterValidatorAdded ctx a);
  removed_hook_uv ctx a : stable uv (AfterValidatorRemoved ctx a);
  changed_hook_uv ctx a o n : stable uv (AfterValidatorStatusChanged ctx a o n);
}.

(** ** [UtssKeeper] as x/uvalidator sees it *)
Class UtssKeeper (E : Type) : Type := {
  GetCurrentTssParticipants : Ctx → M (World E) (list string);
  HasOngoingTss : Ctx → M (World E) bool;
}.

(** Its queries read the store. *)
Class UtssKeeperLaws (E : Type) `{UtssKeeper E} : Prop := {
  participants_read ctx : ∀ w, (GetCurrentTssParticipants ctx w).2 = w;
  ongoing_read ctx : ∀ w, (HasOngoingTss ctx w).2 = w;
}.

Section run_equations.
Context {E : Type}.
Implicit Types w : World E.
Lemma get_uv_run {A} (f : UvState → A) w : get_uv f w = (Ok (f (uv w)), w).
Proof. reflexivity. Qed.
Lemma get_tss_run {A} (f : TssState → A) w : get_tss f w = (Ok (f (tss w)), w).
Proof. reflexivity. Qed.
Lemma get_ux_run {A} (f : UxState → A) w : get_ux f w = (Ok (f (ux w)), w).
Proof. reflexivity. Qed.
Lemma get_reg_run {A} (f : RegState → A) w : get_reg f w = (Ok (f (reg w)), w).
Proof. reflexivity. Qed.
Lemma set_uv_run f w : set_uv f w = (Ok tt, w <| uv ::= f |>).
Proof. reflexivity. Qed.
Lemma set_tss_run f w : set_tss f w = (Ok tt, w <| tss ::= f |>).
Proof. reflexivity. Qed.
Lemma set_ux_run f w : set_ux f w = (Ok tt, w <| ux ::= f |>).
Proof. reflexivity. Qed.
Lemma set_reg_run f w : set_reg f w = (Ok tt, w <| reg ::= f |>).
Proof. reflexivity. Qed.
End run_equations.
#[export] Hint Rewrite @get_uv_run @get_tss_run @get_ux_run @get_reg_run
  @set_uv_run @set_tss_run @set_ux_run @set_reg_run : run.

(** Reads never change the store; a write to one module's store changes that
    component only. *)
Section keeps_world.
Context {E : Type} (I : World E → Prop).
Lemma keeps_get_uv {A} (f : UvState → A) : keeps I (get_uv f).
Proof. by intros w ?. Qed.
Lemma keeps_get_tss {A} (f : TssState → A) : keeps I (get_tss f).
Proof. by intros w ?. Qed.
Lemma keeps_get_ux {A} (f : UxState → A) : keeps I (get_ux f).
Proof. by intros w ?. Qed.
Lemma keeps_get_reg {A} (f : RegState → A) : keeps I (get_reg f).
Proof. by intros w ?. Qed.
Lemma keeps_set_uv f : (∀ w, I w → I (w <| uv ::= f |>)) → keeps I (set_uv f).
Proof. intros H w ?. by apply H. Qed.
Lemma keeps_set_tss f : (∀ w, I w → I (w <| tss ::= f |>)) → keeps I (set_tss f).
Proof. intros H w ?. by apply H. Qed.
Lemma keeps_set_ux f : (∀ w, I w → I (w <| ux ::= f |>)) → keeps I (set_ux f).
Proof. intros H w ?. by apply H. Qed.
Lemma keeps_set_reg f : (∀ w, I w → I (w <| reg ::= f |>)) → keeps I (set_reg f).
Proof. intros H w ?. by apply H. Qed.
End keeps_world.
#[export] Hint Resolve keeps_get_uv keeps_get_tss keeps_get_ux keeps_get_reg : keeper.

(** Loops that only write one module's store. *)
Section loops.
Context {E A : Type}.
Implicit Types w : World E.
Lemma for_each_set_uv (f : A → UvState → UvState) l w :
  for_each (λ x, set_uv (f x)) l w = (Ok tt, w <| uv ::= λ s, foldl (λ s x, f x s) s l |>).
Proof. revert w. induction l as [|x l IH]; intros w; [by destruct w|]. mrun. by rewrite IH. Qed.
Lemma for_each_set_tss (f : A → TssState → TssState) l w :
  for_each (λ x, set_tss (f x)) l w = (Ok tt, w <| tss ::= λ s, foldl (λ s x, f x s) s l |>).
Proof. revert w. induction l as [|x l IH]; intros w; [by destruct w|]. mrun. by rewrite IH. Qed.
Lemma for_each_set_ux (f : A → UxState → UxState) l w :
  for_each (λ x, set_ux (f x)) l w = (Ok tt, w <| ux ::= λ s, foldl (λ s x, f x s) s l |>).
Proof. revert w. induction l as [|x l IH]; intros w; [by destruct w|]. mrun. by rewrite IH. Qed.
Lemma for_each_set_reg (f : A → RegState → RegState) l w :
  for_each (λ x, set_reg (f x)) l w = (Ok tt, w <| reg ::= λ s, foldl (λ s x, f x s) s l |>).
Proof. revert w. induction l as [|x l IH]; intros w; [by destruct w|]. mrun. by rewrite IH. Qed.
End loops.

(** [wrun H]: as [run H], through the reads and writes of the module stores. *)
Ltac wrun_step H :=
  lazymatch type of H with
  | (_ ≫= _) _ = (Ok _, _) =>
      apply bind_ok in H; let H1 := fresh "Hs" in
      destruct H as (? & ? & H1 & H); wrun_step H1
  | wrap _ _ _ = (Ok _, _) => apply wrap_ok in H; wrun_step H
  | atomically _ _ = (Ok _, _) => apply atomically_ok in H; wrun_step H
  | get_uv _ _ = (Ok _, _) => injection H as <- <-
  | get_tss _ _ = (Ok _, _) => injection H as <- <-
  | get_ux _ _ = (Ok _, _) => injection H as <- <-
  | get_reg _ _ = (Ok _, _) => injection H as <- <-
  | set_uv _ _ = (Ok _, _) => injection H as <- <-
  | set_tss _ _ = (Ok _, _) => injection H as <- <-
  | set_ux _ _ = (Ok _, _) => injection H as <- <-
  | set_reg _ _ = (Ok _, _) => injection H as <- <-
  | lift_res _ _ = (Ok _, _) => injection H as H <-
  | _ => run_step H
  end.
Tactic Notation "wrun" hyp(H) := repeat (progress wrun_step H).
