(* ===== verification/Canonical.v ===== *)
(** * utils: canonical forms of addresses and transaction hashes

    [utils/canonical.go], [utils/address.go] and [utils/conversion.go].  Votes
    are counted per ballot key, and a key is derived from strings observed on
    other chains; these functions choose one spelling per value.  The EIP-55
    checksum, the EVM address test and the base58 decoder are libraries and
    parameters here. *)
From S2P Require Import Prelude GoStrings UvTypes.
From Stdlib Require Import Ascii.
From Stdlib Require String.

(** [go-ethereum/common] and [mr-tron/base58]. *)
Class ChainCodecs : Type := {
  IsHexAddress : string → bool;
  ChecksumHex : string → string;            (* [HexToAddress(s).Hex()] *)
  FromHex : string → bytes;
  base58_Decode : string → res (list Z);
}.
(** Documented behaviour: the checksummed form of an address is an address, has
    no surrounding white space, and is its own checksummed form; base58 decodes to
    bytes. *)
Class ChainCodecsLaws `{ChainCodecs} : Prop := {
  checksum_is_address s : IsHexAddress s = true → IsHexAddress (ChecksumHex s) = true;
  checksum_idemp s : IsHexAddress s = true → ChecksumHex (ChecksumHex s) = ChecksumHex s;
  checksum_trimmed s : IsHexAddress s = true → TrimSpace (ChecksumHex s) = ChecksumHex s;
  checksum_nonempty s : IsHexAddress s = true → ChecksumHex s ≠ "";
  base58_bytes s raw : base58_Decode s = Ok raw → Forall (λ z, 0 ≤ z < 256) raw;
}.

Definition namespaceEVM : string := "eip155".
Definition namespaceSolana : string := "solana".
Definition base58Alphabet : string := "123456789ABCDEFGHJKLMNPQRSTUVWXYZabcdefghijkmnopqrstuvwxyz".

(** [strings.SplitN(s, ":", 2)] has two parts exactly when [s] has a colon. *)
Fixpoint split_colon (l : bytes) : option (bytes * bytes) :=
  match l with
  | [] => None
  | c :: l' => if decide (c = ":"%char) then Some ([], l')
               else '(a, b) ← split_colon l'; Some (c :: a, b)
  end.
Definition CAIP2Namespace (chain : string) : string :=
  match split_colon (to_bytes (TrimSpace chain)) with
  | Some (a, _) => of_bytes a
  | None => ""
  end.

Definition isHexString (s : string) : bool :=
  if decide (s = "") then false else bool_decide (is_Some (hex_decode (to_bytes s))).
(** A rune outside ASCII is not in the alphabet, so testing the bytes is testing
    the runes. *)
Definition isBase58String (s : string) : bool :=
  if decide (s = "") then false else forallb (λ c, bool_decide (c ∈ to_bytes base58Alphabet)) (to_bytes s).
Definition strip0x (s : string) : string * bool :=
  match to_bytes s with
  | c0 :: c1 :: rest =>
      if decide (c0 = "0"%char ∧ (c1 = "x"%char ∨ c1 = "X"%char)) then (of_bytes rest, true) else (s, false)
  | _ => (s, false)
  end.
Definition with0x (body : string) : string := "0x" +:+ ToLower body.

Section canonical.
Context `{ChainCodecs}.

Definition CanonicalizeEVMAddress (s : string) : res string :=
  let s := TrimSpace s in
  if IsHexAddress s then Ok (ChecksumHex s) else Err "invalid EVM address: must be 20-byte hex".

Definition CanonicalizeEVMHash (s : string) : res string :=
  let s := TrimSpace s in
  let '(body, _) := strip0x s in
  if negb (bool_decide (length (to_bytes body) = 64%nat)) || negb (isHexString body)
  then Err "invalid EVM tx hash: must be 32-byte hex"
  else Ok (with0x body).

Definition even_length (s : string) : bool := Nat.even (length (to_bytes s)).

Definition CanonicalizeHexBlob (s : string) : string :=
  let s := TrimSpace s in
  if decide (s = "") then ""
  else
    let '(body, _) := strip0x s in
    if even_length body && isHexString body then with0x body else s.

Definition canonicalizeSolanaValue (s : string) : res string :=
  let s := TrimSpace s in
  let '(body, had0x) := strip0x s in
  if had0x && even_length body && isHexString body then Ok (with0x body)
  else if isBase58String s then Ok s
  else Err "invalid solana value: neither 0x-hex nor base58".

Definition canonicalizeSolanaTxHash (s : string) : res string :=
  canon ← canonicalizeSolanaValue s;
  if String.prefix "0x" canon then Ok canon
  else match base58_Decode canon with
       | Ok raw => if decide (length raw = 64%nat) then Ok ("0x" +:+ of_bytes (hex_encode raw)) else Ok canon
       | _ => Ok canon
       end.

Definition CanonicalizeAddressByNamespace (chain addr : string) : res string :=
  let addr := TrimSpace addr in
  if decide (addr = "") then Ok ""
  else if decide (CAIP2Namespace chain = namespaceEVM) then CanonicalizeEVMAddress addr
  else if decide (CAIP2Namespace chain = namespaceSolana) then canonicalizeSolanaValue addr
  else Ok addr.

Definition CanonicalizeTxHashByNamespace (chain txHash : string) : res string :=
  let txHash := TrimSpace txHash in
  if decide (txHash = "") then Ok ""
  else if decide (CAIP2Namespace chain = namespaceEVM) then CanonicalizeEVMHash txHash
  else if decide (CAIP2Namespace chain = namespaceSolana) then canonicalizeSolanaTxHash txHash
  else Ok txHash.

(** The lenient variants fall back to the trimmed input. *)
Definition lenient (r : res string) (s : string) : string :=
  match r with Ok canon => canon | _ => TrimSpace s end.
Definition LenientCanonicalizeAddress (chain addr : string) : string :=
  lenient (CanonicalizeAddressByNamespace chain addr) addr.
Definition LenientCanonicalizeTxHash (chain txHash : string) : string :=
  lenient (CanonicalizeTxHashByNamespace chain txHash) txHash.
Definition LenientCanonicalizeEVMAddress (addr : string) : string :=
  lenient (CanonicalizeEVMAddress addr) addr.
End canonical.

(** ** [utils/address.go] and [utils/conversion.go] *)
Section addresses.
Context `{Bech32, ChainCodecs}.
Inductive AddressType := COSMOS | HEX | EITHER.

Definition ConvertAnyAddressToBytes (addr : string) : res bytes :=
  if decide (addr = "") then Ok (replicate 20 Ascii.zero)
  else if IsHexAddress addr then Ok (FromHex addr)
  else to_bytes <$> AccAddressFromBech32 addr.

Definition IsValidAddress (addr : string) (at_ : AddressType) : bool :=
  match at_ with
  | COSMOS => is_ok (AccAddressFromBech32 addr)
  | HEX => IsHexAddress addr
  | EITHER => is_ok (ConvertAnyAddressToBytes addr)
  end.

(** [strings.TrimPrefix(s, "0x")] *)
Definition TrimPrefix0x (s : string) : string :=
  match to_bytes s with
  | c0 :: c1 :: rest => if decide (c0 = "0"%char ∧ c1 = "x"%char) then of_bytes rest else s
  | _ => s
  end.
Definition HexToBytes (s : string) : res (list Z) :=
  match hex_decode (to_bytes (TrimPrefix0x s)) with
  | Some l => Ok l
  | None => Err "encoding/hex: invalid"
  end.
End addresses.

(** ** Properties of the canonical forms *)

(** Hex digits are not white space, so a [0x] string has nothing to trim. *)
Definition solid (c : ascii) : bool := forallb (λ p, match p with a :: _ => negb (bool_decide (a = c)) | [] => false end) spaces
  && forallb (λ p, match rev p with a :: _ => negb (bool_decide (a = c)) | [] => false end) spaces.

Lemma solid_hex c x : hexval c = Some x → solid (lower c) = true.
Proof.
  intros Hx. assert (match hexval c with Some _ => solid (lower c) | None => true end = true) as Hc.
  { clear Hx. revert c. apply (ascii_forall (λ c, match hexval c with Some _ => solid (lower c) | None => true end)).
    vm_compute. reflexivity. }
  by rewrite Hx in Hc.
Qed.
Lemma strip_any_solid_hd c l :
  solid c = true → strip_any spaces (c :: l) = None.
Proof.
  intros [Hs _]%andb_true_iff. apply strip_any_None. intros p Hp Hpre.
  eapply forallb_forall in Hs; [|by apply list_elem_of_In].
  destruct p as [|a p]; [done|]. apply prefix_cons_inv_1 in Hpre as ->.
  by rewrite bool_decide_eq_true_2 in Hs.
Qed.
Lemma strip_any_solid_tl c l :
  solid c = true → strip_any (map (@rev ascii) spaces) (c :: l) = None.
Proof.
  intros [_ Hs]%andb_true_iff. apply strip_any_None. intros p Hp Hpre.
  apply list_elem_of_In, in_map_iff in Hp as (q & <- & Hq).
  eapply forallb_forall in Hs; [|done].
  destruct (rev q) as [|a q']; [done|]. apply prefix_cons_inv_1 in Hpre as ->.
  by rewrite bool_decide_eq_true_2 in Hs.
Qed.

(** A string whose first and last bytes are solid has nothing to trim. *)
Lemma TrimSpace_solid s a l b :
  to_bytes s = a :: l → last (a :: l) = Some b → solid a = true → solid b = true → TrimSpace s = s.
Proof.
  intros Hs Hl Ha Hb. unfold TrimSpace. rewrite Hs.
  rewrite (trim_left_fix spaces) by (by apply strip_any_solid_hd).
  unfold trim_right. apply last_Some in Hl as [l' Hl']. rewrite Hl', rev_app_distr. cbn [rev app].
  rewrite trim_left_fix by (by apply strip_any_solid_tl). cbn [rev]. rewrite rev_involutive.
  rewrite <- Hl', <- Hs. apply of_to_bytes.
Qed.

Lemma isHexString_spec s :
  isHexString s = true ↔ s ≠ "" ∧ ∃ r, hex_decode (to_bytes s) = Some r.
Proof. unfold isHexString. case_decide; [naive_solver|]. rewrite bool_decide_eq_true. naive_solver. Qed.

Lemma to_bytes_ToLower s : to_bytes (ToLower s) = lower <$> to_bytes s.
Proof. unfold ToLower. by rewrite to_of_bytes. Qed.
Lemma ToLower_idemp s : ToLower (ToLower s) = ToLower s.
Proof.
  apply to_bytes_inj. rewrite !to_bytes_ToLower, <- list_fmap_compose.
  apply list_fmap_ext. intros _ c _. apply lower_idemp.
Qed.
Lemma to_bytes_nil s : to_bytes s = [] ↔ s = "".
Proof. by destruct s. Qed.
Lemma isHexString_ToLower s : isHexString (ToLower s) = isHexString s.
Proof.
  apply eq_bool_prop_intro. rewrite !Is_true_true. rewrite !isHexString_spec, to_bytes_ToLower, hex_decode_lower.
  rewrite <- !to_bytes_nil, to_bytes_ToLower. destruct (to_bytes s) as [|c l]; [done|]. split; intros [_ ?]; by split.
Qed.
Lemma length_ToLower s : length (to_bytes (ToLower s)) = length (to_bytes s).
Proof. by rewrite to_bytes_ToLower, length_fmap. Qed.
Lemma strip0x_with0x s : strip0x (with0x s) = (ToLower s, true).
Proof.
  unfold strip0x, with0x. rewrite to_bytes_app. cbn. rewrite decide_True by auto. by rewrite of_to_bytes.
Qed.

Lemma hex_decode_elem l r c : hex_decode l = Some r → c ∈ l → ∃ x, hexval c = Some x.
Proof.
  revert l r. fix IH 1. intros [|a [|b l]] r; cbn; [by intros _ ?%elem_of_nil|done|].
  destruct (hexval a) as [x|] eqn:Ha; [|done]. destruct (hexval b) as [y|] eqn:Hb; [|done]. cbn.
  destruct (hex_decode l) as [r'|] eqn:Hl; [|done]. intros _ Hin.
  apply elem_of_cons in Hin as [Hc|Hin]; [exists x; congruence|].
  apply elem_of_cons in Hin as [Hc|Hin]; [exists y; congruence|]. by apply (IH l r').
Qed.

(** A [0x] form is a fixed point of every canonicalization step. *)
Lemma TrimSpace_with0x s : isHexString s = true → TrimSpace (with0x s) = with0x s.
Proof.
  intros [Hne [r Hr]]%isHexString_spec.
  destruct (last (to_bytes s)) as [c|] eqn:Hl.
  2: { apply last_None in Hl. by apply to_bytes_nil in Hl. }
  assert (∃ x, hexval c = Some x) as [x Hx].
  { eapply hex_decode_elem; [done|]. apply last_Some in Hl as [l' ->]. apply elem_of_app. right. left. }
  eapply (TrimSpace_solid _ "0"%char ("x"%char :: (lower <$> to_bytes s)) (lower c)).
  - unfold with0x. by rewrite to_bytes_app, to_bytes_ToLower.
  - apply last_Some in Hl as [l' ->]. rewrite fmap_app.
    exact (last_snoc (lower c) ("0"%char :: "x"%char :: (lower <$> l'))).
  - by vm_compute.
  - by eapply solid_hex.
Qed.
Lemma with0x_ToLower s : with0x (ToLower s) = with0x s.
Proof. unfold with0x. by rewrite ToLower_idemp. Qed.
Lemma with0x_nonempty s : with0x s ≠ "".
Proof. done. Qed.

Lemma prefix_with0x s : String.prefix "0x" (with0x s) = true.
Proof. unfold with0x. cbn. by destruct (ToLower s). Qed.

Section properties.
Context `{ChainCodecs, !ChainCodecsLaws}.

Lemma EVMHash_fixed s a : CanonicalizeEVMHash s = Ok a → a ≠ "" ∧ TrimSpace a = a ∧ CanonicalizeEVMHash a = Ok a.
Proof.
  unfold CanonicalizeEVMHash. destruct (strip0x (TrimSpace s)) as [body h0].
  destruct (bool_decide _) eqn:Hlen; [|done]. destruct (isHexString body) eqn:Hx; [|done]. cbn.
  intros [= <-]. rewrite TrimSpace_with0x, strip0x_with0x by done.
  split_and!; [done..|]. rewrite length_ToLower, Hlen, isHexString_ToLower, Hx. cbn. by rewrite with0x_ToLower.
Qed.

Lemma SolanaValue_fixed s a :
  canonicalizeSolanaValue s = Ok a → a ≠ "" ∧ TrimSpace a = a ∧ canonicalizeSolanaValue a = Ok a.
Proof.
  unfold canonicalizeSolanaValue. destruct (strip0x (TrimSpace s)) as [body h0] eqn:Hs.
  destruct (h0 && even_length body && isHexString body) eqn:Hx.
  - intros [= <-]. apply andb_true_iff in Hx as [[-> Hev]%andb_true_iff Hx].
    rewrite TrimSpace_with0x, strip0x_with0x by done. split_and!; [done..|].
    unfold even_length in *. by rewrite length_ToLower, Hev, isHexString_ToLower, Hx, with0x_ToLower.
  - destruct (isBase58String (TrimSpace s)) eqn:Hb; [|done]. intros [= <-].
    rewrite TrimSpace_idemp, Hs, Hx, Hb. split_and!; try done.
    intros He. by rewrite He in Hb.
Qed.

Lemma hex_encode_decode raw :
  Forall (λ z, 0 ≤ z < 256) raw → hex_decode (hex_encode raw) = Some raw.
Proof.
  induction 1 as [|z raw Hz _ IH]; [done|].
  change (hex_encode (z :: raw)) with (hexdigit (z / 16) :: hexdigit (z mod 16) :: hex_encode raw).
  cbn [hex_decode].
  assert (∀ x, 0 ≤ x < 16 → hexval (hexdigit x) = Some x) as Hd.
  { intros x Hx. assert (x ∈ seqZ 0 16) as Hin by (apply elem_of_seqZ; lia).
    assert (forallb (λ x, bool_decide (hexval (hexdigit x) = Some x)) (seqZ 0 16) = true) as Hall
      by (vm_compute; reflexivity).
    eapply forallb_forall in Hall; [|by apply list_elem_of_In]. by apply bool_decide_eq_true in Hall. }
  rewrite !Hd by (pose proof (Z.mod_pos_bound z 16); pose proof (Z.div_pos z 16);
                  pose proof (Z.div_lt_upper_bound z 16 16); lia).
  cbn [mbind option_bind]. rewrite IH. cbn [mbind option_bind]. by rewrite <- Z.div_mod.
Qed.

Lemma SolanaTxHash_fixed s a :
  canonicalizeSolanaTxHash s = Ok a → a ≠ "" ∧ TrimSpace a = a ∧ canonicalizeSolanaTxHash a = Ok a.
Proof.
  unfold canonicalizeSolanaTxHash. intros (v & Hv & Ha)%res_bind_ok.
  destruct (SolanaValue_fixed s v Hv) as (Hne & Ht & Hf).
  assert (a = v ∨ ∃ raw, base58_Decode v = Ok raw ∧ length raw = 64%nat ∧ a = "0x" +:+ of_bytes (hex_encode raw))
    as [->|(raw & Hraw & Hlen & ->)].
  { destruct (String.prefix "0x" v); [injection Ha as <-; by left|].
    destruct (base58_Decode v) as [raw| |] eqn:Hr; [|injection Ha as <-; by left..].
    case_decide; injection Ha as <-; [right; by exists raw|by left]. }
  { split_and!; try done. rewrite Hf. cbn. done. }
  pose proof (hex_encode_decode raw (base58_bytes _ _ Hraw)) as Hd.
  set (body := of_bytes (hex_encode raw)).
  assert (to_bytes body = hex_encode raw) as Hbody by apply to_of_bytes.
  assert (ToLower body = body) as Hlow.
  { apply to_bytes_inj. rewrite to_bytes_ToLower, Hbody. by apply hex_decode_encode. }
  assert (isHexString body = true) as Hhex.
  { apply isHexString_spec. rewrite Hbody. split; [|by eauto]. rewrite <- to_bytes_nil, Hbody.
    by destruct raw. }
  assert (even_length body = true) as Hev.
  { unfold even_length. rewrite Hbody. clear -Hlen. revert Hlen. generalize 64%nat. 
    intros n _. induction raw as [|z raw IH]; [done|]. cbn. exact IH. }
  rewrite <- Hlow. fold (with0x body). rewrite TrimSpace_with0x by done. split_and!; [done..|].
  unfold canonicalizeSolanaValue. rewrite TrimSpace_with0x, strip0x_with0x, Hlow, Hev, Hhex by done.
 cbn [andb mbind res_bind]. by rewrite prefix_with0x.
Qed.

(** For every chain and every input, malformed ones included, the lenient forms
    of an address and of a transaction hash are fixed points. *)
Lemma lenient_idempotent chain s :
  LenientCanonicalizeAddress chain (LenientCanonicalizeAddress chain s) = LenientCanonicalizeAddress chain s ∧
  LenientCanonicalizeTxHash chain (LenientCanonicalizeTxHash chain s) = LenientCanonicalizeTxHash chain s ∧
  LenientCanonicalizeEVMAddress (LenientCanonicalizeEVMAddress s) = LenientCanonicalizeEVMAddress s.
Proof.
  assert (∀ F : string → res string,
    (∀ x, F (TrimSpace x) = F x) → (∀ x a, F x = Ok a → F a = Ok a) →
    lenient (F (lenient (F s) s)) (lenient (F s) s) = lenient (F s) s) as Hgen.
  { intros F Htrim Hfix. destruct (F s) as [a|e|e] eqn:Hs; cbn.
    - by rewrite (Hfix s a Hs).
    - rewrite Htrim, Hs. cbn. apply TrimSpace_idemp.
    - rewrite Htrim, Hs. cbn. apply TrimSpace_idemp. }
  assert (∀ x a, CanonicalizeEVMAddress x = Ok a → a ≠ "" ∧ TrimSpace a = a ∧ CanonicalizeEVMAddress a = Ok a) as Hevm.
  { intros x a. unfold CanonicalizeEVMAddress. destruct (IsHexAddress (TrimSpace x)) eqn:Hx; [|done].
    intros [= <-]. rewrite checksum_trimmed, checksum_is_address, checksum_idemp by done.
    split_and!; try done. by apply checksum_nonempty. }
  split_and!.
  - apply (Hgen (CanonicalizeAddressByNamespace chain)).
    + intros x. unfold CanonicalizeAddressByNamespace. by rewrite TrimSpace_idemp.
    + intros x a Ha. unfold CanonicalizeAddressByNamespace in *.
      destruct (decide (TrimSpace x = "")); [by injection Ha as <-|].
      destruct (decide (CAIP2Namespace chain = namespaceEVM)).
      { destruct (Hevm _ _ Ha) as (? & -> & ?). by rewrite decide_False. }
      destruct (decide (CAIP2Namespace chain = namespaceSolana)).
      { destruct (SolanaValue_fixed _ _ Ha) as (? & -> & ?). by rewrite decide_False. }
      injection Ha as <-. rewrite TrimSpace_idemp. by rewrite decide_False.
  - apply (Hgen (CanonicalizeTxHashByNamespace chain)).
    + intros x. unfold CanonicalizeTxHashByNamespace. by rewrite TrimSpace_idemp.
    + intros x a Ha. unfold CanonicalizeTxHashByNamespace in *.
      destruct (decide (TrimSpace x = "")); [by injection Ha as <-|].
      destruct (decide (CAIP2Namespace chain = namespaceEVM)).
      { destruct (EVMHash_fixed _ _ Ha) as (? & -> & ?). by rewrite decide_False. }
      destruct (decide (CAIP2Namespace chain = namespaceSolana)).
      { destruct (SolanaTxHash_fixed _ _ Ha) as (? & -> & ?). by rewrite decide_False. }
      injection Ha as <-. rewrite TrimSpace_idemp. by rewrite decide_False.
  - apply Hgen; [|intros x a Ha; by destruct (Hevm x a Ha) as (_ & _ & ?)].
    intros x. unfold CanonicalizeEVMAddress. by rewrite TrimSpace_idemp.
Qed.

Lemma CanonicalizeHexBlob_idemp s : CanonicalizeHexBlob (CanonicalizeHexBlob s) = CanonicalizeHexBlob s.
Proof.
  unfold CanonicalizeHexBlob. destruct (decide (TrimSpace s = "")) as [Hs|Hs]; [done|].
  destruct (strip0x (TrimSpace s)) as [body h0] eqn:Hb.
  destruct (even_length body && isHexString body) eqn:Hx.
  - apply andb_true_iff in Hx as [Hev Hx]. rewrite TrimSpace_with0x, decide_False, strip0x_with0x by done.
    unfold even_length in *. by rewrite length_ToLower, Hev, isHexString_ToLower, Hx, with0x_ToLower.
  - rewrite TrimSpace_idemp, decide_False by done. by rewrite Hb, Hx.
Qed.

(** The 32 bytes an accepted EVM transaction hash denotes. *)
Definition hash_bytes (s : string) : option (list Z) := hex_decode (to_bytes (strip0x (TrimSpace s)).1).

(** Two accepted spellings of an EVM transaction hash get the same canonical
    form exactly when they denote the same bytes: letter case, the [0x] prefix
    and white space never split a ballot, and different hashes never share a
    form. *)
Theorem EVMHash_faithful s t a b :
  CanonicalizeEVMHash s = Ok a → CanonicalizeEVMHash t = Ok b →
  a = b ↔ hash_bytes s = hash_bytes t.
Proof.
  assert (∀ x c, CanonicalizeEVMHash x = Ok c →
            ∃ r, hash_bytes x = Some r ∧ to_bytes c = "0"%char :: "x"%char :: hex_encode r ∧
                 hex_decode (hex_encode r) = Some r) as Hform.
  { intros x c. unfold CanonicalizeEVMHash, hash_bytes. destruct (strip0x (TrimSpace x)) as [body h0]. cbn [fst].
    destruct (bool_decide _); [|done]. destruct (isHexString body) eqn:Hx; [|done]. cbn [negb orb]. intros [= <-].
    apply isHexString_spec in Hx as [_ [r Hr]]. exists r. rewrite Hr. split; [done|].
    rewrite <- (hex_decode_encode _ _ Hr), hex_decode_lower. split; [|done].
    unfold with0x. by rewrite to_bytes_app, to_bytes_ToLower. }
  intros (r & Hr & Ha & Hd)%Hform (r' & Hr' & Hb & Hd')%Hform. rewrite Hr, Hr'. split.
  - intros ->. rewrite Ha in Hb. injection Hb as Hb. rewrite Hb in Hd. congruence.
  - intros [= ->]. apply to_bytes_inj. by rewrite Ha, Hb.
Qed.
End properties.
