(* ===== verification/UvValidator.v ===== *)
(** * x/uvalidator: the universal validator set and its lifecycle

    [keeper/validator.go], the validator messages of [keeper/msg_*.go] and
    [keeper/msg_server.go], and the staking hooks of [keeper/staking_hooks.go].
    A validator moves between the states of [UV.UVStatus]; every move appends to
    its history.  Other modules react through [UValidatorHooks]. *)
From S2P Require Import Prelude GoStrings UvTypes TssTypes UxTypes RegTypes World.

Definition ErrNotFound : error := "collections: not found".

(** ** Operations *)
Section operations.
Context {E : Type} `{Bech32, SK : StakingKeeper, UH : UValidatorHooks E, UK : UtssKeeper E}.
Implicit Types ctx : Ctx.
#[local] Abbreviation M := (M (World E)).

(** The walk callback of [GetEligibleVoters]. *)
Definition eligible_voter (kv : string * UV.UniversalValidator) : res bool :=
  let '(addr, val) := kv in
  l ← deref_res (UV.LifecycleInfoOf val);
  match UV.CurrentStatus l with
  | UV.UV_STATUS_ACTIVE | UV.UV_STATUS_PENDING_JOIN =>
      match GetValidator addr with
      | None => mret false
      | Some sv =>
          if IsBonded sv then
            match GetConsAddr sv with
            | None => mret false
            | Some consAddr => mret (negb (IsTombstoned consAddr))
            end
          else mret false
      end
  | _ => mret false
  end.

Definition GetAllUniversalValidators : M (list UV.UniversalValidator) :=
  get_uv (λ s, walk_values (UniversalValidatorSet s)).

Definition has_status (status : UV.UVStatus) (kv : string * UV.UniversalValidator) : res bool :=
  l ← deref_res (UV.LifecycleInfoOf kv.2); mret (bool_decide (UV.CurrentStatus l = status)).

Definition GetValidatorsByStatus (status : UV.UVStatus) : M (list UV.UniversalValidator) :=
  s ← get_uv UniversalValidatorSet;
  vs ← lift_res (res_filter (has_status status) (walk s));
  mret vs.*2.

Definition GetEligibleVoters : M (list UV.UniversalValidator) :=
  s ← get_uv UniversalValidatorSet;
  vs ← lift_res (res_filter eligible_voter (walk s));
  mret vs.*2.

Definition get_validator (addr : string) (e : error) : M UV.UniversalValidator :=
  s ← get_uv UniversalValidatorSet; lift_option (s !! addr) e.
Definition put_validator (addr : string) (v : UV.UniversalValidator) : M unit :=
  set_uv (λ s, s <| UniversalValidatorSet ::= insert addr v |>).

Definition validateStatusTransition (from to : UV.UVStatus) : res unit :=
  match to with
  | UV.UV_STATUS_PENDING_LEAVE =>
      check (bool_decide (from = UV.UV_STATUS_ACTIVE))
        ("invalid transition: can only become PENDING_LEAVE from ACTIVE, got "
         +:+ UV.UVStatus_String from +:+ " → " +:+ UV.UVStatus_String to)
  | _ => Ok tt
  end.

Definition UpdateValidatorStatus ctx (addr : string) (newStatus : UV.UVStatus)
    (reason : UV.TransitionReason) : M unit :=
  val ← get_validator addr ("validator " +:+ ValAddress_String addr +:+ " not found");
  li ← deref (UV.LifecycleInfoOf val);
  lift_res (validateStatusTransition (UV.CurrentStatus li) newStatus) ;;
  let event := UV.mkLifecycleEvent newStatus (BlockHeight ctx) reason in
  put_validator addr (val <| UV.LifecycleInfoOf :=
    Some (UV.mkLifecycleInfo newStatus (UV.History li ++ [event])) |>).

Definition HandleBaseValidatorUnbonding ctx (valAddr : string) : M unit :=
  s ← get_uv UniversalValidatorSet;
  match s !! valAddr with
  | None => mret tt
  | Some val =>
      li ← deref (UV.LifecycleInfoOf val);
      let oldStatus := UV.CurrentStatus li in
      match (match oldStatus with
             | UV.UV_STATUS_ACTIVE => Some UV.UV_STATUS_PENDING_LEAVE
             | UV.UV_STATUS_PENDING_JOIN => Some UV.UV_STATUS_INACTIVE
             | _ => None
             end) with
      | None => mret tt
      | Some newStatus =>
          r ← attempt (UpdateValidatorStatus ctx valAddr newStatus UV.TRANSITION_REASON_STAKING_HOOK);
          match r with
          | Ok _ =>
              AfterValidatorStatusChanged ctx valAddr oldStatus newStatus ;;
              AfterValidatorRemoved ctx valAddr
          | _ => mret tt      (* logged and swallowed *)
          end
      end
  end.

Definition HandleBaseValidatorBonded ctx (valAddr : string) : M unit :=
  s ← get_uv UniversalValidatorSet;
  match s !! valAddr with
  | None => mret tt
  | Some val =>
      li ← deref (UV.LifecycleInfoOf val);
      let oldStatus := UV.CurrentStatus li in
      match (match oldStatus with
             | UV.UV_STATUS_PENDING_LEAVE => Some UV.UV_STATUS_ACTIVE
             | UV.UV_STATUS_INACTIVE => Some UV.UV_STATUS_PENDING_JOIN
             | _ => None
             end) with
      | None => mret tt
      | Some newStatus =>
          if decide (UV.Reason <$> last (UV.History li) = Some UV.TRANSITION_REASON_STAKING_HOOK)
          then
            r ← attempt (UpdateValidatorStatus ctx valAddr newStatus UV.TRANSITION_REASON_STAKING_HOOK);
            match r with
            | Ok _ =>
                AfterValidatorStatusChanged ctx valAddr oldStatus newStatus ;;
                AfterValidatorAdded ctx valAddr
            | _ => mret tt    (* logged and swallowed *)
            end
          else mret tt
      end
  end.

Definition GetUniversalValidator (addr : string) : M (option UV.UniversalValidator) :=
  s ← get_uv UniversalValidatorSet; mret (s !! addr).

Definition IsActiveUniversalValidator (validatorOperatorAddr : string) : M bool :=
  valAddr ← lift_res (ValAddressFromBech32 validatorOperatorAddr);
  s ← get_uv UniversalValidatorSet;
  match s !! valAddr with
  | None => mret false
  | Some v =>
      li ← deref (UV.LifecycleInfoOf v);
      mret (bool_decide (UV.CurrentStatus li = UV.UV_STATUS_ACTIVE))
  end.

Definition AddUniversalValidator ctx (coreValidatorAddr : string)
    (networkInfo : UV.NetworkInfo) : M unit :=
  valAddr ← wrap "invalid core validator address" (lift_res (ValAddressFromBech32 coreValidatorAddr));
  validator ← lift_option (GetValidator valAddr) "core validator not found";
  require (IsBonded validator) ("validator " +:+ coreValidatorAddr +:+ " is not bonded") ;;
  s ← get_uv UniversalValidatorSet;
  match s !! valAddr with
  | Some existingVal =>
      li ← deref (UV.LifecycleInfoOf existingVal);
      match UV.CurrentStatus li with
      | UV.UV_STATUS_INACTIVE =>
          let event := UV.mkLifecycleEvent UV.UV_STATUS_PENDING_JOIN (BlockHeight ctx)
                         UV.TRANSITION_REASON_UNSPECIFIED in
          put_validator valAddr
            (existingVal
               <| UV.LifecycleInfoOf := Some (UV.mkLifecycleInfo UV.UV_STATUS_PENDING_JOIN
                                                (UV.History li ++ [event])) |>
               <| UV.NetworkInfoOf := Some networkInfo |>) ;;
          AfterValidatorStatusChanged ctx valAddr UV.UV_STATUS_INACTIVE UV.UV_STATUS_PENDING_JOIN ;;
          AfterValidatorAdded ctx valAddr
      | st => throw ("validator " +:+ coreValidatorAddr +:+ " already registered with status "
                     +:+ UV.UVStatus_String st)
      end
  | None =>
      let initialStatus := UV.UV_STATUS_PENDING_JOIN in
      put_validator valAddr {|
        UV.IdentifyInfo := Some (UV.mkIdentityInfo coreValidatorAddr);
        UV.LifecycleInfoOf := Some (UV.mkLifecycleInfo initialStatus
          [UV.mkLifecycleEvent initialStatus (BlockHeight ctx) UV.TRANSITION_REASON_UNSPECIFIED]);
        UV.NetworkInfoOf := Some networkInfo |} ;;
      AfterValidatorStatusChanged ctx valAddr UV.UV_STATUS_UNSPECIFIED UV.UV_STATUS_PENDING_JOIN ;;
      AfterValidatorAdded ctx valAddr
  end.

Definition RemoveUniversalValidator ctx (universalValidatorAddr : string) : M unit :=
  valAddr ← wrap "invalid universal validator address"
              (lift_res (ValAddressFromBech32 universalValidatorAddr));
  val ← get_validator valAddr ("universal validator " +:+ universalValidatorAddr +:+ " not found");
  li ← deref (UV.LifecycleInfoOf val);
  let oldStatus := UV.CurrentStatus li in
  newStatus ←
    match oldStatus with
    | UV.UV_STATUS_ACTIVE =>
        isOngoingTSS ← wrap "failed to check TSS state" (HasOngoingTss ctx);
        require (negb isOngoingTSS) "cannot remove active validator: TSS process is ongoing" ;;
        wrap ("failed to mark validator " +:+ universalValidatorAddr +:+ " as pending leave")
          (UpdateValidatorStatus ctx valAddr UV.UV_STATUS_PENDING_LEAVE UV.TRANSITION_REASON_ADMIN) ;;
        mret UV.UV_STATUS_PENDING_LEAVE
    | UV.UV_STATUS_PENDING_JOIN =>
        currentParticipants ← wrap "failed to fetch current TSS participants"
                                (GetCurrentTssParticipants ctx);
        require (bool_decide (universalValidatorAddr ∉ currentParticipants))
          ("validator " +:+ universalValidatorAddr
           +:+ " is part of the current TSS process and cannot be removed") ;;
        wrap ("failed to inactivate validator " +:+ universalValidatorAddr)
          (UpdateValidatorStatus ctx valAddr UV.UV_STATUS_INACTIVE UV.TRANSITION_REASON_ADMIN) ;;
        mret UV.UV_STATUS_INACTIVE
    | UV.UV_STATUS_PENDING_LEAVE | UV.UV_STATUS_INACTIVE =>
        throw ("validator " +:+ universalValidatorAddr +:+ " is already in "
               +:+ UV.UVStatus_String oldStatus +:+ " state")
    | _ => throw ("invalid lifecycle state for removal: " +:+ UV.UVStatus_String oldStatus)
    end;
  AfterValidatorStatusChanged ctx valAddr oldStatus newStatus ;;
  AfterValidatorRemoved ctx valAddr.

Definition UpdateUniversalValidator ctx (coreValidatorAddr : string)
    (networkInfo : UV.NetworkInfo) : M unit :=
  valAddr ← wrap "invalid core validator address" (lift_res (ValAddressFromBech32 coreValidatorAddr));
  _ ← lift_option (GetValidator valAddr) "core validator not found";
  existingVal ← get_validator valAddr ("validator " +:+ coreValidatorAddr +:+ " does not exist");
  put_validator valAddr (existingVal <| UV.NetworkInfoOf := Some networkInfo |>).

Definition UpdateUniversalValidatorStatus ctx (coreValidatorAddr : string)
    (newStatus : UV.UVStatus) : M unit :=
  isOngoingTSS ← wrap "failed to check TSS state" (HasOngoingTss ctx);
  require (negb isOngoingTSS) "cannot update validator status: TSS process is ongoing" ;;
  valAddr ← wrap "invalid universal validator address" (lift_res (ValAddressFromBech32 coreValidatorAddr));
  val ← get_validator valAddr ("universal validator " +:+ coreValidatorAddr +:+ " not found");
  li ← deref (UV.LifecycleInfoOf val);
  match UV.CurrentStatus li with
  | UV.UV_STATUS_PENDING_LEAVE =>
      require (bool_decide (newStatus = UV.UV_STATUS_ACTIVE))
        "invalid new status, new status must be ACTIVE" ;;
      wrap ("failed to mark validator " +:+ coreValidatorAddr +:+ " as active")
        (UpdateValidatorStatus ctx valAddr newStatus UV.TRANSITION_REASON_ADMIN)
  | st => throw ("invalid current status: " +:+ UV.UVStatus_String st
                 +:+ ", current status must be PENDING_LEAVE")
  end ;;
  AfterValidatorStatusChanged ctx valAddr (UV.CurrentStatus li) newStatus.
End operations.

(** ** The lifecycle of a validator

    The arrows of the state machine, and the histories that follow them. *)
Inductive arrow : UV.UVStatus → UV.UVStatus → Prop :=
| arrow_activate : arrow UV.UV_STATUS_PENDING_JOIN UV.UV_STATUS_ACTIVE
| arrow_cancel_join : arrow UV.UV_STATUS_PENDING_JOIN UV.UV_STATUS_INACTIVE
| arrow_leave : arrow UV.UV_STATUS_ACTIVE UV.UV_STATUS_PENDING_LEAVE
| arrow_cancel_leave : arrow UV.UV_STATUS_PENDING_LEAVE UV.UV_STATUS_ACTIVE
| arrow_retire : arrow UV.UV_STATUS_PENDING_LEAVE UV.UV_STATUS_INACTIVE
| arrow_rejoin : arrow UV.UV_STATUS_INACTIVE UV.UV_STATUS_PENDING_JOIN.
#[export] Hint Constructors arrow : core.

(** [lifecycle hist st h]: [hist] records a walk along the arrows that starts
    with a join, ends in [st], and whose last event was recorded at [h]. *)
Inductive lifecycle : list UV.LifecycleEvent → UV.UVStatus → Z → Prop :=
| lifecycle_join h r :
    lifecycle [UV.mkLifecycleEvent UV.UV_STATUS_PENDING_JOIN h r] UV.UV_STATUS_PENDING_JOIN h
| lifecycle_move hist st h st' h' r :
    lifecycle hist st h → arrow st st' → h ≤ h' →
    lifecycle (hist ++ [UV.mkLifecycleEvent st' h' r]) st' h'.

Definition validator_ok `{Bech32} (h : Z) (addr : string) (v : UV.UniversalValidator) : Prop :=
  ∃ i n l h0, UV.IdentifyInfo v = Some i ∧ UV.NetworkInfoOf v = Some n ∧ UV.LifecycleInfoOf v = Some l ∧
    ValAddressFromBech32 (UV.CoreValidatorAddress i) = Ok addr ∧
    lifecycle (UV.History l) (UV.CurrentStatus l) h0 ∧ h0 ≤ h.

(** Every registered validator is well formed at height [h]. *)
Definition validators_inv `{Bech32} (h : Z) (s : UvState) : Prop :=
  map_Forall (validator_ok h) (UniversalValidatorSet s).

(** The lifecycle a validator record carries. *)
Definition status_of (v : UV.UniversalValidator) : option UV.UVStatus :=
  UV.CurrentStatus <$> UV.LifecycleInfoOf v.

Lemma lifecycle_last hist st h :
  lifecycle hist st h → ∃ r, last hist = Some (UV.mkLifecycleEvent st h r).
Proof. intros [h' r|hist' st0 h0 st' h' r _ _ _]; exists r; [done|apply last_snoc]. Qed.

Lemma lifecycle_known hist st h :
  lifecycle hist st h →
  UV.UVStatus_known st = true ∧ Forall (λ e, UV.UVStatus_known (UV.EventStatus e) = true) hist.
Proof.
  induction 1 as [h r|hist st h st' h' r _ [_ IH] Ha _]; [by repeat constructor|].
  assert (UV.UVStatus_known st' = true) by by destruct Ha.
  split; [done|]. apply Forall_app. by repeat constructor.
Qed.

Lemma heights_ordered_snoc hist e e' :
  UV.heights_ordered (hist ++ [e]) = true → UV.BlockHeight e ≤ UV.BlockHeight e' →
  UV.heights_ordered ((hist ++ [e]) ++ [e']) = true.
Proof.
  intros Ho He. induction hist as [|x [|y t] IH]; cbn in *.
  - by rewrite bool_decide_eq_true_2.
  - apply andb_true_iff in Ho as [-> _]. by rewrite bool_decide_eq_true_2.
  - apply andb_true_iff in Ho as [-> Ho]. cbn. apply IH, Ho.
Qed.

Lemma lifecycle_ordered hist st h : lifecycle hist st h → UV.heights_ordered hist = true.
Proof.
  induction 1 as [h r|hist st h st' h' r Hl IH Ha Hh]; [done|].
  destruct Hl as [h0 r0|hist0 st0 h0 st1 h1 r1].
  - cbn. by rewrite bool_decide_eq_true_2.
  - by apply heights_ordered_snoc.
Qed.

(** A recorded lifecycle passes the module's own validation. *)
Lemma lifecycle_valid l h :
  lifecycle (UV.History l) (UV.CurrentStatus l) h → UV.LifecycleInfo_ValidateBasic l = Ok tt.
Proof.
  intros Hl. unfold UV.LifecycleInfo_ValidateBasic.
  destruct (lifecycle_known _ _ _ Hl) as [-> Hk]. rewrite (lifecycle_ordered _ _ _ Hl).
  rewrite (proj2 (forallb_forall _ _)); [done|]. intros e He.
  rewrite Forall_forall in Hk. unfold UV.LifecycleEvent_ValidateBasic.
  by rewrite (Hk e) by (by apply list_elem_of_In).
Qed.

Section invariant.
Context {E : Type} `{Bech32, SK : StakingKeeper, UH : UValidatorHooks E, UK : UtssKeeper E}
  `{!UValidatorHooksLaws E, !UtssKeeperLaws E}.
Implicit Types (ctx : Ctx) (w : World E).

Lemma validators_inv_mono h h' s : h ≤ h' → validators_inv h s → validators_inv h' s.
Proof.
  intros Hh Hi a v Hv. destruct (Hi a v Hv) as (i & n & l & h0 & ? & ? & ? & ? & ? & ?).
  exists i, n, l, h0. split_and!; try done. lia.
Qed.

(** A move along an arrow, recorded at the current height. *)
Definition moved (v : UV.UniversalValidator) (l : UV.LifecycleInfo) (st : UV.UVStatus)
    (h : Z) (r : UV.TransitionReason) : UV.UniversalValidator :=
  v <| UV.LifecycleInfoOf :=
    Some (UV.mkLifecycleInfo st (UV.History l ++ [UV.mkLifecycleEvent st h r])) |>.

Lemma moved_ok h addr v l st r :
  validator_ok h addr v → UV.LifecycleInfoOf v = Some l → arrow (UV.CurrentStatus l) st →
  validator_ok h addr (moved v l st h r).
Proof.
  intros (i & n & l' & h0 & ? & ? & Hl & ? & Hlc & Hh) Hl' Ha. simplify_eq.
  eexists i, n, _, h. split_and!; try done. cbn. by econstructor.
Qed.

(** What an update does to the store, on every branch. *)
Lemma UpdateValidatorStatus_run ctx addr st r w :
  UpdateValidatorStatus ctx addr st r w =
  match UniversalValidatorSet (uv w) !! addr with
  | None => (Err ("validator " +:+ ValAddress_String addr +:+ " not found"), w)
  | Some v =>
      match UV.LifecycleInfoOf v with
      | None => (Panic "invalid memory address or nil pointer dereference", w)
      | Some l =>
          match validateStatusTransition (UV.CurrentStatus l) st with
          | Ok _ => (Ok tt, w <| uv ::= λ s, s <| UniversalValidatorSet ::=
                               insert addr (moved v l st (BlockHeight ctx) r) |> |>)
          | Err e => (Err e, w)
          | Panic e => (Panic e, w)
          end
      end
  end.
Proof.
  unfold UpdateValidatorStatus, get_validator, put_validator. mrun.
  destruct (_ !! addr) as [v|]; mrun; [|done].
  destruct (UV.LifecycleInfoOf v) as [l|]; mrun; [|done].
  by destruct (validateStatusTransition _ _); mrun.
Qed.

(** *** Steps of the validator set

    What one operation may do: nothing, or one change to one validator. *)
Inductive change (h : Z) (addr : string) : option UV.UniversalValidator → UV.UniversalValidator → Prop :=
| change_register c n r :
    ValAddressFromBech32 c = Ok addr →
    change h addr None (UV.mkUniversalValidator (Some (UV.mkIdentityInfo c)) (Some n)
      (Some (UV.mkLifecycleInfo UV.UV_STATUS_PENDING_JOIN
               [UV.mkLifecycleEvent UV.UV_STATUS_PENDING_JOIN h r])))
| change_network v n : change h addr (Some v) (v <| UV.NetworkInfoOf := Some n |>)
| change_move v l st r :
    UV.LifecycleInfoOf v = Some l → arrow (UV.CurrentStatus l) st →
    change h addr (Some v) (moved v l st h r)
| change_rejoin v l r n :
    UV.LifecycleInfoOf v = Some l → UV.CurrentStatus l = UV.UV_STATUS_INACTIVE →
    change h addr (Some v) ((moved v l UV.UV_STATUS_PENDING_JOIN h r) <| UV.NetworkInfoOf := Some n |>).

Definition with_validator (addr : string) (v : UV.UniversalValidator) (s : UvState) : UvState :=
  s <| UniversalValidatorSet ::= insert addr v |>.

Inductive uv_step (h : Z) : UvState → UvState → Prop :=
| uv_stutter s : uv_step h s s
| uv_change s addr v :
    change h addr (UniversalValidatorSet s !! addr) v → uv_step h s (with_validator addr v s).

Definition steps (h : Z) {A} (m : M (World E) A) : Prop := ∀ w, uv_step h (uv w) (uv (m w).2).

Lemma change_ok h addr o v :
  change h addr o v → (∀ v0, o = Some v0 → validator_ok h addr v0) → validator_ok h addr v.
Proof.
  intros [c n r Hc|v0 n|v0 l st r Hl Ha|v0 l r n Hl Hst] Ho.
  - eexists _, _, _, h. split_and!; try done. constructor.
  - destruct (Ho v0 eq_refl) as (i & n0 & l & h0 & ? & ? & ? & ? & ? & ?). by eexists i, n, l, h0.
  - apply moved_ok; auto.
  - destruct (moved_ok h addr v0 l UV.UV_STATUS_PENDING_JOIN r) as (i & n0 & l' & h0 & Hm);
      [by auto|done|by rewrite Hst|]. exists i, n, l', h0. by destruct Hm as (? & ? & ? & ? & ? & ?).
Qed.

(** A step keeps every validator well formed. *)
Lemma uv_step_inv h s s' : uv_step h s s' → validators_inv h s → validators_inv h s'.
Proof.
  intros [|s0 addr v Hc] Hi; [done|]. apply map_Forall_insert_2; [|done].
  apply (change_ok _ _ _ _ Hc). intros v0. apply Hi.
Qed.

(** Running the hooks after the write does not touch the validator set. *)
Lemma hooks_uv {A} (f : World E → World E) (m : M (World E) A) w :
  stable uv m → uv ((modify f ;; m) w).2 = uv (f w).
Proof. intros Hm. mrun. apply Hm. Qed.

Lemma stable_seq {A B} (m : M (World E) A) (m' : M (World E) B) :
  stable uv m → stable uv m' → stable uv (m ;; m').
Proof.
  intros H1 H2 w. mrun. specialize (H1 w). destruct (m w) as [[] w1]; cbn in *; [|done..].
  by rewrite H2.
Qed.

Lemma added_hooks_uv ctx a o n :
  stable uv (AfterValidatorStatusChanged ctx a o n ;; AfterValidatorAdded ctx a).
Proof. apply stable_seq; [apply changed_hook_uv | apply added_hook_uv]. Qed.
Lemma removed_hooks_uv ctx a o n :
  stable uv (AfterValidatorStatusChanged ctx a o n ;; AfterValidatorRemoved ctx a).
Proof. apply stable_seq; [apply changed_hook_uv | apply removed_hook_uv]. Qed.

Lemma HandleBaseValidatorUnbonding_uv ctx addr w :
  uv (HandleBaseValidatorUnbonding ctx addr w).2 =
  match UniversalValidatorSet (uv w) !! addr with
  | Some v =>
      match UV.LifecycleInfoOf v with
      | Some l =>
          match UV.CurrentStatus l with
          | UV.UV_STATUS_ACTIVE => with_validator addr
              (moved v l UV.UV_STATUS_PENDING_LEAVE (BlockHeight ctx) UV.TRANSITION_REASON_STAKING_HOOK) (uv w)
          | UV.UV_STATUS_PENDING_JOIN => with_validator addr
              (moved v l UV.UV_STATUS_INACTIVE (BlockHeight ctx) UV.TRANSITION_REASON_STAKING_HOOK) (uv w)
          | _ => uv w
          end
      | None => uv w
      end
  | None => uv w
  end.
Proof.
  unfold HandleBaseValidatorUnbonding. mrun. destruct (_ !! addr) as [v|] eqn:Hv; mrun; [|done].
  destruct (UV.LifecycleInfoOf v) as [l|] eqn:Hl; mrun; [|done].
  destruct (UV.CurrentStatus l) eqn:Hst; mrun; try done;
    rewrite UpdateValidatorStatus_run, Hv, Hl, Hst; cbn [validateStatusTransition];
    rewrite ?bool_decide_eq_true_2 by done; cbn [check]; cbv beta iota;
    apply removed_hooks_uv.
Qed.

Lemma HandleBaseValidatorBonded_uv ctx addr w :
  uv (HandleBaseValidatorBonded ctx addr w).2 =
  match UniversalValidatorSet (uv w) !! addr with
  | Some v =>
      match UV.LifecycleInfoOf v with
      | Some l =>
          if decide (UV.Reason <$> last (UV.History l) = Some UV.TRANSITION_REASON_STAKING_HOOK) then
            match UV.CurrentStatus l with
            | UV.UV_STATUS_PENDING_LEAVE => with_validator addr
                (moved v l UV.UV_STATUS_ACTIVE (BlockHeight ctx) UV.TRANSITION_REASON_STAKING_HOOK) (uv w)
            | UV.UV_STATUS_INACTIVE => with_validator addr
                (moved v l UV.UV_STATUS_PENDING_JOIN (BlockHeight ctx) UV.TRANSITION_REASON_STAKING_HOOK) (uv w)
            | _ => uv w
            end
          else uv w
      | None => uv w
      end
  | None => uv w
  end.
Proof.
  unfold HandleBaseValidatorBonded. mrun. destruct (_ !! addr) as [v|] eqn:Hv; mrun; [|done].
  destruct (UV.LifecycleInfoOf v) as [l|] eqn:Hl; mrun; [|done].
  destruct (UV.CurrentStatus l) eqn:Hst; mrun; case_decide; mrun; try done;
    rewrite UpdateValidatorStatus_run, Hv, Hl, Hst; cbn [validateStatusTransition];
    cbv beta iota; apply added_hooks_uv.
Qed.

Lemma uv_step_eq h s s1 s2 : s1 = s2 → uv_step h s s2 → uv_step h s s1.
Proof. by intros ->. Qed.

Lemma HandleBaseValidatorUnbonding_step ctx addr :
  steps (BlockHeight ctx) (HandleBaseValidatorUnbonding ctx addr).
Proof.
  intros w. rewrite HandleBaseValidatorUnbonding_uv.
  destruct (_ !! addr) as [v|] eqn:Hv; [|constructor].
  destruct (UV.LifecycleInfoOf v) as [l|] eqn:Hl; [|constructor].
  destruct (UV.CurrentStatus l) eqn:Hst; constructor; rewrite Hv; constructor; by rewrite ?Hst.
Qed.

Lemma HandleBaseValidatorBonded_step ctx addr :
  steps (BlockHeight ctx) (HandleBaseValidatorBonded ctx addr).
Proof.
  intros w. rewrite HandleBaseValidatorBonded_uv.
  destruct (_ !! addr) as [v|] eqn:Hv; [|constructor].
  destruct (UV.LifecycleInfoOf v) as [l|] eqn:Hl; [|constructor].
  case_decide; [|constructor].
  destruct (UV.CurrentStatus l) eqn:Hst; constructor; rewrite Hv; constructor; by rewrite ?Hst.
Qed.

Lemma AddUniversalValidator_step ctx c n : steps (BlockHeight ctx) (AddUniversalValidator ctx c n).
Proof.
  intros w. unfold AddUniversalValidator, put_validator, set_uv. mrun.
  destruct (ValAddressFromBech32 c) as [a| |] eqn:Ha; mrun; try apply uv_stutter.
  destruct (GetValidator a) as [sv|]; mrun; try apply uv_stutter.
  destruct (IsBonded sv); mrun; try apply uv_stutter.
  destruct (UniversalValidatorSet (uv w) !! a) as [v|] eqn:Hv.
  - mrun. destruct (UV.LifecycleInfoOf v) as [l|] eqn:Hl; mrun; try apply uv_stutter.
    destruct (UV.CurrentStatus l) eqn:Hst; mrun; try apply uv_stutter.
    eapply uv_step_eq; [apply added_hooks_uv|]. apply uv_change. rewrite Hv. by apply change_rejoin.
  - mrun. eapply uv_step_eq; [apply added_hooks_uv|]. apply uv_change. rewrite Hv. by constructor.
Qed.

Lemma UpdateUniversalValidator_step ctx c n :
  steps (BlockHeight ctx) (UpdateUniversalValidator ctx c n).
Proof.
  intros w. unfold UpdateUniversalValidator, get_validator, put_validator. mrun.
  destruct (ValAddressFromBech32 c) as [a| |] eqn:Ha; mrun; try apply uv_stutter.
  destruct (GetValidator a) as [sv|]; mrun; try apply uv_stutter.
  destruct (UniversalValidatorSet (uv w) !! a) as [v|] eqn:Hv; mrun; try apply uv_stutter.
  apply (uv_change _ _ a). rewrite Hv. constructor.
Qed.

Lemma UpdateUniversalValidatorStatus_step ctx c st :
  steps (BlockHeight ctx) (UpdateUniversalValidatorStatus ctx c st).
Proof.
  intros w. unfold UpdateUniversalValidatorStatus, get_validator. mrun.
  pose proof (ongoing_read ctx w) as Hr. destruct (HasOngoingTss ctx w) as [[b| |] w1];
    cbn in Hr; subst w1; mrun; try apply uv_stutter.
  destruct (negb b); mrun; try apply uv_stutter.
  destruct (ValAddressFromBech32 c) as [a| |] eqn:Ha; mrun; try apply uv_stutter.
  destruct (UniversalValidatorSet (uv w) !! a) as [v|] eqn:Hv; mrun; try apply uv_stutter.
  destruct (UV.LifecycleInfoOf v) as [l|] eqn:Hl; mrun; try apply uv_stutter.
  destruct (UV.CurrentStatus l) eqn:Hst; mrun; try apply uv_stutter.
  case_bool_decide; subst; mrun; try apply uv_stutter.
  rewrite UpdateValidatorStatus_run, Hv, Hl, Hst. cbn [validateStatusTransition]. cbv beta iota. mrun.
  eapply uv_step_eq; [apply changed_hook_uv|]. apply uv_change. rewrite Hv. constructor; by rewrite ?Hst.
Qed.

(** A removal either fails and leaves the validators alone, or moves the
    validator out of its voting status and records the administrator's reason. *)
Definition admin_removed (h : Z) (c : string) (s s' : UvState) : Prop :=
  ∃ a v l st, ValAddressFromBech32 c = Ok a ∧ UniversalValidatorSet s !! a = Some v ∧
    UV.LifecycleInfoOf v = Some l ∧ arrow (UV.CurrentStatus l) st ∧
    (st = UV.UV_STATUS_PENDING_LEAVE ∨ st = UV.UV_STATUS_INACTIVE) ∧
    s' = with_validator a (moved v l st h UV.TRANSITION_REASON_ADMIN) s.

Lemma RemoveUniversalValidator_cases ctx c w :
  let '(out, w1) := RemoveUniversalValidator ctx c w in
  uv w1 = uv w ∧ is_ok out = false ∨ admin_removed (BlockHeight ctx) c (uv w) (uv w1).
Proof.
  unfold RemoveUniversalValidator, get_validator. mrun.
  destruct (ValAddressFromBech32 c) as [a| |] eqn:Ha; mrun; try (by left).
  destruct (UniversalValidatorSet (uv w) !! a) as [v|] eqn:Hv; mrun; try (by left).
  destruct (UV.LifecycleInfoOf v) as [l|] eqn:Hl; mrun; try (by left).
  destruct (UV.CurrentStatus l) eqn:Hst; mrun; try (by left).
  - pose proof (ongoing_read ctx w) as Hr. destruct (HasOngoingTss ctx w) as [[b| |] w1];
      cbn in Hr; subst w1; mrun; try (by left).
    destruct (negb b); mrun; try (by left).
    rewrite UpdateValidatorStatus_run, Hv, Hl, Hst. mrun.
    cbn [validateStatusTransition]. rewrite bool_decide_eq_true_2 by done. cbn [check]. mrun.
    match goal with |- match ?x with _ => _ end => destruct x as [out w1] eqn:Hx end.
    right. eexists a, v, l, _. split_and!; try done; [by rewrite Hst|by left|].
    change w1 with (out, w1).2. rewrite <- Hx. apply removed_hooks_uv.
  - pose proof (participants_read ctx w) as Hr.
    destruct (GetCurrentTssParticipants ctx w) as [[ps| |] w1]; cbn in Hr; subst w1; mrun; try (by left).
    case_bool_decide; mrun; try (by left).
    rewrite UpdateValidatorStatus_run, Hv, Hl, Hst. cbn [validateStatusTransition]. mrun.
    match goal with |- match ?x with _ => _ end => destruct x as [out w1] eqn:Hx end.
    right. eexists a, v, l, _. split_and!; try done; [by rewrite Hst|by right|].
    change w1 with (out, w1).2. rewrite <- Hx. apply removed_hooks_uv.
Qed.

Lemma RemoveUniversalValidator_step ctx c : steps (BlockHeight ctx) (RemoveUniversalValidator ctx c).
Proof.
  intros w. pose proof (RemoveUniversalValidator_cases ctx c w) as Hc.
  destruct (RemoveUniversalValidator ctx c w) as [out w1]. cbn in *.
  destruct Hc as [[-> _]|(a & v & l & st & Ha & Hv & Hl & Harr & _ & ->)]; [apply uv_stutter|].
  apply uv_change. rewrite Hv. by constructor.
Qed.
End invariant.

(** ** Eligible voters *)

(** The valoper addresses of the eligible validators; one without identity
    information is skipped. *)
Definition voter_addresses (uvs : list UV.UniversalValidator) : list string :=
  omap (λ v, i ← UV.IdentifyInfo v;
             if decide (UV.CoreValidatorAddress i = "") then None
             else Some (UV.CoreValidatorAddress i)) uvs.

Section eligibility.
Context {E : Type} `{Bech32, SK : StakingKeeper}.
Implicit Types (w : World E).

(** A validator may vote when its status is a voting one, its base validator is
    bonded, and it is not tombstoned. *)
Definition eligible (addr : string) (v : UV.UniversalValidator) : bool :=
  (bool_decide (status_of v = Some UV.UV_STATUS_ACTIVE) ||
   bool_decide (status_of v = Some UV.UV_STATUS_PENDING_JOIN)) &&
  match GetValidator addr with
  | Some sv => IsBonded sv && match GetConsAddr sv with
                              | Some c => negb (IsTombstoned c)
                              | None => false
                              end
  | None => false
  end.

Lemma eligible_voter_ok h addr v :
  validator_ok h addr v → eligible_voter (addr, v) = Ok (eligible addr v).
Proof.
  intros (i & n & l & h0 & _ & _ & Hl & _). unfold eligible_voter, eligible, status_of. rewrite Hl. cbn.
  destruct (UV.CurrentStatus l); cbn; try done;
    (destruct (GetValidator addr) as [sv|]; [|done]); (destruct (IsBonded sv); [|done]);
    by destruct (GetConsAddr sv).
Qed.

Lemma GetEligibleVoters_run h w :
  validators_inv h (uv w) →
  GetEligibleVoters w =
  (Ok (List.filter (λ kv, eligible kv.1 kv.2) (walk (UniversalValidatorSet (uv w)))).*2, w).
Proof.
  intros Hinv. unfold GetEligibleVoters. mrun.
  rewrite (res_filter_ok _ (λ kv, eligible kv.1 kv.2)); [done|].
  intros [k v] Hkv%elem_of_walk. by apply (eligible_voter_ok h), Hinv.
Qed.

Lemma NoDup_omap_snd {K V A} (f : V → option A) (g : A → res K) (l : list (K * V)) :
  NoDup l.*1 → (∀ k v a, (k, v) ∈ l → f v = Some a → g a = Ok k) → NoDup (omap f l.*2).
Proof.
  induction l as [|[k v] l IH]; intros Hnd Hg; [constructor|]. cbn in *.
  apply NoDup_cons in Hnd as [Hk Hnd].
  assert (NoDup (omap f l.*2)) by (apply IH; [done|]; intros; eapply Hg; [by right|done]).
  destruct (f v) as [a|] eqn:Hf; [|done]. constructor; [|done].
  intros (v' & Hv' & Hf')%list_elem_of_omap. apply list_elem_of_fmap in Hv' as ([k' v''] & -> & Hin).
  assert (k' = k) as ->.
  { pose proof (Hg k v a ltac:(by left) Hf). pose proof (Hg k' v'' a ltac:(by right) Hf'). congruence. }
  apply Hk, list_elem_of_fmap. by exists (k, v'').
Qed.

Lemma NoDup_filter_fst {A B} (P : A * B → bool) (l : list (A * B)) :
  NoDup l.*1 → NoDup (List.filter P l).*1.
Proof.
  induction l as [|[a b] l IH]; [done|]. cbn. rewrite !NoDup_cons. intros [Ha Hl].
  destruct (P (a, b)); [|by auto]. cbn. apply NoDup_cons. split; [|by auto].
  intros Hin. apply Ha. apply list_elem_of_fmap in Hin as ([a' b'] & -> & Hin).
  apply list_elem_of_In, filter_In in Hin as [Hin _].
  apply list_elem_of_fmap. exists (a', b'). split; [done|]. by apply list_elem_of_In.
Qed.

(** The electorate the ballots are opened with: no address twice. *)
Lemma voter_addresses_NoDup h w vs :
  validators_inv h (uv w) → (GetEligibleVoters w).1 = Ok vs → NoDup (voter_addresses vs).
Proof.
  intros Hinv Hvs. rewrite (GetEligibleVoters_run h) in Hvs by done. injection Hvs as <-.
  apply (NoDup_omap_snd _ ValAddressFromBech32); [apply NoDup_filter_fst, NoDup_walk_fst|].
  intros k v a Hkv Hf. apply list_elem_of_In, filter_In in Hkv as [Hkv _].
  apply list_elem_of_In, elem_of_walk, Hinv in Hkv as (i & n & l & h0 & Hi & _ & _ & Ha & _).
  rewrite Hi in Hf. cbn in Hf. case_decide; [done|]. by injection Hf as <-.
Qed.
End eligibility.

(** ** Theorems *)

(** The operations of the keeper that write the validator set, as a message
    handler or a staking hook calls them. *)
Inductive uv_op :=
| OpAdd (coreValidatorAddr : string) (networkInfo : UV.NetworkInfo)
| OpRemove (universalValidatorAddr : string)
| OpUpdate (coreValidatorAddr : string) (networkInfo : UV.NetworkInfo)
| OpUpdateStatus (coreValidatorAddr : string) (newStatus : UV.UVStatus)
| OpUnbonding (valAddr : string)
| OpBonded (valAddr : string).

Section theorems.
Context {E : Type} `{Bech32, SK : StakingKeeper, UH : UValidatorHooks E, UK : UtssKeeper E}
  `{!UValidatorHooksLaws E, !UtssKeeperLaws E}.
Implicit Types (ctx : Ctx) (w : World E).

Definition exec_uv_op ctx (op : uv_op) : M (World E) unit :=
  match op with
  | OpAdd c n => AddUniversalValidator ctx c n
  | OpRemove c => RemoveUniversalValidator ctx c
  | OpUpdate c n => UpdateUniversalValidator ctx c n
  | OpUpdateStatus c st => UpdateUniversalValidatorStatus ctx c st
  | OpUnbonding a => HandleBaseValidatorUnbonding ctx a
  | OpBonded a => HandleBaseValidatorBonded ctx a
  end.

(** A history of operations, each in the context of its block. *)
Fixpoint run_uv_ops (ops : list (Ctx * uv_op)) (w : World E) : World E :=
  match ops with
  | [] => w
  | (ctx, op) :: ops' => run_uv_ops ops' (exec_uv_op ctx op w).2
  end.

Lemma exec_uv_op_step ctx op : steps (BlockHeight ctx) (exec_uv_op ctx op).
Proof.
  destruct op; eauto using AddUniversalValidator_step, RemoveUniversalValidator_step,
    UpdateUniversalValidator_step, UpdateUniversalValidatorStatus_step,
    HandleBaseValidatorUnbonding_step, HandleBaseValidatorBonded_step.
Qed.

(** C23. The validator set is well formed after any history of registrations,
    removals, updates and staking hooks, in blocks of non-decreasing height,
    whatever the outcome of each operation: the identity of every validator is
    its key, and its recorded history is a walk of the lifecycle state machine,
    with ordered heights, that ends in its current status. *)
Theorem validator_lifecycle_invariant ops h w :
  validators_inv h (uv w) →
  Sorted Z.le (h :: (BlockHeight ∘ fst <$> ops)) →
  validators_inv (List.last (BlockHeight ∘ fst <$> ops) h) (uv (run_uv_ops ops w)).
Proof.
  revert h w. induction ops as [|[ctx op] ops IH]; intros h w Hinv Hs; [done|].
  apply Sorted_inv in Hs as [Hs Hh]. apply HdRel_inv in Hh. cbn in Hh.
  cbn [fmap list_fmap]. rewrite last_cons_default. apply IH; [|done]. eapply uv_step_inv; [apply exec_uv_op_step|].
  by apply (validators_inv_mono h).
Qed.

(** The status of a registered validator. *)
Definition status_at (addr : string) (s : UvState) : option UV.UVStatus :=
  UniversalValidatorSet s !! addr ≫= status_of.

(** A base validator that leaves the bonded set and comes back gets its
    universal validator status back, whatever the other modules do in their
    hooks; in between it is not in a voting status. *)
Theorem unbond_rebond_restores ctx ctx' addr w w1 w2 :
  (HandleBaseValidatorUnbonding ctx addr w).2 = w1 → uv w2 = uv w1 →
  status_at addr (uv w) = Some UV.UV_STATUS_ACTIVE ∨
  status_at addr (uv w) = Some UV.UV_STATUS_PENDING_JOIN →
  status_at addr (uv w1) ≠ Some UV.UV_STATUS_ACTIVE ∧
  status_at addr (uv w1) ≠ Some UV.UV_STATUS_PENDING_JOIN ∧
  status_at addr (uv (HandleBaseValidatorBonded ctx' addr w2).2) = status_at addr (uv w).
Proof.
  intros Hw1 Hw2 Hst. unfold status_at in *.
  rewrite HandleBaseValidatorBonded_uv, Hw2, <- Hw1, HandleBaseValidatorUnbonding_uv.
  destruct (UniversalValidatorSet (uv w) !! addr) as [v|]; [|by destruct Hst].
  unfold status_of in Hst |- *. cbn [mbind option_bind] in Hst |- *.
  destruct (UV.LifecycleInfoOf v) as [l|]; [|by destruct Hst]. cbn in Hst |- *.
  destruct Hst as [[= ->]|[= ->]]; cbn; rewrite !lookup_insert_eq; cbn;
    rewrite last_snoc, decide_True by done; cbn; rewrite ?lookup_insert_eq; cbn; done.
Qed.

(** A validator removed by the administrator is not revived by the staking
    hook when its base validator bonds again: only its own history entry of the
    staking hook makes the hook act. *)
Theorem admin_removal_is_final ctx ctx' addr c w w1 w2 u :
  ValAddressFromBech32 c = Ok addr →
  RemoveUniversalValidator ctx c w = (Ok u, w1) → uv w2 = uv w1 →
  (status_at addr (uv w1) = Some UV.UV_STATUS_PENDING_LEAVE ∨
   status_at addr (uv w1) = Some UV.UV_STATUS_INACTIVE) ∧
  uv (HandleBaseValidatorBonded ctx' addr w2).2 = uv w2.
Proof.
  intros Ha Hr Hw2. rewrite HandleBaseValidatorBonded_uv, Hw2.
  pose proof (RemoveUniversalValidator_cases ctx c w) as Hc. rewrite Hr in Hc.
  destruct Hc as [[_ ?]|(a & v & l & st & Ha' & Hv & Hl & _ & Hst & ->)]; [done|]. rewrite Ha in Ha'. injection Ha' as <-.
  unfold status_at. cbn. rewrite lookup_insert_eq. cbn. rewrite last_snoc, decide_False by done.
  destruct Hst as [-> | ->]; auto.
Qed.
End theorems.
