(* ===== verification/UvBallot.v ===== *)
(** * x/uvalidator: the ballot keeper

    [keeper/ballot.go] and [keeper/voting.go].  Every attestation of the chain
    (inbounds, outbounds, TSS keys, fund migrations) is decided by a ballot of
    this component.  The store keeps each ballot under its id and three index
    sets, one per phase of its life; [ballots_inv] says that the indexes and the
    records agree, and every operation preserves it.  The second half of the
    file states what a ballot is for (a [Poll]) and proves that the stored
    ballots implement it. *)
From S2P Require Import Prelude GoStrings UvTypes TssTypes UxTypes RegTypes World UvValidator.
Import Ballot.

(** ** Operations *)
Section operations.
Context {E : Type} `{Bech32, SK : StakingKeeper, BH : BallotHooks E}.
Implicit Types ctx : Ctx.
#[local] Abbreviation M := (M (World E)).

Definition GetBallot (id : string) : M Ballot :=
  s ← get_uv Ballots; lift_option (s !! id) ErrNotFound.

Definition SetBallot (ballot : Ballot) : M unit :=
  set_uv (λ s, s <| Ballots ::= insert (Id ballot) ballot |>).

Definition DeleteBallot (id : string) : M unit :=
  set_uv (λ s, s <| Ballots ::= delete id |>) ;;
  set_uv (λ s, s <| ActiveBallotIDs ::= (.∖ {[ id ]}) |>) ;;
  set_uv (λ s, s <| ExpiredBallotIDs ::= (.∖ {[ id ]}) |>) ;;
  set_uv (λ s, s <| FinalizedBallotIDs ::= (.∖ {[ id ]}) |>).

Definition fireBallotTerminalHook ctx (ballotID : string) (ballotType : BallotObservationType)
    (status : BallotStatus) : M unit :=
  swallow (AfterBallotTerminal ctx ballotID ballotType status).

Definition MarkBallotExpired ctx (id : string) : M unit :=
  ballot ← GetBallot id;
  set_uv (λ s, s <| ActiveBallotIDs ::= (.∖ {[ id ]}) |>) ;;
  set_uv (λ s, s <| ExpiredBallotIDs ::= ({[ id ]} ∪.) |>) ;;
  set_uv (λ s, s <| Ballots ::= insert id (ballot <| Status := BALLOT_STATUS_EXPIRED |>) |>) ;;
  fireBallotTerminalHook ctx (Id ballot) (BallotType ballot) BALLOT_STATUS_EXPIRED.

Definition MarkBallotFinalized ctx (id : string) (status : BallotStatus) : M unit :=
  require (bool_decide (status = BALLOT_STATUS_PASSED) || bool_decide (status = BALLOT_STATUS_REJECTED))
    "invalid finalization status" ;;
  ballot ← GetBallot id;
  set_uv (λ s, s <| ActiveBallotIDs ::= (.∖ {[ id ]}) |>) ;;
  set_uv (λ s, s <| FinalizedBallotIDs ::= ({[ id ]} ∪.) |>) ;;
  set_uv (λ s, s <| Ballots ::= insert id (ballot <| Status := status |>) |>) ;;
  fireBallotTerminalHook ctx (Id ballot) (BallotType ballot) status.

(** Phase 1 of the sweep: the active ids whose ballot is past its expiry. *)
Definition stale_ballot (ballots : gmap string Ballot) (currentHeight : Z) (id : string) : res bool :=
  match ballots !! id with
  | Some ballot => mret (bool_decide (BlockHeightExpiry ballot ≤ currentHeight))
  | None => Err ErrNotFound
  end.

Definition ExpireBallotsBeforeHeight ctx (currentHeight : Z) : M unit :=
  active ← get_uv ActiveBallotIDs;
  ballots ← get_uv Ballots;
  toExpire ← lift_res (res_filter (stale_ballot ballots currentHeight) (walk_keys active));
  for_each (MarkBallotExpired ctx) toExpire.

Definition CreateBallot ctx (id : string) (ballotType : BallotObservationType)
    (eligibleVoters : list string) (votingThreshold expiryAfterBlocks : Z) : M Ballot :=
  let blockHeight := BlockHeight ctx in
  ExpireBallotsBeforeHeight ctx blockHeight ;;
  let ballot := NewBallot id ballotType eligibleVoters votingThreshold blockHeight expiryAfterBlocks in
  SetBallot ballot ;;
  set_uv (λ s, s <| ActiveBallotIDs ::= ({[ Id ballot ]} ∪.) |>) ;;
  mret ballot.

Definition GetOrCreateBallot ctx (id : string) (ballotType : BallotObservationType)
    (voters : list string) (votesNeeded expiryAfterBlocks : Z) : M (Ballot * bool) :=
  s ← get_uv Ballots;
  match s !! id with
  | Some ballot => mret (ballot, false)
  | None =>
      newBallot ← CreateBallot ctx id ballotType voters votesNeeded expiryAfterBlocks;
      mret (newBallot, true)
  end.

Definition GetAdmin : M string :=
  p ← get_uv UvParams; params ← lift_option p ErrNotFound; mret (UV.Admin params).

(** The map the code builds from the two arrays: a later slot of the same voter
    overrides an earlier one. *)
Definition old_votes (b : Ballot) : gmap string VoteResult :=
  foldl (λ m vv, <[ vv.1 := vv.2 ]> m) ∅ (zip (EligibleVoters b) (Votes b)).

Definition recomputed (b : Ballot) (newVoters : list string) : Ballot :=
  let prev := old_votes b in
  b <| EligibleVoters := newVoters |>
    <| Votes := (λ v, default VOTE_RESULT_NOT_YET_VOTED (prev !! v)) <$> newVoters |>
    <| VotingThreshold := quorum (Z.of_nat (length newVoters)) |>.

Record RecomputeResult := mkRecomputeResult {
  oldEligibleCount : Z; newEligibleCount : Z; oldThreshold : Z; newThreshold : Z;
  newStatus : BallotStatus }.

Definition RecomputeBallotQuorum ctx (ballotID : string) : M RecomputeResult :=
  ballot ← wrap ("ballot " +:+ ballotID +:+ " not found") (GetBallot ballotID);
  require (bool_decide (Status ballot = BALLOT_STATUS_PENDING))
    ("ballot " +:+ ballotID +:+ " is not pending; only pending ballots can be recomputed") ;;
  let oldCount := Z.of_nat (length (EligibleVoters ballot)) in
  let oldThr := VotingThreshold ballot in
  eligibleUVs ← wrap "failed to fetch eligible voters" GetEligibleVoters;
  let newVoters := voter_addresses eligibleUVs in
  let newCount := Z.of_nat (length newVoters) in
  if decide (newCount = 0) then
    wrap "failed to mark ballot expired on zero-eligible recompute" (MarkBallotExpired ctx ballotID) ;;
    mret (mkRecomputeResult oldCount 0 oldThr 0 BALLOT_STATUS_EXPIRED)
  else
    let ballot' := recomputed ballot newVoters in
    set_uv (λ s, s <| Ballots ::= insert ballotID ballot' |>) ;;
    mret (mkRecomputeResult oldCount newCount oldThr (VotingThreshold ballot') BALLOT_STATUS_PENDING).

Definition AddVoteToBallot (ballot : Ballot) (address : string) (voteResult : VoteResult) : M Ballot :=
  ballot' ← lift_res (AddVote ballot address voteResult);
  SetBallot ballot' ;;
  mret ballot'.

Definition HasUniversalValidatorInSet (uvAddr : string) : M bool :=
  get_uv (λ s, bool_decide (is_Some (UniversalValidatorSet s !! uvAddr))).

Definition RemoveUniversalValidatorFromSet (addr : string) : M unit :=
  set_uv (λ s, s <| UniversalValidatorSet ::= delete addr |>).

Definition registered_core_validator (universalValidator : string) : M StakingValidator :=
  valAddr ← wrap "invalid signer address" (lift_res (AccAddressFromBech32 universalValidator));
  exist ← HasUniversalValidatorInSet valAddr;
  require exist ("validator " +:+ ValAddress_String valAddr
                 +:+ " not present in the registered universal validators set") ;;
  lift_option (GetValidator valAddr) "core validator not found".

Definition IsBondedUniversalValidator (universalValidator : string) : M bool :=
  validator ← registered_core_validator universalValidator;
  mret (IsBonded validator).

Definition IsTombstonedUniversalValidator (universalValidator : string) : M bool :=
  validator ← registered_core_validator universalValidator;
  consAddress ← lift_option (GetConsAddr validator) "failed to get consensus address";
  mret (IsTombstoned consAddress).

Definition CheckIfFinalizingVote ctx (b : Ballot) : M (Ballot * bool) :=
  let '(ballot, isFinalizing) := IsFinalizingVote b in
  if isFinalizing then
    wrap "failed updating finalized ballot" (MarkBallotFinalized ctx (Id ballot) (Status ballot)) ;;
    mret (ballot, true)
  else mret (b, false).

(** Returns the ballot, whether this vote finalized it, and whether it is new. *)
Definition VoteOnBallot ctx (id : string) (ballotType : BallotObservationType)
    (voter : string) (voteResult : VoteResult) (voters : list string)
    (votesNeeded expiryAfterBlocks : Z) : M (Ballot * bool * bool) :=
  bn ← wrap "Error while voting on the ballot"
         (GetOrCreateBallot ctx id ballotType voters votesNeeded expiryAfterBlocks);
  let '(ballot, isNew) := bn in
  let currentHeight := BlockHeight ctx in
  if IsExpired ballot currentHeight && bool_decide (Status ballot = BALLOT_STATUS_PENDING) then
    wrap "failed to mark ballot expired during late-vote rejection" (MarkBallotExpired ctx id) ;;
    throw ("ballot " +:+ id +:+ " expired at height " +:+ fmt_d (BlockHeightExpiry ballot)
           +:+ " (current " +:+ fmt_d currentHeight +:+ ")")
  else
    require (bool_decide (Status ballot = BALLOT_STATUS_PENDING))
      ("ballot " +:+ id +:+ " is already final") ;;
    (if (isNew : bool) then set_uv (λ s, s <| ActiveBallotIDs ::= ({[ id ]} ∪.) |>) else mret tt) ;;
    ballot' ← AddVoteToBallot ballot voter voteResult;
    bf ← CheckIfFinalizingVote ctx ballot';
    let '(ballot'', isFinalizing) := bf in
    mret (ballot'', isFinalizing, isNew).
End operations.

(** ** The store invariant *)

(** The record [b] stored under [id] is well formed, and [id] is in the index of
    its status and in no other. *)
Definition ballot_ok (s : UvState) (id : string) (b : Ballot) : Prop :=
  Id b = id ∧ wf b ∧ NoDup (EligibleVoters b) ∧ Status b ≠ BALLOT_STATUS_UNSPECIFIED ∧
  (id ∈ ActiveBallotIDs s ↔ Status b = BALLOT_STATUS_PENDING) ∧
  (id ∈ ExpiredBallotIDs s ↔ Status b = BALLOT_STATUS_EXPIRED) ∧
  (id ∈ FinalizedBallotIDs s ↔ IsFinalized b = true).

Record ballots_inv (s : UvState) : Prop := {
  inv_ballot id b : Ballots s !! id = Some b → ballot_ok s id b;
  inv_index id :
    id ∈ ActiveBallotIDs s ∪ ExpiredBallotIDs s ∪ FinalizedBallotIDs s → is_Some (Ballots s !! id);
}.

(** The ballots [X] leave the active set with status [st]. *)
Definition settle (st : BallotStatus) (X : gset string) (s : UvState) : UvState :=
  s <| Ballots ::= map_imap (λ id b, Some (if decide (id ∈ X) then b <| Status := st |> else b)) |>
    <| ActiveBallotIDs ::= (.∖ X) |>
    <| ExpiredBallotIDs ::= λ I, if decide (st = BALLOT_STATUS_EXPIRED) then X ∪ I else I |>
    <| FinalizedBallotIDs ::= λ I, if decide (st = BALLOT_STATUS_EXPIRED) then I else X ∪ I |>.

Definition put_ballot (b : Ballot) (s : UvState) : UvState :=
  s <| Ballots ::= insert (Id b) b |>.
Definition open_ballot (b : Ballot) (s : UvState) : UvState :=
  put_ballot b s <| ActiveBallotIDs ::= ({[ Id b ]} ∪.) |>.

(** The active ballots whose expiry height is reached. *)
Definition stale_ids (h : Z) (s : UvState) : gset string :=
  filter (λ id, default false ((λ b, bool_decide (BlockHeightExpiry b ≤ h)) <$> Ballots s !! id) = true)
    (ActiveBallotIDs s).
Definition sweep (h : Z) (s : UvState) : UvState :=
  settle BALLOT_STATUS_EXPIRED (stale_ids h s) s.

Lemma lookup_settle st X s id :
  Ballots (settle st X s) !! id =
  (λ b, if decide (id ∈ X) then b <| Status := st |> else b) <$> Ballots s !! id.
Proof. cbn. rewrite map_lookup_imap. by destruct (Ballots s !! id). Qed.

Lemma settle_empty st s : settle st ∅ s = s.
Proof.
  destruct s as [p vs bs a x f]. unfold settle. cbn. f_equal.
  - apply map_eq. intros id. rewrite map_lookup_imap. by destruct (bs !! id).
  - set_solver.
  - case_decide; set_solver.
  - case_decide; set_solver.
Qed.

Lemma settle_union st X Y s : settle st X (settle st Y s) = settle st (Y ∪ X) s.
Proof.
  destruct s as [p vs bs a x f]. unfold settle. cbn. f_equal.
  - apply map_eq. intros id. rewrite !map_lookup_imap. destruct (bs !! id); [|done]. cbn.
    repeat case_decide; try done; set_solver.
  - set_solver.
  - case_decide; set_solver.
  - case_decide; set_solver.
Qed.

(** Settling active ballots to a terminal status keeps the invariant. *)
Lemma settle_inv st X s :
  terminal st → X ⊆ ActiveBallotIDs s → ballots_inv s → ballots_inv (settle st X s).
Proof.
  intros Hst HX [Hb Hi]. split.
  - intros id b. rewrite lookup_settle. intros (b0 & Hb0 & ->)%fmap_Some.
    destruct (Hb _ _ Hb0) as (Hid & Hwf & Hnd & Hun & HA & HE & HF). case_decide as Hin.
    + assert (Status b0 = BALLOT_STATUS_PENDING) as Hp by (apply HA; set_solver).
      unfold IsFinalized in HF. rewrite Hp in HE, HF. cbn in HF.
      destruct Hst as [->|[->| ->]]; split_and!; unfold IsFinalized; cbn; try done; set_solver.
    + split_and!; try done; cbn; repeat case_decide; set_solver.
  - intros id Hin. rewrite lookup_settle, fmap_is_Some. apply Hi.
    cbn in Hin. repeat case_decide; set_solver.
Qed.

(** Rewriting the record of a pending ballot without touching its id, and
    opening a ballot under a fresh id, keep it too. *)
Lemma put_ballot_inv b b' s :
  Ballots s !! Id b = Some b → Id b' = Id b → Status b' = Status b →
  wf b' → NoDup (EligibleVoters b') → ballots_inv s → ballots_inv (put_ballot b' s).
Proof.
  intros Hb Hid Hst Hwf Hnd [Hbs Hi]. split.
  - intros id b1. cbn. rewrite lookup_insert_Some. intros [[<- <-]|[Hne Hb1]]; [|by apply Hbs].
    destruct (Hbs _ _ Hb) as (_ & _ & _ & Hun & HA & HE & HF).
    unfold ballot_ok, IsFinalized in *. rewrite Hst. cbn. rewrite Hid. naive_solver.
  - intros id Hin. cbn. apply lookup_insert_is_Some'. right. by apply Hi.
Qed.

Lemma open_ballot_inv b s :
  Ballots s !! Id b = None → Status b = BALLOT_STATUS_PENDING →
  wf b → NoDup (EligibleVoters b) → ballots_inv s → ballots_inv (open_ballot b s).
Proof.
  intros Hb Hst Hwf Hnd [Hbs Hi].
  assert (Id b ∉ ActiveBallotIDs s ∪ ExpiredBallotIDs s ∪ FinalizedBallotIDs s) as Hfresh.
  { intros [? ?]%Hi. congruence. }
  split.
  - intros id b1. cbn. rewrite lookup_insert_Some. intros [[<- <-]|[Hne Hb1]].
    + rewrite !not_elem_of_union in Hfresh. destruct Hfresh as [[? ?] ?].
      unfold ballot_ok, IsFinalized. rewrite Hst. cbn.
      split_and!; try done; split; try done. intros _. by apply elem_of_union_l, elem_of_singleton.
    + destruct (Hbs _ _ Hb1) as (? & ? & ? & ? & HA & HE & HF).
      split_and!; try done. cbn. rewrite elem_of_union, elem_of_singleton, HA. naive_solver.
  - intros id Hin. cbn in *. apply lookup_insert_is_Some'.
    destruct (decide (Id b = id)); [by left|right]. apply Hi. set_solver.
Qed.

Lemma stale_ids_active h s : stale_ids h s ⊆ ActiveBallotIDs s.
Proof. unfold stale_ids. set_solver. Qed.

Lemma sweep_inv h s : ballots_inv s → ballots_inv (sweep h s).
Proof. intros. unfold sweep. apply settle_inv; [right; by right | apply stale_ids_active | done]. Qed.

(** What the sweep does to one ballot. *)
Lemma lookup_sweep h s id :
  ballots_inv s →
  Ballots (sweep h s) !! id =
  (λ b, if decide (Status b = BALLOT_STATUS_PENDING ∧ BlockHeightExpiry b ≤ h)
        then b <| Status := BALLOT_STATUS_EXPIRED |> else b) <$> Ballots s !! id.
Proof.
  intros Hinv. unfold sweep. rewrite lookup_settle.
  destruct (Ballots s !! id) as [b|] eqn:Hb; [|done]. cbn. f_equal.
  destruct (inv_ballot _ Hinv _ _ Hb) as (_ & _ & _ & _ & HA & _).
  unfold stale_ids.
  repeat case_decide; try done; rewrite elem_of_filter, Hb in *; cbn in *;
    rewrite bool_decide_eq_true, HA in *; naive_solver.
Qed.

(** ** Runs of the operations *)
Section runs.
Context {E : Type} `{Bech32, SK : StakingKeeper, BH : BallotHooks E, !BallotHooksLaws E}.
Implicit Types (ctx : Ctx) (w : World E).

Lemma fire_run ctx id ty st w :
  ∃ w', fireBallotTerminalHook ctx id ty st w = (Ok tt, w') ∧ uv w' = uv w.
Proof.
  unfold fireBallotTerminalHook, swallow.
  pose proof (ballot_hook_uv ctx id ty st w) as Huv.
  pose proof (ballot_hook_no_panic ctx id ty st w) as Hnp.
  destruct (AfterBallotTerminal ctx id ty st w) as [[[]|e|e] w']; cbn in *; eauto.
  by destruct (Hnp e).
Qed.

Lemma MarkBallotExpired_run ctx id w :
  is_Some (Ballots (uv w) !! id) →
  ∃ w', MarkBallotExpired ctx id w = (Ok tt, w') ∧
        uv w' = settle BALLOT_STATUS_EXPIRED {[ id ]} (uv w).
Proof.
  intros [b Hb]. unfold MarkBallotExpired, GetBallot. mrun. rewrite Hb. mrun.
  edestruct (fire_run ctx (Id b) (BallotType b) BALLOT_STATUS_EXPIRED) as (w' & -> & Huv).
  eexists. split; [done|]. rewrite Huv. cbn. unfold settle. cbn. f_equal.
  apply map_eq. intros i. rewrite map_lookup_imap.
  destruct (decide (id = i)) as [<-|Hne].
  - rewrite lookup_insert_eq, Hb. cbn. by rewrite decide_True by set_solver.
  - rewrite lookup_insert_ne by done. destruct (_ !! i); [|done]. cbn.
    by rewrite decide_False by set_solver.
Qed.

Lemma MarkBallotFinalized_run ctx id st w :
  is_Some (Ballots (uv w) !! id) → st = BALLOT_STATUS_PASSED ∨ st = BALLOT_STATUS_REJECTED →
  ∃ w', MarkBallotFinalized ctx id st w = (Ok tt, w') ∧ uv w' = settle st {[ id ]} (uv w).
Proof.
  intros [b Hb] Hst. unfold MarkBallotFinalized, GetBallot.
  replace (_ || _) with true by (by destruct Hst as [-> | ->]). mrun. rewrite Hb. mrun.
  edestruct (fire_run ctx (Id b) (BallotType b) st) as (w' & -> & Huv).
  eexists. split; [done|]. rewrite Huv. cbn. unfold settle. cbn.
  rewrite !(decide_False (P := st = BALLOT_STATUS_EXPIRED)) by (by destruct Hst as [-> | ->]).
  f_equal. apply map_eq. intros i. rewrite map_lookup_imap.
  destruct (decide (id = i)) as [<-|Hne].
  - rewrite lookup_insert_eq, Hb. cbn. by rewrite decide_True by set_solver.
  - rewrite lookup_insert_ne by done. destruct (_ !! i); [|done]. cbn.
    by rewrite decide_False by set_solver.
Qed.

Lemma for_each_expire ctx l w :
  (∀ id, id ∈ l → is_Some (Ballots (uv w) !! id)) →
  ∃ w', for_each (MarkBallotExpired ctx) l w = (Ok tt, w') ∧
        uv w' = settle BALLOT_STATUS_EXPIRED (list_to_set l) (uv w).
Proof.
  revert w. induction l as [|id l IH]; intros w Hl; mrun.
  { exists w. by rewrite settle_empty. }
  destruct (MarkBallotExpired_run ctx id w) as (w1 & -> & Hw1); [apply Hl; left|].
  destruct (IH w1) as (w2 & -> & Hw2).
  { intros i Hi. rewrite Hw1, lookup_settle, fmap_is_Some. apply Hl. by right. }
  exists w2. by rewrite Hw2, Hw1, settle_union.
Qed.

(** The sweep never fails on a consistent store, and does what [sweep] says. *)
Lemma ExpireBallotsBeforeHeight_run ctx h w :
  ballots_inv (uv w) →
  ∃ w', ExpireBallotsBeforeHeight ctx h w = (Ok tt, w') ∧ uv w' = sweep h (uv w).
Proof.
  intros Hinv. unfold ExpireBallotsBeforeHeight. mrun.
  set (g id := default false ((λ b, bool_decide (BlockHeightExpiry b ≤ h)) <$> Ballots (uv w) !! id)).
  rewrite (res_filter_ok _ g); cbv beta iota.
  2: { intros id Hid%elem_of_walk_keys. destruct (inv_index _ Hinv id) as [b Hb]; [set_solver|].
       unfold stale_ballot, g. by rewrite Hb. }
  destruct (for_each_expire ctx (List.filter g (walk_keys (ActiveBallotIDs (uv w)))) w)
    as (w' & -> & Hw').
  { intros id [Hid _]%list_elem_of_In%filter_In. apply (inv_index _ Hinv).
    apply list_elem_of_In, elem_of_walk_keys in Hid. set_solver. }
  exists w'. split; [done|]. rewrite Hw'. unfold sweep. f_equal. apply set_eq. intros id.
  rewrite elem_of_list_to_set, list_elem_of_In, filter_In, <- list_elem_of_In, elem_of_walk_keys.
  unfold stale_ids. rewrite elem_of_filter. naive_solver.
Qed.

Lemma CreateBallot_run ctx id ty vs n e w :
  ballots_inv (uv w) →
  let b := NewBallot id ty vs n (BlockHeight ctx) e in
  ∃ w', CreateBallot ctx id ty vs n e w = (Ok b, w') ∧
        uv w' = open_ballot b (sweep (BlockHeight ctx) (uv w)).
Proof.
  intros Hinv b. unfold CreateBallot, SetBallot. mrun.
  destruct (ExpireBallotsBeforeHeight_run ctx (BlockHeight ctx) w Hinv) as (w1 & -> & Hw1). mrun.
  eexists. split; [done|]. cbn. by rewrite Hw1.
Qed.

(** The effect of an accepted vote on the store: the new record is written, and
    if it decides the ballot, the ballot is settled. *)
Definition record_vote (b1 : Ballot) (s : UvState) : Ballot * bool * UvState :=
  let '(b2, fin) := IsFinalizingVote b1 in
  (b2, fin, if (fin : bool) then settle (Status b2) {[ Id b1 ]} (put_ballot b1 s) else put_ballot b1 s).

Lemma CheckIfFinalizingVote_run ctx b1 s w :
  uv w = put_ballot b1 s →
  ∃ w', CheckIfFinalizingVote ctx b1 w = (Ok (record_vote b1 s).1, w') ∧
        uv w' = (record_vote b1 s).2.
Proof.
  intros Hw. unfold CheckIfFinalizingVote, record_vote.
  destruct (IsFinalizingVote b1) as [b2 fin] eqn:Hf.
  pose proof (IsFinalizingVote_spec b1 b2 fin Hf) as (_ & Hb2 & Hst & Hno).
  destruct fin; mrun; [|exists w; by rewrite (Hno eq_refl)].
  assert (Id b2 = Id b1) as -> by (by rewrite Hb2).
  destruct (MarkBallotFinalized_run ctx (Id b1) (Status b2) w) as (w' & -> & Hw').
  - rewrite Hw. cbn. by rewrite lookup_insert_eq.
  - rewrite (Hst eq_refl). case_decide; auto.
  - mrun. exists w'. by rewrite Hw', Hw.
Qed.

(** The outcome of a vote, on every branch.  A vote on a missing ballot first
    sweeps the stale ballots and opens the ballot. *)
Definition voted_ballot ctx id ty vs n e (s : UvState) : Ballot * bool * UvState :=
  match Ballots s !! id with
  | Some b => (b, false, s)
  | None => let b := NewBallot id ty vs n (BlockHeight ctx) e in
            (b, true, open_ballot b (sweep (BlockHeight ctx) s))
  end.

Lemma VoteOnBallot_run ctx id ty voter r vs n e w b isNew s :
  ballots_inv (uv w) → voted_ballot ctx id ty vs n e (uv w) = (b, isNew, s) →
  ∃ w' out, VoteOnBallot ctx id ty voter r vs n e w = (out, w') ∧
  if decide (Status b ≠ BALLOT_STATUS_PENDING) then (∃ m, out = Err m) ∧ uv w' = s
  else if decide (BlockHeightExpiry b ≤ BlockHeight ctx) then
    (∃ m, out = Err m) ∧ uv w' = settle BALLOT_STATUS_EXPIRED {[ id ]} s
  else match AddVote b voter r with
       | Ok b1 => out = Ok ((record_vote b1 s).1, isNew) ∧ uv w' = (record_vote b1 s).2
       | Err m => out = Err m ∧ uv w' = s
       | Panic m => out = Panic m ∧ uv w' = s
       end.
Proof.
  intros Hinv Hvb. unfold VoteOnBallot, GetOrCreateBallot, AddVoteToBallot, SetBallot.
  assert (is_Some (Ballots s !! id) ∧ (isNew = true → id ∈ ActiveBallotIDs s)) as [Hsome Hact].
  { unfold voted_ballot in Hvb. destruct (Ballots (uv w) !! id) eqn:Hl; simplify_eq; [by eauto|].
    split; [cbn; rewrite lookup_insert_eq; by eauto|]. cbn. set_solver. }
  assert (∃ w1, GetOrCreateBallot ctx id ty vs n e w = (Ok (b, isNew), w1) ∧ uv w1 = s)
    as (w1 & Hgc & Hw1).
  { unfold GetOrCreateBallot, voted_ballot in *. mrun.
    destruct (Ballots (uv w) !! id) as [b0|]; simplify_eq; mrun; [by eauto|].
    destruct (CreateBallot_run ctx id ty vs n e w Hinv) as (w1 & -> & Hw1). mrun. eauto. }
  unfold GetOrCreateBallot in Hgc. rewrite bind_unfold, wrap_run, Hgc. cbv beta iota.
  cbn [wrap_res]. unfold IsExpired.
  case_decide as Hst.
  { rewrite (bool_decide_eq_false_2 (Status b = _)) by done. rewrite andb_false_r. mrun.
    eexists _, _. split; [done|]. eauto. }
  rewrite (bool_decide_eq_true_2 (Status b = _)) by done. rewrite andb_true_r.
  case_decide as Hexp.
  { rewrite bool_decide_eq_true_2 by done. mrun.
    destruct (MarkBallotExpired_run ctx id w1) as (w2 & -> & Hw2); [by rewrite Hw1|].
    mrun. eexists _, _. split; [done|]. rewrite Hw2, Hw1. eauto. }
  rewrite bool_decide_eq_false_2 by done. mrun.
  match goal with |- context [(if isNew then ?x else ?y) w1] =>
    assert (∃ w3, (if isNew then x else y) w1 = (Ok tt, w3) ∧ uv w3 = s) as (w3 & -> & Hw3) end.
  { destruct isNew; mrun; eexists; (split; [done|]); [|done].
    cbn. rewrite Hw1. destruct s; cbn in *. f_equal. set_solver. }
  cbv beta iota. mrun. destruct (AddVote b voter r) as [b1|m|m] eqn:Ha; cbv beta iota;
    [|eexists _, _; split; [done|]; by eauto..].
  mrun. edestruct (CheckIfFinalizingVote_run ctx b1 s) as (w4 & -> & Hw4).
  { cbn. by rewrite Hw3. }
  destruct (record_vote b1 s) as [[b2 fin] s'] eqn:Hrv. cbn [fst snd] in *.
  mrun. eexists _, _. by split.
Qed.
End runs.

(** Ballot code writes this module's store; anything that such writes and the
    hooks leave alone, a vote leaves alone. *)
Section frame.
Context {E : Type} `{Bech32, SK : StakingKeeper, BH : BallotHooks E} (I : World E → Prop).
Hypothesis (hook_keeps : ∀ ctx id ty st, keeps I (AfterBallotTerminal ctx id ty st)).
Hypothesis (uv_keeps : ∀ w f, I w → I (w <| uv ::= f |>)).

Lemma MarkBallotExpired_keeps ctx id : keeps I (MarkBallotExpired ctx id).
Proof. unfold MarkBallotExpired, GetBallot, fireBallotTerminalHook. keep; try apply keeps_set_uv; auto. Qed.
Lemma VoteOnBallot_keeps ctx id ty voter r vs n e : keeps I (VoteOnBallot ctx id ty voter r vs n e).
Proof.
  unfold VoteOnBallot, GetOrCreateBallot, CreateBallot, ExpireBallotsBeforeHeight, AddVoteToBallot,
    SetBallot, CheckIfFinalizingVote, MarkBallotFinalized, GetBallot, fireBallotTerminalHook.
  keep; try apply MarkBallotExpired_keeps; try apply keeps_set_uv; auto.
  apply keeps_for_each. intros. apply MarkBallotExpired_keeps.
Qed.
End frame.

(** ** Specification: polls

    What a ballot means, without the parallel arrays and the index sets: an
    electorate, the voters for and against, and the phase the poll is in. *)
Record Poll := mkPoll {
  electorate : gset string;
  needed : Z;
  deadline : Z;
  ayes : gset string;
  noes : gset string;
  phase : BallotStatus
}.
#[global] Instance Poll_eta : Eta Poll := λ p,
  mkPoll (electorate p) (needed p) (deadline p) (ayes p) (noes p) (phase p).

Definition open_poll (vs : list string) (n dl : Z) : Poll :=
  mkPoll (list_to_set vs) n dl ∅ ∅ BALLOT_STATUS_PENDING.

(** The poll is carried, or defeated, when one side has [needed] voters. *)
Definition decide_poll (p : Poll) : Poll :=
  if decide (needed p ≤ Z.of_nat (size (ayes p))) then p <| phase := BALLOT_STATUS_PASSED |>
  else if decide (needed p ≤ Z.of_nat (size (noes p))) then p <| phase := BALLOT_STATUS_REJECTED |>
  else p.

Definition mark (voter : string) (r : VoteResult) (p : Poll) : Poll :=
  match r with
  | VOTE_RESULT_SUCCESS => p <| ayes ::= ({[ voter ]} ∪.) |>
  | VOTE_RESULT_FAILURE => p <| noes ::= ({[ voter ]} ∪.) |>
  | VOTE_RESULT_NOT_YET_VOTED => p
  end.

(** A vote counts when the poll is open at height [h] and the voter is entitled
    to vote and has not voted. *)
Definition cast (h : Z) (voter : string) (r : VoteResult) (p : Poll) : option Poll :=
  if decide (phase p = BALLOT_STATUS_PENDING ∧ h < deadline p ∧
             voter ∈ electorate p ∖ (ayes p ∪ noes p))
  then Some (decide_poll (mark voter r p)) else None.

(** An open poll past its deadline lapses. *)
Definition lapse (h : Z) (p : Poll) : Poll :=
  if decide (phase p = BALLOT_STATUS_PENDING ∧ deadline p ≤ h)
  then p <| phase := BALLOT_STATUS_EXPIRED |> else p.

(** *** The poll a stored ballot stands for *)
Definition voters_with (P : VoteResult → bool) (b : Ballot) : gset string :=
  list_to_set ((List.filter (λ p, P p.2) (zip (EligibleVoters b) (Votes b))).*1).
Definition poll_of (b : Ballot) : Poll :=
  mkPoll (list_to_set (EligibleVoters b)) (VotingThreshold b) (BlockHeightExpiry b)
    (voters_with is_yes b) (voters_with is_no b) (Status b).

Lemma GetVoterIndex_lookup b i a :
  NoDup (EligibleVoters b) → EligibleVoters b !! i = Some a → GetVoterIndex b a = Some i.
Proof.
  intros Hnd Hi. apply find_index_Some. exists a. split; [done|].
  split; [by apply bool_decide_eq_true|]. intros j y Hj Hy. apply bool_decide_eq_false.
  intros ->. pose proof (NoDup_lookup _ _ _ _ Hnd Hi Hy). lia.
Qed.

Lemma elem_of_voters_with P b a :
  wf b → NoDup (EligibleVoters b) →
  a ∈ voters_with P b ↔ ∃ v, vote_of b a = Some v ∧ P v = true.
Proof.
  intros Hwf Hnd. unfold voters_with. rewrite elem_of_list_to_set, list_elem_of_fmap. split.
  - intros ([a' v] & -> & Hin). apply list_elem_of_In, filter_In in Hin as [Hin HP].
    apply list_elem_of_In, list_elem_of_lookup in Hin as [i Hi].
    apply lookup_zip_Some in Hi as [Ha Hv]. exists v. split; [|done].
    unfold vote_of. cbn [fst]. by rewrite (GetVoterIndex_lookup _ _ _ Hnd Ha).
  - intros (v & Hv & HP). unfold vote_of in Hv.
    destruct (GetVoterIndex b a) as [i|] eqn:Hi; [|done]. cbn in Hv.
    apply GetVoterIndex_Some in Hi as [Hi _]. exists (a, v). split; [done|].
    apply list_elem_of_In, filter_In. split; [|done]. apply list_elem_of_In, list_elem_of_lookup.
    exists i. by apply lookup_zip_Some.
Qed.

(** The tallies the code counts are the sizes of the two sides. *)
Lemma size_voters_with P b :
  wf b → NoDup (EligibleVoters b) → Z.of_nat (size (voters_with P b)) = count P (Votes b).
Proof.
  intros Hwf Hnd. unfold voters_with. rewrite size_list_to_set.
  - rewrite length_fmap. unfold wf in Hwf. revert Hwf. clear Hnd. unfold count.
    generalize (EligibleVoters b) as l, (Votes b) as k.
    intros l k. revert l. induction k as [|v k IH]; intros [|a l] Hlen; try done.
    cbn. injection Hlen as Hlen. specialize (IH l Hlen). destruct (P v); cbn; lia.
  - apply NoDup_filter_fst. rewrite fst_zip by (by rewrite Hwf). done.
Qed.

Lemma voted_sides b a :
  wf b → NoDup (EligibleVoters b) →
  voted b a ↔ a ∈ voters_with is_yes b ∪ voters_with is_no b.
Proof.
  intros Hwf Hnd. rewrite elem_of_union, !elem_of_voters_with by done. unfold voted.
  destruct (vote_of b a) as [v|]; [|naive_solver].
  split.
  - intros Hv. destruct v; [done|left|right]; eexists; (split; [done|]); by apply bool_decide_eq_true.
  - intros [(v' & [= <-] & Hv)|(v' & [= <-] & Hv)]; by apply bool_decide_eq_true in Hv as ->.
Qed.

(** Recording a vote on the ballot marks it on the poll. *)
Lemma poll_of_AddVote b a v b' :
  wf b → NoDup (EligibleVoters b) → AddVote b a v = Ok b' →
  poll_of b' = mark a v (poll_of b) ∧ wf b' ∧ EligibleVoters b' = EligibleVoters b ∧
  Id b' = Id b ∧ Status b' = Status b ∧ BallotType b' = BallotType b.
Proof.
  intros Hwf Hnd Ha. pose proof (AddVote_spec b a v Hwf) as Hs. rewrite Ha in Hs.
  destruct Hs as ((_ & _ & Hnv) & Hb' & Hwf' & Hva & Hvo).
  assert (EligibleVoters b' = EligibleVoters b) as Hel by (by rewrite Hb').
  assert (∀ P, P VOTE_RESULT_NOT_YET_VOTED = false →
            voters_with P b' = (if P v then {[ a ]} else ∅) ∪ voters_with P b) as Hside.
  { intros P HP. apply set_eq. intros x. rewrite elem_of_union, !elem_of_voters_with by (try done; by rewrite Hel).
    destruct (decide (x = a)) as [->|Hne].
    - rewrite Hva. unfold voted in Hnv. destruct (vote_of b a) as [u|] eqn:Hu.
      + apply dec_stable in Hnv as ->. destruct (P v) eqn:HPv; set_solver by congruence.
      + destruct (P v) eqn:HPv; set_solver by congruence.
    - rewrite Hvo by done. destruct (P v); set_solver. }
  split.
  - unfold poll_of. rewrite Hel, !Hside by done.
    assert (VotingThreshold b' = VotingThreshold b ∧ BlockHeightExpiry b' = BlockHeightExpiry b
            ∧ Status b' = Status b) as (-> & -> & ->) by (by rewrite Hb').
    destruct v; cbn; unfold poll_of; cbn; f_equal; set_solver.
  - split_and!; try done; by rewrite Hb'.
Qed.

(** Deciding the ballot decides the poll. *)
Lemma poll_of_IsFinalizingVote b b' fin :
  wf b → NoDup (EligibleVoters b) → Status b = BALLOT_STATUS_PENDING →
  IsFinalizingVote b = (b', fin) →
  poll_of b' = decide_poll (poll_of b) ∧ fin = bool_decide (Status b' ≠ BALLOT_STATUS_PENDING).
Proof.
  intros Hwf Hnd Hst. unfold IsFinalizingVote, decide_poll. rewrite decide_False by naive_solver.
  cbn [poll_of needed ayes noes]. rewrite !size_voters_with by done.
  repeat case_decide; intros [= <- <-]; cbn; (split; [done|]); try done.
Qed.

Lemma poll_of_NewBallot id ty vs n h e :
  NoDup vs → poll_of (NewBallot id ty vs n h e) = open_poll vs n (i64 (h + e)).
Proof.
  intros Hnd. set (b := NewBallot _ _ _ _ _ _).
  assert (∀ P, P VOTE_RESULT_NOT_YET_VOTED = false → voters_with P b = ∅) as Hside.
  { intros P HP. apply set_eq. intros x. rewrite elem_of_voters_with by (done || apply NewBallot_wf).
    split; [|set_solver]. intros (v & Hv & HPv). exfalso.
    apply (NewBallot_no_votes id ty vs n h e x). unfold voted. fold b. rewrite Hv. congruence. }
  unfold poll_of. by rewrite !Hside.
Qed.

(** *** The store as a family of polls *)
Definition polls (s : UvState) : gmap string Poll := poll_of <$> Ballots s.

Lemma poll_of_status b st : poll_of (b <| Status := st |>) = (poll_of b) <| phase := st |>.
Proof. done. Qed.

Lemma polls_sweep h s : ballots_inv s → polls (sweep h s) = lapse h <$> polls s.
Proof.
  intros Hinv. apply map_eq. intros id. unfold polls. rewrite !lookup_fmap, lookup_sweep by done.
  destruct (Ballots s !! id) as [b|]; [|done]. cbn. f_equal. unfold lapse. cbn.
  by repeat case_decide.
Qed.

Lemma polls_settle st id b s :
  Ballots s !! id = Some b →
  polls (settle st {[ id ]} s) = <[ id := (poll_of b) <| phase := st |> ]> (polls s).
Proof.
  intros Hb. apply map_eq. intros i. unfold polls. rewrite lookup_fmap, lookup_settle.
  destruct (decide (id = i)) as [<-|Hne].
  - rewrite lookup_insert_eq, Hb. cbn. by rewrite decide_True by set_solver.
  - rewrite lookup_insert_ne, lookup_fmap by done. destruct (_ !! i); [|done]. cbn.
    by rewrite decide_False by set_solver.
Qed.

Lemma polls_record_vote b b1 s voter r :
  wf b → NoDup (EligibleVoters b) → Status b = BALLOT_STATUS_PENDING →
  AddVote b voter r = Ok b1 →
  let '(b2, fin, s') := record_vote b1 s in
  poll_of b2 = decide_poll (mark voter r (poll_of b)) ∧
  fin = bool_decide (Status b2 ≠ BALLOT_STATUS_PENDING) ∧
  polls s' = <[ Id b := poll_of b2 ]> (polls s).
Proof.
  intros Hwf Hnd Hst Ha.
  destruct (poll_of_AddVote b voter r b1 Hwf Hnd Ha) as (Hp & Hwf1 & Hel & Hid & Hst1 & _).
  unfold record_vote. destruct (IsFinalizingVote b1) as [b2 fin] eqn:Hf.
  pose proof (IsFinalizingVote_spec b1 b2 fin Hf) as (_ & Hb2 & _ & Hno).
  destruct (poll_of_IsFinalizingVote b1 b2 fin) as [Hp2 Hfin]; [done|by rewrite Hel|congruence|done|].
  split_and!; [by rewrite Hp2, Hp | done |].
  destruct fin.
  - rewrite (polls_settle _ _ b1) by (cbn; by rewrite lookup_insert_eq).
    unfold polls at 1. cbn. rewrite fmap_insert, insert_insert_eq, Hid. f_equal. by rewrite Hb2.
  - rewrite (Hno eq_refl). unfold polls at 1. cbn. by rewrite fmap_insert, Hid.
Qed.

(** [AddVote] accepts exactly the votes the poll accepts. *)
Lemma AddVote_cast b h voter r :
  wf b → NoDup (EligibleVoters b) → Status b = BALLOT_STATUS_PENDING → h < BlockHeightExpiry b →
  cast h voter r (poll_of b) =
  match AddVote b voter r with Ok _ => Some (decide_poll (mark voter r (poll_of b))) | _ => None end.
Proof.
  intros Hwf Hnd Hst Hh. pose proof (AddVote_spec b voter r Hwf) as Hs.
  pose proof (voted_sides b voter Hwf Hnd) as Hv.
  unfold cast. cbn [poll_of phase deadline electorate ayes noes].
  destruct (AddVote b voter r) as [b1|m|m]; [| |done].
  - rewrite decide_True; [done|]. split_and!; try done.
    rewrite elem_of_difference, elem_of_list_to_set, <- Hv. naive_solver.
  - rewrite decide_False; [done|]. rewrite elem_of_difference, elem_of_list_to_set, <- Hv. naive_solver.
Qed.

(** ** Theorems *)
Section theorems.
Context {E : Type} `{Bech32, SK : StakingKeeper, BH : BallotHooks E, !BallotHooksLaws E}.
Implicit Types (ctx : Ctx) (w : World E).

Lemma voted_ballot_ok ctx id ty vs n e s b isNew s' :
  ballots_inv s → NoDup vs → voted_ballot ctx id ty vs n e s = (b, isNew, s') →
  ballots_inv s' ∧ Ballots s' !! id = Some b ∧ Id b = id ∧ wf b ∧ NoDup (EligibleVoters b) ∧
  (Status b = BALLOT_STATUS_PENDING → id ∈ ActiveBallotIDs s') ∧
  isNew = bool_decide (polls s !! id = None) ∧
  poll_of b = default (open_poll vs n (i64 (BlockHeight ctx + e))) (polls s !! id) ∧
  polls s' = <[ id := poll_of b ]> (match polls s !! id with
                                    | Some _ => polls s
                                    | None => lapse (BlockHeight ctx) <$> polls s end).
Proof.
  intros Hinv Hnd. unfold voted_ballot.
  rewrite (lookup_fmap poll_of (Ballots s) id : polls s !! id = _).
  destruct (Ballots s !! id) as [b0|] eqn:Hb; cbn; intros [= <- <- <-].
  - destruct (inv_ballot _ Hinv _ _ Hb) as (Hid & Hwf & Hndb & Hun & HA & _).
    split_and!; try done; [tauto|]. rewrite insert_id; [done|]. unfold polls. by rewrite lookup_fmap, Hb.
  - set (nb := NewBallot _ _ _ _ _ _).
    assert (Ballots (sweep (BlockHeight ctx) s) !! id = None) as Hfr by (by rewrite lookup_sweep, Hb).
    split_and!; try done.
    + apply open_ballot_inv; try done; [apply NewBallot_wf | by apply sweep_inv].
    + cbn. by rewrite lookup_insert_eq.
    + apply NewBallot_wf.
    + intros _. cbn. set_solver.
    + by apply poll_of_NewBallot.
    + unfold open_ballot, polls, put_ballot at 1. cbn. rewrite fmap_insert. f_equal.
      by apply polls_sweep.
Qed.

Lemma record_vote_inv b b1 s voter r :
  ballots_inv s → Ballots s !! Id b = Some b → Status b = BALLOT_STATUS_PENDING →
  AddVote b voter r = Ok b1 → ballots_inv (record_vote b1 s).2.
Proof.
  intros Hinv Hb Hst Ha. destruct (inv_ballot _ Hinv _ _ Hb) as (_ & Hwf & Hnd & _ & HA & _).
  destruct (poll_of_AddVote b voter r b1 Hwf Hnd Ha) as (_ & Hwf1 & Hel & Hid & Hst1 & _).
  assert (ballots_inv (put_ballot b1 s)) as Hp by (apply (put_ballot_inv b); try done; by rewrite Hel).
  unfold record_vote. destruct (IsFinalizingVote b1) as [b2 fin] eqn:Hf. cbn. destruct fin; [|done].
  pose proof (IsFinalizingVote_spec b1 b2 true Hf) as (_ & _ & Hs & _).
  apply settle_inv; [|cbn; rewrite Hid; set_solver|done].
  rewrite (Hs eq_refl). unfold terminal. case_decide; auto.
Qed.

(** The outcome of a vote in terms of the poll it is cast on. *)
Lemma VoteOnBallot_cast ctx id ty voter r vs n e w :
  ballots_inv (uv w) → NoDup vs →
  let h := BlockHeight ctx in
  let P := polls (uv w) in
  let P1 := match P !! id with Some _ => P | None => lapse h <$> P end in
  let p := default (open_poll vs n (i64 (h + e))) (P !! id) in
  let '(out, w') := VoteOnBallot ctx id ty voter r vs n e w in
  match cast h voter r p with
  | Some p' =>
      (∃ b, out = Ok (b, bool_decide (phase p' ≠ BALLOT_STATUS_PENDING), bool_decide (P !! id = None)) ∧
            poll_of b = p') ∧
      polls (uv w') = <[ id := p' ]> P1
  | None => (∃ m, out = Err m) ∧ polls (uv w') = <[ id := lapse h p ]> P1
  end ∧ ballots_inv (uv w').
Proof.
  intros Hinv Hnd h P P1 p. destruct (voted_ballot ctx id ty vs n e (uv w)) as [[b isNew] s] eqn:Hvb.
  destruct (VoteOnBallot_run ctx id ty voter r vs n e w b isNew s Hinv Hvb) as (w' & out & -> & Hout).
  destruct (voted_ballot_ok _ _ _ _ _ _ _ _ _ _ Hinv Hnd Hvb)
    as (Hinv' & Hb & Hid & Hwf & Hndb & Hact & Hnew & Hp & Hps).
  fold h P p P1 in Hp, Hps, Hnew. rewrite <- Hp.
  case_decide as Hst.
  { assert (cast h voter r (poll_of b) = None) as -> by (unfold cast; rewrite decide_False; naive_solver).
    destruct Hout as [? ->]. unfold lapse. rewrite decide_False by (cbn; naive_solver).
    by split_and!. }
  case_decide as Hexp.
  { assert (cast h voter r (poll_of b) = None) as ->.
    { unfold cast. rewrite decide_False; [done|]. cbn. intros (_ & ? & _). lia. }
    destruct Hout as [? ->]. unfold lapse. rewrite decide_True by done.
    rewrite (polls_settle _ _ b) by done. rewrite Hps, insert_insert_eq. split_and!; try done.
    apply settle_inv; [right; by right | set_solver | done]. }
  rewrite AddVote_cast by (try done; lia).
  destruct (AddVote b voter r) as [b1|m|m] eqn:Ha.
  - pose proof (polls_record_vote b b1 s voter r Hwf Hndb Hst Ha) as Hrec.
    pose proof (record_vote_inv b b1 s voter r Hinv' ltac:(by rewrite Hid) Hst Ha) as Hri.
    destruct (record_vote b1 s) as [[b2 fin] s']. cbn in Hout, Hri. destruct Hout as [-> ->].
    destruct Hrec as (Hp2 & -> & ->). split_and!; [|by rewrite Hps, Hid, Hp2, insert_insert_eq|done].
    exists b2. rewrite <- Hp2, Hnew. by split.
  - destruct Hout as [-> ->]. unfold lapse. rewrite decide_False by (cbn; naive_solver lia). eauto.
  - pose proof (AddVote_spec b voter r Hwf) as Hs. by rewrite Ha in Hs.
Qed.

(** C1. Voting implements the poll: [VoteOnBallot] succeeds exactly when the poll
    accepts the vote (open, before its deadline, voter entitled and not yet
    voted), the stored ballot is then the poll with the vote counted and decided
    at the threshold, and the returned flags say whether it was decided and
    whether it is new.  A refused vote leaves every poll as it was, except that
    an open poll past its deadline lapses.  A first vote on an id also lapses
    every stale poll.  The indexes stay consistent, and nothing panics. *)
Theorem VoteOnBallot_refines_poll ctx id ty voter r vs n e w :
  ballots_inv (uv w) → NoDup vs →
  let h := BlockHeight ctx in
  let P := polls (uv w) in
  let P1 := match P !! id with Some _ => P | None => lapse h <$> P end in
  let p := default (open_poll vs n (i64 (h + e))) (P !! id) in
  let '(out, w') := VoteOnBallot ctx id ty voter r vs n e w in
  match cast h voter r p with
  | Some p' =>
      (∃ b, out = Ok (b, bool_decide (phase p' ≠ BALLOT_STATUS_PENDING), bool_decide (P !! id = None)) ∧
            poll_of b = p') ∧
      polls (uv w') = <[ id := p' ]> P1
  | None => (∃ m, out = Err m) ∧ polls (uv w') = <[ id := lapse h p ]> P1
  end ∧ ballots_inv (uv w').
Proof. apply VoteOnBallot_cast. Qed.
End theorems.

(** ** Recomputing a quorum *)

(** On the poll: the electorate is replaced, votes of voters that left it are
    dropped, and the threshold is the quorum of the new electorate. *)
Definition restrict (vs : list string) (p : Poll) : Poll :=
  mkPoll (list_to_set vs) (quorum (Z.of_nat (length vs))) (deadline p)
    (ayes p ∩ list_to_set vs) (noes p ∩ list_to_set vs) (phase p).

Lemma foldl_insert_lookup {V} (l : list (string * V)) (m : gmap string V) a :
  NoDup l.*1 →
  foldl (λ m vv, <[ vv.1 := vv.2 ]> m) m l !! a =
  match list_find (λ kv, kv.1 = a) l with Some (_, kv) => Some kv.2 | None => m !! a end.
Proof.
  revert m. induction l as [|[k v] l IH]; intros m Hnd; [done|].
  cbn in Hnd. apply NoDup_cons in Hnd as [Hk Hnd]. cbn [foldl]. rewrite IH by done. cbn.
  destruct (decide (k = a)) as [->|Hne].
  - destruct (list_find _ l) as [[i kv]|] eqn:Hf; [|by rewrite lookup_insert_eq].
    exfalso. apply list_find_Some in Hf as (Hl & <- & _). apply Hk.
    apply list_elem_of_fmap. exists kv. split; [done|]. by eapply list_elem_of_lookup_2.
  - rewrite lookup_insert_ne by done. by destruct (list_find _ l) as [[]|].
Qed.

Lemma old_votes_lookup b a :
  wf b → NoDup (EligibleVoters b) → old_votes b !! a = vote_of b a.
Proof.
  intros Hwf Hnd. unfold old_votes. unfold wf in Hwf.
  rewrite foldl_insert_lookup by (rewrite fst_zip; [done|by rewrite Hwf]).
  destruct (list_find _ _) as [[i [k v]]|] eqn:Hf.
  - apply list_find_Some in Hf as (Hl & Hk & _). cbn in Hk. subst k.
    apply lookup_zip_Some in Hl as [Ha Hv]. unfold vote_of.
    by rewrite (GetVoterIndex_lookup _ _ _ Hnd Ha).
  - apply list_find_None in Hf. rewrite lookup_empty. unfold vote_of.
    destruct (GetVoterIndex b a) as [i|] eqn:Hi; [|done]. cbn.
    destruct (Votes b !! i) as [v|] eqn:Hv; [|done]. exfalso.
    apply GetVoterIndex_Some in Hi as [Hi _]. rewrite Forall_forall in Hf.
    apply (Hf (a, v)); [|done]. apply list_elem_of_lookup. exists i. by apply lookup_zip_Some.
Qed.

Lemma recomputed_wf b vs : wf (recomputed b vs).
Proof. unfold wf. cbn. by rewrite length_fmap. Qed.

Lemma vote_of_recomputed b vs a :
  wf b → NoDup (EligibleVoters b) → NoDup vs →
  vote_of (recomputed b vs) a =
  if decide (a ∈ vs) then Some (default VOTE_RESULT_NOT_YET_VOTED (vote_of b a)) else None.
Proof.
  intros Hwf Hnd Hvs. unfold vote_of at 1. case_decide as Ha.
  - apply list_elem_of_lookup in Ha as [i Hi].
    rewrite (GetVoterIndex_lookup (recomputed b vs) i a) by done. cbn.
    rewrite list_lookup_fmap, Hi. cbn. by rewrite old_votes_lookup.
  - by rewrite (proj2 (GetVoterIndex_None (recomputed b vs) a)).
Qed.

Lemma poll_of_recomputed b vs :
  wf b → NoDup (EligibleVoters b) → NoDup vs →
  poll_of (recomputed b vs) = restrict vs (poll_of b).
Proof.
  intros Hwf Hnd Hvs. unfold poll_of, restrict. cbn [electorate deadline ayes noes phase].
  assert (∀ P, P VOTE_RESULT_NOT_YET_VOTED = false →
            voters_with P (recomputed b vs) = voters_with P b ∩ list_to_set vs) as Hside.
  { intros P HP. apply set_eq. intros x. rewrite elem_of_intersection, elem_of_list_to_set.
    rewrite !elem_of_voters_with by (done || apply recomputed_wf). rewrite vote_of_recomputed by done.
    case_decide; [|naive_solver]. destruct (vote_of b x) as [v|]; cbn; naive_solver congruence. }
  by rewrite !Hside.
Qed.

Section recompute.
Context {E : Type} `{Bech32, SK : StakingKeeper, BH : BallotHooks E, !BallotHooksLaws E}.
Implicit Types (ctx : Ctx) (w : World E).

(** The addresses of the validators that may vote now. *)
Definition current_voters (w : World E) : list string :=
  match (GetEligibleVoters w).1 with Ok vs => voter_addresses vs | _ => [] end.

Lemma RecomputeBallotQuorum_run ctx id w h b :
  ballots_inv (uv w) → validators_inv h (uv w) →
  Ballots (uv w) !! id = Some b → Status b = BALLOT_STATUS_PENDING →
  let vs := current_voters w in
  let oc := Z.of_nat (length (EligibleVoters b)) in
  ∃ w', if decide (vs = []) then
    RecomputeBallotQuorum ctx id w =
      (Ok (mkRecomputeResult oc 0 (VotingThreshold b) 0 BALLOT_STATUS_EXPIRED), w') ∧
    uv w' = settle BALLOT_STATUS_EXPIRED {[ id ]} (uv w)
  else
    RecomputeBallotQuorum ctx id w =
      (Ok (mkRecomputeResult oc (Z.of_nat (length vs)) (VotingThreshold b)
             (quorum (Z.of_nat (length vs))) BALLOT_STATUS_PENDING), w') ∧
    uv w' = put_ballot (recomputed b vs) (uv w).
Proof.
  intros Hinv Hvi Hb Hst vs oc. unfold RecomputeBallotQuorum, GetBallot. mrun. rewrite Hb. mrun.
  rewrite bool_decide_eq_true_2 by done. mrun.
  subst vs. unfold current_voters. rewrite (GetEligibleVoters_run h) by done. cbn [fst]. mrun.
  set (vs := voter_addresses _).
  destruct (inv_ballot _ Hinv _ _ Hb) as (Hid & _).
  destruct (decide (vs = [])) as [Hn|Hn].
  - rewrite decide_True by (by rewrite Hn). mrun.
    destruct (MarkBallotExpired_run ctx id w) as (w' & -> & Hw'); [by eauto|]. mrun. by exists w'.
  - rewrite decide_False by (destruct vs; [done|cbn; lia]). mrun. eexists. split; [done|].
    cbn. unfold put_ballot. cbn. by rewrite Hid.
Qed.

Lemma RecomputeBallotQuorum_fails ctx id w :
  match Ballots (uv w) !! id with Some b => Status b ≠ BALLOT_STATUS_PENDING | None => True end →
  ∃ m, RecomputeBallotQuorum ctx id w = (Err m, w).
Proof.
  intros Hb. unfold RecomputeBallotQuorum, GetBallot. mrun.
  destruct (_ !! id) as [b|]; mrun; [|by eauto]. rewrite bool_decide_eq_false_2 by done. mrun. eauto.
Qed.

Lemma current_voters_NoDup h w : validators_inv h (uv w) → NoDup (current_voters w).
Proof.
  intros Hvi. unfold current_voters. destruct (GetEligibleVoters w).1 eqn:Hg; [|constructor..].
  by eapply voter_addresses_NoDup.
Qed.

Lemma RecomputeBallotQuorum_inv ctx id w h :
  ballots_inv (uv w) → validators_inv h (uv w) → ballots_inv (uv (RecomputeBallotQuorum ctx id w).2).
Proof.
  intros Hinv Hvi. destruct (Ballots (uv w) !! id) as [b|] eqn:Hb.
  2: { destruct (RecomputeBallotQuorum_fails ctx id w) as [m ->]; [by rewrite Hb|done]. }
  destruct (decide (Status b = BALLOT_STATUS_PENDING)) as [Hst|Hst].
  2: { destruct (RecomputeBallotQuorum_fails ctx id w) as [m ->]; [by rewrite Hb|done]. }
  destruct (inv_ballot _ Hinv _ _ Hb) as (Hid & _ & _ & _ & HA & _).
  destruct (RecomputeBallotQuorum_run ctx id w h b Hinv Hvi Hb Hst) as [w' Hw'].
  case_decide; destruct Hw' as [-> Hw']; cbn; rewrite Hw'.
  - apply settle_inv; [right; by right | set_solver | done].
  - apply (put_ballot_inv b); try done; [by rewrite Hid | apply recomputed_wf |].
    by eapply current_voters_NoDup.
Qed.

(** The administrator's recomputation re-bases a pending poll on the current
    electorate: votes of validators that may still vote are kept, the others are
    dropped, and the threshold becomes the quorum of the new electorate, which
    it can reach; with no eligible validator the poll expires.  It reports the
    counts and the new status, and changes no other poll. *)
Theorem RecomputeBallotQuorum_restricts ctx id w h b :
  ballots_inv (uv w) → validators_inv h (uv w) →
  Ballots (uv w) !! id = Some b → Status b = BALLOT_STATUS_PENDING →
  let vs := current_voters w in
  ∃ r w', RecomputeBallotQuorum ctx id w = (Ok r, w') ∧
    newEligibleCount r = Z.of_nat (length vs) ∧ oldThreshold r = VotingThreshold b ∧
    polls (uv w') = <[ id := if decide (vs = []) then (poll_of b) <| phase := BALLOT_STATUS_EXPIRED |>
                             else restrict vs (poll_of b) ]> (polls (uv w)) ∧
    (phase <$> polls (uv w') !! id) = Some (newStatus r) ∧
    (vs ≠ [] → 0 < newThreshold r ≤ newEligibleCount r).
Proof.
  intros Hinv Hvi Hb Hst vs. destruct (inv_ballot _ Hinv _ _ Hb) as (Hid & Hwf & Hnd & _).
  destruct (RecomputeBallotQuorum_run ctx id w h b Hinv Hvi Hb Hst) as [w' Hw']. fold vs in Hw'.
  case_decide as Hvs; destruct Hw' as [-> Hw']; eexists _, w'; (split; [done|]); rewrite Hw'.
  - rewrite (polls_settle _ _ b), lookup_insert_eq by done. by rewrite Hvs.
  - assert (polls (put_ballot (recomputed b vs) (uv w)) =
            <[ id := restrict vs (poll_of b) ]> (polls (uv w))) as ->.
    { unfold polls. cbn. rewrite fmap_insert, Hid, poll_of_recomputed; try done.
      by eapply current_voters_NoDup. }
    rewrite lookup_insert_eq. split_and!; try done; [cbn; by rewrite Hst|].
    intros _. cbn. apply quorum_reachable. destruct vs; [done|cbn; lia].
Qed.

(** A recomputation can strand a ballot: when every validator of the new
    electorate has already voted, the ballot stays pending even if its tally
    reaches the new threshold, and no vote can finalize it any more, because a
    repeated vote is refused. *)
Theorem RecomputeBallotQuorum_strands ctx id w h b :
  ballots_inv (uv w) → validators_inv h (uv w) →
  Ballots (uv w) !! id = Some b → Status b = BALLOT_STATUS_PENDING →
  current_voters w ≠ [] → Forall (voted b) (current_voters w) →
  let w' := (RecomputeBallotQuorum ctx id w).2 in
  (Status <$> Ballots (uv w') !! id) = Some BALLOT_STATUS_PENDING ∧
  ∀ ctx' ty voter r vs n e, NoDup vs →
    is_ok (VoteOnBallot ctx' id ty voter r vs n e w').1 = false.
Proof.
  intros Hinv Hvi Hb Hst Hne Hall w'. destruct (inv_ballot _ Hinv _ _ Hb) as (Hid & Hwf & Hnd & _).
  pose proof (RecomputeBallotQuorum_inv ctx id w h Hinv Hvi) as Hinv'. fold w' in Hinv'.
  destruct (RecomputeBallotQuorum_run ctx id w h b Hinv Hvi Hb Hst) as [w1 Hw1].
  rewrite decide_False in Hw1 by done. destruct Hw1 as [Hrun Hw1].
  assert (w' = w1) as -> by (subst w'; by rewrite Hrun).
  set (b' := recomputed b (current_voters w)) in *.
  assert (Ballots (uv w1) !! id = Some b') as Hb'.
  { rewrite Hw1. cbn. rewrite Hid. by rewrite lookup_insert_eq. }
  split; [rewrite Hb'; cbn; by rewrite Hst|]. intros ctx' ty voter r vs n e Hvs.
  destruct (VoteOnBallot_run ctx' id ty voter r vs n e w1 b' false (uv w1) Hinv') as (w2 & out & -> & Hout).
  { unfold voted_ballot. by rewrite Hb'. }
  cbn [fst]. repeat case_decide; [by destruct Hout as [[m ->] _]..|].
  pose proof (AddVote_spec b' voter r (recomputed_wf _ _)) as Ha.
  destruct (AddVote b' voter r) as [b1|m|m]; [|by destruct Hout as [-> _]..].
  destruct Ha as ((_ & Hin & Hnv) & _). exfalso. apply Hnv.
  unfold voted. subst b'. cbn in Hin. rewrite vote_of_recomputed by (try done; by eapply current_voters_NoDup).
  rewrite decide_True by done. rewrite Forall_forall in Hall. specialize (Hall voter Hin).
  unfold voted in Hall. by destruct (vote_of b voter).
Qed.
End recompute.

(** ** Histories of ballots *)

(** [frozen s s']: the ballots that are not pending in [s] are the same in
    [s'], votes, electorate and status. *)
Definition frozen (s s' : UvState) : Prop :=
  ∀ id b, Ballots s !! id = Some b → Status b ≠ BALLOT_STATUS_PENDING → Ballots s' !! id = Some b.
#[global] Instance frozen_preorder : PreOrder frozen.
Proof. split; [by intros s id b | intros s1 s2 s3 H1 H2 id b Hb Hst; auto]. Qed.

Lemma frozen_settle st X s :
  ballots_inv s → X ⊆ ActiveBallotIDs s → frozen s (settle st X s).
Proof.
  intros Hinv HX id b Hb Hst. rewrite lookup_settle, Hb. cbn. rewrite decide_False; [done|].
  intros Hin%HX. destruct (inv_ballot _ Hinv _ _ Hb) as (_ & _ & _ & _ & HA & _). by apply Hst, HA.
Qed.
Lemma frozen_sweep h s : ballots_inv s → frozen s (sweep h s).
Proof. intros. unfold sweep. apply frozen_settle; [done|apply stale_ids_active]. Qed.
Lemma frozen_put b b' s :
  Ballots s !! Id b = Some b → Status b = BALLOT_STATUS_PENDING → Id b' = Id b →
  frozen s (put_ballot b' s).
Proof.
  intros Hb Hst Hid id b1 Hb1 Hst1. cbn. rewrite Hid.
  rewrite lookup_insert_ne; [done|]. intros <-. congruence.
Qed.
Lemma frozen_open b s : Ballots s !! Id b = None → frozen s (open_ballot b s).
Proof. intros Hb id b1 Hb1 _. cbn. rewrite lookup_insert_ne; [done|]. intros <-. congruence. Qed.

Inductive ballot_op :=
| OpVote (id : string) (ty : BallotObservationType) (voter : string) (r : VoteResult)
    (voters : list string) (votesNeeded expiryAfterBlocks : Z)
| OpExpire (currentHeight : Z)
| OpRecompute (ballotID : string).

Section histories.
Context {E : Type} `{Bech32, SK : StakingKeeper, BH : BallotHooks E, !BallotHooksLaws E}.
Implicit Types (ctx : Ctx) (w : World E).

Definition exec_ballot_op ctx (op : ballot_op) (w : World E) : World E :=
  match op with
  | OpVote id ty voter r vs n e => (VoteOnBallot ctx id ty voter r vs n e w).2
  | OpExpire h => (ExpireBallotsBeforeHeight ctx h w).2
  | OpRecompute id => (RecomputeBallotQuorum ctx id w).2
  end.
Definition run_ballot_ops (ops : list (Ctx * ballot_op)) (w : World E) : World E :=
  foldl (λ w co, exec_ballot_op co.1 co.2 w) w ops.

Definition op_ok (op : ballot_op) : Prop :=
  match op with OpVote _ _ _ _ vs _ _ => NoDup vs | _ => True end.

(** What one operation guarantees. *)
Definition ballot_step (s s' : UvState) : Prop :=
  ballots_inv s' ∧ frozen s s' ∧ UniversalValidatorSet s' = UniversalValidatorSet s.

Lemma record_vote_frozen b b1 s voter r :
  ballots_inv s → Ballots s !! Id b = Some b → Status b = BALLOT_STATUS_PENDING →
  AddVote b voter r = Ok b1 →
  frozen s (record_vote b1 s).2 ∧
  UniversalValidatorSet (record_vote b1 s).2 = UniversalValidatorSet s.
Proof.
  intros Hinv Hb Hst Ha. destruct (inv_ballot _ Hinv _ _ Hb) as (_ & Hwf & Hnd & _ & HA & _).
  destruct (poll_of_AddVote b voter r b1 Hwf Hnd Ha) as (_ & Hwf1 & Hel & Hid & Hst1 & _).
  unfold record_vote. destruct (IsFinalizingVote b1) as [b2 fin]. cbn.
  assert (frozen s (put_ballot b1 s)) as Hp by (by apply (frozen_put b)).
  destruct fin; (split; [|done]); [|done]. etrans; [exact Hp|].
  apply frozen_settle; [|cbn; rewrite Hid; set_solver].
  apply (put_ballot_inv b); try done. by rewrite Hel.
Qed.

Lemma voted_ballot_frozen ctx id ty vs n e s b isNew s' :
  ballots_inv s → voted_ballot ctx id ty vs n e s = (b, isNew, s') →
  frozen s s' ∧ UniversalValidatorSet s' = UniversalValidatorSet s.
Proof.
  intros Hinv. unfold voted_ballot. destruct (Ballots s !! id) eqn:Hl; intros [= <- <- <-]; [done|].
  split; [|done]. etrans; [by apply (frozen_sweep (BlockHeight ctx))|].
  apply frozen_open. rewrite lookup_sweep by done. cbn. by rewrite Hl.
Qed.

Lemma VoteOnBallot_step ctx id ty voter r vs n e w :
  ballots_inv (uv w) → NoDup vs →
  ballot_step (uv w) (uv (VoteOnBallot ctx id ty voter r vs n e w).2).
Proof.
  intros Hinv Hnd. destruct (voted_ballot ctx id ty vs n e (uv w)) as [[b isNew] s] eqn:Hvb.
  destruct (VoteOnBallot_run ctx id ty voter r vs n e w b isNew s Hinv Hvb) as (w' & out & -> & Hout).
  destruct (voted_ballot_ok _ _ _ _ _ _ _ _ _ _ Hinv Hnd Hvb)
    as (Hinv' & Hb & Hid & Hwf & Hndb & Hact & _).
  destruct (voted_ballot_frozen ctx id ty vs n e (uv w) b isNew s Hinv Hvb) as [Hfr Hus].
  cbn [snd]. case_decide; [by destruct Hout as [_ ->]|]. case_decide.
  { destruct Hout as [_ ->]. split; [|split].
    - apply settle_inv; [right; by right|set_solver|done].
    - etrans; [exact Hfr|]. apply frozen_settle; [done|set_solver].
    - done. }
  destruct (AddVote b voter r) as [b1|m|m] eqn:Ha; [|by destruct Hout as [_ ->]..].
  destruct Hout as [_ ->]. subst id.
  destruct (record_vote_frozen b b1 s voter r) as [Hf Hu]; try done.
  split; [by eapply record_vote_inv|]. split; [by etrans|congruence].
Qed.

Lemma RecomputeBallotQuorum_step ctx id w h :
  ballots_inv (uv w) → validators_inv h (uv w) →
  ballot_step (uv w) (uv (RecomputeBallotQuorum ctx id w).2).
Proof.
  intros Hinv Hvi. split; [by eapply RecomputeBallotQuorum_inv|].
  destruct (Ballots (uv w) !! id) as [b|] eqn:Hb.
  2: { destruct (RecomputeBallotQuorum_fails ctx id w) as [m ->]; [by rewrite Hb|done]. }
  destruct (decide (Status b = BALLOT_STATUS_PENDING)) as [Hst|Hst].
  2: { destruct (RecomputeBallotQuorum_fails ctx id w) as [m ->]; [by rewrite Hb|done]. }
  destruct (inv_ballot _ Hinv _ _ Hb) as (Hid & _ & _ & _ & HA & _).
  destruct (RecomputeBallotQuorum_run ctx id w h b Hinv Hvi Hb Hst) as [w' Hw'].
  case_decide; destruct Hw' as [-> Hw']; cbn; rewrite Hw'; (split; [|done]).
  - apply frozen_settle; [done|set_solver].
  - apply (frozen_put b); [by rewrite Hid|done|done].
Qed.

Lemma exec_ballot_op_step ctx op w h :
  ballots_inv (uv w) → validators_inv h (uv w) → op_ok op →
  ballot_step (uv w) (uv (exec_ballot_op ctx op w)).
Proof.
  intros Hinv Hvi Hok. destruct op as [id ty voter r vs n e|h'|id]; cbn.
  - by apply VoteOnBallot_step.
  - destruct (ExpireBallotsBeforeHeight_run ctx h' w Hinv) as (w' & -> & Hw'). cbn. rewrite Hw'.
    split; [by apply sweep_inv|]. split; [|done]. by apply frozen_sweep.
  - by eapply RecomputeBallotQuorum_step.
Qed.

(** C20. The ballot store stays consistent, and a decided ballot is final: after
    any sequence of votes, sweeps and recomputations, each in its own block
    context and whatever its outcome, every ballot is in the index of its status
    and in no other, its vote array matches its electorate, and every ballot
    that was PASSED, REJECTED or EXPIRED before is unchanged. *)
Theorem ballots_consistent_and_final ops w h :
  ballots_inv (uv w) → validators_inv h (uv w) → Forall (op_ok ∘ snd) ops →
  ballots_inv (uv (run_ballot_ops ops w)) ∧ frozen (uv w) (uv (run_ballot_ops ops w)).
Proof.
  revert w. induction ops as [|[ctx op] ops IH]; intros w Hinv Hvi Hok; [done|].
  apply Forall_cons in Hok as [Ho Hok]. cbn in Ho.
  destruct (exec_ballot_op_step ctx op w h Hinv Hvi Ho) as (Hinv' & Hfr & Hu).
  destruct (IH (exec_ballot_op ctx op w)) as [Hi Hf]; [done| |done|].
  - unfold validators_inv. by rewrite Hu.
  - split; [done|]. by etrans.
Qed.

(** The sweep is complete and precise: it always succeeds on a consistent
    store, no active ballot is past its expiry afterwards, a pending ballot is
    expired exactly when its expiry height is reached, and nothing else in any
    ballot changes. *)
Theorem ExpireBallotsBeforeHeight_complete ctx h w :
  ballots_inv (uv w) →
  ∃ w', ExpireBallotsBeforeHeight ctx h w = (Ok tt, w') ∧
    (∀ id b, id ∈ ActiveBallotIDs (uv w') → Ballots (uv w') !! id = Some b → h < BlockHeightExpiry b) ∧
    ∀ id, Ballots (uv w') !! id =
      (λ b, if decide (Status b = BALLOT_STATUS_PENDING ∧ BlockHeightExpiry b ≤ h)
            then b <| Status := BALLOT_STATUS_EXPIRED |> else b) <$> Ballots (uv w) !! id.
Proof.
  intros Hinv. destruct (ExpireBallotsBeforeHeight_run ctx h w Hinv) as (w' & Hrun & Hw').
  exists w'. split; [done|]. pose proof (sweep_inv h _ Hinv) as Hinv'. rewrite Hw'. split.
  - intros id b Hact Hb. destruct (inv_ballot _ Hinv' _ _ Hb) as (_ & _ & _ & _ & HA & _).
    apply HA in Hact. rewrite lookup_sweep in Hb by done.
    destruct (Ballots (uv w) !! id) as [b0|]; [|done]. cbn in Hb. injection Hb as <-.
    case_decide; [done|]. destruct (decide (h < BlockHeightExpiry b0)); [done|]. exfalso. naive_solver lia.
  - intros id. by apply lookup_sweep.
Qed.

(** A vote on a ballot that is past its expiry marks it expired and then
    fails, so under the all-or-nothing execution of a message the mark is rolled
    back: the ballot is still stored as pending and active afterwards. *)
Theorem late_vote_mark_is_discarded ctx id ty voter r vs n e w b :
  ballots_inv (uv w) → Ballots (uv w) !! id = Some b →
  Status b = BALLOT_STATUS_PENDING → BlockHeightExpiry b ≤ BlockHeight ctx →
  (Status <$> Ballots (uv (VoteOnBallot ctx id ty voter r vs n e w).2) !! id) = Some BALLOT_STATUS_EXPIRED ∧
  ∃ m, atomically (VoteOnBallot ctx id ty voter r vs n e) w = (Err m, w).
Proof.
  intros Hinv Hb Hst Hexp.
  destruct (VoteOnBallot_run ctx id ty voter r vs n e w b false (uv w) Hinv) as (w' & out & Hrun & Hout).
  { unfold voted_ballot. by rewrite Hb. }
  rewrite decide_False, decide_True in Hout by naive_solver. destruct Hout as [[m ->] Hw'].
  rewrite atomically_run, Hrun. cbn [snd]. rewrite Hw', lookup_settle, Hb. cbn.
  rewrite decide_True by set_solver. eauto.
Qed.
End histories.
