(* ===== verification/UvMsg.v ===== *)
(** * x/uvalidator: messages, queries, genesis and the hook fan-out

    [keeper/msg_server.go], the message checks of [types/msg_*.go],
    [keeper/query_server.go], [keeper/hooks.go], the genesis functions of
    [keeper/keeper.go] and the v2 migration.  A message runs its
    [ValidateBasic], then its handler, and its writes are kept only if both
    succeed. *)
From S2P Require Import Prelude GoStrings UvTypes TssTypes UxTypes RegTypes World UvValidator.
From S2P Require Import UvBallot.

(** ** Messages *)
Record MsgUpdateParams := mkMsgUpdateParams { Authority : string; MsgParams : UV.Params }.
Record MsgAddUniversalValidator := mkMsgAddUniversalValidator {
  AddSigner : string; AddCoreValidatorAddress : string; AddNetwork : option UV.NetworkInfo }.
Record MsgRemoveUniversalValidator := mkMsgRemoveUniversalValidator {
  RemSigner : string; RemCoreValidatorAddress : string }.
Record MsgUpdateUniversalValidator := mkMsgUpdateUniversalValidator {
  UpdSigner : string; UpdNetwork : option UV.NetworkInfo }.
Record MsgUpdateUniversalValidatorStatus := mkMsgUpdateUniversalValidatorStatus {
  StSigner : string; StCoreValidatorAddress : string; StNewStatus : UV.UVStatus }.
Record MsgRecomputeBallotQuorum := mkMsgRecomputeBallotQuorum {
  RecSigner : string; RecBallotId : string }.

Record GenesisState := mkGenesisState {
  GenParams : UV.Params;
  GenUniversalValidators : list (string * UV.UniversalValidator);
  GenBallots : list Ballot.Ballot;
  GenActiveBallotIds : list string;
  GenExpiredBallotIds : list string;
  GenFinalizedBallotIds : list string
}.

Section messages.
Context {E : Type} `{Bech32, SK : StakingKeeper, UH : UValidatorHooks E, UK : UtssKeeper E,
  BH : BallotHooks E}.
(** the module's authority, the governance account unless configured *)
Context (authority : string).
Implicit Types ctx : Ctx.
#[local] Abbreviation M := (M (World E)).

Definition valid_signer (signer : string) : res unit :=
  wrap_res "invalid signer address" (AccAddressFromBech32 signer) ;; mret tt.
Definition valid_core (c : string) : res unit :=
  wrap_res "invalid core validator address" (ValAddressFromBech32 c) ;; mret tt.

Definition MsgAddUniversalValidator_ValidateBasic (m : MsgAddUniversalValidator) : res unit :=
  valid_signer (AddSigner m) ;;
  valid_core (AddCoreValidatorAddress m) ;;
  match AddNetwork m with
  | None => Err "network info is required"
  | Some n => UV.NetworkInfo_ValidateBasic n
  end.
Definition MsgRemoveUniversalValidator_ValidateBasic (m : MsgRemoveUniversalValidator) : res unit :=
  valid_signer (RemSigner m) ;; valid_core (RemCoreValidatorAddress m).
Definition MsgUpdateUniversalValidator_ValidateBasic (m : MsgUpdateUniversalValidator) : res unit :=
  valid_signer (UpdSigner m) ;;
  match UpdNetwork m with
  | None => Err "network info is required"
  | Some n => UV.NetworkInfo_ValidateBasic n
  end.
Definition MsgUpdateUniversalValidatorStatus_ValidateBasic
    (m : MsgUpdateUniversalValidatorStatus) : res unit :=
  valid_signer (StSigner m) ;; valid_core (StCoreValidatorAddress m) ;;
  check (bool_decide (StNewStatus m = UV.UV_STATUS_ACTIVE)) "invalid new status".

(** *** Handlers *)
Definition only_admin (signer : string) : M unit :=
  p ← get_uv UvParams;
  params ← wrap "failed to get params" (lift_option p ErrNotFound);
  require (bool_decide (UV.Admin params = signer)) "invalid authority".

Definition UpdateParams (params : UV.Params) : M unit :=
  set_uv (λ s, s <| UvParams := Some params |>).

Definition msg_UpdateParams (m : MsgUpdateParams) : M unit :=
  require (bool_decide (authority = Authority m)) "invalid authority" ;;
  UpdateParams (MsgParams m).

Definition msg_AddUniversalValidator ctx (m : MsgAddUniversalValidator) : M unit :=
  only_admin (AddSigner m) ;;
  network ← deref (AddNetwork m);
  AddUniversalValidator ctx (AddCoreValidatorAddress m) network.

Definition msg_RemoveUniversalValidator ctx (m : MsgRemoveUniversalValidator) : M unit :=
  only_admin (RemSigner m) ;;
  RemoveUniversalValidator ctx (RemCoreValidatorAddress m).

Definition msg_UpdateUniversalValidator ctx (m : MsgUpdateUniversalValidator) : M unit :=
  network ← lift_option (UpdNetwork m) "network info is required";
  valAddr ← wrap "invalid signer address" (lift_res (AccAddressFromBech32 (UpdSigner m)));
  validator ← lift_option (GetValidator valAddr) "signer is not a validator operator";
  UpdateUniversalValidator ctx (OperatorAddress validator) network.

Definition msg_UpdateUniversalValidatorStatus ctx (m : MsgUpdateUniversalValidatorStatus) : M unit :=
  only_admin (StSigner m) ;;
  UpdateUniversalValidatorStatus ctx (StCoreValidatorAddress m) (StNewStatus m).

Definition msg_RecomputeBallotQuorum ctx (m : MsgRecomputeBallotQuorum) : M RecomputeResult :=
  only_admin (RecSigner m) ;;
  require (negb (bool_decide (RecBallotId m = ""))) "ballot_id is required" ;;
  RecomputeBallotQuorum ctx (RecBallotId m).

(** *** Staking hooks *)
Definition AfterValidatorBeginUnbonding ctx (valAddr : string) : M unit :=
  HandleBaseValidatorUnbonding ctx valAddr.
Definition AfterValidatorBonded ctx (valAddr : string) : M unit :=
  HandleBaseValidatorBonded ctx valAddr.

(** *** Queries *)
Definition query_AllUniversalValidators : M (list UV.UniversalValidator) := GetAllUniversalValidators.
Definition query_UniversalValidator (core : string) : M UV.UniversalValidator :=
  require (negb (bool_decide (core = ""))) "core validator address is required" ;;
  valAddr ← wrap "invalid validator address" (lift_res (ValAddressFromBech32 core));
  get_validator valAddr ("universal validator " +:+ core +:+ " not found").
Definition query_Ballot (id : string) : M Ballot.Ballot :=
  s ← get_uv Ballots; lift_option (s !! id) ("ballot " +:+ id +:+ " not found").

(** *** Genesis *)
Definition InitGenesis (data : GenesisState) : M unit :=
  lift_res (UV.Params_ValidateBasic (GenParams data)) ;;
  set_uv (λ s, s <| UvParams := Some (GenParams data) |>) ;;
  for_each (λ entry, valAddr ← lift_res (ValAddressFromBech32 entry.1);
                     put_validator valAddr entry.2) (GenUniversalValidators data) ;;
  for_each SetBallot (GenBallots data) ;;
  for_each (λ id, set_uv (λ s, s <| ActiveBallotIDs ::= ({[ id ]} ∪.) |>)) (GenActiveBallotIds data) ;;
  for_each (λ id, set_uv (λ s, s <| ExpiredBallotIDs ::= ({[ id ]} ∪.) |>)) (GenExpiredBallotIds data) ;;
  for_each (λ id, set_uv (λ s, s <| FinalizedBallotIDs ::= ({[ id ]} ∪.) |>)) (GenFinalizedBallotIds data).

Definition ExportGenesis : M GenesisState :=
  s ← get_uv (λ s, s);
  match UvParams s with
  | None => panic ErrNotFound
  | Some params =>
      mret {| GenParams := params;
              GenUniversalValidators :=
                (λ kv, (ValAddress_String kv.1, kv.2)) <$> walk (UniversalValidatorSet s);
              GenBallots := walk_values (Ballots s);
              GenActiveBallotIds := walk_keys (ActiveBallotIDs s);
              GenExpiredBallotIds := walk_keys (ExpiredBallotIDs s);
              GenFinalizedBallotIds := walk_keys (FinalizedBallotIDs s) |}
  end.

(** *** The v2 migration: a bare set of addresses becomes the validator map *)
Definition migrated_validator ctx (valAddr : string) : UV.UniversalValidator :=
  UV.mkUniversalValidator (Some (UV.mkIdentityInfo (ValAddress_String valAddr)))
    (Some (UV.mkNetworkInfo "12D3KooWFNC8BxiPoHyTJtiN1u1ctw3nSexuJHUBv4mMMmqEtQgg"
      ["/ip4/127.0.0.1/tcp/39001/p2p/12D3KooWFNC8BxiPoHyTJtiN1u1ctw3nSexuJHUBv4mMMmqEtQgg"]))
    (Some (UV.mkLifecycleInfo UV.UV_STATUS_PENDING_JOIN
      [UV.mkLifecycleEvent UV.UV_STATUS_PENDING_JOIN (BlockHeight ctx) UV.TRANSITION_REASON_UNSPECIFIED])).
Definition MigrateUniversalValidatorSet ctx (oldKeySet : gset string) : M unit :=
  for_each (λ valAddr, put_validator valAddr (migrated_validator ctx valAddr)) (walk_keys oldKeySet).
End messages.

(** ** [MultiUValidatorHooks] *)
Definition multi_uvalidator_hooks {E} (mh : list (UValidatorHooks E)) : UValidatorHooks E := {|
  AfterValidatorAdded := λ ctx a, for_each (λ h, @AfterValidatorAdded E h ctx a) mh;
  AfterValidatorRemoved := λ ctx a, for_each (λ h, @AfterValidatorRemoved E h ctx a) mh;
  AfterValidatorStatusChanged := λ ctx a o n,
    for_each (λ h, @AfterValidatorStatusChanged E h ctx a o n) mh |}.

Lemma stable_for_each {E A} (f : A → M (World E) unit) l :
  (∀ x, x ∈ l → stable uv (f x)) → stable uv (for_each f l).
Proof.
  intros H. apply stable_keeps. intros b. apply keeps_for_each_in. intros x Hx.
  by apply stable_keeps, H.
Qed.

(** Fanning out to modules that leave the validator store alone leaves it alone. *)
Lemma multi_uvalidator_hooks_laws {E} (mh : list (UValidatorHooks E)) :
  Forall (λ h, @UValidatorHooksLaws E h) mh →
  @UValidatorHooksLaws E (multi_uvalidator_hooks mh).
Proof.
  rewrite Forall_forall. intros Hl. split; intros; cbn; apply stable_for_each; intros h Hh;
    specialize (Hl h Hh); [apply added_hook_uv | apply removed_hook_uv | apply changed_hook_uv].
Qed.

(** ** Theorems *)
Section theorems.
Context {E : Type} `{Bech32, SK : StakingKeeper, UH : UValidatorHooks E, UK : UtssKeeper E,
  BH : BallotHooks E}.
Implicit Types (ctx : Ctx) (w : World E).

Lemma only_admin_ok signer w u w' :
  only_admin signer w = (Ok u, w') → w' = w ∧ (UV.Admin <$> UvParams (uv w)) = Some signer.
Proof.
  unfold only_admin. mrun. destruct (UvParams (uv w)) as [p|]; mrun; [|done].
  case_bool_decide; mrun; [|done]. intros [= _ <-]. by subst.
Qed.

(** Messages that need the administrator. *)
Inductive admin_msg :=
| AdminAdd (m : MsgAddUniversalValidator)
| AdminRemove (m : MsgRemoveUniversalValidator)
| AdminStatus (m : MsgUpdateUniversalValidatorStatus)
| AdminRecompute (m : MsgRecomputeBallotQuorum).
Definition admin_signer (m : admin_msg) : string :=
  match m with
  | AdminAdd m => AddSigner m
  | AdminRemove m => RemSigner m
  | AdminStatus m => StSigner m
  | AdminRecompute m => RecSigner m
  end.
Definition exec_admin_msg ctx (m : admin_msg) : M (World E) unit :=
  match m with
  | AdminAdd m => msg_AddUniversalValidator ctx m
  | AdminRemove m => msg_RemoveUniversalValidator ctx m
  | AdminStatus m => msg_UpdateUniversalValidatorStatus ctx m
  | AdminRecompute m => msg_RecomputeBallotQuorum ctx m ;; mret tt
  end.

Lemma only_admin_refuses {A} signer (m : M (World E) A) w :
  (UV.Admin <$> UvParams (uv w)) ≠ Some signer →
  ∃ e, (only_admin signer ;; m) w = (Err e, w).
Proof.
  intros Hne. mrun. unfold only_admin. mrun.
  destruct (UvParams (uv w)) as [p|]; mrun; [|by eauto].
  rewrite bool_decide_eq_false_2; [mrun; by eauto|]. intros Hp. apply Hne. cbn. congruence.
Qed.

(** The validator set and the quorum escape hatch are under the
    administrator's control: a message of any other signer is refused and
    changes nothing. *)
Theorem admin_messages_gated ctx m w :
  (UV.Admin <$> UvParams (uv w)) ≠ Some (admin_signer m) →
  ∃ e, exec_admin_msg ctx m w = (Err e, w).
Proof.
  intros Hne. destruct m as [m|m|m|m]; cbn in Hne.
  1-3: apply only_admin_refuses, Hne.
  destruct (only_admin_refuses (RecSigner m)
    (require (negb (bool_decide (RecBallotId m = ""))) "ballot_id is required" ;;
     RecomputeBallotQuorum ctx (RecBallotId m)) w Hne) as [e He].
  exists e. unfold exec_admin_msg, msg_RecomputeBallotQuorum. rewrite bind_unfold.
  by rewrite He.
Qed.

(** Restoring the exported lists one by one. *)
Lemma restore_validators (l : list (string * UV.UniversalValidator)) w :
  Forall (λ kv, ValAddressFromBech32 (ValAddress_String kv.1) = Ok kv.1) l →
  for_each (λ entry, valAddr ← lift_res (ValAddressFromBech32 entry.1); put_validator valAddr entry.2)
    ((λ kv, (ValAddress_String kv.1, kv.2)) <$> l) w =
  (Ok tt, w <| uv ::= λ s, s <| UniversalValidatorSet ::= λ m, foldl (λ m kv, <[ kv.1 := kv.2 ]> m) m l |> |>).
Proof.
  revert w. induction l as [|[k v] l IH]; intros w Hl; [by destruct w as [[]]|].
  apply Forall_cons in Hl as [Hk Hl]. cbn [fmap list_fmap]. mrun. cbn [fst snd] in *. rewrite Hk. mrun.
  unfold put_validator. mrun. by rewrite IH.
Qed.

Lemma foldl_uv_ballots l s :
  foldl (λ s b, s <| Ballots ::= insert (Ballot.Id b) b |>) s l =
  s <| Ballots ::= λ m, foldl (λ m kv, <[ kv.1 := kv.2 ]> m) m ((λ b, (Ballot.Id b, b)) <$> l) |>.
Proof. revert s. induction l as [|b l IH]; intros s; [by destruct s|]. cbn. by rewrite IH. Qed.
Lemma foldl_uv_active l s :
  foldl (λ s id, s <| ActiveBallotIDs ::= ({[ id ]} ∪.) |>) s l =
  s <| ActiveBallotIDs ::= λ X, foldl (λ X x, {[ x ]} ∪ X) X l |>.
Proof. revert s. induction l as [|b l IH]; intros s; [by destruct s|]. cbn. by rewrite IH. Qed.
Lemma foldl_uv_expired l s :
  foldl (λ s id, s <| ExpiredBallotIDs ::= ({[ id ]} ∪.) |>) s l =
  s <| ExpiredBallotIDs ::= λ X, foldl (λ X x, {[ x ]} ∪ X) X l |>.
Proof. revert s. induction l as [|b l IH]; intros s; [by destruct s|]. cbn. by rewrite IH. Qed.
Lemma foldl_uv_finalized l s :
  foldl (λ s id, s <| FinalizedBallotIDs ::= ({[ id ]} ∪.) |>) s l =
  s <| FinalizedBallotIDs ::= λ X, foldl (λ X x, {[ x ]} ∪ X) X l |>.
Proof. revert s. induction l as [|b l IH]; intros s; [by destruct s|]. cbn. by rewrite IH. Qed.

Lemma walk_ballots_by_id s :
  ballots_inv s → (λ b, (Ballot.Id b, b)) <$> walk_values (Ballots s) = walk (Ballots s).
Proof.
  intros Hinv. unfold walk_values. rewrite <- list_fmap_compose.
  rewrite <- (list_fmap_id (walk (Ballots s))) at 2. apply list_fmap_ext. intros i [k b] Hkb. cbn.
  apply list_elem_of_lookup_2, elem_of_walk in Hkb.
  by destruct (inv_ballot _ Hinv _ _ Hkb) as (-> & _).
Qed.

(** Exporting the module's state and importing it into an empty store gives
    the state back: every validator, ballot and index entry survives. *)
Theorem uv_genesis_roundtrip w w0 h :
  Bech32Laws → ballots_inv (uv w) → validators_inv h (uv w) →
  UniversalValidatorSet (uv w) !! "" = None →
  (∃ p, UvParams (uv w) = Some p ∧ UV.Params_ValidateBasic p = Ok tt) →
  uv w0 = empty_uv →
  ∃ g w1, ExportGenesis w = (Ok g, w) ∧ InitGenesis g w0 = (Ok tt, w1) ∧ uv w1 = uv w.
Proof.
  intros HB Hinv Hvi Hempty (p & Hp & Hpv) Hw0. unfold ExportGenesis, InitGenesis. mrun. rewrite Hp. mrun.
  eexists _, _. split; [done|]. cbn [GenParams GenUniversalValidators GenBallots GenActiveBallotIds
    GenExpiredBallotIds GenFinalizedBallotIds]. rewrite Hpv. mrun. rewrite restore_validators.
  2: { apply Forall_forall. intros [k v] Hkv%elem_of_walk. apply ValAddress_roundtrip.
       cbn. intros ->. congruence. }
  mrun. unfold SetBallot. repeat (rewrite for_each_set_uv; mrun). split; [done|].
  cbn [uv upd]. rewrite foldl_uv_finalized, foldl_uv_expired, foldl_uv_active, foldl_uv_ballots.
  rewrite walk_ballots_by_id by done. cbn. rewrite Hw0. cbn.
  rewrite !foldl_insert, !foldl_union by apply NoDup_walk_fst.
  rewrite !list_to_map_walk, !list_to_set_walk_keys, !map_union_empty, !union_empty_r_L, <- Hp.
  by destruct (uv w).
Qed.
End theorems.
