(* ===== verification/UvAbci.v ===== *)
(** * x/uvalidator/abci.go: the reward boost of universal validators

    At the start of every block the module takes the collected fees, allocates
    an extra share to the active universal validators, hands the integer part of
    that share to the distribution module and gives the rest back to the fee
    collector.  [sdk.Coins] and [sdk.DecCoins] are finite maps from denominations
    to amounts (a zero amount is no entry), combined pointwise; a decimal is an
    integer count of 10^-18.  The decimal arithmetic, the bank and the
    distribution module are parameters. *)
From S2P Require Import Prelude GoStrings UvTypes TssTypes UxTypes RegTypes World UvValidator.

Definition one_dec : Z := 10 ^ 18.

(** [cosmossdk.io/math.LegacyDec], scaled integers. *)
Class DecOps : Type := {
  dec_Mul : Z → Z → Z;
  dec_QuoTruncate : Z → Z → res Z;
  dec_MulTruncate : Z → Z → Z;
}.
(** Documented behaviour: products and quotients are those of the rationals; the
    [Truncate] variants round towards zero, and a product that needs no rounding
    is exact. *)
Class DecLaws `{DecOps} : Prop := {
  dec_Mul_exact a b : dec_Mul (a * one_dec) b = a * b;
  dec_QuoTruncate_spec a b : b ≠ 0 → dec_QuoTruncate a b = Ok (Z.quot (a * one_dec) b);
  dec_MulTruncate_spec a b : dec_MulTruncate a b = Z.quot (a * b) one_dec;
}.

Abbreviation Coins := (gmap string Z) (only parsing).
Definition amt (c : Coins) (d : string) : Z := default 0 (c !! d).
Definition nz (z : Z) : option Z := if decide (z = 0) then None else Some z.
Definition coins_map (f : Z → Z) (c : Coins) : Coins := omap (λ a, nz (f a)) c.
Definition coins_zip (f : Z → Z → Z) (c c' : Coins) : Coins :=
  merge (λ a b, nz (f (default 0 a) (default 0 b))) c c'.
Definition coins_add : Coins → Coins → Coins := coins_zip Z.add.
Definition coins_sub : Coins → Coins → Coins := coins_zip Z.sub.
(** [sdk.NewDecCoinsFromCoins] *)
Definition to_dec : Coins → Coins := coins_map (λ a, a * one_dec).
(** [DecCoins.TruncateDecimal]: the integer coins and the decimal change *)
Definition TruncateDecimal (c : Coins) : Coins * Coins :=
  (coins_map (λ a, Z.quot a one_dec) c, coins_map (λ a, Z.rem a one_dec) c).
(** [Coins.SafeSub]: the difference and whether some amount is negative *)
Definition SafeSub (c c' : Coins) : Coins * bool :=
  let diff := coins_sub c c' in (diff, negb (bool_decide (map_Forall (λ _ a, 0 ≤ a) diff))).

Record VoteInfo := mkVoteInfo { ValidatorAddress : string; Power : Z }.

Class Bank (E : Type) : Type := {
  GetAllBalances : string → M (World E) Coins;
  SendCoinsFromModuleToModule : string → string → Coins → M (World E) unit;
  AllocateTokensToValidator : StakingValidator → Coins → M (World E) unit;
}.
Definition FeeCollectorName : string := "fee_collector".
Definition ModuleName : string := "uvalidator".
Definition DistrModuleName : string := "distribution".

(** [BoostMultiplier] 1.148 and [ExtraBoostPortion] 0.148 *)
Definition BoostMultiplier : Z := 1148 * 10 ^ 15.
Definition ExtraBoostPortion : Z := 148 * 10 ^ 15.

Section operations.
Context {E : Type} `{Bech32, SK : StakingKeeper, BK : Bank E, DO : DecOps}.
Implicit Types ctx : Ctx.
#[local] Abbreviation M := (M (World E)).

Definition vote_validator (vote : VoteInfo) : M (StakingValidator * bool) :=
  validator ← lift_option (ValidatorByConsAddr (ValidatorAddress vote)) "validator not found";
  isUV ← IsActiveUniversalValidator (OperatorAddress validator);
  mret (validator, isUV).

(** First loop: the effective total power. *)
Fixpoint effective_power (bondedVotes : list VoteInfo) (effectiveTotalPower : Z) : M Z :=
  match bondedVotes with
  | [] => mret effectiveTotalPower
  | vote :: votes =>
      vu ← vote_validator vote;
      let power := Power vote * one_dec in
      let power := if (vu.2 : bool) then dec_Mul power BoostMultiplier else power in
      effective_power votes (effectiveTotalPower + power)
  end.

(** Second loop: the boost of each active universal validator. *)
Fixpoint allocate_boost (bondedVotes : list VoteInfo) (effectiveTotalPower : Z)
    (feesCollected allocated : Coins) : M Coins :=
  match bondedVotes with
  | [] => mret allocated
  | vote :: votes =>
      vu ← vote_validator vote;
      if (vu.2 : bool) then
        let power := dec_Mul (Power vote * one_dec) ExtraBoostPortion in
        powerFraction ← lift_res (dec_QuoTruncate power effectiveTotalPower);
        let reward := coins_map (λ a, dec_MulTruncate a powerFraction) feesCollected in
        AllocateTokensToValidator vu.1 reward ;;
        allocate_boost votes effectiveTotalPower feesCollected (coins_add allocated reward)
      else allocate_boost votes effectiveTotalPower feesCollected allocated
  end.

(** What is sent to distribution and what goes back to the fee collector. *)
Definition split_fees (feesCollectedInt allocated : Coins) : Coins * Coins :=
  let '(extraCoins, extraChange) := TruncateDecimal allocated in
  let '(remainingCoins, hasNeg) := SafeSub feesCollectedInt extraCoins in
  let remainingCoins := if (hasNeg : bool) then ∅ else remainingCoins in
  let remainingDec := coins_add (to_dec remainingCoins) extraChange in
  let '(remainingFinal, _) := TruncateDecimal remainingDec in
  (extraCoins, remainingFinal).

Definition send_if_nonzero (src dst : string) (c : Coins) : M unit :=
  if decide (c = ∅) then mret tt else SendCoinsFromModuleToModule src dst c.

Definition AllocateTokens (bondedVotes : list VoteInfo) : M unit :=
  feesCollectedInt ← GetAllBalances FeeCollectorName;
  if decide (feesCollectedInt = ∅) then mret tt
  else
    let feesCollected := to_dec feesCollectedInt in
    SendCoinsFromModuleToModule FeeCollectorName ModuleName feesCollectedInt ;;
    effectiveTotalPower ← effective_power bondedVotes 0;
    allocated ← allocate_boost bondedVotes effectiveTotalPower feesCollected ∅;
    let '(extraCoins, remainingFinal) := split_fees feesCollectedInt allocated in
    send_if_nonzero ModuleName DistrModuleName extraCoins ;;
    send_if_nonzero ModuleName FeeCollectorName remainingFinal.

Definition BeginBlocker ctx (voteInfos : list VoteInfo) : M unit :=
  let previousTotalPower := foldl (λ acc v, i64 (acc + Power v)) 0 voteInfos in
  if decide (previousTotalPower = 0) then mret tt
  else if decide (1 < BlockHeight ctx) then AllocateTokens voteInfos
  else mret tt.
End operations.

(** ** Pointwise arithmetic of coins *)
#[global] Arguments coins_map : simpl never.
#[global] Arguments coins_zip : simpl never.
#[global] Arguments coins_add : simpl never.
#[global] Arguments to_dec : simpl never.
Lemma default_nz z : default 0 (nz z) = z.
Proof. unfold nz. by case_decide. Qed.
Lemma amt_map f c d : f 0 = 0 → amt (coins_map f c) d = f (amt c d).
Proof.
  intros Hf. unfold amt, coins_map. rewrite lookup_omap.
  destruct (c !! d); cbn; [by rewrite default_nz|done].
Qed.
Lemma amt_zip f c c' d : f 0 0 = 0 → amt (coins_zip f c c') d = f (amt c d) (amt c' d).
Proof.
  intros Hf. unfold amt, coins_zip. rewrite lookup_merge.
  destruct (c !! d), (c' !! d); cbn; rewrite ?default_nz; done.
Qed.
Lemma amt_add c c' d : amt (coins_add c c') d = amt c d + amt c' d.
Proof. by apply amt_zip. Qed.
Lemma amt_sub c c' d : amt (coins_sub c c') d = amt c d - amt c' d.
Proof. by apply amt_zip. Qed.
Lemma amt_to_dec c d : amt (to_dec c) d = amt c d * one_dec.
Proof. unfold to_dec. by rewrite amt_map. Qed.
Lemma amt_empty d : amt ∅ d = 0.
Proof. done. Qed.

(** When the decimal total does not exceed the fees, the fees are split without
    loss: the distribution share is the integer part of the allocation and the
    two shares add up to the fees; the clamping branch is not taken. *)
Lemma split_fees_exact fees allocated extra rest :
  (∀ d, 0 ≤ amt allocated d ≤ amt fees d * one_dec) →
  split_fees fees allocated = (extra, rest) →
  ∀ d, amt extra d = amt allocated d / one_dec ∧ amt extra d + amt rest d = amt fees d ∧ 0 ≤ amt rest d.
Proof.
  intros Hb. unfold split_fees. cbn.
  assert (∀ d, amt (coins_map (λ a, Z.quot a one_dec) allocated) d = amt allocated d / one_dec) as Hq.
  { intros d. rewrite amt_map by done. apply Z.quot_div_nonneg; [apply Hb|done]. }
  set (ex := coins_map _ allocated) in *.
  assert (map_Forall (λ _ a, 0 ≤ a) (coins_sub fees ex)) as Hpos.
  { intros d a Ha. assert (a = amt (coins_sub fees ex) d) as -> by (unfold amt; by rewrite Ha).
    rewrite amt_sub, Hq. specialize (Hb d). assert (amt allocated d / one_dec ≤ amt fees d); [|lia].
    apply Z.div_le_upper_bound; [done|lia]. }
  rewrite bool_decide_eq_true_2 by done. cbn. intros [= <- <-] d. rewrite Hq. split; [done|].
  rewrite amt_map, amt_add, amt_to_dec, amt_sub, Hq, amt_map by done.
  specialize (Hb d). rewrite Z.rem_mod_nonneg by (done || lia).
  pose proof (Z.mod_pos_bound (amt allocated d) one_dec ltac:(done)).
  assert (0 ≤ amt fees d - amt allocated d / one_dec) as Hr.
  { assert (amt allocated d / one_dec ≤ amt fees d); [|lia]. apply Z.div_le_upper_bound; [done|lia]. }
  rewrite Z.quot_div_nonneg by (unfold one_dec in *; nia).
  rewrite Z.div_add_l by done. rewrite (Z.div_small (_ mod _)) by done. lia.
Qed.

(** ** What the block reward does *)
Section theorems.
Context {E : Type} `{Bech32, SK : StakingKeeper, BK : Bank E, DO : DecOps, !DecLaws}.
Context (balance : World E → string → Coins).
Implicit Types (ctx : Ctx) (w : World E) (votes : list VoteInfo).

(** The bank as the module sees it: balances are non-negative, a query reads
    them, a transfer between two module accounts moves the coins, and crediting
    a validator is bookkeeping of the distribution module.  None of them writes
    the store of x/uvalidator. *)
Class BankLaws : Prop := {
  balance_nonneg w m d : 0 ≤ amt (balance w m) d;
  GetAllBalances_reads m w : GetAllBalances m w = (Ok (balance w m), w);
  Send_moves src dst c w u w' : src ≠ dst →
    SendCoinsFromModuleToModule src dst c w = (Ok u, w') →
    uv w' = uv w ∧
    ∀ m d, amt (balance w' m) d = amt (balance w m) d
             + (if decide (m = dst) then amt c d else 0) - (if decide (m = src) then amt c d else 0);
  Allocate_books v c w u w' : AllocateTokensToValidator v c w = (Ok u, w') →
    uv w' = uv w ∧ ∀ m d, amt (balance w' m) d = amt (balance w m) d;
}.
Context `{!BankLaws}.

(** Whether a vote is that of an active universal validator. *)
Definition is_uv (s : UvState) (vote : VoteInfo) : bool :=
  match ValidatorByConsAddr (ValidatorAddress vote) with
  | Some v =>
      match ValAddressFromBech32 (OperatorAddress v) with
      | Ok a => bool_decide (UniversalValidatorSet s !! a ≫= status_of = Some UV.UV_STATUS_ACTIVE)
      | _ => false
      end
  | None => false
  end.
Definition weight (s : UvState) (v : VoteInfo) : Z :=
  Power v * (if is_uv s v then BoostMultiplier else one_dec).
Definition total (f : VoteInfo → Z) votes : Z := foldr (λ v acc, f v + acc) 0 votes.

Lemma vote_validator_run v w vu w' :
  vote_validator v w = (Ok vu, w') → w' = w ∧ vu.2 = is_uv (uv w) v.
Proof.
  unfold vote_validator, IsActiveUniversalValidator, is_uv. mrun.
  destruct (ValidatorByConsAddr (ValidatorAddress v)) as [sv|]; mrun; [|done].
  destruct (ValAddressFromBech32 (OperatorAddress sv)) as [a| |]; mrun; [|done..].
  destruct (UniversalValidatorSet (uv w) !! a) as [x|]; mrun; [|by intros [= <- <-]].
  unfold status_of. destruct (UV.LifecycleInfoOf x) as [l|] eqn:Hl; mrun; [|done].
  intros [= <- <-]. split; [done|]. cbn. rewrite Hl. cbn. apply bool_decide_ext. split; [by intros -> | by intros [=]].
Qed.

Lemma effective_power_run votes acc w p w' :
  effective_power votes acc w = (Ok p, w') → w' = w ∧ p = acc + total (weight (uv w)) votes.
Proof.
  revert acc w. induction votes as [|v votes IH]; intros acc w; cbn [effective_power total foldr].
  - mrun. intros [= <- <-]. split; [done|lia].
  - mrun. destruct (vote_validator v w) as [[vu| |] w1] eqn:Hv; [|done..].
    apply vote_validator_run in Hv as [-> Hu]. intros [-> ->]%IH. split; [done|].
    unfold weight. rewrite Hu. destruct (is_uv (uv w) v); rewrite ?dec_Mul_exact; unfold total; lia.
Qed.

(** The fraction of the fees a universal validator is boosted with. *)
Definition fraction (eff : Z) (s : UvState) (v : VoteInfo) : Z :=
  if is_uv s v then Z.quot (Power v * ExtraBoostPortion * one_dec) eff else 0.

Lemma allocate_boost_run votes eff fees acc w alloc w' :
  eff ≠ 0 → allocate_boost votes eff (to_dec fees) acc w = (Ok alloc, w') →
  uv w' = uv w ∧ (∀ m d, amt (balance w' m) d = amt (balance w m) d) ∧
  ∀ d, amt alloc d = amt acc d + amt fees d * total (fraction eff (uv w)) votes.
Proof.
  intros Heff. revert acc w. induction votes as [|v votes IH]; intros acc w; cbn [allocate_boost total foldr].
  { mrun. intros [= <- <-]. split_and!; try done. intros. lia. }
  mrun. destruct (vote_validator v w) as [[vu| |] w1] eqn:Hv; [|done..].
  apply vote_validator_run in Hv as [-> Hu]. unfold fraction at 1. rewrite Hu.
  destruct (is_uv (uv w) v).
  - mrun. rewrite dec_Mul_exact, dec_QuoTruncate_spec by done. mrun.
    set (frac := Z.quot _ eff). destruct (AllocateTokensToValidator _ _ w) as [[u| |] w2] eqn:Ha; [|done..].
    apply Allocate_books in Ha as [Huv Hbal]. intros (Hu2 & Hb2 & Hal)%IH. rewrite Huv in *.
    split_and!; [done| intros m d; by rewrite Hb2, Hbal |].
    intros d. rewrite Hal, amt_add, amt_map by (rewrite dec_MulTruncate_spec; done).
    rewrite dec_MulTruncate_spec, amt_to_dec.
    replace (amt fees d * one_dec * frac) with (amt fees d * frac * one_dec) by lia.
    rewrite Z.quot_mul by done. fold (total (fraction eff (uv w)) votes). lia.
  - mrun. intros (Hu2 & Hb2 & Hal)%IH. split_and!; try done.
Qed.

(** The boosts together stay below 0.148/1.148 of the fees. *)
Lemma fraction_total s votes eff :
  Forall (λ v, 0 ≤ Power v) votes → total (weight s) votes ≤ eff → 0 < eff →
  0 ≤ total (fraction eff s) votes ∧
  BoostMultiplier * total (fraction eff s) votes ≤ ExtraBoostPortion * one_dec.
Proof.
  intros Hp Hw Heff.
  assert (0 ≤ total (fraction eff s) votes ∧
          BoostMultiplier * total (fraction eff s) votes * eff ≤
          ExtraBoostPortion * one_dec * total (weight s) votes) as [Hz Hb].
  { clear Hw. induction Hp as [|v votes Hv Hp [IH0 IH1]]; [done|]. cbn.
    fold (total (fraction eff s) votes) (total (weight s) votes).
    unfold fraction at 1 3, weight at 1. destruct (is_uv s v); [|unfold one_dec, ExtraBoostPortion in *; lia].
    set (P := Power v) in *. rewrite Z.quot_div_nonneg by (unfold ExtraBoostPortion, one_dec; lia).
    pose proof (Z.mul_div_le (P * ExtraBoostPortion * one_dec) eff Heff).
    assert (0 ≤ P * ExtraBoostPortion * one_dec / eff).
    { apply Z.div_pos; [unfold ExtraBoostPortion, one_dec; lia|done]. }
    unfold BoostMultiplier in *. split; [lia|nia]. }
  split; [done|]. apply (Z.mul_le_mono_pos_r _ _ eff Heff).
  etrans; [exact Hb|]. apply Z.mul_le_mono_nonneg_l; [done|lia].
Qed.

Lemma total_weight_pos s votes :
  Forall (λ v, 0 ≤ Power v) votes → total Power votes ≠ 0 → 0 < total (weight s) votes.
Proof.
  intros Hp Hne. assert (0 ≤ total Power votes ≤ total (weight s) votes); [|lia].
  clear Hne. induction Hp as [|v votes Hv Hp IH]; [done|]. cbn.
  fold (total Power votes) (total (weight s) votes). unfold weight at 1.
  destruct (is_uv s v); unfold BoostMultiplier, one_dec; lia.
Qed.

(** A transfer that is skipped when there is nothing to send. *)
Lemma send_if_nonzero_run src dst c w u w' :
  src ≠ dst → send_if_nonzero src dst c w = (Ok u, w') →
  ∀ m d, amt (balance w' m) d = amt (balance w m) d
           + (if decide (m = dst) then amt c d else 0) - (if decide (m = src) then amt c d else 0).
Proof.
  intros Hne. unfold send_if_nonzero. case_decide as Hc; mrun.
  - intros [= _ <-] m d. rewrite Hc, amt_empty. repeat case_decide; lia.
  - intros Hs. by apply Send_moves in Hs as [_ ?].
Qed.

(** C31. The block reward conserves the fees: when the allocation succeeds, the
    module account keeps nothing of them, the fee collector and the distribution
    module together own what the fee collector owned, and the distribution
    module receives at most 0.148/1.148 of the fees. *)
Theorem AllocateTokens_conserves votes w w' u :
  Forall (λ v, 0 ≤ Power v) votes → total Power votes ≠ 0 →
  AllocateTokens votes w = (Ok u, w') →
  ∀ d, let fees := amt (balance w FeeCollectorName) d in
    let share := amt (balance w' DistrModuleName) d - amt (balance w DistrModuleName) d in
    amt (balance w' ModuleName) d = amt (balance w ModuleName) d ∧
    amt (balance w' FeeCollectorName) d + share = fees ∧
    0 ≤ share ∧ 1148 * share ≤ 148 * fees.
Proof.
  intros Hp Hne. unfold AllocateTokens. mrun. rewrite GetAllBalances_reads. mrun.
  case_decide as Hz; mrun.
  { intros [= _ <-] d. cbn zeta. rewrite Hz, amt_empty. lia. }
  set (fees := balance w FeeCollectorName) in *.
  destruct (SendCoinsFromModuleToModule _ _ _ w) as [[u1| |] w1] eqn:Hs1; [|by mrun..]; mrun.
  apply Send_moves in Hs1 as [Hu1 Hb1]; [|done].
  destruct (effective_power votes 0 w1) as [[eff| |] w2] eqn:He; [|by mrun..]; mrun.
  apply effective_power_run in He as [-> ->]. rewrite Z.add_0_l. set (eff := total (weight (uv w1)) votes) in *.
  pose proof (total_weight_pos (uv w1) votes Hp Hne) as Heff. fold eff in Heff.
  destruct (allocate_boost votes eff (to_dec fees) ∅ w1) as [[alloc| |] w3] eqn:Ha; [|by mrun..]; mrun.
  apply allocate_boost_run in Ha as (_ & Hb3 & Hal); [|lia].
  destruct (fraction_total (uv w1) votes eff Hp (Z.le_refl _) Heff) as [Hf0 Hf1].
  set (F := total (fraction eff (uv w1)) votes) in *.
  assert (∀ d, 0 ≤ amt fees d) as Hfees by (intros d; apply balance_nonneg).
  destruct (split_fees fees alloc) as [extra rest] eqn:Hsp. mrun.
  destruct (send_if_nonzero _ _ extra w3) as [[u4| |] w4] eqn:Hs4; [|by mrun..]; mrun. intros Hs5 d. cbn zeta.
  pose proof (send_if_nonzero_run ModuleName DistrModuleName _ _ _ _ ltac:(done) Hs4) as Hb4.
  pose proof (send_if_nonzero_run ModuleName FeeCollectorName _ _ _ _ ltac:(done) Hs5) as Hb5.
  assert (∀ d, amt alloc d = amt fees d * F) as Hal' by (intros; by rewrite Hal, amt_empty).
  destruct (split_fees_exact fees alloc extra rest) with (d := d) as (Hx & Hsum & Hr0); [|done|].
  { intros d0. rewrite Hal'. specialize (Hfees d0). unfold BoostMultiplier, ExtraBoostPortion, one_dec in *. nia. }
  rewrite !Hb5, !Hb4, !Hb3, !Hb1. cbn. fold fees. rewrite Hal' in Hx. specialize (Hfees d).
  assert (0 ≤ amt extra d ∧ amt extra d * one_dec ≤ amt fees d * F) as [? ?].
  { rewrite Hx. split; [apply Z.div_pos; [nia|done]|]. rewrite Z.mul_comm. by apply Z.mul_div_le. }
  pose proof (Z.mul_le_mono_nonneg_l _ _ (amt fees d) Hfees Hf1).
  unfold BoostMultiplier, ExtraBoostPortion, one_dec in *.
  repeat match goal with |- context [decide (?x = ?y)] =>
    first [rewrite (decide_True (P := x = y)) by done | rewrite (decide_False (P := x = y)) by done] end.
  split_and!; lia.
Qed.
End theorems.
