(* ===== verification/Registry.v ===== *)
(** * x/uregistry: chains and tokens

    [keeper/*.go], [types/*.go] and the migrations of x/uregistry.  Token rows are
    keyed by chain and canonical address; a secondary index maps the canonical
    PRC20 address of a row to its key.  [reg_inv] says that the index is exactly
    the one the rows determine, and looking a token up through it is the same as
    scanning the rows. *)
From S2P Require Import Prelude GoStrings UvTypes TssTypes UxTypes RegTypes World Canonical.
From S2P Require Import UvValidator.
Import Reg.

(** ** Validation of configurations *)
Section validation.
Context `{ChainCodecs}.

Definition ConfirmationType_valid (c : ConfirmationType) : bool :=
  match c with CONFIRMATION_TYPE_STANDARD | CONFIRMATION_TYPE_FAST => true | _ => false end.
Definition VmType_known (v : VmType) : bool := match v with VmType_other _ => false | _ => true end.
Definition TokenType_known (t : TokenType) : bool := match t with TokenType_other _ => false | _ => true end.

Definition nonblank (s : string) (e : error) : res unit :=
  check (negb (bool_decide (TrimSpace s = ""))) e.
Definition valid_hex (s : string) (e : error) : res unit := check (is_ok (HexToBytes s)) e.

Definition GatewayMethods_ValidateBasic (p : GatewayMethods) : res unit :=
  nonblank (GmName p) "method name cannot be empty" ;;
  nonblank (GmIdentifier p) "method identifier cannot be empty" ;;
  valid_hex (GmIdentifier p) "method selector must be valid hex" ;;
  nonblank (GmEventIdentifier p) "method event_identifier cannot be empty" ;;
  valid_hex (GmEventIdentifier p) "method event_identifier must be valid hex" ;;
  check (ConfirmationType_valid (GmConfirmationType p)) "invalid confirmation type".

Definition VaultMethods_ValidateBasic (p : VaultMethods) : res unit :=
  nonblank (VmName p) "vault method name cannot be empty" ;;
  nonblank (VmIdentifier p) "vault method identifier cannot be empty" ;;
  valid_hex (VmIdentifier p) "vault method selector must be valid hex" ;;
  nonblank (VmEventIdentifier p) "vault method event_identifier cannot be empty" ;;
  valid_hex (VmEventIdentifier p) "vault method event_identifier must be valid hex" ;;
  check (ConfirmationType_valid (VmConfirmationType p)) "invalid vault method confirmation type".

Definition BlockConfirmation_ValidateBasic (p : BlockConfirmation) : res unit :=
  check (bool_decide (FastInbound p ≤ StandardInbound p))
    "fast_inbound cannot be greater than standard_inbound confirmations".

Definition NativeRepresentation_ValidateBasic (p : NativeRepresentation) : res unit :=
  if bool_decide (TrimSpace (Denom p) = "") && bool_decide (TrimSpace (ContractAddress p) = "") then Ok tt
  else if bool_decide (ContractAddress p ≠ "") && negb (String.prefix "0x" (ContractAddress p))
  then Err "contract_address must start with 0x"
  else if bool_decide (ContractAddress p ≠ "") && negb (is_ok (CanonicalizeEVMAddress (ContractAddress p)))
  then Err "invalid contract_address"
  else Ok tt.

Fixpoint res_all {A} (f : A → res unit) (l : list A) : res unit :=
  match l with [] => Ok tt | x :: l' => f x ;; res_all f l' end.

Definition caip2_shaped (chain : string) : res unit :=
  let chain := TrimSpace chain in
  check (negb (bool_decide (chain = ""))) "chain cannot be empty" ;;
  check (bool_decide (is_Some (split_colon (to_bytes chain))))
    "chain must be in CAIP-2 format <namespace>:<reference>".

Definition ChainConfig_ValidateBasic (p : ChainConfig) : res unit :=
  caip2_shaped (Chain p) ;;
  nonblank (PublicRpcUrl p) "public_rpc_url cannot be empty" ;;
  nonblank (GatewayAddress p) "gateway_address cannot be empty" ;;
  check (VmType_known (VmTypeOf p)) "invalid vm_type" ;;
  res_all GatewayMethods_ValidateBasic (GatewayMethodsOf p) ;;
  check (bool_decide (0 < GasOracleFetchInterval p)) "gas_oracle_fetch_interval must be positive" ;;
  res_all VaultMethods_ValidateBasic (VaultMethodsOf p) ;;
  check (match TssSigningDeadline p with Some d => bool_decide (0 ≤ d) | None => true end)
    "tss_signing_deadline must not be negative" ;;
  match BlockConfirmationOf p with
  | None => Err "block_confirmation is required"
  | Some b => BlockConfirmation_ValidateBasic b
  end.

Definition TokenConfig_ValidateBasic (p : TokenConfig) : res unit :=
  nonblank (TokChain p) "chain cannot be empty" ;;
  nonblank (TokAddress p) "token contract address cannot be empty" ;;
  check (is_ok (CanonicalizeAddressByNamespace (TokChain p) (TokAddress p))) "invalid token address" ;;
  nonblank (TokName p) "token name cannot be empty" ;;
  nonblank (TokSymbol p) "token symbol cannot be empty" ;;
  check (negb (bool_decide (Decimals p = 0))) "decimals must be greater than zero" ;;
  check (TokenType_known (TokenTypeOf p)) "invalid token_type" ;;
  nonblank (LiquidityCap p) "liquidity_cap cannot be empty" ;;
  match NativeRepresentationOf p with
  | None => Err "native_representation is required"
  | Some n => wrap_res "invalid native representation" (NativeRepresentation_ValidateBasic n)
  end.

Definition CanonicalTokenAddress (chain address : string) : string :=
  lenient (CanonicalizeAddressByNamespace chain address) address.
Definition GetTokenConfigsStorageKey (chain address : string) : string :=
  chain +:+ ":" +:+ CanonicalTokenAddress chain address.

Definition canonicalPRC20 (addr : string) : string :=
  match CanonicalizeEVMAddress addr with
  | Ok canon => canon
  | _ => ToLower (TrimSpace addr)
  end.
(** The reference key of a row in the PRC20 index. *)
Definition index_ref (v : TokenConfig) : string :=
  match NativeRepresentationOf v with
  | Some n => if decide (ContractAddress n = "") then "" else canonicalPRC20 (ContractAddress n)
  | None => ""
  end.
End validation.

(** ** Messages *)
Record MsgAddChainConfig := mkMsgAddChainConfig { AccSigner : string; AccConfig : option ChainConfig }.
Record MsgUpdateChainConfig := mkMsgUpdateChainConfig { UccSigner : string; UccConfig : option ChainConfig }.
Record MsgAddTokenConfig := mkMsgAddTokenConfig { AtcSigner : string; AtcConfig : option TokenConfig }.
Record MsgUpdateTokenConfig := mkMsgUpdateTokenConfig { UtcSigner : string; UtcConfig : option TokenConfig }.
Record MsgRemoveTokenConfig := mkMsgRemoveTokenConfig {
  RtcSigner : string; RtcChain : string; RtcTokenAddress : string }.
Record RegGenesis := mkRegGenesis {
  RgParams : Params;
  RgChainConfigs : list (string * ChainConfig);
  RgTokenConfigs : list (string * TokenConfig);
  RgExported : bool
}.

(** ** The rows with their index *)
(** [collections.IndexedMap] with one [indexes.Multi], given the function from a row to its
    reference.  Setting a row takes the reference of the row that was there out of the
    index and puts its own in; removing a row takes its reference out. *)
#[local] Abbreviation indexed := (gmap string TokenConfig * gset (string * string))%type.
Class IndexedMap : Type := {
  indexed_Set : (TokenConfig → string) → string → TokenConfig → indexed → indexed;
  indexed_Remove : (TokenConfig → string) → string → indexed → indexed;
}.
Class IndexedMapLaws `{IM : IndexedMap} : Prop := {
  indexed_Set_rows ref k v x : (indexed_Set ref k v x).1 = <[k := v]> x.1;
  indexed_Set_index ref k v x p : p ∈ (indexed_Set ref k v x).2 ↔
    p = (ref v, k) ∨ p ∈ x.2 ∧ ∀ old, x.1 !! k = Some old → p ≠ (ref old, k);
  indexed_Remove_rows ref k x : (indexed_Remove ref k x).1 = delete k x.1;
  indexed_Remove_index ref k x p : p ∈ (indexed_Remove ref k x).2 ↔
    p ∈ x.2 ∧ ∀ old, x.1 !! k = Some old → p ≠ (ref old, k);
}.

(** ** Operations *)
Section operations.
Context {E : Type} `{Bech32, ChainCodecs, IM : IndexedMap}.
(** deployment of the system contracts into the EVM *)
Context (deploySystemContracts : M (World E) unit).
Implicit Types ctx : Ctx.
#[local] Abbreviation M := (M (World E)).

Definition put_tokens (x : indexed) (s : RegState) : RegState := s <| TokenConfigs := x.1 |> <| PRC20Index := x.2 |>.
Definition tokens_set (key : string) (v : TokenConfig) (s : RegState) : RegState :=
  put_tokens (indexed_Set index_ref key v (TokenConfigs s, PRC20Index s)) s.
Definition tokens_remove (key : string) (s : RegState) : RegState :=
  put_tokens (indexed_Remove index_ref key (TokenConfigs s, PRC20Index s)) s.

Definition GetChainConfig (chain : string) : M ChainConfig :=
  s ← get_reg ChainConfigs; lift_option (s !! chain) ErrNotFound.

Definition IsChainInboundEnabled (chain : string) : M bool :=
  s ← get_reg ChainConfigs;
  mret (match s !! chain ≫= Enabled with Some e => IsInboundEnabled e | None => false end).
Definition IsChainOutboundEnabled (chain : string) : M bool :=
  s ← get_reg ChainConfigs;
  mret (match s !! chain ≫= Enabled with Some e => IsOutboundEnabled e | None => false end).

Definition GetTokenConfig (chain address : string) : M TokenConfig :=
  s ← get_reg TokenConfigs; lift_option (s !! GetTokenConfigsStorageKey chain address) ErrNotFound.

(** [PRC20Index.MatchExact]: the primary keys under one reference, in order. *)
Definition match_exact (ref : string) (I : gset (string * string)) : list string :=
  walk_keys (set_map (C:=gset (string * string)) (D:=gset string) snd (filter (λ p, p.1 = ref) I)).

Fixpoint first_on_chain (chain : string) (pks : list string) : M TokenConfig :=
  match pks with
  | [] => throw ErrNotFound
  | pk :: pks' =>
      s ← get_reg TokenConfigs;
      cfg ← lift_option (s !! pk) ErrNotFound;
      if decide (TokChain cfg = chain) then mret cfg else first_on_chain chain pks'
  end.
Definition GetTokenConfigByPRC20 (chain prc20Addr : string) : M TokenConfig :=
  require (negb (bool_decide (TrimSpace prc20Addr = ""))) "prc20 address is empty" ;;
  I ← get_reg PRC20Index;
  first_on_chain chain (match_exact (canonicalPRC20 prc20Addr) I).

Definition AddChainConfig (c : ChainConfig) : M unit :=
  s ← get_reg ChainConfigs;
  require (negb (bool_decide (is_Some (s !! Chain c))))
    ("chain config for " +:+ Chain c +:+ " already exists") ;;
  set_reg (λ s, s <| ChainConfigs ::= insert (Chain c) c |>).
Definition UpdateChainConfig (c : ChainConfig) : M unit :=
  s ← get_reg ChainConfigs;
  require (bool_decide (is_Some (s !! Chain c)))
    ("chain config for " +:+ Chain c +:+ " does not exist") ;;
  set_reg (λ s, s <| ChainConfigs ::= insert (Chain c) c |>).

Definition AddTokenConfig (t : TokenConfig) : M unit :=
  _ ← wrap ("chain " +:+ TokChain t +:+ " is not supported") (GetChainConfig (TokChain t));
  let storageKey := GetTokenConfigsStorageKey (TokChain t) (TokAddress t) in
  s ← get_reg TokenConfigs;
  require (negb (bool_decide (is_Some (s !! storageKey))))
    ("token config for " +:+ TokAddress t +:+ " on chain " +:+ TokChain t +:+ " already exists") ;;
  set_reg (tokens_set storageKey t).
Definition UpdateTokenConfig (t : TokenConfig) : M unit :=
  let storageKey := GetTokenConfigsStorageKey (TokChain t) (TokAddress t) in
  s ← get_reg TokenConfigs;
  require (bool_decide (is_Some (s !! storageKey)))
    ("token config for " +:+ TokAddress t +:+ " on chain " +:+ TokChain t +:+ " does not exist") ;;
  set_reg (tokens_set storageKey t).
Definition RemoveTokenConfig (chain tokenAddress : string) : M unit :=
  let storageKey := GetTokenConfigsStorageKey chain tokenAddress in
  s ← get_reg TokenConfigs;
  require (bool_decide (is_Some (s !! storageKey)))
    ("token config for " +:+ tokenAddress +:+ " on chain " +:+ chain +:+ " does not exist") ;;
  set_reg (tokens_remove storageKey).

Definition RebuildPRC20Index : M unit :=
  s ← get_reg TokenConfigs;
  for_each (λ key, s ← get_reg TokenConfigs;
                   cfg ← lift_option (s !! key) ErrNotFound;
                   set_reg (tokens_set key cfg)) (walk s).*1.

(** The v4 migration re-keys the rows and rebuilds the index; the v2 migration
    gives every chain a gas oracle interval of 30 seconds if it has none. *)
Definition rekey (row : string * TokenConfig) : M unit :=
  let canonKey := GetTokenConfigsStorageKey (TokChain row.2) (TokAddress row.2) in
  if decide (canonKey = row.1) then mret tt
  else set_reg (tokens_remove row.1) ;; set_reg (tokens_set canonKey row.2).
Definition MigrateTokenConfigs : M unit :=
  s ← get_reg TokenConfigs;
  for_each rekey (walk s) ;;
  RebuildPRC20Index.
Definition MigrateChainConfigs : M unit :=
  s ← get_reg ChainConfigs;
  for_each (λ kv, set_reg (λ s, s <| ChainConfigs ::= insert kv.1
    (if decide (GasOracleFetchInterval kv.2 = 0)
     then kv.2 <| GasOracleFetchInterval := 30 * 10 ^ 9 |> else kv.2) |>)) (walk s).

(** *** Message handlers *)
Definition reg_only_admin (signer : string) : M unit :=
  p ← get_reg RegParams;
  params ← wrap "failed to get params" (lift_option p ErrNotFound);
  require (bool_decide (Admin params = signer)) "invalid authority".
Definition reg_UpdateParams (authority signer : string) (p : Params) : M unit :=
  require (bool_decide (authority = signer)) "invalid authority" ;;
  set_reg (λ s, s <| RegParams := Some p |>).
Definition msg_AddChainConfig (m : MsgAddChainConfig) : M unit :=
  c ← lift_option (AccConfig m) "chain_config is required";
  reg_only_admin (AccSigner m) ;; AddChainConfig c.
Definition msg_UpdateChainConfig (m : MsgUpdateChainConfig) : M unit :=
  c ← lift_option (UccConfig m) "chain_config is required";
  reg_only_admin (UccSigner m) ;; UpdateChainConfig c.
Definition msg_AddTokenConfig (m : MsgAddTokenConfig) : M unit :=
  t ← lift_option (AtcConfig m) "token_config is required";
  reg_only_admin (AtcSigner m) ;; AddTokenConfig t.
Definition msg_UpdateTokenConfig (m : MsgUpdateTokenConfig) : M unit :=
  t ← lift_option (UtcConfig m) "token_config is required";
  reg_only_admin (UtcSigner m) ;; UpdateTokenConfig t.
Definition msg_RemoveTokenConfig (m : MsgRemoveTokenConfig) : M unit :=
  reg_only_admin (RtcSigner m) ;; RemoveTokenConfig (RtcChain m) (RtcTokenAddress m).

(** *** Genesis *)
Definition reg_InitGenesis (data : RegGenesis) : M unit :=
  lift_res (nonblank (Admin (RgParams data)) "admin address cannot be empty") ;;
  (if RgExported data then mret tt else deploySystemContracts) ;;
  set_reg (λ s, s <| RegParams := Some (RgParams data) |>) ;;
  for_each (λ kv, set_reg (λ s, s <| ChainConfigs ::= insert kv.1 kv.2 |>)) (RgChainConfigs data) ;;
  for_each (λ kv, set_reg (tokens_set kv.1 kv.2)) (RgTokenConfigs data).
Definition reg_ExportGenesis : M RegGenesis :=
  s ← get_reg (λ s, s);
  match RegParams s with
  | None => panic ErrNotFound
  | Some params => mret (mkRegGenesis params (walk (ChainConfigs s)) (walk (TokenConfigs s)) true)
  end.
End operations.

(** ** The index invariant *)
Section invariant.
Context `{ChainCodecs, IM : IndexedMap, !IndexedMapLaws}.
Implicit Types s : RegState.

(** Every index entry points to a row with that reference; conversely every row
    is indexed. *)
Definition index_sound s : Prop :=
  ∀ r k, (r, k) ∈ PRC20Index s → index_ref <$> TokenConfigs s !! k = Some r.
Definition index_complete s : Prop :=
  ∀ k v, TokenConfigs s !! k = Some v → (index_ref v, k) ∈ PRC20Index s.
(** Every row is stored under its canonical key. *)
Definition keys_canonical s : Prop :=
  ∀ k v, TokenConfigs s !! k = Some v → k = GetTokenConfigsStorageKey (TokChain v) (TokAddress v).
Definition reg_inv s : Prop := index_sound s ∧ index_complete s ∧ keys_canonical s.

Lemma tokens_set_rows k v s : TokenConfigs (tokens_set k v s) = <[k := v]> (TokenConfigs s).
Proof. apply indexed_Set_rows. Qed.
Lemma tokens_remove_rows k s : TokenConfigs (tokens_remove k s) = delete k (TokenConfigs s).
Proof. apply indexed_Remove_rows. Qed.
Lemma tokens_set_index k v s r k' :
  (r, k') ∈ PRC20Index (tokens_set k v s) ↔
  (k' = k ∧ r = index_ref v) ∨
  ((r, k') ∈ PRC20Index s ∧ (k' = k → Some r ≠ index_ref <$> TokenConfigs s !! k)).
Proof.
  cbn. rewrite indexed_Set_index. cbn. destruct (TokenConfigs s !! k) as [old|]; cbn; naive_solver.
Qed.
Lemma tokens_remove_index k s r k' :
  (r, k') ∈ PRC20Index (tokens_remove k s) ↔ (r, k') ∈ PRC20Index s ∧ (k' = k → Some r ≠ index_ref <$> TokenConfigs s !! k).
Proof.
  cbn. rewrite indexed_Remove_index. cbn. destruct (TokenConfigs s !! k) as [old|]; cbn; naive_solver.
Qed.

Lemma tokens_set_sound k v s : index_sound s → index_sound (tokens_set k v s).
Proof.
  intros Hs r k'. rewrite tokens_set_index, tokens_set_rows. intros [[-> ->]|[Hin Hne]].
  - by rewrite lookup_insert_eq.
  - destruct (decide (k = k')) as [<-|Hk]; [|rewrite lookup_insert_ne by done; auto].
    exfalso. apply Hne; [done|]. by rewrite (Hs _ _ Hin).
Qed.
Lemma tokens_set_complete k v s : index_complete s → index_complete (tokens_set k v s).
Proof.
  intros Hc k' v'. rewrite tokens_set_index, tokens_set_rows, lookup_insert_Some.
  intros [[-> ->]|[Hne Hv]]; [by left|right]. split; [by apply Hc|]. by intros ->.
Qed.
Lemma tokens_remove_sound k s : index_sound s → index_sound (tokens_remove k s).
Proof.
  intros Hs r k'. rewrite tokens_remove_index, tokens_remove_rows. intros [Hin Hne]. pose proof (Hs _ _ Hin) as Hr.
  rewrite lookup_delete_ne; [done|]. intros <-. by destruct (Hne eq_refl).
Qed.
Lemma tokens_remove_complete k s : index_complete s → index_complete (tokens_remove k s).
Proof.
  intros Hc k' v'. rewrite tokens_remove_index, tokens_remove_rows, lookup_delete_Some. intros [Hne Hv].
  split; [by apply Hc|]. by intros ->.
Qed.
Lemma tokens_set_inv v s :
  reg_inv s → reg_inv (tokens_set (GetTokenConfigsStorageKey (TokChain v) (TokAddress v)) v s).
Proof.
  intros (Hs & Hc & Hk). split_and!; [by apply tokens_set_sound|by apply tokens_set_complete|].
  intros k' v'. rewrite tokens_set_rows, lookup_insert_Some. intros [[<- <-]|[_ Hv]]; [done|by apply Hk].
Qed.
Lemma tokens_remove_inv k s : reg_inv s → reg_inv (tokens_remove k s).
Proof.
  intros (Hs & Hc & Hk). split_and!; [by apply tokens_remove_sound|by apply tokens_remove_complete|].
  intros k' v'. rewrite tokens_remove_rows, lookup_delete_Some. intros [_ Hv]. by apply Hk.
Qed.
Lemma reg_inv_same s s' :
  TokenConfigs s' = TokenConfigs s → PRC20Index s' = PRC20Index s → reg_inv s → reg_inv s'.
Proof.
  unfold reg_inv, index_sound, index_complete, keys_canonical. by intros -> ->.
Qed.
End invariant.

Inductive reg_msg :=
| RMsgAddChain (m : MsgAddChainConfig)
| RMsgUpdateChain (m : MsgUpdateChainConfig)
| RMsgAddToken (m : MsgAddTokenConfig)
| RMsgUpdateToken (m : MsgUpdateTokenConfig)
| RMsgRemoveToken (m : MsgRemoveTokenConfig).

Section theorems.
Context {E : Type} `{Bech32, ChainCodecs, IM : IndexedMap, !IndexedMapLaws}.
Implicit Types w : World E.

Definition exec_reg_msg (m : reg_msg) : M (World E) unit :=
  match m with
  | RMsgAddChain m => msg_AddChainConfig m
  | RMsgUpdateChain m => msg_UpdateChainConfig m
  | RMsgAddToken m => msg_AddTokenConfig m
  | RMsgUpdateToken m => msg_UpdateTokenConfig m
  | RMsgRemoveToken m => msg_RemoveTokenConfig m
  end.
Definition reg_signer (m : reg_msg) : string :=
  match m with
  | RMsgAddChain m => AccSigner m | RMsgUpdateChain m => UccSigner m
  | RMsgAddToken m => AtcSigner m | RMsgUpdateToken m => UtcSigner m
  | RMsgRemoveToken m => RtcSigner m
  end.

(** When a message is accepted: the administrator signs it, it carries a configuration, and
    what it adds is not there yet, for a token on a chain that is, or what it changes or
    removes is there. *)
Definition token_key (chain address : string) : string := chain +:+ ":" +:+ CanonicalTokenAddress chain address.
Definition admissible (m : reg_msg) (s : RegState) : Prop :=
  Admin <$> RegParams s = Some (reg_signer m) ∧
  match m with
  | RMsgAddChain m => ∃ c, AccConfig m = Some c ∧ ChainConfigs s !! Chain c = None
  | RMsgUpdateChain m => ∃ c, UccConfig m = Some c ∧ is_Some (ChainConfigs s !! Chain c)
  | RMsgAddToken m => ∃ t, AtcConfig m = Some t ∧ is_Some (ChainConfigs s !! TokChain t) ∧
      TokenConfigs s !! token_key (TokChain t) (TokAddress t) = None
  | RMsgUpdateToken m => ∃ t, UtcConfig m = Some t ∧ is_Some (TokenConfigs s !! token_key (TokChain t) (TokAddress t))
  | RMsgRemoveToken m => is_Some (TokenConfigs s !! token_key (RtcChain m) (RtcTokenAddress m))
  end.
(** The rows of chains and of tokens it leaves. *)
Definition chains_after (m : reg_msg) (rows : gmap string ChainConfig) : gmap string ChainConfig :=
  match m with
  | RMsgAddChain (mkMsgAddChainConfig _ (Some c)) | RMsgUpdateChain (mkMsgUpdateChainConfig _ (Some c)) => <[Chain c := c]> rows
  | _ => rows
  end.
Definition tokens_after (m : reg_msg) (rows : gmap string TokenConfig) : gmap string TokenConfig :=
  match m with
  | RMsgAddToken (mkMsgAddTokenConfig _ (Some t)) | RMsgUpdateToken (mkMsgUpdateTokenConfig _ (Some t)) =>
      <[token_key (TokChain t) (TokAddress t) := t]> rows
  | RMsgRemoveToken (mkMsgRemoveTokenConfig _ chain address) => delete (token_key chain address) rows
  | _ => rows
  end.
Lemma reg_only_admin_run signer w :
  reg_only_admin signer w = (Ok tt, w) ∧ Admin <$> RegParams (reg w) = Some signer ∨
  (∃ e, reg_only_admin signer w = (Err e, w)) ∧ Admin <$> RegParams (reg w) ≠ Some signer.
Proof.
  unfold reg_only_admin. mrun. destruct (RegParams (reg w)) as [p|]; mrun; [|right; split; [by eexists|done]].
  case_bool_decide as Hp; mrun; [left; by rewrite <- Hp|right; split; [by eexists|]]. cbn. congruence.
Qed.
(** What a message does after its signer was checked. *)
Definition decided (m : reg_msg) w (r : res unit * World E) : Prop :=
  (admissible m (reg w) ∧ r.1 = Ok tt ∧ ∃ s', r.2 = w <| reg := s' |> ∧ reg_inv s' ∧ RegParams s' = RegParams (reg w) ∧
     ChainConfigs s' = chains_after m (ChainConfigs (reg w)) ∧ TokenConfigs s' = tokens_after m (TokenConfigs (reg w))) ∨
  (¬ admissible m (reg w) ∧ (∃ e, r.1 = Err e) ∧ r.2 = w).

Lemma reg_decided m (k : M (World E) unit) w :
  exec_reg_msg m w = (reg_only_admin (reg_signer m) ≫= λ _, k) w →
  (Admin <$> RegParams (reg w) = Some (reg_signer m) → decided m w (k w)) → decided m w (exec_reg_msg m w).
Proof.
  intros -> Hk. rewrite bind_unfold. destruct (reg_only_admin_run (reg_signer m) w) as [[-> Ha]|[[e ->] Ha]]; [by apply Hk|].
  right. split_and!; [by intros [? _]|by eexists|done].
Qed.
Lemma decided_write m w f : admissible m (reg w) → reg_inv (f (reg w)) → RegParams (f (reg w)) = RegParams (reg w) →
  ChainConfigs (f (reg w)) = chains_after m (ChainConfigs (reg w)) → TokenConfigs (f (reg w)) = tokens_after m (TokenConfigs (reg w)) →
  decided m w (set_reg f w).
Proof. intros Ha Hi Hp Hc Ht. left. split_and!; [done..|]. exists (f (reg w)). split_and!; auto. Qed.
Lemma decided_refused m w e : ¬ admissible m (reg w) → decided m w (Err e, w).
Proof. intros Ha. right. split_and!; [done|by eexists|done]. Qed.

(** C32. What every message of the registry does, on every branch.  It is accepted exactly
    when the administrator signed it, it carries a configuration, and the chain or token it
    adds is new (a token under the canonical form of its address, on a registered chain) or
    the one it changes or removes exists; then exactly that row is written or deleted, the
    index of PRC20 addresses is again that of the rows, and nothing else changes.
    Otherwise it fails and changes nothing. *)
Theorem registry_messages_exact m w :
  reg_inv (reg w) →
  let '(out, w') := exec_reg_msg m w in
  (admissible m (reg w) ∧ out = Ok tt ∧ ∃ s', w' = w <| reg := s' |> ∧ reg_inv s' ∧ RegParams s' = RegParams (reg w) ∧
     ChainConfigs s' = chains_after m (ChainConfigs (reg w)) ∧ TokenConfigs s' = tokens_after m (TokenConfigs (reg w))) ∨
  (¬ admissible m (reg w) ∧ (∃ e, out = Err e) ∧ w' = w).
Proof.
  intros Hinv. enough (decided m w (exec_reg_msg m w)) as Hd by (by destruct (exec_reg_msg m w)).
  destruct m as [[sg [c|]]|[sg [c|]]|[sg [t|]]|[sg [t|]]|[sg ch ad]];
    try (apply decided_refused; by intros (_ & ? & ? & _)).
  - apply (reg_decided _ (AddChainConfig c)); [done|]. intros Ha. unfold AddChainConfig. mrun.
    case_bool_decide as Hc; cbn [negb]; [apply decided_refused; intros [_ (? & [= <-] & Hno)]; rewrite Hno in Hc; by destruct Hc|].
    apply eq_None_not_Some in Hc. apply decided_write; [split; [done|by exists c]|by apply (reg_inv_same (reg w))|done..].
  - apply (reg_decided _ (UpdateChainConfig c)); [done|]. intros Ha. unfold UpdateChainConfig. mrun.
    case_bool_decide as Hc; [|apply decided_refused; by intros [_ (? & [= <-] & ?)]].
    apply decided_write; [split; [done|by exists c]|by apply (reg_inv_same (reg w))|done..].
  - apply (reg_decided _ (AddTokenConfig t)); [done|]. intros Ha. unfold AddTokenConfig, GetChainConfig. mrun.
    destruct (ChainConfigs (reg w) !! TokChain t) eqn:Hch; mrun; [|apply decided_refused; intros [_ (? & [= <-] & Hc & _)]; rewrite Hch in Hc; by destruct Hc].
    case_bool_decide as Hc; cbn [negb]; [apply decided_refused; intros [_ (? & [= <-] & _ & Hno)]; unfold token_key in Hno; unfold GetTokenConfigsStorageKey in Hc; rewrite Hno in Hc; by destruct Hc|].
    apply eq_None_not_Some in Hc. apply decided_write; [split; [done|by exists t; rewrite Hch]|by apply tokens_set_inv|done|done|apply tokens_set_rows].
  - apply (reg_decided _ (UpdateTokenConfig t)); [done|]. intros Ha. unfold UpdateTokenConfig. mrun.
    case_bool_decide as Hc; [|apply decided_refused; by intros [_ (? & [= <-] & ?)]].
    apply decided_write; [split; [done|by exists t]|by apply tokens_set_inv|done|done|apply tokens_set_rows].
  - apply (reg_decided _ (RemoveTokenConfig ch ad)); [done|]. intros Ha. unfold RemoveTokenConfig. mrun.
    case_bool_decide as Hc; [|apply decided_refused; by intros [_ ?]].
    apply decided_write; [by split|by apply tokens_remove_inv|done|done|apply tokens_remove_rows].
Qed.

(** The reference answer: the first row, in key order, with that PRC20 address
    on that chain. *)
Definition scan_prc20 (chain ref : string) (rows : list (string * TokenConfig)) : option TokenConfig :=
  snd <$> List.find (λ kv, bool_decide (index_ref kv.2 = ref) && bool_decide (TokChain kv.2 = chain)) rows.

Lemma walk_keys_sorted (X : gset string) : StronglySorted key_le (walk_keys X).
Proof. apply StronglySorted_merge_sort; apply _. Qed.
Lemma walk_fst_sorted (m : gmap string TokenConfig) : StronglySorted key_le (walk m).*1.
Proof.
  assert (StronglySorted pair_le (walk m)) as Hs.
  { apply StronglySorted_merge_sort; [|intros x y; apply (total key_le)].
    intros x y z. unfold pair_le. apply transitivity. }
  induction Hs as [|[k v] l Hs IH Hf]; [constructor|]. cbn. constructor; [done|].
  apply Forall_fmap. eapply Forall_impl; [exact Hf|]. by intros [].
Qed.
Lemma StronglySorted_filter_fst (P : string * TokenConfig → bool) l :
  StronglySorted key_le l.*1 → StronglySorted key_le (List.filter P l).*1.
Proof.
  induction l as [|[k v] l IH]; [constructor|]. cbn. intros [Hs Hf]%StronglySorted_inv.
  destruct (P (k, v)); [|by auto]. cbn. constructor; [by auto|].
  rewrite Forall_forall in *. intros x Hx. apply Hf.
  apply list_elem_of_fmap in Hx as (kv & -> & Hkv). apply list_elem_of_In, filter_In in Hkv as [Hkv _].
  apply list_elem_of_fmap. exists kv. split; [done|]. by apply list_elem_of_In.
Qed.

(** The keys the index lists are those of the rows with that reference. *)
Lemma match_exact_rows s ref :
  index_sound s → index_complete s →
  match_exact ref (PRC20Index s) =
  (List.filter (λ kv, bool_decide (index_ref kv.2 = ref)) (walk (TokenConfigs s))).*1.
Proof.
  intros Hs Hc. unfold match_exact. set (f := λ kv : string * TokenConfig, bool_decide (index_ref kv.2 = ref)).
  apply (StronglySorted_unique key_le);
    [apply walk_keys_sorted | apply StronglySorted_filter_fst, walk_fst_sorted |].
  apply NoDup_Permutation; [apply NoDup_walk_keys | apply NoDup_filter_fst, NoDup_walk_fst |].
  intros k. rewrite elem_of_walk_keys, elem_of_map, list_elem_of_fmap. split.
  - intros ([r k'] & -> & [Hr Hin]%elem_of_filter). cbn in *. subst r.
    pose proof (Hs _ _ Hin) as Hv. apply fmap_Some in Hv as (v & Hv & ->).
    exists (k', v). split; [done|]. apply list_elem_of_In, filter_In. split.
    + by apply list_elem_of_In, elem_of_walk.
    + by apply bool_decide_eq_true.
  - intros ([k' v] & -> & Hin). apply list_elem_of_In, filter_In in Hin as [Hin Hf].
    apply list_elem_of_In, elem_of_walk in Hin. apply bool_decide_eq_true in Hf. cbn in *.
    exists (ref, k'). split; [done|]. apply elem_of_filter. split; [done|]. rewrite <- Hf. by apply Hc.
Qed.

Lemma first_on_chain_run chain ref l w :
  (∀ k v, (k, v) ∈ l → TokenConfigs (reg w) !! k = Some v) →
  first_on_chain chain (List.filter (λ kv, bool_decide (index_ref kv.2 = ref)) l).*1 w =
  (match scan_prc20 chain ref l with Some v => Ok v | None => Err ErrNotFound end, w).
Proof.
  unfold scan_prc20. induction l as [|[k v] l IH]; intros Hl; [done|]. cbn.
  assert (∀ k v, (k, v) ∈ l → TokenConfigs (reg w) !! k = Some v) as Hl' by (intros; apply Hl; by right).
  case_bool_decide as Hr; cbn; [|by apply IH]. mrun. rewrite (Hl k v) by left. mrun.
  case_decide as Hch; [by rewrite bool_decide_eq_true_2|]. rewrite bool_decide_eq_false_2 by done.
  by apply IH.
Qed.

(** Looking a token up through the PRC20 index gives the answer of a full
    scan of the registry, for every spelling of the address. *)
Theorem GetTokenConfigByPRC20_is_scan chain a w :
  reg_inv (reg w) → TrimSpace a ≠ "" →
  GetTokenConfigByPRC20 chain a w =
  (match scan_prc20 chain (canonicalPRC20 a) (walk (TokenConfigs (reg w))) with
   | Some v => Ok v | None => Err ErrNotFound end, w).
Proof.
  intros (Hs & Hc & _) Ha. unfold GetTokenConfigByPRC20. mrun.
  rewrite bool_decide_eq_false_2 by done. mrun. rewrite match_exact_rows by done.
  apply first_on_chain_run. intros k v. apply elem_of_walk.
Qed.

(** A registered token is found under every spelling of its address that
    canonicalizes alike, and a second registration under any such spelling is
    refused without effect. *)
Theorem AddTokenConfig_lookup t t' addr w w' u :
  AddTokenConfig t w = (Ok u, w') →
  CanonicalTokenAddress (TokChain t) addr = CanonicalTokenAddress (TokChain t) (TokAddress t) →
  GetTokenConfig (TokChain t) addr w' = (Ok t, w') ∧
  (TokChain t' = TokChain t → TokAddress t' = addr → ∃ e, AddTokenConfig t' w' = (Err e, w')).
Proof.
  unfold AddTokenConfig, GetChainConfig. mrun.
  destruct (ChainConfigs (reg w) !! TokChain t) as [c|] eqn:Hc; mrun; [|done].
  case_bool_decide as Hs; mrun; [done|]. intros [= _ <-] Hcanon.
  assert (GetTokenConfigsStorageKey (TokChain t) addr =
          GetTokenConfigsStorageKey (TokChain t) (TokAddress t)) as Hkey
    by (unfold GetTokenConfigsStorageKey; by rewrite Hcanon).
  split.
  - unfold GetTokenConfig. mrun. rewrite Hkey. change (TokenConfigs (reg _)) with (TokenConfigs (tokens_set (GetTokenConfigsStorageKey (TokChain t) (TokAddress t)) t (reg w))).
    by rewrite tokens_set_rows, lookup_insert_eq.
  - intros Hch <-. rewrite Hch. mrun. cbn [reg ChainConfigs upd tokens_set put_tokens]. rewrite Hc. mrun.
    rewrite bool_decide_eq_true_2; [mrun; by eauto|]. rewrite Hkey. change (is_Some (TokenConfigs (tokens_set (GetTokenConfigsStorageKey (TokChain t) (TokAddress t)) t (reg w)) !! GetTokenConfigsStorageKey (TokChain t) (TokAddress t))).
    rewrite tokens_set_rows, lookup_insert_eq. by eauto.
Qed.

(** The rows are not changed by re-setting them, and each becomes indexed. *)
Lemma rebuild_run (keys : list string) w :
  (∀ k, k ∈ keys → is_Some (TokenConfigs (reg w) !! k)) → index_sound (reg w) →
  ∃ w', for_each (λ key, s ← get_reg TokenConfigs;
                         cfg ← lift_option (s !! key) ErrNotFound;
                         set_reg (tokens_set key cfg)) keys w = (Ok tt, w') ∧
    TokenConfigs (reg w') = TokenConfigs (reg w) ∧ index_sound (reg w') ∧
    PRC20Index (reg w) ⊆ PRC20Index (reg w') ∧
    ∀ k v, k ∈ keys → TokenConfigs (reg w) !! k = Some v → (index_ref v, k) ∈ PRC20Index (reg w').
Proof.
  revert w. induction keys as [|k keys IH]; intros w Hk Hs; mrun.
  { exists w. split_and!; try done. by intros ?? ?%elem_of_nil. }
  destruct (Hk k) as [v Hv]; [left|]. rewrite Hv. mrun.
  match goal with |- context [for_each _ keys ?x] => set (w1 := x) end.
  assert (TokenConfigs (reg w1) = TokenConfigs (reg w)) as Ht by (etransitivity; [apply (tokens_set_rows k v)|by apply insert_id]).
  destruct (IH w1) as (w' & -> & Ht' & Hs' & Hsub & Hall).
  { intros k' ?. rewrite Ht. apply Hk. by right. }
  { by apply tokens_set_sound. }
  assert (∀ p, p ∈ PRC20Index (reg w) → p ∈ PRC20Index (reg w1)) as Hsub1.
  { intros [r k'] Hin. apply (tokens_set_index k v (reg w)).
    destruct (decide (k' = k)) as [->|Hne]; [left|right; naive_solver].
    pose proof (Hs _ _ Hin) as Hr. rewrite Hv in Hr. by injection Hr as ->. }
  exists w'. split_and!; [done|by rewrite Ht'|done|set_solver|].
  intros k' v' [->|Hin]%elem_of_cons Hv'; [|apply Hall; [done|by rewrite Ht]].
  apply Hsub. apply (tokens_set_index k v (reg w)). left. by simplify_eq.
Qed.

(** The upgrade backfills the index: from any store whose index has no
    stale entry (in particular the empty index of an old node), rebuilding it
    always succeeds, leaves the rows alone and makes the index exact. *)
Theorem RebuildPRC20Index_backfills w :
  index_sound (reg w) →
  ∃ w', RebuildPRC20Index w = (Ok tt, w') ∧ TokenConfigs (reg w') = TokenConfigs (reg w) ∧
        index_sound (reg w') ∧ index_complete (reg w').
Proof.
  intros Hs. unfold RebuildPRC20Index. mrun.
  destruct (rebuild_run (walk (TokenConfigs (reg w))).*1 w) as (w' & -> & Ht & Hs' & _ & Hall); [|done|].
  { intros k ([k' v] & -> & Hin%elem_of_walk)%list_elem_of_fmap. by eauto. }
  exists w'. split_and!; try done. intros k v Hv. rewrite Ht in Hv. apply Hall; [|done].
  apply list_elem_of_fmap. exists (k, v). split; [done|]. by apply elem_of_walk.
Qed.
End theorems.
