(* ===== verification/Utss.v ===== *)
(** * x/utss: threshold keys and fund migrations

    [keeper/*.go] of x/utss.  One key process runs at a time; its participants
    vote the resulting key, and the key is final when all of them agree.  Fund
    migrations move an old vault's funds and are decided by the ordinary quorum.
    The module calls x/uvalidator for ballots and validators, x/uregistry and
    x/uexecutor for chain state, and is called back through the validator hooks. *)
From S2P Require Import Prelude GoStrings UvTypes TssTypes UxTypes RegTypes World Canonical.
From S2P Require Import UvValidator UvBallot Registry.
Import Tss.

(** [sha256] and the starting value of a [collections.Sequence]: libraries. *)
Class Sha256 : Type := sha256_hex : string → string.   (* [hex(sha256(s))] *)
Class SequenceStart : Type := DefaultSequenceStart : N.

(** [UExecutorKeeper] as x/utss sees it; the gas queries call the EVM. *)
Class UExecutorKeeper (E : Type) : Type := {
  HasPendingOutboundsForChain : string → M (World E) bool;
  GetGasPriceByChain : Ctx → string → M (World E) Z;
  GetL1GasFeeByChain : Ctx → string → M (World E) Z;
  GetTssFundMigrationGasLimitByChain : Ctx → string → M (World E) (option Z);   (* [nil] pointer *)
}.
(** Its queries leave the store of x/utss alone. *)
Class UExecutorKeeperLaws (E : Type) `{UExecutorKeeper E} : Prop := {
  pending_outbounds_tss c : stable tss (HasPendingOutboundsForChain c);
  gas_price_tss ctx c : stable tss (GetGasPriceByChain ctx c);
  l1_gas_fee_tss ctx c : stable tss (GetL1GasFeeByChain ctx c);
  migration_gas_limit_tss ctx c : stable tss (GetTssFundMigrationGasLimitByChain ctx c);
}.

Definition fmt_N (n : N) : string := fmt_d (Z.of_N n).

(** ** Messages *)
Record MsgInitiateTssKeyProcess := mkMsgInitiateTssKeyProcess {
  ItSigner : string; ItProcessType : TssProcessType }.
Record MsgVoteTssKeyProcess := mkMsgVoteTssKeyProcess {
  VtSigner : string; VtTssPubkey : string; VtKeyId : string; VtProcessId : N }.
Record MsgInitiateFundMigration := mkMsgInitiateFundMigration {
  IfSigner : string; IfOldKeyId : string; IfChain : string }.
Record MsgVoteFundMigration := mkMsgVoteFundMigration {
  VfSigner : string; VfMigrationId : N; VfTxHash : string; VfSuccess : bool }.

Record TssGenesis := mkTssGenesis {
  TgParams : Params;
  TgCurrentTssProcess : option TssKeyProcess;
  TgProcessHistory : list (N * TssKeyProcess);
  TgCurrentTssKey : option TssKey;
  TgTssKeyHistory : list (string * TssKey);
  TgNextProcessId : N;
  TgTssEvents : list TssEvent;
  TgNextTssEventId : N;
  TgFundMigrations : list (N * FundMigration);
  TgNextMigrationId : N
}.

(** ** Operations *)
Section operations.
Context {E : Type} `{Bech32, ChainCodecs, SK : StakingKeeper, BH : BallotHooks E, Sha256, SequenceStart,
  UXK : UExecutorKeeper E}.
Implicit Types ctx : Ctx.
#[local] Abbreviation M := (M (World E)).

Definition GetTssBallotKey (processId : N) (tssPubKey keyId : string) : string :=
  sha256_hex (fmt_N processId +:+ ":" +:+ tssPubKey +:+ ":" +:+ keyId).
Definition GetFundMigrationBallotKey (migrationId : N) (txHash : string) (success : bool) : string :=
  sha256_hex ("fm:" +:+ fmt_N migrationId +:+ ":" +:+ txHash +:+ ":" +:+ fmt_t success).

(** [Sequence.Peek] and [Sequence.Next] *)
Definition peek (s : option N) : N := default DefaultSequenceStart s.
Definition next_process_id : M N :=
  n ← get_tss (λ s, peek (NextProcessId s));
  set_tss (λ s, s <| NextProcessId := Some (n + 1)%N |>) ;; mret n.
Definition next_event_id : M N :=
  n ← get_tss (λ s, peek (NextTssEventId s));
  set_tss (λ s, s <| NextTssEventId := Some (n + 1)%N |>) ;; mret n.
Definition next_migration_id : M N :=
  n ← get_tss (λ s, peek (NextMigrationId s));
  set_tss (λ s, s <| NextMigrationId := Some (n + 1)%N |>) ;; mret n.

(** *** tss_events.go *)
Definition event_matches (processId : N) (eventType : TssEventType) (kv : N * TssEvent) : bool :=
  bool_decide (EvProcessId kv.2 = processId) && bool_decide (EventType kv.2 = eventType).
Definition updateTssEventStatusByProcessId (processId : N) (eventType : TssEventType)
    (newStatus : TssEventStatus) : M unit :=
  s ← get_tss TssEvents;
  match List.find (event_matches processId eventType) (walk s) with
  | None => mret tt
  | Some (foundId, foundEvent) =>
      set_tss (λ s, s <| TssEvents ::= insert foundId (foundEvent <| EvStatus := newStatus |>) |>)
  end.

Definition active_finalized (kv : N * TssEvent) : bool :=
  bool_decide (EventType kv.2 = TSS_EVENT_KEY_FINALIZED) && bool_decide (EvStatus kv.2 = TSS_EVENT_ACTIVE).
Definition completePreviousActiveFinalizedEvent : M unit :=
  s ← get_tss TssEvents;
  for_each (λ item, set_tss (λ s, s <| TssEvents ::=
              insert item.1 (item.2 <| EvStatus := TSS_EVENT_COMPLETED |>) |>))
    (List.filter active_finalized (walk s)).

(** *** tss_key.go, tss_key_process.go *)
Definition SetCurrentTssKey (key : TssKey) : M unit :=
  wrap "invalid tss key" (lift_res (TssKey_ValidateBasic key)) ;;
  set_tss (λ s, s <| CurrentTssKey := Some key |>) ;;
  set_tss (λ s, s <| TssKeyHistory ::= insert (KeyId key) key |>).
Definition GetTssKeyByID (keyID : string) : M (option TssKey) :=
  s ← get_tss TssKeyHistory; mret (s !! keyID).

Definition FinalizeTssKeyProcess (processID : N) (status : TssKeyProcessStatus) : M unit :=
  s ← get_tss ProcessHistory;
  process ← lift_option (s !! processID) ("tss process " +:+ fmt_N processID +:+ " not found");
  set_tss (λ s, s <| ProcessHistory ::= insert processID (process <| Status := status |>) |>) ;;
  (if decide (status ≠ TSS_KEY_PROCESS_PENDING) then
     set_tss (λ s, s <| CurrentTssProcess := None |>) ;;
     set_tss (λ s, s <| PendingTssEvents ::= delete processID |>)
   else mret tt) ;;
  if decide (status = TSS_KEY_PROCESS_FAILED) then
    swallow (updateTssEventStatusByProcessId processID TSS_EVENT_PROCESS_INITIATED TSS_EVENT_EXPIRED)
  else mret tt.

Definition tss_GetCurrentTssParticipants ctx : M (list string) :=
  p ← get_tss CurrentTssProcess;
  mret (match p with
        | Some p => if decide (ExpiryHeight p ≤ World.BlockHeight ctx) then [] else Participants p
        | None => []
        end).
Definition tss_HasOngoingTss ctx : M bool :=
  p ← get_tss CurrentTssProcess;
  mret (match p with
        | Some p => negb (bool_decide (ExpiryHeight p ≤ World.BlockHeight ctx))
        | None => false
        end).

(** *** initiate_tss_key_process.go *)
Definition core_address (v : UV.UniversalValidator) : M string :=
  i ← deref (UV.IdentifyInfo v); mret (UV.CoreValidatorAddress i).
Fixpoint core_addresses (vs : list UV.UniversalValidator) : M (list string) :=
  match vs with
  | [] => mret []
  | v :: vs' => a ← core_address v; r ← core_addresses vs'; mret (a :: r)
  end.
Definition refresh_participant (v : UV.UniversalValidator) : res bool :=
  l ← deref_res (UV.LifecycleInfoOf v);
  mret (bool_decide (UV.CurrentStatus l = UV.UV_STATUS_ACTIVE) ||
        bool_decide (UV.CurrentStatus l = UV.UV_STATUS_PENDING_LEAVE)).
Definition GetTssParticipants (processType : TssProcessType) : M (list string) :=
  match processType with
  | TSS_PROCESS_KEYGEN | TSS_PROCESS_QUORUM_CHANGE =>
      vs ← wrap "failed to fetch eligible validators" GetEligibleVoters;
      core_addresses vs
  | TSS_PROCESS_REFRESH =>
      vs ← wrap "failed to fetch all universal validators" GetAllUniversalValidators;
      vs' ← lift_res (res_filter refresh_participant vs);
      core_addresses vs'
  | TSS_PROCESS_other _ => throw "unsupported TSS process type"
  end.

(** Force-expiry of the process that is still running. *)
Definition force_expire ctx : M unit :=
  cur ← get_tss CurrentTssProcess;
  match cur with
  | None => mret tt
  | Some existing =>
      if decide (World.BlockHeight ctx < ExpiryHeight existing) then
        let existing := existing <| ExpiryHeight := i64 (World.BlockHeight ctx - 1) |> in
        set_tss (λ s, s <| CurrentTssProcess := Some existing |>) ;;
        set_tss (λ s, s <| ProcessHistory ::= insert (ProcId existing) existing |>) ;;
        swallow (updateTssEventStatusByProcessId (ProcId existing) TSS_EVENT_PROCESS_INITIATED
                   TSS_EVENT_EXPIRED) ;;
        set_tss (λ s, s <| PendingTssEvents ::= delete (ProcId existing) |>)
      else mret tt
  end.

Definition InitiateTssKeyProcess ctx (processType : TssProcessType) : M unit :=
  force_expire ctx ;;
  processID ← next_process_id;
  participants ← wrap "failed to get tss participants" (GetTssParticipants processType);
  let process := {| Status := TSS_KEY_PROCESS_PENDING; Participants := participants;
                    BlockHeight := World.BlockHeight ctx;
                    ExpiryHeight := i64 (World.BlockHeight ctx + DefaultTssProcessExpiryAfterBlocks);
                    ProcessType := processType; ProcId := processID |} in
  wrap "invalid tss process" (lift_res (TssKeyProcess_ValidateBasic process)) ;;
  set_tss (λ s, s <| CurrentTssProcess := Some process |>) ;;
  set_tss (λ s, s <| ProcessHistory ::= insert processID process |>) ;;
  eventId ← next_event_id;
  set_tss (λ s, s <| TssEvents ::= insert eventId
    {| EvId := eventId; EventType := TSS_EVENT_PROCESS_INITIATED; EvStatus := TSS_EVENT_ACTIVE;
       EvProcessId := processID; EvProcessType := TssProcessType_String processType;
       EvParticipants := participants; EvExpiryHeight := ExpiryHeight process;
       EvBlockHeight := World.BlockHeight ctx; EvKeyId := ""; EvTssPubkey := "" |} |>) ;;
  set_tss (λ s, s <| PendingTssEvents ::= insert processID eventId |>).

(** *** voting.go *)
Definition VoteOnTssBallot ctx (universalValidator : string) (processId : N)
    (tssPubKey keyId : string) : M (bool * bool) :=
  let ballotKey := GetTssBallotKey processId tssPubKey keyId in
  cur ← get_tss CurrentTssProcess;
  existing ← lift_option cur "no active TSS process";
  require (bool_decide (ProcId existing = processId)) "invalid vote: another process is active" ;;
  let currentHeight := World.BlockHeight ctx in
  require (bool_decide (currentHeight < ExpiryHeight existing)) "process expired" ;;
  let expiryAfterBlocks := i64 (ExpiryHeight existing - currentHeight) in
  require (bool_decide (0 < expiryAfterBlocks)) "invalid expiry delta" ;;
  let votesNeeded := Z.of_nat (length (Participants existing)) in
  require (bool_decide (0 < votesNeeded)) "no participants in process" ;;
  r ← VoteOnBallot ctx ballotKey Ballot.BALLOT_OBSERVATION_TYPE_TSS_KEY
        (ValAddress_String universalValidator) Ballot.VOTE_RESULT_SUCCESS
        (Participants existing) votesNeeded expiryAfterBlocks;
  let '(_, isFinalized, isNew) := r in
  mret (isFinalized, isNew).

Definition fundMigrationExpiryBlocks : Z := 100000000.

Definition VoteOnFundMigrationBallot ctx (universalValidator : string) (migrationId : N)
    (txHash : string) (success : bool) : M (bool * bool) :=
  let ballotKey := GetFundMigrationBallotKey migrationId txHash success in
  universalValidatorSet ← GetEligibleVoters;
  let votesNeeded := Ballot.quorum (Z.of_nat (length universalValidatorSet)) in
  validatorStrs ← core_addresses universalValidatorSet;
  let voteResult := if success then Ballot.VOTE_RESULT_SUCCESS else Ballot.VOTE_RESULT_FAILURE in
  r ← VoteOnBallot ctx ballotKey Ballot.BALLOT_OBSERVATION_TYPE_FUND_MIGRATION
        (ValAddress_String universalValidator) voteResult validatorStrs votesNeeded
        fundMigrationExpiryBlocks;
  let '(_, isFinalized, isNew) := r in
  mret (isFinalized, isNew).

(** *** msg_vote_tss_key_process.go *)
Definition promote (participants : list string) ctx (v : UV.UniversalValidator) : M unit :=
  core ← core_address v;
  let foundInParticipants := bool_decide (core ∈ participants) in
  valAddr ← lift_res (ValAddressFromBech32 core);
  l ← deref (UV.LifecycleInfoOf v);
  let priorReason := match last (UV.History l) with
                     | Some e => UV.Reason e
                     | None => UV.TRANSITION_REASON_UNSPECIFIED
                     end in
  match UV.CurrentStatus l with
  | UV.UV_STATUS_PENDING_JOIN =>
      if foundInParticipants then
        wrap ("failed to activate universal validator " +:+ core)
          (UpdateValidatorStatus ctx valAddr UV.UV_STATUS_ACTIVE priorReason)
      else mret tt
  | UV.UV_STATUS_PENDING_LEAVE =>
      if foundInParticipants then mret tt
      else wrap ("failed to inactivate universal validator " +:+ core)
             (UpdateValidatorStatus ctx valAddr UV.UV_STATUS_INACTIVE priorReason)
  | _ => mret tt
  end.

(** Everything after the vote, in the same cache context. *)
Definition finalize_key ctx (process : TssKeyProcess) (tssPubKey keyId : string) (processId : N) : M unit :=
  let tssKey := {| TssPubkey := tssPubKey; KeyId := keyId; KeyParticipants := Participants process;
                   FinalizedBlockHeight := World.BlockHeight ctx;
                   KeygenBlockHeight := BlockHeight process; ProcessId := processId |} in
  set_tss (λ s, s <| CurrentTssKey := Some tssKey |>) ;;
  set_tss (λ s, s <| TssKeyHistory ::= insert keyId tssKey |>) ;;
  wrap "failed to finalise TSS process" (FinalizeTssKeyProcess processId TSS_KEY_PROCESS_SUCCESS) ;;
  match ProcessType process with
  | TSS_PROCESS_KEYGEN | TSS_PROCESS_QUORUM_CHANGE =>
      universalValidatorSet ← GetAllUniversalValidators;
      for_each (promote (Participants process) ctx) universalValidatorSet
  | _ => mret tt
  end ;;
  swallow (updateTssEventStatusByProcessId processId TSS_EVENT_PROCESS_INITIATED TSS_EVENT_COMPLETED) ;;
  swallow completePreviousActiveFinalizedEvent ;;
  eventId ← next_event_id;
  set_tss (λ s, s <| TssEvents ::= insert eventId
    {| EvId := eventId; EventType := TSS_EVENT_KEY_FINALIZED; EvStatus := TSS_EVENT_ACTIVE;
       EvProcessId := processId; EvProcessType := TssProcessType_String (ProcessType process);
       EvParticipants := Participants process; EvExpiryHeight := 0;
       EvBlockHeight := World.BlockHeight ctx; EvKeyId := keyId; EvTssPubkey := tssPubKey |} |>).

Definition VoteTssKeyProcess ctx (universalValidator tssPubKey keyId : string) (processId : N) : M unit :=
  cur ← get_tss CurrentTssProcess;
  process ← lift_option cur "no active TSS process running";
  require (bool_decide (World.BlockHeight ctx < ExpiryHeight process)) "TSS process has expired" ;;
  k ← GetTssKeyByID keyId;
  require (bool_decide (k = None)) ("tss key with key_id " +:+ keyId +:+ " already exists") ;;
  atomically (
    fn ← wrap "failed to vote on TSS ballot" (VoteOnTssBallot ctx universalValidator processId tssPubKey keyId);
    if (fn.1 : bool) then finalize_key ctx process tssPubKey keyId processId else mret tt).

(** *** Fund migrations *)
Fixpoint no_pending_on (chain : string) (ids : list N) : M unit :=
  match ids with
  | [] => mret tt
  | id :: ids' =>
      s ← get_tss FundMigrations;
      m ← lift_option (s !! id) ErrNotFound;
      require (negb (bool_decide (MigChain m = chain)))
        ("pending migration already exists for chain " +:+ chain) ;;
      no_pending_on chain ids'
  end.

Definition InitiateFundMigration ctx (oldKeyId chain : string) : M N :=
  h ← get_tss TssKeyHistory;
  oldKey ← lift_option (h !! oldKeyId) ("old key " +:+ oldKeyId +:+ " not found in TssKeyHistory");
  cur ← get_tss CurrentTssKey;
  currentKey ← lift_option cur "no current TSS key set";
  require (negb (bool_decide (oldKeyId = KeyId currentKey))) "cannot migrate from current key" ;;
  outboundEnabled ← IsChainOutboundEnabled chain;
  require (negb outboundEnabled) "outbound is still enabled" ;;
  hasPending ← wrap "failed to check pending outbounds" (HasPendingOutboundsForChain chain);
  require (negb hasPending) "chain still has pending outbounds" ;;
  pend ← get_tss PendingMigrations;
  no_pending_on chain (walk pend).*1 ;;
  gasPrice ← wrap "failed to get gas price" (GetGasPriceByChain ctx chain);
  gasLimitBig ← wrap "failed to get tss fund migration gas limit" (GetTssFundMigrationGasLimitByChain ctx chain);
  gasLimit ← lift_option (g ← gasLimitBig; if decide (0 < g < 2 ^ 64) then Some g else None)
               "invalid tss fund migration gas limit";
  l1GasFee ← wrap "failed to get l1 gas fee" (GetL1GasFeeByChain ctx chain);
  migrationId ← next_migration_id;
  set_tss (λ s, s <| FundMigrations ::= insert migrationId
    {| MigId := migrationId; OldKeyId := oldKeyId; OldTssPubkey := TssPubkey oldKey;
       CurrentKeyId := KeyId currentKey; CurrentTssPubkey := TssPubkey currentKey; MigChain := chain;
       MigStatus := FUND_MIGRATION_STATUS_PENDING; InitiatedBlock := World.BlockHeight ctx;
       CompletedBlock := 0; MigTxHash := ""; MigGasPrice := fmt_d gasPrice; MigGasLimit := gasLimit;
       MigL1GasFee := fmt_d l1GasFee |} |>) ;;
  set_tss (λ s, s <| PendingMigrations ::= insert migrationId migrationId |>) ;;
  mret migrationId.

Definition VoteFundMigration ctx (universalValidator : string) (migrationId : N)
    (txHash : string) (success : bool) : M unit :=
  s ← get_tss FundMigrations;
  migration ← lift_option (s !! migrationId) ("fund migration " +:+ fmt_N migrationId +:+ " not found");
  require (bool_decide (MigStatus migration = FUND_MIGRATION_STATUS_PENDING))
    "fund migration is already finalized" ;;
  txHash ← wrap "invalid tx hash" (lift_res (CanonicalizeTxHashByNamespace (MigChain migration) txHash));
  atomically (
    fn ← wrap "failed to vote on fund migration ballot"
           (VoteOnFundMigrationBallot ctx universalValidator migrationId txHash success);
    if (fn.1 : bool) then
      set_tss (λ s, s <| FundMigrations ::= insert migrationId
        (migration <| MigStatus := if success then FUND_MIGRATION_STATUS_COMPLETED
                                   else FUND_MIGRATION_STATUS_FAILED |>
                   <| CompletedBlock := World.BlockHeight ctx |>
                   <| MigTxHash := txHash |>) |>) ;;
      set_tss (λ s, s <| PendingMigrations ::= delete migrationId |>)
    else mret tt).

Definition MigrateFundMigrationsL1GasFee : M unit :=
  s ← get_tss FundMigrations;
  for_each (λ kv, if decide (MigL1GasFee kv.2 ≠ "") then mret tt
                  else set_tss (λ s, s <| FundMigrations ::= insert kv.1 (kv.2 <| MigL1GasFee := "0" |>) |>))
    (walk s).

(** *** msg_server.go *)
Definition tss_only_admin (signer : string) : M unit :=
  p ← get_tss TssParams;
  params ← wrap "failed to get params" (lift_option p ErrNotFound);
  require (bool_decide (Admin params = signer)) "invalid authority".
Definition tss_UpdateParams (authority signer : string) (p : Params) : M unit :=
  require (bool_decide (authority = signer)) "invalid authority" ;;
  set_tss (λ s, s <| TssParams := Some p |>).

(** The checks every vote message makes of its signer. *)
Definition voting_validator (signer : string) : M string :=
  signerValAddr ← wrap "invalid signer address" (lift_res (AccAddressFromBech32 signer));
  isBonded ← wrap "failed to check bonded status" (IsBondedUniversalValidator signer);
  require isBonded ("universal validator for signer " +:+ signer +:+ " is not bonded") ;;
  isTombstoned ← wrap "failed to check tombstoned status" (IsTombstonedUniversalValidator signer);
  require (negb isTombstoned) ("universal validator for signer " +:+ signer +:+ " is tombstoned") ;;
  mret signerValAddr.

Definition msg_InitiateTssKeyProcess ctx (m : MsgInitiateTssKeyProcess) : M unit :=
  tss_only_admin (ItSigner m) ;; InitiateTssKeyProcess ctx (ItProcessType m).
Definition msg_VoteTssKeyProcess ctx (m : MsgVoteTssKeyProcess) : M unit :=
  v ← voting_validator (VtSigner m);
  VoteTssKeyProcess ctx v (VtTssPubkey m) (VtKeyId m) (VtProcessId m).
Definition msg_InitiateFundMigration ctx (m : MsgInitiateFundMigration) : M N :=
  tss_only_admin (IfSigner m) ;; InitiateFundMigration ctx (IfOldKeyId m) (IfChain m).
Definition msg_VoteFundMigration ctx (m : MsgVoteFundMigration) : M unit :=
  v ← voting_validator (VfSigner m);
  VoteFundMigration ctx v (VfMigrationId m) (VfTxHash m) (VfSuccess m).

Definition MsgVoteTssKeyProcess_ValidateBasic (m : MsgVoteTssKeyProcess) : res unit :=
  check (is_ok (AccAddressFromBech32 (VtSigner m))) "invalid signer address" ;;
  check (negb (bool_decide (TrimSpace (VtTssPubkey m) = ""))) "tss_pubkey cannot be empty" ;;
  check (negb (bool_decide (TrimSpace (VtKeyId m) = ""))) "key_id cannot be empty" ;;
  check (negb (bool_decide (VtProcessId m = 0%N))) "process_id must be greater than 0".
Definition MsgVoteFundMigration_ValidateBasic (m : MsgVoteFundMigration) : res unit :=
  check (is_ok (AccAddressFromBech32 (VfSigner m))) "invalid signer address" ;;
  check (negb (bool_decide (VfMigrationId m = 0%N))) "migration_id is required" ;;
  check (negb (VfSuccess m && bool_decide (TrimSpace (VfTxHash m) = "")))
    "tx_hash is required when success is true".

(** *** hooks.go *)
Definition handleEligibleValidatorSetChange ctx : M unit :=
  r ← attempt GetEligibleVoters;
  match r with
  | Ok eligibleUVs =>
      if decide (length eligibleUVs < 2)%nat then mret tt
      else
        key ← get_tss CurrentTssKey;
        let processType := match key with Some _ => TSS_PROCESS_QUORUM_CHANGE | None => TSS_PROCESS_KEYGEN end in
        swallow (InitiateTssKeyProcess ctx processType)
  | _ => mret tt
  end.
Definition tss_hooks : UValidatorHooks E := {|
  AfterValidatorAdded := λ ctx _, handleEligibleValidatorSetChange ctx;
  AfterValidatorRemoved := λ ctx _, handleEligibleValidatorSetChange ctx;
  AfterValidatorStatusChanged := λ _ _ _ _, mret tt |}.
Definition tss_keeper : UtssKeeper E := {|
  GetCurrentTssParticipants := tss_GetCurrentTssParticipants;
  HasOngoingTss := tss_HasOngoingTss |}.

(** *** Genesis *)
Definition restore_event (event : TssEvent) : M unit :=
  set_tss (λ s, s <| TssEvents ::= insert (EvId event) event |>) ;;
  if decide (EventType event = TSS_EVENT_PROCESS_INITIATED ∧ EvStatus event = TSS_EVENT_ACTIVE)
  then set_tss (λ s, s <| PendingTssEvents ::= insert (EvProcessId event) (EvId event) |>)
  else mret tt.
Definition restore_migration (entry : N * FundMigration) : M unit :=
  set_tss (λ s, s <| FundMigrations ::= insert entry.1 entry.2 |>) ;;
  if decide (MigStatus entry.2 = FUND_MIGRATION_STATUS_PENDING)
  then set_tss (λ s, s <| PendingMigrations ::= insert entry.1 entry.1 |>)
  else mret tt.
Definition tss_InitGenesis (data : TssGenesis) : M unit :=
  require (negb (bool_decide (TrimSpace (Admin (TgParams data)) = ""))) "admin address cannot be empty" ;;
  set_tss (λ s, s <| TssParams := Some (TgParams data) |>) ;;
  match TgCurrentTssProcess data with
  | Some p => set_tss (λ s, s <| CurrentTssProcess := Some p |>) | None => mret tt end ;;
  for_each (λ kv, set_tss (λ s, s <| ProcessHistory ::= insert kv.1 kv.2 |>)) (TgProcessHistory data) ;;
  match TgCurrentTssKey data with
  | Some k => set_tss (λ s, s <| CurrentTssKey := Some k |>) | None => mret tt end ;;
  for_each (λ kv, set_tss (λ s, s <| TssKeyHistory ::= insert kv.1 kv.2 |>)) (TgTssKeyHistory data) ;;
  (if decide (0 < TgNextProcessId data)%N
   then set_tss (λ s, s <| NextProcessId := Some (TgNextProcessId data) |>) else mret tt) ;;
  for_each restore_event (TgTssEvents data) ;;
  (if decide (0 < TgNextTssEventId data)%N
   then set_tss (λ s, s <| NextTssEventId := Some (TgNextTssEventId data) |>) else mret tt) ;;
  for_each restore_migration (TgFundMigrations data) ;;
  if decide (0 < TgNextMigrationId data)%N
  then set_tss (λ s, s <| NextMigrationId := Some (TgNextMigrationId data) |>) else mret tt.
Definition tss_ExportGenesis : M TssGenesis :=
  s ← get_tss (λ s, s);
  match TssParams s with
  | None => panic ErrNotFound
  | Some params =>
      mret {| TgParams := params; TgCurrentTssProcess := CurrentTssProcess s;
              TgProcessHistory := walk (ProcessHistory s); TgCurrentTssKey := CurrentTssKey s;
              TgTssKeyHistory := walk (TssKeyHistory s); TgNextProcessId := peek (NextProcessId s);
              TgTssEvents := walk_values (TssEvents s); TgNextTssEventId := peek (NextTssEventId s);
              TgFundMigrations := walk (FundMigrations s); TgNextMigrationId := peek (NextMigrationId s) |}
  end.
End operations.
