(* ===== verification/TssInv.v ===== *)
(** * x/utss: the module invariant

    [tss_inv] relates the collections of the module: ids are fresh, the pending
    indexes list exactly the active process events and the pending migrations,
    the current process and key are the recorded ones, and a chain has at most
    one pending migration.  This file proves that every operation keeps it, and
    what the votes decide. *)
From S2P Require Import Prelude GoStrings UvTypes TssTypes UxTypes RegTypes World Canonical.
From S2P Require Import UvValidator UvBallot Registry Utss.
Import Tss.

Section invariant.
Context `{SequenceStart}.
Implicit Types s : TssState.

Definition initiated (e : TssEvent) : Prop := EventType e = TSS_EVENT_PROCESS_INITIATED.
Definition pending_event s (p i : N) : Prop :=
  ∃ e, TssEvents s !! i = Some e ∧ initiated e ∧ EvStatus e = TSS_EVENT_ACTIVE ∧ EvProcessId e = p.

Definition events_ok s : Prop :=
  (∀ i e, TssEvents s !! i = Some e → EvId e = i ∧ (i < peek (NextTssEventId s))%N) ∧
  (∀ i e, TssEvents s !! i = Some e → (EvProcessId e < peek (NextProcessId s))%N) ∧
  (∀ i j e e', TssEvents s !! i = Some e → TssEvents s !! j = Some e' →
     initiated e → initiated e' → EvProcessId e = EvProcessId e' → i = j).
(** The pending index, outside the process [except] whose event is being
    completed. *)
Definition pending_ok (except : option N) s : Prop :=
  ∀ p i, PendingTssEvents s !! p = Some i ↔ Some p ≠ except ∧ pending_event s p i.
Definition processes_ok s : Prop :=
  (∀ p pr, ProcessHistory s !! p = Some pr → ProcId pr = p ∧ (p < peek (NextProcessId s))%N) ∧
  (∀ pr, CurrentTssProcess s = Some pr → ProcessHistory s !! ProcId pr = Some pr).
Definition keys_ok s : Prop :=
  (∀ i k, TssKeyHistory s !! i = Some k → KeyId k = i) ∧
  (∀ k, CurrentTssKey s = Some k → TssKeyHistory s !! KeyId k = Some k).
Definition migrations_ok s : Prop :=
  (∀ i m, FundMigrations s !! i = Some m → MigId m = i ∧ (i < peek (NextMigrationId s))%N) ∧
  (∀ i j, PendingMigrations s !! i = Some j ↔
     j = i ∧ ∃ m, FundMigrations s !! i = Some m ∧ MigStatus m = FUND_MIGRATION_STATUS_PENDING) ∧
  (∀ i j m m', FundMigrations s !! i = Some m → FundMigrations s !! j = Some m' →
     MigStatus m = FUND_MIGRATION_STATUS_PENDING → MigStatus m' = FUND_MIGRATION_STATUS_PENDING →
     MigChain m = MigChain m' → i = j).

Definition tss_inv_except (x : option N) s : Prop :=
  events_ok s ∧ pending_ok x s ∧ processes_ok s ∧ keys_ok s ∧ migrations_ok s.
Definition tss_inv : TssState → Prop := tss_inv_except None.

(** Setting the status of an event. *)
Definition with_status (i : N) (e : TssEvent) (st : TssEventStatus) s : TssState :=
  s <| TssEvents ::= insert i (e <| EvStatus := st |>) |>.

Lemma with_status_events i e st s :
  TssEvents s !! i = Some e → events_ok s → events_ok (with_status i e st s).
Proof.
  intros He (H1 & H2 & H3).
  assert (∀ j e', TssEvents (with_status i e st s) !! j = Some e' →
            ∃ e0, TssEvents s !! j = Some e0 ∧ EvId e' = EvId e0 ∧ EvProcessId e' = EvProcessId e0 ∧
                  EventType e' = EventType e0) as Hl.
  { intros j e'. cbn. rewrite lookup_insert_Some. intros [[<- <-]|[_ ?]]; [|by eauto]. by exists e. }
  split_and!.
  - intros j e' (e0 & H0 & -> & _)%Hl. by apply H1.
  - intros j e' (e0 & H0 & _ & -> & _)%Hl. by apply (H2 j).
  - intros j k e1 e2 (e1' & ? & _ & Hp1 & Ht1)%Hl (e2' & ? & _ & Hp2 & Ht2)%Hl Hi1 Hi2 Heq.
    unfold initiated in *. eapply H3; eauto; unfold initiated; congruence.
Qed.

(** Moving the event of process [p] out of ACTIVE, with [p] out of the index. *)
Lemma with_status_pending i e st s x :
  TssEvents s !! i = Some e → initiated e → st ≠ TSS_EVENT_ACTIVE → events_ok s →
  pending_ok (Some (EvProcessId e)) s →
  x = None ∨ x = Some (EvProcessId e) → pending_ok x (with_status i e st s).
Proof.
  intros He Hini Hst (_ & _ & Hu) Hp Hx p j. cbn. rewrite (Hp p j). unfold pending_event. cbn. split.
  - intros [Hne (e' & He' & Hi' & Ha & Hpe)]. split; [destruct Hx as [-> | ->]; congruence|].
    exists e'. split; [|done]. rewrite lookup_insert_ne; [done|]. intros <-. congruence.
  - intros [Hne (e' & He' & Hi' & Ha & Hpe)]. rewrite lookup_insert_Some in He'.
    destruct He' as [[<- <-]|[Hij He']]; [done|]. split; [|by eauto].
    intros [= ->]. apply Hij. by apply (Hu i j e e').
Qed.

Lemma find_event_spec s p t :
  match List.find (event_matches p t) (walk (TssEvents s)) with
  | Some (i, e) => TssEvents s !! i = Some e ∧ EvProcessId e = p ∧ EventType e = t
  | None => ∀ i e, TssEvents s !! i = Some e → ¬ (EvProcessId e = p ∧ EventType e = t)
  end.
Proof.
  destruct (List.find _ _) as [[i e]|] eqn:Hf.
  - apply find_some in Hf as [Hin Hm]. apply list_elem_of_In, elem_of_walk in Hin.
    unfold event_matches in Hm. rewrite andb_true_iff, !bool_decide_eq_true in Hm. naive_solver.
  - intros i e He [Hp Ht]. eapply find_none in Hf; [|by apply list_elem_of_In, elem_of_walk].
    unfold event_matches in Hf. cbn in Hf. by rewrite !bool_decide_eq_true_2 in Hf.
Qed.

(** The pending index of a process without initiated event is empty. *)
Lemma pending_ok_no_event s p :
  (∀ i e, TssEvents s !! i = Some e → ¬ (EvProcessId e = p ∧ initiated e)) →
  pending_ok (Some p) s → pending_ok None s.
Proof.
  intros Hno Hp q i. rewrite (Hp q i). split; [naive_solver|]. intros [_ Hev]. split; [|done].
  intros [= ->]. destruct Hev as (e & He & Hi & _ & Hpe). by eapply Hno.
Qed.

(** Dropping [p] from the index. *)
Lemma drop_pending p s x :
  tss_inv_except x s → x = None ∨ x = Some p →
  tss_inv_except (Some p) (s <| PendingTssEvents ::= delete p |>).
Proof.
  intros (He & Hp & Hr) Hx. split_and!; try apply Hr; [done|].
  intros q i. cbn. rewrite lookup_delete_Some. rewrite (Hp q i). unfold pending_event. cbn.
  destruct Hx as [-> | ->]; naive_solver congruence.
Qed.
End invariant.

(** ** Key processes *)
Section processes.
Context `{SequenceStart}.
Implicit Types s : TssState.

Definition update_event (p : N) (t : TssEventType) (st : TssEventStatus) s : TssState :=
  match List.find (event_matches p t) (walk (TssEvents s)) with
  | Some (i, e) => with_status i e st s
  | None => s
  end.

Lemma update_event_inv p st s :
  st ≠ TSS_EVENT_ACTIVE → tss_inv_except (Some p) s →
  tss_inv (update_event p TSS_EVENT_PROCESS_INITIATED st s).
Proof.
  intros Hst (He & Hp & Hr). unfold update_event.
  pose proof (find_event_spec s p TSS_EVENT_PROCESS_INITIATED) as Hf.
  destruct (List.find _ _) as [[i e]|].
  - destruct Hf as (Hi & <- & Ht). split_and!; try apply Hr; [by apply with_status_events|].
    apply with_status_pending; auto.
  - split_and!; try apply Hr; [done|]. by apply (pending_ok_no_event s p).
Qed.

Definition expire_current (h : Z) s : TssState :=
  match CurrentTssProcess s with
  | Some p =>
      if decide (h < ExpiryHeight p) then
        let p' := p <| ExpiryHeight := i64 (h - 1) |> in
        update_event (ProcId p) TSS_EVENT_PROCESS_INITIATED TSS_EVENT_EXPIRED
          (s <| CurrentTssProcess := Some p' |> <| ProcessHistory ::= insert (ProcId p) p' |>
             <| PendingTssEvents ::= delete (ProcId p) |>)
      else s
  | None => s
  end.

Lemma expire_current_inv h s : tss_inv s → tss_inv (expire_current h s).
Proof.
  intros Hinv. unfold expire_current. destruct (CurrentTssProcess s) as [p|] eqn:Hc; [|done].
  case_decide; [|done]. apply update_event_inv; [done|].
  apply (drop_pending _ _ None); [|by left].
  destruct Hinv as (He & Hp & (Hh & Hcur) & Hr). split_and!; try apply Hr; [done|done|].
  split; cbn.
  - intros q pr. rewrite lookup_insert_Some. intros [[<- <-]|[_ Hq]]; [|by apply Hh].
    cbn. split; [done|]. by apply (Hh _ _ (Hcur _ Hc)).
  - intros pr [= <-]. cbn. by rewrite lookup_insert_eq.
Qed.

Definition bump_process s : TssState := s <| NextProcessId := Some (peek (NextProcessId s) + 1)%N |>.
Lemma bump_process_inv s : tss_inv s → tss_inv (bump_process s).
Proof.
  intros ((He & Hep & Heu) & Hp & (Hh & Hc) & Hr). split_and!; try apply Hr; try done.
  - split_and!; try done. intros i e Hi. cbn. pose proof (Hep i e Hi). lia.
  - split; [|done]. intros p pr Hpr. destruct (Hh p pr Hpr) as [? ?]. cbn. split; [done|lia].
Qed.

(** The state after a process is started. *)
Definition start_process (pr : TssKeyProcess) (e : TssEvent) s : TssState :=
  s <| CurrentTssProcess := Some pr |> <| ProcessHistory ::= insert (ProcId pr) pr |>
    <| NextTssEventId := Some (peek (NextTssEventId s) + 1)%N |>
    <| TssEvents ::= insert (EvId e) e |>
    <| PendingTssEvents ::= insert (ProcId pr) (EvId e) |>.

Lemma start_process_inv pr e s :
  tss_inv s → (∀ p q, ProcessHistory s !! p = Some q → (p < ProcId pr)%N) →
  (∀ i ev, TssEvents s !! i = Some ev → (EvProcessId ev < ProcId pr)%N) →
  (ProcId pr < peek (NextProcessId s))%N →
  EvId e = peek (NextTssEventId s) → EventType e = TSS_EVENT_PROCESS_INITIATED →
  EvStatus e = TSS_EVENT_ACTIVE → EvProcessId e = ProcId pr →
  tss_inv (start_process pr e s).
Proof.
  intros ((He & Hep & Heu) & Hp & (Hh & Hc) & Hr) Hfh Hfe Hlt Hid Hty Hst Hpid.
  assert (TssEvents s !! EvId e = None) as Hfresh.
  { destruct (TssEvents s !! EvId e) as [e'|] eqn:Hl; [|done].
    apply He in Hl as [_ Hl]. rewrite Hid in Hl. lia. }
  split_and!; try apply Hr.
  - split_and!; cbn.
    + intros i ev. rewrite lookup_insert_Some. intros [[<- <-]|[_ Hi]]; [split; [done|lia]|].
      destruct (He _ _ Hi) as [? ?]. split; [done|lia].
    + intros i ev. rewrite lookup_insert_Some. intros [[<- <-]|[_ Hi]]; [by rewrite Hpid|by apply (Hep i)].
    + intros i j e1 e2. rewrite !lookup_insert_Some. intros [[<- <-]|[_ Hi]] [[<- <-]|[_ Hj]] H1 H2 Heq.
      * done.
      * pose proof (Hfe _ _ Hj). lia.
      * pose proof (Hfe _ _ Hi). lia.
      * by eapply Heu.
  - intros p i. cbn. rewrite lookup_insert_Some, (Hp p i). unfold pending_event. cbn. split.
    + intros [[<- <-]|(Hne & _ & ev & Hev & Hrest)]; (split; [done|]).
      * exists e. by rewrite lookup_insert_eq.
      * exists ev. split; [|done]. rewrite lookup_insert_ne; [done|]. intros <-. congruence.
    + intros [_ (ev & Hev & Hini & Hact & Hpe)]. rewrite lookup_insert_Some in Hev.
      destruct Hev as [[<- <-]|[Hne Hev]]; [left; split; [congruence|done]|right].
      pose proof (Hfe _ _ Hev). split; [intros <-; lia|]. split; [done|]. by exists ev.
  - split; cbn.
    + intros p q. rewrite lookup_insert_Some. intros [[<- <-]|[_ Hq]]; [by split|by apply Hh].
    + intros pr' [= <-]. by rewrite lookup_insert_eq.
Qed.
End processes.

Section initiate.
Context {E : Type} `{Bech32, ChainCodecs, SK : StakingKeeper, BH : BallotHooks E, Sha256, SequenceStart,
  UXK : UExecutorKeeper E}.
Implicit Types (ctx : Ctx) (w : World E).

Lemma update_event_run p t st w :
  updateTssEventStatusByProcessId p t st w = (Ok tt, w <| tss ::= update_event p t st |>).
Proof.
  unfold updateTssEventStatusByProcessId, update_event. mrun.
  destruct (List.find _ _) as [[i e]|] eqn:Hf; mrun; destruct w; cbn in *; by rewrite Hf.
Qed.

Lemma force_expire_run ctx w :
  force_expire ctx w = (Ok tt, w <| tss ::= expire_current (World.BlockHeight ctx) |>).
Proof.
  unfold force_expire. mrun. unfold expire_current.
  destruct (CurrentTssProcess (tss w)) as [p|] eqn:Hc; mrun; [|destruct w; cbn in *; by rewrite Hc].
  case_decide as Hd; mrun; [|destruct w; cbn in *; rewrite Hc; by rewrite decide_False].
  rewrite update_event_run. mrun. f_equal. destruct w as [u t x r e]; cbn in *. rewrite Hc.
  rewrite decide_True by done. f_equal. unfold update_event. cbn.
  by destruct (List.find _ _) as [[i ev]|].
Qed.

(** Reading participants changes nothing. *)
Lemma core_addresses_read vs w0 : keeps (eq w0) (core_addresses (E:=E) vs).
Proof. induction vs; cbn; unfold core_address; keep. Qed.
Lemma GetTssParticipants_read ty w : (GetTssParticipants ty w).2 = w.
Proof.
  symmetry. revert w. assert (∀ w0, keeps (eq w0) (GetTssParticipants (E:=E) ty)) as Hk.
  { intros w0. destruct ty; cbn [GetTssParticipants];
      unfold GetEligibleVoters, GetAllUniversalValidators; keep; apply core_addresses_read. }
  intros w. by apply Hk.
Qed.

Lemma InitiateTssKeyProcess_inv ctx ty w :
  tss_inv (tss w) → tss_inv (tss (InitiateTssKeyProcess ctx ty w).2).
Proof.
  intros Hinv. unfold InitiateTssKeyProcess, next_process_id, next_event_id. mrun.
  rewrite force_expire_run. mrun.
  set (w1 := w <| tss ::= _ |>).
  assert (tss_inv (tss w1)) as Hinv1 by (by apply expire_current_inv).
  match goal with |- context [GetTssParticipants ty ?x] => set (w2 := x) end.
  assert (tss w2 = bump_process (tss w1)) as Hw2 by done.
  assert (tss_inv (tss w2)) as Hinv2 by (rewrite Hw2; by apply bump_process_inv).
  pose proof (GetTssParticipants_read ty w2) as Hrd.
  destruct (GetTssParticipants ty w2) as [[ps|e|e] w3]; cbn in Hrd; subst w3; mrun; [|done..].
  match goal with |- context [TssKeyProcess_ValidateBasic ?p] => set (pr := p) end.
  destruct (TssKeyProcess_ValidateBasic pr) as [[]|e|e]; mrun; [|done..].
  cbn [snd]. set (pid := peek (NextProcessId (tss w1))) in *.
  pose (ev := {| EvId := peek (NextTssEventId (tss w2)); EventType := TSS_EVENT_PROCESS_INITIATED;
                 EvStatus := TSS_EVENT_ACTIVE; EvProcessId := pid;
                 EvProcessType := TssProcessType_String ty; EvParticipants := ps;
                 EvExpiryHeight := ExpiryHeight pr; EvBlockHeight := World.BlockHeight ctx;
                 EvKeyId := ""; EvTssPubkey := "" |}).
  change (tss_inv (start_process pr ev (tss w2))).
  destruct Hinv1 as ((_ & Hep & _) & _ & (Hh & _) & _).
  apply start_process_inv; [done| | | |done..].
  - intros p q Hq. apply (Hh p q Hq).
  - intros i e Hev. apply (Hep i e Hev).
  - change (pid < pid + 1)%N. lia.
Qed.
End initiate.

(** ** Finalizing a key *)
Section finalize.
Context `{SequenceStart}.
Implicit Types s : TssState.

(** A status change of an event that the pending index does not track. *)
Lemma with_status_inv i e st s x :
  TssEvents s !! i = Some e → ¬ initiated e → tss_inv_except x s → tss_inv_except x (with_status i e st s).
Proof.
  intros He Hini (Hev & Hp & Hr). split_and!; try apply Hr; [by apply with_status_events|].
  intros p j. cbn. rewrite (Hp p j). unfold pending_event. cbn.
  split; intros [Hx (e' & He' & Hi' & Hrest)]; (split; [done|]); exists e'; (split; [|done]).
  - rewrite lookup_insert_ne; [done|]. intros <-. congruence.
  - rewrite lookup_insert_Some in He'. by destruct He' as [[<- <-]|[_ ?]].
Qed.

Definition complete_finalized s : TssState :=
  foldl (λ s item, with_status item.1 item.2 TSS_EVENT_COMPLETED s) s
    (List.filter active_finalized (walk (TssEvents s))).

Lemma complete_list_inv (l : list (N * TssEvent)) s :
  NoDup l.*1 → (∀ i e, (i, e) ∈ l → TssEvents s !! i = Some e ∧ ¬ initiated e) →
  tss_inv s → tss_inv (foldl (λ s item, with_status item.1 item.2 TSS_EVENT_COMPLETED s) s l).
Proof.
  revert s. induction l as [|[i e] l IH]; intros s Hnd Hin Hinv; [done|]. cbn [foldl fst snd].
  apply NoDup_cons in Hnd as [Hni Hnd]. destruct (Hin i e) as [He Hne]; [by left|].
  apply IH; [done| |by apply with_status_inv].
  intros j e' Hj. destruct (Hin j e') as [Hj' ?]; [by right|]. split; [|done]. cbn.
  rewrite lookup_insert_ne; [done|]. intros <-. apply Hni. apply list_elem_of_fmap. by exists (i, e').
Qed.

Lemma complete_finalized_inv s : tss_inv s → tss_inv (complete_finalized s).
Proof.
  apply complete_list_inv.
  - apply NoDup_filter_fst. apply NoDup_walk_fst.
  - intros i e Hin. apply list_elem_of_In, filter_In in Hin as [Hin Hf].
    apply list_elem_of_In, elem_of_walk in Hin. split; [done|]. unfold active_finalized in Hf.
    apply andb_true_iff in Hf as [Ht%bool_decide_eq_true _]. cbn in Ht. unfold initiated. congruence.
Qed.

Definition add_event (e : TssEvent) s : TssState :=
  s <| NextTssEventId := Some (peek (NextTssEventId s) + 1)%N |> <| TssEvents ::= insert (EvId e) e |>.
Lemma add_event_inv e s :
  tss_inv s → EvId e = peek (NextTssEventId s) → ¬ initiated e →
  (EvProcessId e < peek (NextProcessId s))%N → tss_inv (add_event e s).
Proof.
  intros ((He & Hep & Heu) & Hp & Hr) Hid Hni Hpid.
  assert (TssEvents s !! EvId e = None) as Hfresh.
  { destruct (TssEvents s !! EvId e) as [e'|] eqn:Hl; [|done].
    apply He in Hl as [_ Hl]. rewrite Hid in Hl. lia. }
  split_and!; try apply Hr.
  - split_and!; cbn.
    + intros i ev. rewrite lookup_insert_Some. intros [[<- <-]|[_ Hi]]; [split; [done|lia]|].
      destruct (He _ _ Hi) as [? ?]. split; [done|lia].
    + intros i ev. rewrite lookup_insert_Some. intros [[<- <-]|[_ Hi]]; [done|by apply (Hep i)].
    + intros i j e1 e2. rewrite !lookup_insert_Some. intros [[<- <-]|[_ Hi]] [[<- <-]|[_ Hj]] ???; try done.
      by eapply Heu.
  - intros p i. cbn. rewrite (Hp p i). unfold pending_event. cbn.
    split; intros [Hx (e' & He' & Hi' & Hrest)]; (split; [done|]); exists e'; (split; [|done]).
    + rewrite lookup_insert_ne; [done|]. intros <-. congruence.
    + rewrite lookup_insert_Some in He'. by destruct He' as [[<- <-]|[_ ?]].
Qed.

(** The process closes with its key. *)
Definition close_process (k : TssKey) (pr : TssKeyProcess) s : TssState :=
  s <| CurrentTssKey := Some k |> <| TssKeyHistory ::= insert (KeyId k) k |>
    <| ProcessHistory ::= insert (ProcId pr) (pr <| Status := TSS_KEY_PROCESS_SUCCESS |>) |>
    <| CurrentTssProcess := None |> <| PendingTssEvents ::= delete (ProcId pr) |>.
Lemma close_process_inv k pr s :
  tss_inv s → CurrentTssProcess s = Some pr → tss_inv_except (Some (ProcId pr)) (close_process k pr s).
Proof.
  intros (He & Hp & (Hh & Hc) & (Hk & Hck) & Hm) Hcur.
  apply (drop_pending _ _ None); [|by left]. split_and!; try done; try apply Hm.
  - split; cbn; [|done]. intros q pr'. rewrite lookup_insert_Some. intros [[<- <-]|[_ Hq]]; [|by apply Hh].
    split; [done|]. by apply (Hh _ _ (Hc _ Hcur)).
  - split; cbn.
    + intros i k'. rewrite lookup_insert_Some. intros [[<- <-]|[_ Hi]]; [done|by apply Hk].
    + intros k' [= <-]. by rewrite lookup_insert_eq.
Qed.

Definition finalized_state (k : TssKey) (pr : TssKeyProcess) (mk : N → TssEvent) s : TssState :=
  let s1 := complete_finalized
              (update_event (ProcId pr) TSS_EVENT_PROCESS_INITIATED TSS_EVENT_COMPLETED
                 (close_process k pr s)) in
  add_event (mk (peek (NextTssEventId s1))) s1.
Lemma update_event_next p t st s :
  NextProcessId (update_event p t st s) = NextProcessId s ∧
  NextTssEventId (update_event p t st s) = NextTssEventId s.
Proof. unfold update_event. by destruct (List.find _ _) as [[]|]. Qed.
Lemma complete_finalized_next s : NextProcessId (complete_finalized s) = NextProcessId s.
Proof.
  unfold complete_finalized. generalize (List.filter active_finalized (walk (TssEvents s))).
  intros l. revert s. induction l as [|it l IH]; intros s; [done|]. cbn [foldl]. by rewrite IH.
Qed.
Lemma finalized_state_inv k pr mk s :
  tss_inv s → CurrentTssProcess s = Some pr →
  (∀ i, EvId (mk i) = i ∧ EventType (mk i) = TSS_EVENT_KEY_FINALIZED ∧ EvProcessId (mk i) = ProcId pr) →
  tss_inv (finalized_state k pr mk s).
Proof.
  intros Hinv Hcur Hmk. apply add_event_inv; [|apply Hmk| |].
  - apply complete_finalized_inv, update_event_inv; [done|]. by apply close_process_inv.
  - unfold initiated. by rewrite (proj1 (proj2 (Hmk _))).
  - rewrite (proj2 (proj2 (Hmk _))), complete_finalized_next.
    rewrite (proj1 (update_event_next _ _ _ _)). cbn. destruct Hinv as (_ & _ & (Hh & Hc) & _).
    by apply (Hh _ _ (Hc _ Hcur)).
Qed.
End finalize.
