(* ===== verification/TssVotes.v ===== *)
(** * x/utss: what votes decide

    The key vote is unanimous and all-or-nothing, a new key rotates the
    validator set, and every message keeps the module invariant of TssInv. *)
From S2P Require Import Prelude GoStrings UvTypes TssTypes UxTypes RegTypes World Canonical.
From S2P Require Import UvValidator UvBallot Registry Utss TssInv.
Import Tss.

(** ** Votes *)
Section votes.
Context {E : Type} `{Bech32, ChainCodecs, SK : StakingKeeper, BH : BallotHooks E, BHL : !BallotHooksLaws E,
  Sha256, SequenceStart, UXK : UExecutorKeeper E}.
Implicit Types (ctx : Ctx) (w : World E) (t : TssState).

(** The ballot and validator keepers leave this module's store alone. *)
Lemma VoteOnBallot_tss ctx id ty voter r vs n e t :
  keeps (λ w, tss w = t) (VoteOnBallot ctx id ty voter r vs n e).
Proof. apply VoteOnBallot_keeps; [|done]. intros. apply stable_keeps, ballot_hook_tss. Qed.
Lemma UpdateValidatorStatus_tss ctx a st r t :
  keeps (λ w, tss w = t) (UpdateValidatorStatus ctx a st r).
Proof. unfold UpdateValidatorStatus, get_validator, put_validator. keep; by apply keeps_set_uv. Qed.
Lemma promote_tss ps ctx v t : keeps (λ w, tss w = t) (promote ps ctx v).
Proof. unfold promote, core_address. keep; apply UpdateValidatorStatus_tss. Qed.

Lemma complete_finalized_run w :
  completePreviousActiveFinalizedEvent w = (Ok tt, w <| tss ::= complete_finalized |>).
Proof.
  unfold completePreviousActiveFinalizedEvent. mrun. rewrite for_each_set_tss. by destruct w.
Qed.

(** What finalizing a key does to the module's store. *)
Definition final_key ctx (pr : TssKeyProcess) (pk kid : string) : TssKey :=
  {| TssPubkey := pk; KeyId := kid; KeyParticipants := Participants pr;
     FinalizedBlockHeight := World.BlockHeight ctx; KeygenBlockHeight := BlockHeight pr;
     ProcessId := ProcId pr |}.
Definition final_event ctx (pr : TssKeyProcess) (pk kid : string) (i : N) : TssEvent :=
  {| EvId := i; EventType := TSS_EVENT_KEY_FINALIZED; EvStatus := TSS_EVENT_ACTIVE;
     EvProcessId := ProcId pr; EvProcessType := TssProcessType_String (ProcessType pr);
     EvParticipants := Participants pr; EvExpiryHeight := 0;
     EvBlockHeight := World.BlockHeight ctx; EvKeyId := kid; EvTssPubkey := pk |}.
Definition new_key_state ctx (pr : TssKeyProcess) (pk kid : string) : TssState → TssState :=
  finalized_state (final_key ctx pr pk kid) pr (final_event ctx pr pk kid).

Definition rotate ctx (pr : TssKeyProcess) : M (World E) unit :=
  match ProcessType pr with
  | TSS_PROCESS_KEYGEN | TSS_PROCESS_QUORUM_CHANGE =>
      universalValidatorSet ← GetAllUniversalValidators;
      for_each (promote (Participants pr) ctx) universalValidatorSet
  | _ => mret tt
  end.

Lemma finalize_key_run ctx pr pk kid w :
  ProcessHistory (tss w) !! ProcId pr = Some pr →
  let w1 := w <| tss ::= close_process (final_key ctx pr pk kid) pr |> in
  ∃ w', finalize_key ctx pr pk kid (ProcId pr) w = ((rotate ctx pr w1).1, w') ∧
        uv w' = uv (rotate ctx pr w1).2 ∧
        (is_ok (rotate ctx pr w1).1 = true → tss w' = new_key_state ctx pr pk kid (tss w)).
Proof.
  intros Hh w1. unfold finalize_key, FinalizeTssKeyProcess, next_event_id. mrun. cbn [tss].
  match goal with |- context [ProcessHistory ?s !! ProcId pr] =>
    change (ProcessHistory s) with (ProcessHistory (tss w)) end.
  rewrite Hh. mrun. rewrite decide_True by done. mrun. rewrite decide_False by done. mrun.
  match goal with |- context [match (match ProcessType pr with _ => _ end) ?x with _ => _ end] =>
    change x with w1 end.
  fold (rotate ctx pr).
  assert (tss (rotate ctx pr w1).2 = tss w1) as Ht.
  { assert (keeps (λ w, tss w = tss w1) (rotate ctx pr)) as Hk; [|by apply Hk].
    unfold rotate, GetAllUniversalValidators. keep; apply keeps_for_each; intros; apply promote_tss. }
  destruct (rotate ctx pr w1) as [[[]|e|e] w2]; cbn [fst snd] in *; mrun; [|by eexists..].
  rewrite update_event_run. mrun. rewrite complete_finalized_run. mrun.
  eexists. split; [done|]. split; [done|]. intros _. unfold new_key_state, finalized_state.
  change (tss w1) with (close_process (final_key ctx pr pk kid) pr (tss w)) in Ht.
  rewrite <- Ht. by destruct w2.
Qed.

(** The ballot a key vote is cast on. *)
Definition key_vote ctx (v pk kid : string) (pr : TssKeyProcess) : M (World E) (Ballot.Ballot * bool * bool) :=
  VoteOnBallot ctx (GetTssBallotKey (ProcId pr) pk kid) Ballot.BALLOT_OBSERVATION_TYPE_TSS_KEY
    (ValAddress_String v) Ballot.VOTE_RESULT_SUCCESS (Participants pr)
    (Z.of_nat (length (Participants pr))) (i64 (ExpiryHeight pr - World.BlockHeight ctx)).

Lemma VoteOnTssBallot_ok ctx v pid pk kid w fin isNew w' :
  VoteOnTssBallot ctx v pid pk kid w = (Ok (fin, isNew), w') →
  ∃ pr b, CurrentTssProcess (tss w) = Some pr ∧ ProcId pr = pid ∧
    World.BlockHeight ctx < ExpiryHeight pr ∧ Participants pr ≠ [] ∧
    key_vote ctx v pk kid pr w = (Ok (b, fin, isNew), w').
Proof.
  unfold VoteOnTssBallot. intros Hr. wrun Hr.
  match goal with y : (Ballot.Ballot * bool * bool)%type |- _ => destruct y as [[b fin'] new'] end. wrun Hr.
  repeat match goal with H : bool_decide _ = true |- _ => apply bool_decide_eq_true in H end. subst.
  match goal with H : CurrentTssProcess _ = Some ?p |- _ => exists p, b end.
  split_and!; try done. intros He. rewrite He in *. cbn in *. lia.
Qed.

(** A vote leaves the validator set alone. *)
Definition validators_are (m : gmap string UV.UniversalValidator) w : Prop := UniversalValidatorSet (uv w) = m.
Lemma fire_validators ctx id ty st m : keeps (validators_are m) (fireBallotTerminalHook ctx id ty st).
Proof.
  apply keeps_swallow. intros w Hw. unfold validators_are in *. by rewrite ballot_hook_uv.
Qed.
Lemma VoteOnBallot_validators ctx id ty voter r vs n e m :
  keeps (validators_are m) (VoteOnBallot ctx id ty voter r vs n e).
Proof.
  unfold VoteOnBallot, GetOrCreateBallot, CreateBallot, ExpireBallotsBeforeHeight, AddVoteToBallot,
    SetBallot, CheckIfFinalizingVote, MarkBallotExpired, MarkBallotFinalized, GetBallot.
  keep; try (by apply keeps_set_uv); try apply fire_validators.
  apply keeps_for_each. intros. keep; try (by apply keeps_set_uv); apply fire_validators.
Qed.

(** *** Rotation of the validator set *)

(** What a new key does to one validator: a joining participant becomes active,
    a leaving validator that did not take part becomes inactive. *)
Definition prior_reason (l : UV.LifecycleInfo) : UV.TransitionReason :=
  match last (UV.History l) with Some e => UV.Reason e | None => UV.TRANSITION_REASON_UNSPECIFIED end.
Definition rotated (h : Z) (ps : list string) (v : UV.UniversalValidator) : UV.UniversalValidator :=
  match UV.IdentifyInfo v, UV.LifecycleInfoOf v with
  | Some i, Some l =>
      match UV.CurrentStatus l with
      | UV.UV_STATUS_PENDING_JOIN =>
          if decide (UV.CoreValidatorAddress i ∈ ps)
          then moved v l UV.UV_STATUS_ACTIVE h (prior_reason l) else v
      | UV.UV_STATUS_PENDING_LEAVE =>
          if decide (UV.CoreValidatorAddress i ∈ ps)
          then v else moved v l UV.UV_STATUS_INACTIVE h (prior_reason l)
      | _ => v
      end
  | _, _ => v
  end.

Definition set_validators (m : gmap string UV.UniversalValidator) w : World E :=
  w <| uv ::= λ s, s <| UniversalValidatorSet := m |> |>.
Lemma set_validators_same w : set_validators (UniversalValidatorSet (uv w)) w = w.
Proof. by destruct w as [[] ? ? ? ?]. Qed.

Lemma promote_run ps ctx h a v w :
  validator_ok h a v → UniversalValidatorSet (uv w) !! a = Some v →
  promote ps ctx v w =
  (Ok tt, set_validators (<[ a := rotated (World.BlockHeight ctx) ps v ]> (UniversalValidatorSet (uv w))) w).
Proof.
  intros (i & n & l & h0 & Hi & Hn & Hl & Ha & _ & _) Hv.
  unfold promote, core_address, rotated. rewrite Hi, Hl. mrun. rewrite Ha. mrun. fold (prior_reason l).
  assert ((Ok tt, w) = (Ok tt, set_validators (<[ a := v ]> (UniversalValidatorSet (uv w))) w)) as Hsame.
  { rewrite insert_id by done. by rewrite set_validators_same. }
  destruct (UV.CurrentStatus l) eqn:Hst; mrun; try done; case_decide as Hd;
    rewrite ?(bool_decide_eq_true_2 _ Hd), ?(bool_decide_eq_false_2 _ Hd); mrun; try done;
    rewrite UpdateValidatorStatus_run, Hv, Hl; done.
Qed.

Lemma promote_all ps ctx h l w :
  NoDup l.*1 → (∀ a v, (a, v) ∈ l → validator_ok h a v ∧ UniversalValidatorSet (uv w) !! a = Some v) →
  for_each (promote ps ctx) l.*2 w =
  (Ok tt, set_validators (foldl (λ m kv, <[ kv.1 := kv.2 ]> m) (UniversalValidatorSet (uv w))
            ((λ kv, (kv.1, rotated (World.BlockHeight ctx) ps kv.2)) <$> l)) w).
Proof.
  revert w. induction l as [|[a v] l IH]; intros w Hnd Hl; cbn [fmap list_fmap snd].
  { mrun. cbn. by rewrite set_validators_same. }
  apply NoDup_cons in Hnd as [Hna Hnd]. destruct (Hl a v) as [Hok Hv]; [by left|].
  mrun. rewrite (promote_run ps ctx h a v w) by done. mrun. rewrite IH; [done..|].
  intros a' v' Hin. destruct (Hl a' v') as [? ?]; [by right|]. split; [done|]. cbn.
  rewrite lookup_insert_ne; [done|]. intros <-. apply Hna, list_elem_of_fmap. by exists (a, v').
Qed.

Definition rotates (t : TssProcessType) : bool :=
  match t with TSS_PROCESS_KEYGEN | TSS_PROCESS_QUORUM_CHANGE => true | _ => false end.

Lemma rotate_run ctx pr h w :
  validators_inv h (uv w) →
  rotate ctx pr w = (Ok tt, if rotates (ProcessType pr)
    then set_validators (rotated (World.BlockHeight ctx) (Participants pr) <$> UniversalValidatorSet (uv w)) w
    else w).
Proof.
  intros Hinv. unfold rotate, GetAllUniversalValidators.
  assert (for_each (promote (Participants pr) ctx) (walk_values (UniversalValidatorSet (uv w))) w =
    (Ok tt, set_validators (rotated (World.BlockHeight ctx) (Participants pr) <$> UniversalValidatorSet (uv w)) w))
    as Hrun.
  { unfold walk_values. rewrite (promote_all _ ctx h); [|apply NoDup_walk_fst|].
    - do 2 f_equal. set (f := rotated _ _).
      rewrite foldl_insert by (rewrite <- list_fmap_compose; apply NoDup_walk_fst).
      change (λ kv : string * UV.UniversalValidator, (kv.1, f kv.2)) with (prod_map (@id string) f).
      rewrite list_to_map_fmap, list_to_map_walk. apply map_eq. intros a.
      rewrite lookup_union, !lookup_fmap. by destruct (UniversalValidatorSet (uv w) !! a).
    - intros a v Hin%elem_of_walk. split; [by apply Hinv|done]. }
  destruct (ProcessType pr); cbn; mrun; done.
Qed.

(** *** The key vote *)

(** The poll on a key, as it stands before the vote. *)
Definition key_poll ctx (pr : TssKeyProcess) (pk kid : string) w : Poll :=
  default (open_poll (Participants pr) (Z.of_nat (length (Participants pr)))
             (i64 (World.BlockHeight ctx + i64 (ExpiryHeight pr - World.BlockHeight ctx))))
    (polls (uv w) !! GetTssBallotKey (ProcId pr) pk kid).

Definition key_vote_open ctx (pr : TssKeyProcess) (kid : string) (pid : N) w : Prop :=
  ProcId pr = pid ∧ World.BlockHeight ctx < ExpiryHeight pr ∧
  0 < i64 (ExpiryHeight pr - World.BlockHeight ctx) ∧ Participants pr ≠ [] ∧
  TssKeyHistory (tss w) !! kid = None.
#[global] Instance key_vote_open_dec ctx pr kid pid w : Decision (key_vote_open ctx pr kid pid w).
Proof. unfold key_vote_open. apply _. Defined.

(** The vote as a function of the poll. *)
Definition accepted_key_vote ctx (pr : TssKeyProcess) (v pk kid : string) (pid : N) w : option Poll :=
  if decide (key_vote_open ctx pr kid pid w)
  then cast (World.BlockHeight ctx) (ValAddress_String v) Ballot.VOTE_RESULT_SUCCESS (key_poll ctx pr pk kid w)
  else None.

Lemma VoteTssKeyProcess_closed ctx v pk kid pid w pr :
  CurrentTssProcess (tss w) = Some pr → ¬ key_vote_open ctx pr kid pid w →
  is_ok (VoteTssKeyProcess ctx v pk kid pid w).1 = false ∧ (VoteTssKeyProcess ctx v pk kid pid w).2 = w.
Proof.
  intros Hcur Hno. unfold VoteTssKeyProcess, VoteOnTssBallot, GetTssKeyByID. mrun. rewrite Hcur. mrun.
  case_bool_decide; mrun; [|done]. case_bool_decide; mrun; [|done]. rewrite Hcur. mrun.
  case_bool_decide; mrun; [|done]. rewrite (bool_decide_eq_true_2 (World.BlockHeight ctx < _)) by done. mrun.
  case_bool_decide; mrun; [|done]. case_bool_decide as Hl; mrun; [|done]. destruct Hno.
  split_and!; try done. intros He. rewrite He in Hl. cbn in Hl. lia.
Qed.

Lemma VoteTssKeyProcess_open ctx v pk kid w pr :
  CurrentTssProcess (tss w) = Some pr → key_vote_open ctx pr kid (ProcId pr) w →
  VoteTssKeyProcess ctx v pk kid (ProcId pr) w =
  atomically (r ← wrap "failed to vote on TSS ballot" (key_vote ctx v pk kid pr);
              if (r.1.2 : bool) then finalize_key ctx pr pk kid (ProcId pr) else mret tt) w.
Proof.
  intros Hcur (_ & Hh & Hd & Hps & Hk). unfold VoteTssKeyProcess, VoteOnTssBallot, GetTssKeyByID. mrun.
  rewrite Hcur. mrun. rewrite bool_decide_eq_true_2 by done. mrun.
  rewrite bool_decide_eq_true_2 by done. mrun. rewrite Hcur. mrun.
  rewrite !bool_decide_eq_true_2 by done. mrun. rewrite bool_decide_eq_true_2.
  2:{ destruct (Participants pr); [done|]. cbn. lia. }
  mrun. fold (key_vote ctx v pk kid pr). by destruct (key_vote ctx v pk kid pr w) as [[[[b fin] new]|e|e] w1]; mrun.
Qed.

Definition after_rotation ctx (pr : TssKeyProcess) (m : gmap string UV.UniversalValidator) :=
  if rotates (ProcessType pr) then rotated (World.BlockHeight ctx) (Participants pr) <$> m else m.

(** Once the vote is accepted nothing can fail: the finalization runs to its end. *)
Lemma finalize_key_total ctx pr pk kid w h :
  validators_inv h (uv w) → ProcessHistory (tss w) !! ProcId pr = Some pr →
  ∃ w', finalize_key ctx pr pk kid (ProcId pr) w = (Ok tt, w') ∧
    tss w' = new_key_state ctx pr pk kid (tss w) ∧ Ballots (uv w') = Ballots (uv w) ∧
    UniversalValidatorSet (uv w') = after_rotation ctx pr (UniversalValidatorSet (uv w)).
Proof.
  intros Hv Hh. destruct (finalize_key_run ctx pr pk kid w Hh) as (w' & Hrun & Huv & Htss).
  rewrite (rotate_run ctx pr h) in Hrun, Huv, Htss by done. cbn [fst snd] in *.
  exists w'. split; [done|]. split; [by apply Htss|]. rewrite Huv. unfold after_rotation.
  by destruct (rotates (ProcessType pr)).
Qed.

Lemma key_vote_cast ctx v pk kid pr w :
  ballots_inv (uv w) → NoDup (Participants pr) →
  let r := key_vote ctx v pk kid pr w in
  match cast (World.BlockHeight ctx) (ValAddress_String v) Ballot.VOTE_RESULT_SUCCESS
          (key_poll ctx pr pk kid w) with
  | None => ∃ m, r.1 = Err m
  | Some p => (∃ b new, r.1 = Ok (b, bool_decide (phase p ≠ Ballot.BALLOT_STATUS_PENDING), new)) ∧
              polls (uv r.2) !! GetTssBallotKey (ProcId pr) pk kid = Some p
  end ∧ tss r.2 = tss w ∧ UniversalValidatorSet (uv r.2) = UniversalValidatorSet (uv w).
Proof.
  intros Hb Hnd r. split_and!; [|by apply VoteOnBallot_tss|by apply VoteOnBallot_validators].
  pose proof (VoteOnBallot_cast ctx (GetTssBallotKey (ProcId pr) pk kid)
    Ballot.BALLOT_OBSERVATION_TYPE_TSS_KEY (ValAddress_String v) Ballot.VOTE_RESULT_SUCCESS
    (Participants pr) (Z.of_nat (length (Participants pr)))
    (i64 (ExpiryHeight pr - World.BlockHeight ctx)) w Hb Hnd) as Hcast.
  cbv zeta in Hcast. unfold key_poll. subst r. unfold key_vote.
  destruct (VoteOnBallot _ _ _ _ _ _ _ _ w) as [out w']. cbn [fst snd].
  destruct (cast _ _ _ _) as [p|]; [|by destruct Hcast as [[? _] _]].
  destruct Hcast as [[(b & -> & _) ->] _]. rewrite lookup_insert_eq. eauto.
Qed.

Lemma key_vote_outcome_open ctx v pk kid w pr :
  tss_inv (tss w) → ballots_inv (uv w) → validators_inv (World.BlockHeight ctx) (uv w) →
  CurrentTssProcess (tss w) = Some pr → NoDup (Participants pr) → key_vote_open ctx pr kid (ProcId pr) w →
  let '(out, w') := VoteTssKeyProcess ctx v pk kid (ProcId pr) w in
  match cast (World.BlockHeight ctx) (ValAddress_String v) Ballot.VOTE_RESULT_SUCCESS
          (key_poll ctx pr pk kid w) with
  | None => is_ok out = false ∧ w' = w
  | Some p =>
      out = Ok tt ∧ polls (uv w') !! GetTssBallotKey (ProcId pr) pk kid = Some p ∧
      if decide (phase p = Ballot.BALLOT_STATUS_PENDING)
      then tss w' = tss w ∧ UniversalValidatorSet (uv w') = UniversalValidatorSet (uv w)
      else tss w' = new_key_state ctx pr pk kid (tss w) ∧
           UniversalValidatorSet (uv w') = after_rotation ctx pr (UniversalValidatorSet (uv w))
  end.
Proof.
  intros Hinv Hb Hv Hcur Hnd Hopen. rewrite (VoteTssKeyProcess_open ctx v pk kid w pr Hcur Hopen). mrun.
  pose proof (key_vote_cast ctx v pk kid pr w Hb Hnd) as (Hcast & Htss & Hval).
  destruct (key_vote ctx v pk kid pr w) as [out w1]. cbn [fst snd] in Hcast, Htss, Hval.
  destruct (cast _ _ _ _) as [p|]; cycle 1.
  { destruct Hcast as [m ->]. by mrun. }
  destruct Hcast as [(b & new & ->) Hid]. mrun.
  case_decide as Hph; [rewrite bool_decide_eq_false_2 by naive_solver; by mrun|].
  rewrite bool_decide_eq_true_2 by done. destruct Hinv as (_ & _ & (_ & Hc) & _).
  destruct (finalize_key_total ctx pr pk kid w1 (World.BlockHeight ctx)) as (w2 & -> & Ht2 & Hb2 & Hv2).
  - unfold validators_inv. by rewrite Hval.
  - rewrite Htss. by apply Hc.
  - mrun. rewrite <- Htss, <- Hval. split_and!; try done. unfold polls. by rewrite Hb2.
Qed.

(** C21. A key vote, on every branch.  It is accepted exactly when the voted
    process is the running one, has not expired, the key id is new and the poll
    on that key accepts the vote; otherwise it fails and the whole store is
    unchanged.  An accepted vote that does not decide the poll changes only the
    ballot.  The deciding vote always runs to its end: it installs the key,
    closes the process, completes its event, and promotes or retires validators
    by their membership in the process. *)
Theorem VoteTssKeyProcess_outcome ctx v pk kid pid w pr :
  tss_inv (tss w) → ballots_inv (uv w) → validators_inv (World.BlockHeight ctx) (uv w) →
  CurrentTssProcess (tss w) = Some pr → NoDup (Participants pr) →
  let '(out, w') := VoteTssKeyProcess ctx v pk kid pid w in
  match accepted_key_vote ctx pr v pk kid pid w with
  | None => is_ok out = false ∧ w' = w
  | Some p =>
      out = Ok tt ∧ polls (uv w') !! GetTssBallotKey pid pk kid = Some p ∧
      if decide (phase p = Ballot.BALLOT_STATUS_PENDING)
      then tss w' = tss w ∧ UniversalValidatorSet (uv w') = UniversalValidatorSet (uv w)
      else tss w' = new_key_state ctx pr pk kid (tss w) ∧
           UniversalValidatorSet (uv w') = after_rotation ctx pr (UniversalValidatorSet (uv w))
  end.
Proof.
  intros Hinv Hb Hv Hcur Hnd. unfold accepted_key_vote. case_decide as Ho.
  - pose proof Ho as [<- _]. by apply key_vote_outcome_open.
  - destruct (VoteTssKeyProcess_closed ctx v pk kid pid w pr Hcur Ho).
    by destruct (VoteTssKeyProcess ctx v pk kid pid w).
Qed.

(** *** Unanimity *)

Lemma poll_sides s id p :
  ballots_inv s → polls s !! id = Some p →
  ayes p ⊆ electorate p ∧ noes p ⊆ electorate p ∧ ayes p ## noes p.
Proof.
  intros Hinv. unfold polls. rewrite lookup_fmap, fmap_Some. intros (b & Hb & ->).
  destruct (inv_ballot _ Hinv _ _ Hb) as (_ & Hwf & Hnd & _). cbn.
  assert (∀ P, voters_with P b ⊆ list_to_set (Ballot.EligibleVoters b)) as Hsub.
  { intros P x (v & Hv & _)%elem_of_voters_with; try done. rewrite elem_of_list_to_set.
    apply dec_stable. intros Hn%Ballot.GetVoterIndex_None. unfold Ballot.vote_of in Hv. by rewrite Hn in Hv. }
  split_and!; [apply Hsub..|]. intros x Hy Hn. apply elem_of_voters_with in Hy as (y & Hy & Hyv), Hn as (n & Hn & Hnv); try done.
  apply bool_decide_eq_true in Hyv, Hnv. congruence.
Qed.

(** A poll that needs everyone is decided by a yes vote only when everyone has
    voted yes. *)
Lemma decided_by_all h v p p' :
  ayes p ⊆ electorate p → noes p ⊆ electorate p → ayes p ## noes p →
  needed p = Z.of_nat (size (electorate p)) →
  cast h v Ballot.VOTE_RESULT_SUCCESS p = Some p' → phase p' ≠ Ballot.BALLOT_STATUS_PENDING →
  phase p' = Ballot.BALLOT_STATUS_PASSED ∧ ayes p' = electorate p.
Proof.
  intros Ha Hn Hd Hneed. unfold cast. case_decide as Hc; [|done]. destruct Hc as (Hph & _ & Hv).
  intros [= <-]. unfold decide_poll. cbn.
  assert ({[ v ]} ∪ ayes p ⊆ electorate p) as Hsub by set_solver.
  case_decide as Hy; cbn.
  - intros _. split; [done|]. apply (anti_symm (⊆)); [done|]. intros x Hx.
    apply dec_stable. intros Hx'. assert ({[ v ]} ∪ ayes p ⊂ electorate p) as Hs by set_solver.
    apply subset_size in Hs. lia.
  - case_decide as Hno; cbn; [|done]. exfalso.
    assert (noes p ⊂ electorate p) as Hs by set_solver. apply subset_size in Hs. lia.
Qed.

Lemma new_key_state_key ctx pr pk kid s :
  CurrentTssKey (new_key_state ctx pr pk kid s) = Some (final_key ctx pr pk kid).
Proof.
  unfold new_key_state, finalized_state, add_event. cbn.
  set (s0 := update_event _ _ _ _).
  assert (CurrentTssKey s0 = Some (final_key ctx pr pk kid)) as <-.
  { subst s0. unfold update_event. by destruct (List.find _ _) as [[]|]. }
  unfold complete_finalized. generalize (List.filter active_finalized (walk (TssEvents s0))).
  intros l. generalize s0. induction l as [|it l IH]; intros s1; [done|]. cbn [foldl]. by rewrite IH.
Qed.

(** A TSS key is installed only by unanimity: if a key vote changes the
    current key, the ballot on that key has passed and every participant of the
    process voted for it.  The ballot, if it already exists, is the one the
    process opened: all participants entitled, all votes needed. *)
Theorem new_key_is_unanimous ctx v pk kid pid w w' u pr :
  tss_inv (tss w) → ballots_inv (uv w) → validators_inv (World.BlockHeight ctx) (uv w) →
  CurrentTssProcess (tss w) = Some pr → NoDup (Participants pr) →
  (∀ p, polls (uv w) !! GetTssBallotKey pid pk kid = Some p →
     electorate p = list_to_set (Participants pr) ∧ needed p = Z.of_nat (length (Participants pr))) →
  VoteTssKeyProcess ctx v pk kid pid w = (Ok u, w') →
  CurrentTssKey (tss w') ≠ CurrentTssKey (tss w) →
  CurrentTssKey (tss w') = Some (final_key ctx pr pk kid) ∧
  ∃ p, polls (uv w') !! GetTssBallotKey pid pk kid = Some p ∧
       phase p = Ballot.BALLOT_STATUS_PASSED ∧ ayes p = list_to_set (Participants pr).
Proof.
  intros Hinv Hb Hv Hcur Hnd Hels Hrun Hne.
  destruct (decide (key_vote_open ctx pr kid pid w)) as [Ho|Ho]; cycle 1.
  { destruct (VoteTssKeyProcess_closed ctx v pk kid pid w pr Hcur Ho) as [Hn _]. by rewrite Hrun in Hn. }
  pose proof Ho as [<- _].
  pose proof (key_vote_outcome_open ctx v pk kid w pr Hinv Hb Hv Hcur Hnd Ho) as Hout. rewrite Hrun in Hout.
  destruct (cast _ _ _ _) as [p|] eqn:Hc; [|by destruct Hout]. destruct Hout as (_ & Hp & Hrest).
  case_decide as Hph; [destruct Hrest; congruence|]. destruct Hrest as [Ht _].
  split; [by rewrite Ht, new_key_state_key|]. exists p. split; [done|].
  assert (Z.of_nat (size (list_to_set (C:=gset string) (Participants pr))) = Z.of_nat (length (Participants pr)))
    as Hsz by (by rewrite size_list_to_set).
  unfold key_poll in Hc. destruct (polls (uv w) !! _) as [p0|] eqn:Hp0; cbn [default] in Hc.
  - destruct (Hels p0 eq_refl) as [He Hn]. destruct (poll_sides _ _ _ Hb Hp0) as (? & ? & ?).
    rewrite <- He. eapply decided_by_all; try done. by rewrite He, Hsz.
  - by eapply decided_by_all in Hc.
Qed.
End votes.
