(* ===== verification/TssOps.v ===== *)
(** * x/utss: every operation keeps the module invariant *)
From S2P Require Import Prelude GoStrings UvTypes TssTypes UxTypes RegTypes World Canonical.
From S2P Require Import UvValidator UvBallot Registry Utss TssInv TssVotes.
Import Tss.

Section operations.
Context {E : Type} `{Bech32, ChainCodecs, SK : StakingKeeper, BH : BallotHooks E, BHL : !BallotHooksLaws E,
  Sha256, SequenceStart, UXK : UExecutorKeeper E, UXL : !UExecutorKeeperLaws E}.
Implicit Types (ctx : Ctx) (w : World E) (t : TssState).

Lemma VoteTssKeyProcess_cases ctx v pk kid pid w :
  tss_inv (tss w) →
  let t' := tss (VoteTssKeyProcess ctx v pk kid pid w).2 in
  t' = tss w ∨
  ∃ pr, CurrentTssProcess (tss w) = Some pr ∧ key_vote_open ctx pr kid pid w ∧
        t' = new_key_state ctx pr pk kid (tss w).
Proof.
  intros Hinv. destruct (CurrentTssProcess (tss w)) as [pr|] eqn:Hcur; cycle 1.
  { unfold VoteTssKeyProcess. mrun. rewrite Hcur. mrun. by left. }
  destruct (decide (key_vote_open ctx pr kid pid w)) as [Ho|Ho]; cycle 1.
  { left. by rewrite (proj2 (VoteTssKeyProcess_closed ctx v pk kid pid w pr Hcur Ho)). }
  pose proof Ho as [<- _]. rewrite (VoteTssKeyProcess_open ctx v pk kid w pr Hcur Ho). mrun.
  pose proof (VoteOnBallot_tss ctx (GetTssBallotKey (ProcId pr) pk kid)
    Ballot.BALLOT_OBSERVATION_TYPE_TSS_KEY (ValAddress_String v) Ballot.VOTE_RESULT_SUCCESS
    (Participants pr) (Z.of_nat (length (Participants pr)))
    (i64 (ExpiryHeight pr - World.BlockHeight ctx)) (tss w) w eq_refl) as Ht.
  change (VoteOnBallot _ _ _ _ _ _ _ _ w) with (key_vote ctx v pk kid pr w) in Ht.
  destruct (key_vote ctx v pk kid pr w) as [[[[b fin] new]|e|e] w1]; mrun; [|by left..]. cbn [snd] in Ht.
  destruct fin; mrun; [|by left].
  destruct (finalize_key_run ctx pr pk kid w1) as (w2 & -> & _ & Ht2).
  { rewrite Ht. by apply Hinv. }
  destruct (rotate ctx pr _).1 as [[]|e|e]; mrun; [|by left..]. rewrite Ht2, Ht by done.
  right. by exists pr.
Qed.

Lemma VoteTssKeyProcess_inv ctx v pk kid pid w :
  tss_inv (tss w) → tss_inv (tss (VoteTssKeyProcess ctx v pk kid pid w).2).
Proof.
  intros Hinv. destruct (VoteTssKeyProcess_cases ctx v pk kid pid w Hinv) as [->|(pr & Hcur & _ & ->)]; [done|].
  by apply finalized_state_inv.
Qed.

(** *** Fund migrations *)

(** The scan of the pending migrations finds none on the chain. *)
Lemma no_pending_on_spec chain l w :
  match no_pending_on chain l w with
  | (Ok _, w') => w' = w ∧ ∀ i, i ∈ l → ∃ m, FundMigrations (tss w) !! i = Some m ∧ MigChain m ≠ chain
  | (_, w') => w' = w
  end.
Proof.
  induction l as [|i l IH]; cbn; mrun; [by split; [|set_solver]|].
  destruct (FundMigrations (tss w) !! i) as [m|] eqn:Hm; mrun; [|done].
  case_bool_decide as Hc; mrun; [done|]. destruct (no_pending_on chain l w) as [[]]; [|done..].
  destruct IH as [-> IH]. split; [done|]. intros j [->|Hj]%elem_of_cons; eauto.
Qed.

Definition add_migration (m : FundMigration) t : TssState :=
  t <| NextMigrationId := Some (peek (NextMigrationId t) + 1)%N |>
    <| FundMigrations ::= insert (MigId m) m |> <| PendingMigrations ::= insert (MigId m) (MigId m) |>.

Lemma add_migration_inv m t :
  tss_inv t → MigId m = peek (NextMigrationId t) → MigStatus m = FUND_MIGRATION_STATUS_PENDING →
  (∀ i m', FundMigrations t !! i = Some m' → MigStatus m' = FUND_MIGRATION_STATUS_PENDING →
     MigChain m' ≠ MigChain m) →
  tss_inv (add_migration m t).
Proof.
  intros (He & Hp & Hpr & Hk & (Hi & Hpend & Hu)) Hid Hst Hno. split_and!; try done.
  assert (FundMigrations t !! MigId m = None) as Hfresh.
  { destruct (FundMigrations t !! MigId m) as [m'|] eqn:Hl; [|done].
    apply Hi in Hl as [_ Hl]. rewrite Hid in Hl. lia. }
  split_and!; cbn.
  - intros i m'. rewrite lookup_insert_Some. intros [[<- <-]|[_ Hl]]; [split; [done|lia]|].
    destruct (Hi _ _ Hl) as [? ?]. split; [done|lia].
  - intros i j. rewrite lookup_insert_Some, (Hpend i j). split.
    + intros [[<- <-]|(Hne & -> & m' & Hm' & Hs)]; (split; [done|]).
      * exists m. by rewrite lookup_insert_eq.
      * exists m'. by rewrite lookup_insert_ne.
    + intros (-> & m' & Hm' & Hs). rewrite lookup_insert_Some in Hm'.
      destruct Hm' as [[<- <-]|[Hne Hm']]; [by left|right]. split; [done|]. eauto.
  - intros i j m1 m2. rewrite !lookup_insert_Some. intros [[<- <-]|[_ H1']] [[<- <-]|[_ H2']] Hs1 Hs2 Hc; [done| | |].
    + by destruct (Hno _ _ H2' Hs2).
    + by destruct (Hno _ _ H1' Hs1).
    + by eapply Hu.
Qed.

Definition end_migration (i : N) (m : FundMigration) t : TssState :=
  t <| FundMigrations ::= insert i m |> <| PendingMigrations ::= delete i |>.
Lemma end_migration_inv i m0 m t :
  tss_inv t → FundMigrations t !! i = Some m0 → MigId m = MigId m0 →
  MigStatus m ≠ FUND_MIGRATION_STATUS_PENDING → tss_inv (end_migration i m t).
Proof.
  intros (He & Hp & Hpr & Hk & (Hi & Hpend & Hu)) Hm0 Hid Hst. split_and!; try done. split_and!; cbn.
  - intros j m'. rewrite lookup_insert_Some. intros [[<- <-]|[_ Hl]]; [|by apply Hi].
    rewrite Hid. by apply Hi.
  - intros j k. rewrite lookup_delete_Some, (Hpend j k). split.
    + intros (Hne & -> & m' & Hm' & Hs). split; [done|]. exists m'. by rewrite lookup_insert_ne.
    + intros (-> & m' & Hm' & Hs). rewrite lookup_insert_Some in Hm'.
      destruct Hm' as [[<- <-]|[Hne Hm']]; [done|]. split; [done|]. split; [done|]. eauto.
  - intros j k m1 m2. rewrite !lookup_insert_Some. intros [[<- <-]|[_ H1']] [[<- <-]|[_ H2']] Hs1 Hs2 Hc; try done.
    by eapply Hu.
Qed.

Lemma IsChainOutboundEnabled_read c w : (IsChainOutboundEnabled (E:=E) c w).2 = w.
Proof.
  symmetry. revert w. assert (∀ w0, keeps (eq w0) (IsChainOutboundEnabled (E:=E) c)) as Hk.
  { intros w0. unfold IsChainOutboundEnabled. keep. }
  intros w. by apply Hk.
Qed.

(** What starting a migration requires and records, on every branch. *)
Definition pending_on (chain : string) t : Prop :=
  ∃ i m, FundMigrations t !! i = Some m ∧ MigStatus m = FUND_MIGRATION_STATUS_PENDING ∧ MigChain m = chain.

Lemma InitiateFundMigration_cases ctx old chain w :
  tss_inv (tss w) →
  let '(out, w') := InitiateFundMigration ctx old chain w in
  match out with
  | Ok i =>
      ∃ ok ck m, TssKeyHistory (tss w) !! old = Some ok ∧ CurrentTssKey (tss w) = Some ck ∧
        old ≠ KeyId ck ∧ (IsChainOutboundEnabled chain w).1 = Ok false ∧ ¬ pending_on chain (tss w) ∧
        MigId m = i ∧ i = peek (NextMigrationId (tss w)) ∧ MigStatus m = FUND_MIGRATION_STATUS_PENDING ∧
        MigChain m = chain ∧ OldTssPubkey m = TssPubkey ok ∧ CurrentTssPubkey m = TssPubkey ck ∧
        0 < MigGasLimit m < 2 ^ 64 ∧ tss w' = add_migration m (tss w)
  | _ => tss w' = tss w
  end.
Proof.
  intros (_ & _ & _ & _ & (_ & Hpend & _)). unfold InitiateFundMigration, next_migration_id. mrun.
  destruct (TssKeyHistory (tss w) !! old) as [ok|]; mrun; [|done].
  destruct (CurrentTssKey (tss w)) as [ck|]; mrun; [|done].
  case_bool_decide as Hold; cbn [negb]; mrun; [done|].
  pose proof (IsChainOutboundEnabled_read chain w) as Hrd.
  destruct (IsChainOutboundEnabled chain w) as [[[]|e|e] w1]; cbn [fst snd] in Hrd |- *; subst w1; mrun; [done| |done..].
  cbn [negb]. mrun. pose proof (pending_outbounds_tss chain w) as H1'.
  destruct (HasPendingOutboundsForChain chain w) as [[[]|e|e] w1]; cbn [snd] in H1'; mrun; [done| |done..].
  cbn [negb]. mrun. pose proof (no_pending_on_spec chain (walk (PendingMigrations (tss w1))).*1 w1) as Hno.
  destruct (no_pending_on _ _ w1) as [[[]|e|e] w1']; mrun; [|by subst w1'..]. destruct Hno as [-> Hno].
  pose proof (gas_price_tss ctx chain w1) as H2'.
  destruct (GetGasPriceByChain ctx chain w1) as [[gp|e|e] w2]; cbn [snd] in H2'; mrun; [|congruence..].
  pose proof (migration_gas_limit_tss ctx chain w2) as H3'.
  destruct (GetTssFundMigrationGasLimitByChain ctx chain w2) as [[gl|e|e] w3]; cbn [snd] in H3'; mrun; [|congruence..].
  destruct (gl ≫= _) as [g|] eqn:Hg; mrun; [|congruence].
  pose proof (l1_gas_fee_tss ctx chain w3) as H4'.
  destruct (GetL1GasFeeByChain ctx chain w3) as [[lf|e|e] w4]; cbn [snd] in H4'; mrun; [|congruence..].
  assert (tss w4 = tss w) as Ht by congruence. rewrite !Ht.
  exists ok, ck, {| MigId := peek (NextMigrationId (tss w)); OldKeyId := old; OldTssPubkey := TssPubkey ok;
       CurrentKeyId := KeyId ck; CurrentTssPubkey := TssPubkey ck; MigChain := chain;
       MigStatus := FUND_MIGRATION_STATUS_PENDING; InitiatedBlock := World.BlockHeight ctx;
       CompletedBlock := 0; MigTxHash := ""; MigGasPrice := fmt_d gp; MigGasLimit := g;
       MigL1GasFee := fmt_d lf |}.
  assert (0 < g < 2 ^ 64) as Hgl.
  { destruct gl as [g'|]; cbn [mbind option_bind] in Hg; [|done]. case_decide; by simplify_eq. }
  split_and!; try done; try apply Hgl; cbn [tss].
  - intros (i & m & Hm & Hs & Hc). destruct (Hno i) as (m' & Hm' & Hne).
    { rewrite H1'. apply list_elem_of_fmap. exists (i, i). split; [done|]. apply elem_of_walk, Hpend. eauto. }
    rewrite H1' in Hm'. congruence.
  - unfold add_migration. cbn. by rewrite Ht.
Qed.

(** The record a decided migration ends with. *)
Definition ended ctx (m : FundMigration) (txHash : string) (success : bool) : FundMigration :=
  m <| MigStatus := if success then FUND_MIGRATION_STATUS_COMPLETED else FUND_MIGRATION_STATUS_FAILED |>
    <| CompletedBlock := World.BlockHeight ctx |> <| MigTxHash := txHash |>.

Lemma core_addresses_tss vs t : keeps (λ w : World E, tss w = t) (core_addresses vs).
Proof. induction vs; cbn; unfold core_address; keep. Qed.
Lemma VoteOnFundMigrationBallot_tss ctx v i tx ok t :
  keeps (λ w, tss w = t) (VoteOnFundMigrationBallot ctx v i tx ok).
Proof.
  unfold VoteOnFundMigrationBallot, GetEligibleVoters. keep;
    [apply core_addresses_tss|apply VoteOnBallot_tss].
Qed.

Lemma VoteFundMigration_cases ctx v i tx ok w :
  let '(out, w') := VoteFundMigration ctx v i tx ok w in
  match out with
  | Ok _ =>
      ∃ m tx', FundMigrations (tss w) !! i = Some m ∧ MigStatus m = FUND_MIGRATION_STATUS_PENDING ∧
        CanonicalizeTxHashByNamespace (MigChain m) tx = Ok tx' ∧
        (tss w' = tss w ∨ tss w' = end_migration i (ended ctx m tx' ok) (tss w))
  | _ => w' = w
  end.
Proof.
  unfold VoteFundMigration. mrun. destruct (FundMigrations (tss w) !! i) as [m|] eqn:Hm; mrun; [|done].
  case_bool_decide as Hs; mrun; [|done].
  destruct (CanonicalizeTxHashByNamespace (MigChain m) tx) as [tx'|e|e] eqn:Htx; mrun; [|done..].
  pose proof (VoteOnFundMigrationBallot_tss ctx v i tx' ok (tss w) w eq_refl) as Ht. cbn beta in Ht.
  destruct (VoteOnFundMigrationBallot ctx v i tx' ok w) as [[[fin new]|e|e] w1]; mrun; [|done..].
  cbn [snd] in Ht. destruct fin; mrun; exists m, tx'; split_and!; try done; [right|by left].
  cbn. by rewrite Ht.
Qed.

Lemma VoteFundMigration_inv ctx v i tx ok w :
  tss_inv (tss w) → tss_inv (tss (VoteFundMigration ctx v i tx ok w).2).
Proof.
  intros Hinv. pose proof (VoteFundMigration_cases ctx v i tx ok w) as Hc.
  destruct (VoteFundMigration ctx v i tx ok w) as [[u|e|e] w']; cbn [snd]; [|by subst..].
  destruct Hc as (m & tx' & Hm & _ & _ & [-> | ->]); [done|].
  apply (end_migration_inv i m); try done. by destruct ok.
Qed.

Lemma InitiateFundMigration_inv ctx old chain w :
  tss_inv (tss w) → tss_inv (tss (InitiateFundMigration ctx old chain w).2).
Proof.
  intros Hinv. pose proof (InitiateFundMigration_cases ctx old chain w Hinv) as Hc.
  destruct (InitiateFundMigration ctx old chain w) as [[i|e|e] w']; cbn [snd]; [|by rewrite Hc..].
  destruct Hc as (ok & ck & m & _ & _ & _ & _ & Hno & Hi & -> & Hs & Hch & _ & _ & _ & ->).
  apply add_migration_inv; try done. intros j m' Hj Hs' Hc'. apply Hno. exists j, m'. by rewrite <- Hch.
Qed.

(** The upgrade that fills in the L1 fee. *)
Lemma L1GasFee_step_inv i m t :
  tss_inv t → FundMigrations t !! i = Some m →
  tss_inv (t <| FundMigrations ::= insert i (m <| MigL1GasFee := "0" |>) |>).
Proof.
  intros (He & Hp & Hpr & Hk & (Hi & Hpend & Hu)) Hm. split_and!; try done.
  assert (∀ j m', FundMigrations (t <| FundMigrations ::= insert i (m <| MigL1GasFee := "0" |>) |>) !! j = Some m' →
    ∃ m0, FundMigrations t !! j = Some m0 ∧ MigId m' = MigId m0 ∧ MigStatus m' = MigStatus m0 ∧
          MigChain m' = MigChain m0) as Hl.
  { intros j m'. cbn. rewrite lookup_insert_Some. intros [[<- <-]|[_ ?]]; eauto. }
  split_and!.
  - intros j m' (m0 & H0' & -> & _)%Hl. by apply Hi.
  - intros j k. change (PendingMigrations (t <| FundMigrations ::= insert i (m <| MigL1GasFee := "0" |>) |>))
      with (PendingMigrations t). rewrite (Hpend j k). split; intros (-> & m' & Hm' & Hs); (split; [done|]).
    + cbn. destruct (decide (i = j)) as [<-|Hne].
      * rewrite lookup_insert_eq. eexists. split; [done|]. cbn. congruence.
      * rewrite lookup_insert_ne by done. eauto.
    + destruct (Hl _ _ Hm') as (m0 & H0' & _ & Hs0 & _). exists m0. split; [done|congruence].
  - intros j k m1 m2 (m1' & ? & _ & Hs1 & Hc1)%Hl (m2' & ? & _ & Hs2 & Hc2)%Hl ???.
    eapply Hu; eauto; congruence.
Qed.
Lemma MigrateFundMigrationsL1GasFee_inv w :
  tss_inv (tss w) → tss_inv (tss (MigrateFundMigrationsL1GasFee (E:=E) w).2).
Proof.
  intros Hinv. unfold MigrateFundMigrationsL1GasFee. mrun.
  assert (∀ i m, (i, m) ∈ walk (FundMigrations (tss w)) → FundMigrations (tss w) !! i = Some m) as Hl
    by (by intros i m ?%elem_of_walk).
  pose proof (NoDup_walk_fst (FundMigrations (tss w))) as Hnd.
  generalize dependent (walk (FundMigrations (tss w))). intros l. revert w Hinv.
  induction l as [|[i m] l IH]; intros w Hinv Hl Hnd; mrun; [done|].
  apply NoDup_cons in Hnd as [Hni Hnd]. case_decide; mrun.
  - apply IH; [done| |done]. intros. apply Hl. by right.
  - apply IH; [| |done].
    + apply L1GasFee_step_inv; [done|]. apply Hl. by left.
    + intros j m' Hj. cbn. rewrite lookup_insert_ne; [apply Hl; by right|]. intros <-.
      apply Hni, list_elem_of_fmap. by exists (i, m').
Qed.

(** *** What never changes once recorded *)

(** A recorded key stays; a migration keeps its identity, and once decided its
    outcome. *)
Definition migration_grows (m m' : FundMigration) : Prop :=
  MigId m' = MigId m ∧ MigChain m' = MigChain m ∧ OldKeyId m' = OldKeyId m ∧
  (MigStatus m ≠ FUND_MIGRATION_STATUS_PENDING →
   MigStatus m' = MigStatus m ∧ MigTxHash m' = MigTxHash m ∧ CompletedBlock m' = CompletedBlock m).
Definition tss_grows t t' : Prop :=
  TssKeyHistory t ⊆ TssKeyHistory t' ∧
  ∀ i m, FundMigrations t !! i = Some m → ∃ m', FundMigrations t' !! i = Some m' ∧ migration_grows m m'.

#[global] Instance migration_grows_preorder : PreOrder migration_grows.
Proof.
  split; [by intros m|]. intros a b c (? & ? & ? & Hab) (? & ? & ? & Hbc). split_and!; try congruence.
  intros Ha. destruct (Hab Ha) as (Hs & ? & ?). rewrite <- Hs in Ha. destruct (Hbc Ha) as (? & ? & ?).
  split_and!; congruence.
Qed.
#[global] Instance tss_grows_preorder : PreOrder tss_grows.
Proof.
  split.
  - intros t. split; [done|]. intros i m Hm. by exists m.
  - intros a b c [Hab Hmab] [Hbc Hmbc]. split; [by etrans|]. intros i m Hm.
    destruct (Hmab i m Hm) as (m1 & Hm1 & ?). destruct (Hmbc i m1 Hm1) as (m2 & Hm2 & ?).
    exists m2. split; [done|]. by etrans.
Qed.
Lemma tss_grows_eq t t' :
  TssKeyHistory t' = TssKeyHistory t → FundMigrations t' = FundMigrations t → tss_grows t t'.
Proof. intros Hk Hm. split; [by rewrite Hk|]. intros i m ?. exists m. by rewrite Hm. Qed.

Lemma new_key_state_frame ctx pr pk kid t :
  TssKeyHistory (new_key_state ctx pr pk kid t) = <[ kid := final_key ctx pr pk kid ]> (TssKeyHistory t) ∧
  FundMigrations (new_key_state ctx pr pk kid t) = FundMigrations t.
Proof.
  unfold new_key_state, finalized_state, add_event. cbn.
  set (s0 := update_event _ _ _ _).
  assert (TssKeyHistory s0 = <[ kid := final_key ctx pr pk kid ]> (TssKeyHistory t) ∧
          FundMigrations s0 = FundMigrations t) as [<- <-].
  { subst s0. unfold update_event. by destruct (List.find _ _) as [[]|]. }
  unfold complete_finalized. generalize (List.filter active_finalized (walk (TssEvents s0))).
  intros l. generalize s0. induction l as [|it l IH]; intros s1; [done|]. cbn [foldl].
  by destruct (IH (with_status it.1 it.2 TSS_EVENT_COMPLETED s1)) as [-> ->].
Qed.

Lemma VoteTssKeyProcess_grows ctx v pk kid pid w :
  tss_inv (tss w) → tss_grows (tss w) (tss (VoteTssKeyProcess ctx v pk kid pid w).2).
Proof.
  intros Hinv. destruct (VoteTssKeyProcess_cases ctx v pk kid pid w Hinv)
    as [->|(pr & Hcur & (_ & _ & _ & _ & Hk) & ->)]; [done|].
  destruct (new_key_state_frame ctx pr pk kid (tss w)) as [Hkh Hfm]. split.
  - rewrite Hkh. by apply insert_subseteq.
  - intros i m Hm. exists m. by rewrite Hfm.
Qed.

Lemma InitiateTssKeyProcess_grows ctx ty w :
  tss_grows (tss w) (tss (InitiateTssKeyProcess ctx ty w).2).
Proof.
  set (I := λ w', TssKeyHistory (tss w') = TssKeyHistory (tss w) ∧ FundMigrations (tss w') = FundMigrations (tss w)).
  assert (keeps I (InitiateTssKeyProcess (E:=E) ctx ty)) as Hk.
  { unfold InitiateTssKeyProcess, force_expire, updateTssEventStatusByProcessId, next_process_id, next_event_id.
    assert (keeps I (GetTssParticipants (E:=E) ty)) as Hp.
    { intros w' Hw'. by rewrite GetTssParticipants_read. }
    keep; try done; apply keeps_set_tss; by intros w' [? ?]. }
  destruct (Hk w) as [? ?]; [done|]. by apply tss_grows_eq.
Qed.
Lemma VoteFundMigration_grows ctx v i tx ok w :
  tss_grows (tss w) (tss (VoteFundMigration ctx v i tx ok w).2).
Proof.
  pose proof (VoteFundMigration_cases ctx v i tx ok w) as Hc.
  destruct (VoteFundMigration ctx v i tx ok w) as [[u|e|e] w']; cbn [snd]; [|by subst..].
  destruct Hc as (m & tx' & Hm & Hs & _ & [-> | ->]); [done|]. split; [done|].
  intros j m0 Hj. cbn. destruct (decide (i = j)) as [<-|Hne].
  - rewrite lookup_insert_eq. eexists. split; [done|]. rewrite Hm in Hj. by injection Hj as <-.
  - rewrite lookup_insert_ne by done. by exists m0.
Qed.
Lemma InitiateFundMigration_grows ctx old chain w :
  tss_inv (tss w) → tss_grows (tss w) (tss (InitiateFundMigration ctx old chain w).2).
Proof.
  intros Hinv. pose proof (InitiateFundMigration_cases ctx old chain w Hinv) as Hc.
  destruct (InitiateFundMigration ctx old chain w) as [[i|e|e] w']; cbn [snd]; [|by rewrite Hc..].
  destruct Hc as (ok & ck & m & _ & _ & _ & _ & Hno & Hi & Hp & Hs & Hch & _ & _ & _ & ->). split; [done|].
  intros j m0 Hj. cbn. rewrite lookup_insert_ne; [by exists m0|]. intros <-.
  destruct Hinv as (_ & _ & _ & _ & (Hid & _)). apply Hid in Hj as [_ Hj]. rewrite Hi, Hp in Hj. lia.
Qed.

Lemma handleEligible_keeps (I : TssState → Prop) ctx w :
  (∀ w' ty, I (tss w') → I (tss (InitiateTssKeyProcess ctx ty w').2)) → I (tss w) →
  I (tss (handleEligibleValidatorSetChange ctx w).2).
Proof.
  intros Hstep Hi.
  assert (keeps (λ w, I (tss w)) (handleEligibleValidatorSetChange ctx)) as Hk; [|by apply Hk].
  unfold handleEligibleValidatorSetChange, GetEligibleVoters. keep; intros w' Hw'; by apply Hstep.
Qed.

(** *** The module as a transition system *)

(** The operations that reach the module: its messages, its upgrade, and the
    validator hook; between them the rest of the chain runs. *)
Inductive tss_op :=
| OpInitiateKey (m : MsgInitiateTssKeyProcess)
| OpVoteKey (m : MsgVoteTssKeyProcess)
| OpInitiateMigration (m : MsgInitiateFundMigration)
| OpVoteMigration (m : MsgVoteFundMigration)
| OpUpdateParams (authority signer : string) (p : Params)
| OpValidatorSetChanged.

Definition exec_tss_op ctx (op : tss_op) w : World E :=
  match op with
  | OpInitiateKey m => (msg_InitiateTssKeyProcess ctx m w).2
  | OpVoteKey m => (msg_VoteTssKeyProcess ctx m w).2
  | OpInitiateMigration m => (msg_InitiateFundMigration ctx m w).2
  | OpVoteMigration m => (msg_VoteFundMigration ctx m w).2
  | OpUpdateParams a s p => (tss_UpdateParams a s p w).2
  | OpValidatorSetChanged => (handleEligibleValidatorSetChange ctx w).2
  end.

Inductive tss_trace : World E → World E → Prop :=
| trace_start w : tss_trace w w
| trace_op w w1 ctx op : tss_trace w w1 → tss_trace w (exec_tss_op ctx op w1)
| trace_chain w w1 w2 : tss_trace w w1 → tss w2 = tss w1 → tss_trace w w2.

Lemma bind_read {A B} (m : M (World E) A) (f : A → M (World E) B) (P : World E → Prop) w :
  (∀ w0, keeps (eq w0) m) → P w → (∀ a, P (f a w).2) → P ((m ≫= f) w).2.
Proof.
  intros Hm Hw Hf. pose proof (Hm w w eq_refl) as Hr. rewrite bind_unfold.
  destruct (m w) as [[a|e|e] w']; cbn [snd] in Hr; by subst w'.
Qed.
Lemma tss_only_admin_read signer w0 : keeps (eq w0) (tss_only_admin (E:=E) signer).
Proof. unfold tss_only_admin. keep. Qed.
Lemma voting_validator_read signer w0 : keeps (eq w0) (voting_validator (E:=E) signer).
Proof.
  unfold voting_validator, IsBondedUniversalValidator, IsTombstonedUniversalValidator,
    registered_core_validator, HasUniversalValidatorInSet. keep.
Qed.

(** One operation keeps the invariant and everything recorded. *)
Lemma exec_tss_op_ok ctx op w :
  tss_inv (tss w) → tss_inv (tss (exec_tss_op ctx op w)) ∧ tss_grows (tss w) (tss (exec_tss_op ctx op w)).
Proof.
  intros Hinv. set (P := λ w', tss_inv (tss w') ∧ tss_grows (tss w) (tss w')).
  assert (P w) as Hw by done. change (P (exec_tss_op ctx op w)). destruct op as [m|m|m|m|a s p|]; cbn [exec_tss_op].
  - apply (bind_read _ _ P); [apply tss_only_admin_read|done|intros _].
    split; [by apply InitiateTssKeyProcess_inv|apply InitiateTssKeyProcess_grows].
  - apply (bind_read _ _ P); [apply voting_validator_read|done|intros v].
    split; [by apply VoteTssKeyProcess_inv|by apply VoteTssKeyProcess_grows].
  - apply (bind_read _ _ P); [apply tss_only_admin_read|done|intros _].
    split; [by apply InitiateFundMigration_inv|by apply InitiateFundMigration_grows].
  - apply (bind_read _ _ P); [apply voting_validator_read|done|intros v].
    split; [by apply VoteFundMigration_inv|apply VoteFundMigration_grows].
  - unfold tss_UpdateParams. mrun. case_bool_decide; mrun; [|done]. split; [done|]. by apply tss_grows_eq.
  - apply (handleEligible_keeps (λ t, tss_inv t ∧ tss_grows (tss w) t)); [|done].
    intros w' ty [Hi Hg]. split; [by apply InitiateTssKeyProcess_inv|].
    etrans; [exact Hg|apply InitiateTssKeyProcess_grows].
Qed.

(** C22. The x/utss store stays consistent along every run of the chain: ids are
    fresh, the pending indexes list exactly the active process events and the
    pending migrations, at most one migration is pending per chain, the current
    process and key are on record.  No message ever replaces a recorded key or
    rewrites the outcome of a decided migration. *)
Theorem tss_consistent_and_append_only w w' :
  tss_trace w w' → tss_inv (tss w) → tss_inv (tss w') ∧ tss_grows (tss w) (tss w').
Proof.
  induction 1 as [w|w w1 ctx op _ IH|w w1 w2 _ IH Heq]; intros Hinv; [done| |].
  - destruct (IH Hinv) as [Hi Hg]. destruct (exec_tss_op_ok ctx op w1 Hi) as [? ?]. split; [done|by etrans].
  - rewrite Heq. by apply IH.
Qed.
End operations.
