(* ===== verification/TssGenesis.v ===== *)
(** * x/utss: genesis and the interfaces the module implements

    [keeper/genesis]: exporting the module and importing it again restores every
    collection, the derived pending indexes included.  The module's validator
    hooks and its view for x/uvalidator satisfy the contracts those keepers
    assume. *)
From S2P Require Import Prelude GoStrings UvTypes TssTypes UxTypes RegTypes World Canonical.
From S2P Require Import UvValidator UvBallot Registry Utss TssInv TssVotes TssOps.
Import Tss.

Section genesis.
Context {E : Type} `{Bech32, ChainCodecs, SK : StakingKeeper, BH : BallotHooks E, Sha256, SequenceStart,
  UXK : UExecutorKeeper E}.
Implicit Types (w : World E) (t : TssState).

Definition pending_entry (e : TssEvent) : bool :=
  bool_decide (EventType e = TSS_EVENT_PROCESS_INITIATED ∧ EvStatus e = TSS_EVENT_ACTIVE).
Definition pending_migration (kv : N * FundMigration) : bool :=
  bool_decide (MigStatus kv.2 = FUND_MIGRATION_STATUS_PENDING).

Lemma restore_events_run l w :
  for_each restore_event l w = (Ok tt, w <| tss ::= λ t,
    t <| TssEvents := foldl (λ m kv, <[ kv.1 := kv.2 ]> m) (TssEvents t) ((λ e, (EvId e, e)) <$> l) |>
      <| PendingTssEvents := foldl (λ m kv, <[ kv.1 := kv.2 ]> m) (PendingTssEvents t)
           ((λ e, (EvProcessId e, EvId e)) <$> List.filter pending_entry l) |> |>).
Proof.
  revert w. induction l as [|e l IH]; intros w; [by destruct w as [? [] ? ? ?]|]. unfold restore_event at 1.
  mrun. cbn [List.filter]. unfold pending_entry at 1. case_decide as Hd; mrun; rewrite IH.
  - by rewrite bool_decide_eq_true_2.
  - by rewrite bool_decide_eq_false_2.
Qed.
Lemma restore_migrations_run l w :
  for_each restore_migration l w = (Ok tt, w <| tss ::= λ t,
    t <| FundMigrations := foldl (λ m kv, <[ kv.1 := kv.2 ]> m) (FundMigrations t) l |>
      <| PendingMigrations := foldl (λ m kv, <[ kv.1 := kv.2 ]> m) (PendingMigrations t)
           ((λ kv, (kv.1, kv.1)) <$> List.filter pending_migration l) |> |>).
Proof.
  revert w. induction l as [|e l IH]; intros w; [by destruct w as [? [] ? ? ?]|]. unfold restore_migration at 1.
  mrun. cbn [List.filter]. unfold pending_migration at 1. case_decide as Hd; mrun; rewrite IH.
  - by rewrite bool_decide_eq_true_2.
  - by rewrite bool_decide_eq_false_2.
Qed.

(** Writing the exported entries into an empty store. *)
Lemma restore_walk {K V} `{Countable K, !KeyOrder K, !RelDecision (key_le (K:=K))} (m : gmap K V) :
  foldl (λ m kv, <[ kv.1 := kv.2 ]> m) ∅ (walk m) = m.
Proof. rewrite foldl_insert by apply NoDup_walk_fst. by rewrite list_to_map_walk, map_union_empty. Qed.

Lemma foldl_insert_map {K V} `{Countable K} (l : list (K * V)) (m : gmap K V) :
  NoDup l.*1 → (∀ k v, (k, v) ∈ l ↔ m !! k = Some v) → foldl (λ m kv, <[ kv.1 := kv.2 ]> m) ∅ l = m.
Proof.
  intros Hnd Hm. rewrite foldl_insert, map_union_empty by done. apply map_eq. intros k.
  apply option_eq. intros v. by rewrite <- elem_of_list_to_map, Hm.
Qed.

Lemma events_restored t :
  tss_inv t →
  foldl (λ m kv, <[ kv.1 := kv.2 ]> m) ∅ ((λ e, (EvId e, e)) <$> walk_values (TssEvents t)) = TssEvents t.
Proof.
  intros ((He & _) & _). unfold walk_values. rewrite <- list_fmap_compose.
  rewrite (list_fmap_ext _ (λ kv, kv) (walk (TssEvents t))).
  - rewrite list_fmap_id. apply restore_walk.
  - intros j [i e] Hj. apply list_elem_of_lookup_2, elem_of_walk, He in Hj as [Hid _].
    cbn. by rewrite Hid.
Qed.

Lemma NoDup_fmap_in {A B} (f : A → B) (l : list A) :
  (∀ x y, x ∈ l → y ∈ l → f x = f y → x = y) → NoDup l → NoDup (f <$> l).
Proof.
  intros Hinj Hnd. induction Hnd as [|x l Hx Hnd IH]; [constructor|]. cbn. constructor.
  - intros (y & Hy & Hin)%list_elem_of_fmap. apply Hx. rewrite (Hinj x y); [done|left|by right|done].
  - apply IH. intros a b Ha Hb. apply Hinj; by right.
Qed.

Lemma pending_restored t :
  tss_inv t →
  foldl (λ m kv, <[ kv.1 := kv.2 ]> m) ∅
    ((λ e, (EvProcessId e, EvId e)) <$> List.filter pending_entry (walk_values (TssEvents t))) = PendingTssEvents t.
Proof.
  intros ((He & _ & Heu) & Hp & _).
  assert (∀ e, e ∈ List.filter pending_entry (walk_values (TssEvents t)) ↔
            TssEvents t !! EvId e = Some e ∧ initiated e ∧ EvStatus e = TSS_EVENT_ACTIVE) as Hin.
  { intros e. rewrite list_elem_of_In, filter_In, <- list_elem_of_In, elem_of_walk_values.
    unfold pending_entry. rewrite bool_decide_eq_true. split.
    - intros [(i & Hi) ?]. destruct (He _ _ Hi) as [-> _]. done.
    - intros (Hi & ? & ?). split; [by eexists|done]. }
  apply foldl_insert_map.
  - rewrite <- list_fmap_compose. apply NoDup_fmap_in.
    + intros x y (Hx & Hix & _)%Hin (Hy & Hiy & _)%Hin Heq. pose proof (Heu _ _ _ _ Hx Hy Hix Hiy Heq). congruence.
    + apply NoDup_ListNoDup, List.NoDup_filter, NoDup_ListNoDup. unfold walk_values.
      apply NoDup_fmap_in; [|apply NoDup_walk]. intros [i a] [j b] Ha%elem_of_walk Hb%elem_of_walk Heq. cbn in Heq. subst.
      destruct (He _ _ Ha) as [<- _], (He _ _ Hb) as [<- _]. done.
  - intros p i. rewrite list_elem_of_fmap, (Hp p i). split.
    + intros (e & [= -> ->] & (Hi & ? & ?)%Hin). split; [done|]. by exists e.
    + intros [_ (e & Hi & ? & ? & <-)]. destruct (He _ _ Hi) as [Hid _]. exists e.
      split; [by rewrite Hid|]. apply Hin. by rewrite Hid.
Qed.

Lemma migrations_restored t :
  tss_inv t →
  foldl (λ m kv, <[ kv.1 := kv.2 ]> m) ∅
    ((λ kv, (kv.1, kv.1)) <$> List.filter pending_migration (walk (FundMigrations t))) = PendingMigrations t.
Proof.
  intros (_ & _ & _ & _ & (Hi & Hp & _)). apply foldl_insert_map.
  - rewrite <- list_fmap_compose. change (NoDup (List.filter pending_migration (walk (FundMigrations t))).*1).
    apply NoDup_filter_fst, NoDup_walk_fst.
  - intros i j. rewrite list_elem_of_fmap, (Hp i j). split.
    + intros ([k m] & [= -> ->] & Hin). apply list_elem_of_In, filter_In in Hin as [Hin Hs].
      apply list_elem_of_In, elem_of_walk in Hin. apply bool_decide_eq_true in Hs. eauto.
    + intros (-> & m & Hm & Hs). exists (i, m). split; [done|]. apply list_elem_of_In, filter_In.
      split; [by apply list_elem_of_In, elem_of_walk|]. by apply bool_decide_eq_true.
Qed.

(** A sequence survives the export when it has moved past zero, the value that
    the import takes for "not set", or starts there. *)
Definition sequence_exportable (s : option N) : Prop := (0 < peek s)%N ∨ DefaultSequenceStart = 0%N.
Lemma sequence_restored s :
  sequence_exportable s → peek (if decide (0 < peek s)%N then Some (peek s) else None) = peek s.
Proof. intros Hs. case_decide; [done|]. destruct Hs; [done|]. cbn. lia. Qed.

(** The same module state, up to an unset sequence. *)
Definition same_tss t t' : Prop :=
  TssParams t' = TssParams t ∧ CurrentTssProcess t' = CurrentTssProcess t ∧
  ProcessHistory t' = ProcessHistory t ∧ CurrentTssKey t' = CurrentTssKey t ∧
  TssKeyHistory t' = TssKeyHistory t ∧ TssEvents t' = TssEvents t ∧
  PendingTssEvents t' = PendingTssEvents t ∧ FundMigrations t' = FundMigrations t ∧
  PendingMigrations t' = PendingMigrations t ∧ peek (NextProcessId t') = peek (NextProcessId t) ∧
  peek (NextTssEventId t') = peek (NextTssEventId t) ∧ peek (NextMigrationId t') = peek (NextMigrationId t).

(** Conditional writes as one write. *)
Lemma option_write_run {A} (o : option A) (f : A → TssState → TssState) w :
  (match o with Some a => set_tss (f a) | None => mret tt end) w =
  (Ok tt, w <| tss ::= λ t, match o with Some a => f a t | None => t end |>).
Proof. destruct o; [done|]. by destruct w. Qed.
Lemma guarded_write_run (P : Prop) `{Decision P} (f : TssState → TssState) w :
  (if decide P then set_tss f else mret tt) w = (Ok tt, w <| tss ::= λ t, if decide P then f t else t |>).
Proof. case_decide; [done|]. by destruct w. Qed.
Lemma write_processes_run l w :
  for_each (λ kv, set_tss (λ s, s <| ProcessHistory ::= insert kv.1 kv.2 |>)) l w =
  (Ok tt, w <| tss ::= λ t, t <| ProcessHistory := foldl (λ m kv, <[ kv.1 := kv.2 ]> m) (ProcessHistory t) l |> |>).
Proof. revert w. induction l as [|kv l IH]; intros w; [by destruct w as [? [] ? ? ?]|]. mrun. by rewrite IH. Qed.
Lemma write_keys_run l w :
  for_each (λ kv, set_tss (λ s, s <| TssKeyHistory ::= insert kv.1 kv.2 |>)) l w =
  (Ok tt, w <| tss ::= λ t, t <| TssKeyHistory := foldl (λ m kv, <[ kv.1 := kv.2 ]> m) (TssKeyHistory t) l |> |>).
Proof. revert w. induction l as [|kv l IH]; intros w; [by destruct w as [? [] ? ? ?]|]. mrun. by rewrite IH. Qed.

(** The import as a function of the genesis file. *)
Definition imported (g : TssGenesis) : TssState :=
  {| TssParams := Some (TgParams g);
     NextProcessId := if decide (0 < TgNextProcessId g)%N then Some (TgNextProcessId g) else None;
     CurrentTssProcess := TgCurrentTssProcess g;
     ProcessHistory := foldl (λ m kv, <[ kv.1 := kv.2 ]> m) ∅ (TgProcessHistory g);
     CurrentTssKey := TgCurrentTssKey g;
     TssKeyHistory := foldl (λ m kv, <[ kv.1 := kv.2 ]> m) ∅ (TgTssKeyHistory g);
     TssEvents := foldl (λ m kv, <[ kv.1 := kv.2 ]> m) ∅ ((λ e, (EvId e, e)) <$> TgTssEvents g);
     NextTssEventId := if decide (0 < TgNextTssEventId g)%N then Some (TgNextTssEventId g) else None;
     PendingTssEvents := foldl (λ m kv, <[ kv.1 := kv.2 ]> m) ∅
       ((λ e, (EvProcessId e, EvId e)) <$> List.filter pending_entry (TgTssEvents g));
     FundMigrations := foldl (λ m kv, <[ kv.1 := kv.2 ]> m) ∅ (TgFundMigrations g);
     NextMigrationId := if decide (0 < TgNextMigrationId g)%N then Some (TgNextMigrationId g) else None;
     PendingMigrations := foldl (λ m kv, <[ kv.1 := kv.2 ]> m) ∅
       ((λ kv, (kv.1, kv.1)) <$> List.filter pending_migration (TgFundMigrations g)) |}.

Lemma tss_InitGenesis_run g w :
  tss w = empty_tss → TrimSpace (Admin (TgParams g)) ≠ "" →
  ∃ w', tss_InitGenesis g w = (Ok tt, w') ∧ tss w' = imported g.
Proof.
  intros Hw Hadm. destruct w as [u0 t0 x0 r0 e0]. cbn in Hw. subst t0. unfold tss_InitGenesis.
  rewrite bool_decide_eq_false_2 by done. cbn [negb]. mrun.
  repeat (first [rewrite option_write_run|rewrite guarded_write_run|rewrite write_processes_run
                |rewrite write_keys_run|rewrite restore_events_run|rewrite restore_migrations_run]; mrun).
  eexists. split; [done|].
  destruct g as [gp [gc|] gh [gk|] gkh n1 ge n2 gm n3]; unfold imported; cbn; repeat case_decide; done.
Qed.

(** Genesis round trip of x/utss: exporting a consistent store and importing
    it into an empty module restores it, including the two pending indexes,
    which the genesis file does not contain. *)
Theorem tss_genesis_roundtrip w w0 g w1 :
  tss_inv (tss w) → tss_ExportGenesis w = (Ok g, w1) → TrimSpace (Admin (TgParams g)) ≠ "" →
  sequence_exportable (NextProcessId (tss w)) → sequence_exportable (NextTssEventId (tss w)) →
  sequence_exportable (NextMigrationId (tss w)) →
  tss w0 = empty_tss →
  w1 = w ∧ ∃ w', tss_InitGenesis g w0 = (Ok tt, w') ∧ same_tss (tss w) (tss w').
Proof.
  intros Hinv Hex Hadm Hs1 Hs2 Hs3 Hw0.
  destruct (tss_InitGenesis_run g w0 Hw0 Hadm) as (w' & Hrun & Ht). revert Hex. unfold tss_ExportGenesis. mrun.
  destruct (TssParams (tss w)) as [p|] eqn:Hpar; mrun; [|done]. intros [= <- <-]. split; [done|].
  exists w'. split; [done|]. rewrite Ht. unfold same_tss, imported. cbn -[peek].
  rewrite !restore_walk, events_restored, pending_restored, migrations_restored by done.
  rewrite !sequence_restored by done. by rewrite Hpar.
Qed.
End genesis.

(** ** The interfaces the module implements *)
Section interfaces.
Context {E : Type} `{Bech32, ChainCodecs, SK : StakingKeeper, BH : BallotHooks E, Sha256, SequenceStart,
  UXK : UExecutorKeeper E}.

(** The hooks leave the validator set alone, and the queries change nothing. *)
Lemma InitiateTssKeyProcess_uv ctx ty u : keeps (λ w : World E, uv w = u) (InitiateTssKeyProcess ctx ty).
Proof.
  assert (keeps (λ w : World E, uv w = u) (GetTssParticipants ty)) as Hp.
  { intros w Hw. by rewrite GetTssParticipants_read. }
  unfold InitiateTssKeyProcess, force_expire, updateTssEventStatusByProcessId, next_process_id, next_event_id.
  keep; try done; by apply keeps_set_tss.
Qed.
#[global] Instance tss_hooks_laws : @UValidatorHooksLaws E tss_hooks.
Proof.
  split; intros; apply stable_keeps; intros u; cbn; [| |keep];
    unfold handleEligibleValidatorSetChange, GetEligibleVoters; keep; apply InitiateTssKeyProcess_uv.
Qed.
#[global] Instance tss_keeper_laws : @UtssKeeperLaws E tss_keeper.
Proof. by split. Qed.
End interfaces.
