(* ===== verification/UxKeys.v ===== *)
(** * x/uexecutor/types: keys and canonical inbounds

    [types/keys.go] derives the identity of a universal transaction and the id
    of a ballot from what a validator observed; [types/inbound.go] puts an
    observation in canonical form.  SHA-256 is a parameter. *)
From S2P Require Import Prelude GoStrings UvTypes TssTypes UxTypes RegTypes World Canonical.
From S2P Require Import UvValidator UvBallot Registry Utss.
From Stdlib Require Import Ascii.
Import Ux.

(** SHA-256 as the keys rely on it: no collisions, and a hex digest has no colon. *)
Class Sha256Laws `{Sha256} : Prop := {
  sha256_hex_inj s t : sha256_hex s = sha256_hex t → s = t;
  sha256_hex_no_colon s : ":"%char ∉ to_bytes (sha256_hex s);
}.

(** [strings.Join(l, ":")] *)
Fixpoint join_colon (l : list string) : string :=
  match l with
  | [] => ""
  | [s] => s
  | s :: l' => s +:+ ":" +:+ join_colon l'
  end.

(** [collections.NewPrefix(n)] is the byte [n]. *)
Definition prefix_bytes (n : nat) : string := of_bytes [ascii_of_nat n].
Definition InboundBallotDomain : string := prefix_bytes 9.
Definition OutboundBallotDomain : string := prefix_bytes 10.

Section keys.
Context `{ChainCodecs, Sha256}.

Definition GetInboundUniversalTxKey (inbound : Inbound) : string :=
  let chain := TrimSpace (SourceChain inbound) in
  let txHash := LenientCanonicalizeTxHash chain (TxHash inbound) in
  let logIndex := TrimSpace (LogIndex inbound) in
  sha256_hex (chain +:+ ":" +:+ txHash +:+ ":" +:+ logIndex).

Definition hashFields (domain : string) (parts : list string) : string :=
  sha256_hex (join_colon (sha256_hex domain :: (sha256_hex <$> parts))).

(** The fields a vote on an inbound commits to. *)
Definition inbound_fields (inbound : Inbound) : list string :=
  let chain := TrimSpace (SourceChain inbound) in
  let fundRecipient := match RevertInstructionsOf inbound with
                       | Some r => LenientCanonicalizeAddress chain (FundRecipient r)
                       | None => ""
                       end in
  [chain;
   LenientCanonicalizeTxHash chain (TxHash inbound);
   TrimSpace (LogIndex inbound);
   LenientCanonicalizeAddress chain (Sender inbound);
   LenientCanonicalizeEVMAddress (Recipient inbound);
   TrimSpace (Amount inbound);
   LenientCanonicalizeAddress chain (AssetAddr inbound);
   fmt_d (TxType_num (InTxType inbound));
   CanonicalizeHexBlob (VerificationData inbound);
   fundRecipient;
   fmt_t (IsCEA inbound);
   CanonicalizeHexBlob (RawPayload inbound)].
Definition GetInboundBallotKey (inbound : Inbound) : string :=
  hashFields InboundBallotDomain (inbound_fields inbound).

Definition GetPcUniversalTxKey (pcCaip : string) (pc : PCTx) : string :=
  let chain := TrimSpace pcCaip in
  let txHash := LenientCanonicalizeTxHash chain (PcTxHash pc) in
  sha256_hex (chain +:+ ":" +:+ txHash).

Definition outbound_fields (utxId outboundIndex : string) (observedTx : OutboundObservation) : list string :=
  [utxId; outboundIndex; fmt_t (Success observedTx); fmt_d (ObsBlockHeight observedTx);
   ObsTxHash observedTx; GasFeeUsed observedTx; ErrorMsg observedTx].
Definition GetOutboundBallotKey (utxId outboundIndex : string) (observedTx : OutboundObservation) : string :=
  hashFields OutboundBallotDomain (outbound_fields utxId outboundIndex observedTx).

Definition GetOutboundRevertId (sourceChain inboundTxHash logIndex : string) : string :=
  sha256_hex (sourceChain +:+ ":" +:+ inboundTxHash +:+ ":" +:+ logIndex +:+ ":REVERT").
Definition GetRescueFundsOutboundId (pushChainCaip pcTxHash logIndex : string) : string :=
  sha256_hex (pushChainCaip +:+ ":" +:+ pcTxHash +:+ ":" +:+ logIndex +:+ ":RESCUE").

Definition Canonicalize (p : Inbound) : Inbound :=
  let chain := TrimSpace (SourceChain p) in
  p <| SourceChain := chain |>
    <| TxHash := LenientCanonicalizeTxHash chain (TxHash p) |>
    <| Sender := LenientCanonicalizeAddress chain (Sender p) |>
    <| AssetAddr := LenientCanonicalizeAddress chain (AssetAddr p) |>
    <| Recipient := LenientCanonicalizeEVMAddress (Recipient p) |>
    <| LogIndex := TrimSpace (LogIndex p) |>
    <| Amount := TrimSpace (Amount p) |>
    <| RawPayload := CanonicalizeHexBlob (RawPayload p) |>
    <| VerificationData := CanonicalizeHexBlob (VerificationData p) |>
    <| RevertInstructionsOf := (λ r, mkRevertInstructions (LenientCanonicalizeAddress chain (FundRecipient r)))
                                 <$> RevertInstructionsOf p |>.
End keys.

(** ** What a key determines *)
Lemma no_colon_split (s t u v : bytes) :
  ":"%char ∉ s → ":"%char ∉ t → s ++ ":"%char :: u = t ++ ":"%char :: v → s = t ∧ u = v.
Proof.
  revert t. induction s as [|a s IH]; intros [|b t] Hs Ht Heq; cbn in Heq.
  - by injection Heq as ->.
  - injection Heq as <- _. destruct Ht. left.
  - injection Heq as -> _. destruct Hs. left.
  - injection Heq as -> Heq. apply IH in Heq as [-> ->]; [done|..]; intros Hin; [apply Hs|apply Ht]; by right.
Qed.

Lemma to_bytes_join2 s t l : to_bytes (join_colon (s :: t :: l)) = to_bytes s ++ ":"%char :: to_bytes (join_colon (t :: l)).
Proof. change (join_colon (s :: t :: l)) with (s +:+ ":" +:+ join_colon (t :: l)). by rewrite !to_bytes_app. Qed.

(** Joining colon-free strings loses nothing. *)
Lemma join_colon_inj l k :
  l ≠ [] → k ≠ [] → (∀ s, s ∈ l ++ k → ":"%char ∉ to_bytes s) → join_colon l = join_colon k → l = k.
Proof.
  revert k. induction l as [|s l IH]; intros [|t k] Hl Hk Hnc Heq; try done.
  apply (f_equal to_bytes) in Heq.
  assert (":"%char ∉ to_bytes s) as Hs by (apply Hnc; set_solver).
  assert (":"%char ∉ to_bytes t) as Ht by (apply Hnc; set_solver).
  destruct l as [|s' l], k as [|t' k]; rewrite ?to_bytes_join2 in Heq.
  - cbn [join_colon] in Heq. by apply to_bytes_inj in Heq as ->.
  - cbn [join_colon] in Heq. exfalso. apply Hs. rewrite Heq. apply elem_of_app. right. left.
  - cbn [join_colon] in Heq. exfalso. apply Ht. rewrite <- Heq. apply elem_of_app. right. left.
  - apply no_colon_split in Heq as [Hst Heq]; [|done..]. apply to_bytes_inj in Hst, Heq. subst. f_equal.
    apply IH; [done..| |done]. intros x Hx. apply Hnc. set_solver.
Qed.

Section key_properties.
Context `{ChainCodecs, Sha256, !Sha256Laws}.

Lemma hashFields_inj d e ps qs : hashFields d ps = hashFields e qs → d = e ∧ ps = qs.
Proof.
  unfold hashFields. intros Heq%sha256_hex_inj. apply join_colon_inj in Heq; [|done|done|].
  - injection Heq as Hd Hp. apply sha256_hex_inj in Hd. split; [done|].
    assert (Inj eq eq sha256_hex) by (intros ??; apply sha256_hex_inj). by apply (inj (fmap sha256_hex)) in Hp.
  - intros s Hs. assert (∃ t, s = sha256_hex t) as [t ->].
    { apply elem_of_app in Hs as [Hs|Hs]; apply elem_of_cons in Hs as [->|(t & -> & _)%list_elem_of_fmap]; eauto. }
    apply sha256_hex_no_colon.
Qed.

Lemma fmt_d_inj x y : fmt_d x = fmt_d y → x = y.
Proof. apply (inj pretty). Qed.
Lemma fmt_t_inj x y : fmt_t x = fmt_t y → x = y.
Proof. by destruct x, y. Qed.
(** The inbound as the chain executes it: every field in canonical form, the universal
    payload left out since it is derived again, no instruction for a revert read as an empty
    recipient, and the type as its number. *)
Definition executed (p : Inbound) : Inbound :=
  let c := Canonicalize p in
  c <| UniversalPayloadOf := None |> <| InTxType := TxType_other (TxType_num (InTxType c)) |>
    <| RevertInstructionsOf := Some (mkRevertInstructions (from_option FundRecipient "" (RevertInstructionsOf c))) |>.
Lemma executed_fields i j : executed i = executed j ↔ inbound_fields i = inbound_fields j.
Proof.
  assert (∀ p, match RevertInstructionsOf p with
               | Some r => LenientCanonicalizeAddress (TrimSpace (SourceChain p)) (FundRecipient r) | None => "" end
               = from_option FundRecipient "" (RevertInstructionsOf (Canonicalize p))) as Hr by (intros p; by destruct p as [??????????[]]).
  unfold inbound_fields, executed. cbv zeta. rewrite !Hr. destruct i, j. unfold Canonicalize. cbn -[fmt_d fmt_t TrimSpace LenientCanonicalizeAddress
    LenientCanonicalizeTxHash LenientCanonicalizeEVMAddress CanonicalizeHexBlob]. split; intros Heq; injection Heq; intros.
  - congruence.
  - repeat match goal with H : fmt_d _ = fmt_d _ |- _ => apply fmt_d_inj in H | H : fmt_t _ = fmt_t _ |- _ => apply fmt_t_inj in H end.
    congruence.
Qed.
Lemma outbound_fields_inj u u' o o' (obs obs' : OutboundObservation) :
  outbound_fields u o obs = outbound_fields u' o' obs' → u = u' ∧ o = o' ∧ obs = obs'.
Proof.
  destruct obs, obs'. unfold outbound_fields. cbn -[fmt_d fmt_t]. intros Heq. injection Heq. intros -> -> -> ->%fmt_d_inj ->%fmt_t_inj -> ->. done.
Qed.
(** C27. What a ballot key commits to.  Two inbounds share a ballot exactly when the chain
    executes them as the same inbound, field by field, and then they also name the same
    universal transaction; two outbound observations share a ballot exactly when they are
    the same observation of the same outbound of the same transaction; an inbound and an
    outbound never share one. *)
Theorem ballot_keys_identify_votes i j u u' o o' (obs obs' : OutboundObservation) :
  (GetInboundBallotKey i = GetInboundBallotKey j ↔ executed i = executed j) ∧
  (GetInboundBallotKey i = GetInboundBallotKey j → GetInboundUniversalTxKey i = GetInboundUniversalTxKey j) ∧
  (GetOutboundBallotKey u o obs = GetOutboundBallotKey u' o' obs' ↔ u = u' ∧ o = o' ∧ obs = obs') ∧
  GetInboundBallotKey i ≠ GetOutboundBallotKey u o obs.
Proof.
  split_and!.
  - rewrite executed_fields. split; [by intros [_ ?]%hashFields_inj|]. unfold GetInboundBallotKey. by intros ->.
  - intros [_ Hf]%hashFields_inj. unfold inbound_fields in Hf. cbv zeta in Hf. injection Hf as Hc Ht Hl _.
    unfold GetInboundUniversalTxKey. by rewrite Ht, Hl, Hc.
  - split; [by intros [_ ?%outbound_fields_inj]%hashFields_inj|]. by intros (-> & -> & ->).
  - by intros [? _]%hashFields_inj.
Qed.
End key_properties.

Section canonical_inbounds.
#[local] Arguments TrimSpace : simpl never.
#[local] Arguments LenientCanonicalizeAddress : simpl never.
#[local] Arguments LenientCanonicalizeTxHash : simpl never.
#[local] Arguments LenientCanonicalizeEVMAddress : simpl never.
#[local] Arguments CanonicalizeHexBlob : simpl never.
Context `{ChainCodecs, !ChainCodecsLaws, Sha256}.

(** Canonicalization before a vote is neutral and final: it is idempotent,
    and it changes neither the ballot an inbound is voted on nor the universal
    transaction it names, so observers who submit different spellings of one
    event meet on one ballot. *)
Theorem Canonicalize_keeps_keys p :
  Canonicalize (Canonicalize p) = Canonicalize p ∧
  GetInboundBallotKey (Canonicalize p) = GetInboundBallotKey p ∧
  GetInboundUniversalTxKey (Canonicalize p) = GetInboundUniversalTxKey p.
Proof.
  pose proof (λ c s, proj1 (lenient_idempotent c s)) as Ha.
  pose proof (λ c s, proj1 (proj2 (lenient_idempotent c s))) as Ht.
  pose proof (λ s, proj2 (proj2 (lenient_idempotent "" s))) as He.
  split_and!.
  - destruct p as [sc th se re am aa li ty up vd ri ce rp]. unfold Canonicalize. cbn.
    rewrite !TrimSpace_idemp, !Ha, !Ht, !He, !CanonicalizeHexBlob_idemp.
    destruct ri as [[fr]|]; cbn; by rewrite ?Ha.
  - unfold GetInboundBallotKey. f_equal. destruct p as [sc th se re am aa li ty up vd ri ce rp].
    unfold Canonicalize, inbound_fields. cbn.
    rewrite !TrimSpace_idemp, !Ha, !Ht, !He, !CanonicalizeHexBlob_idemp.
    destruct ri as [[fr]|]; cbn; by rewrite ?Ha.
  - unfold GetInboundUniversalTxKey, Canonicalize. cbn. by rewrite !TrimSpace_idemp, !Ht.
Qed.
End canonical_inbounds.
