(* ===== verification/UxPayload.v ===== *)
(** * x/uexecutor/types: inbound payloads and their validation

    [types/decode_payload.go], [types/inbound.go], [types/universal_payload.go],
    [types/caip2.go], [types/tx_type.go].  A payload arrives as raw bytes in the
    encoding of its source chain: ABI on EVM chains (a library, a parameter
    here), Borsh on Solana, decoded by hand in the source and modelled byte by
    byte.  A slice expression out of range is a panic. *)
From S2P Require Import Prelude GoStrings UvTypes TssTypes UxTypes RegTypes World Canonical.
From Stdlib Require Import Ascii.
Import Ux.

(** [go-ethereum/common] and [accounts/abi]: addresses are opaque 20-byte values,
    kept as strings. *)
Record AbiPayload := mkAbiPayload {
  AbTo : string; AbValue : Z; AbData : list Z; AbGasLimit : Z; AbMaxFeePerGas : Z;
  AbMaxPriorityFeePerGas : Z; AbNonce : Z; AbDeadline : Z; AbVType : Z }.
Class EvmCodecs : Type := {
  HexToAddress : string → string;
  Address_Hex : string → string;
  BytesToAddress : list Z → string;
  abi_unpack_payload : list Z → res AbiPayload;
}.

Definition EvmZeroAddress : string := "0x0000000000000000000000000000000000000000".

(** ** Slices of a byte string *)
Definition slice (bz : list Z) (off n : nat) : res (list Z) :=
  if decide (off + n ≤ length bz)%nat then Ok (take n (drop off bz))
  else Panic "slice bounds out of range".
Definition index (bz : list Z) (i : nat) : res Z :=
  match bz !! i with Some b => Ok b | None => Panic "index out of range" end.
(** [binary.LittleEndian.Uint32/Uint64] *)
Definition le_uint (l : list Z) : Z := foldr (λ b acc, b + 256 * acc) 0 l.
Definition read_le (bz : list Z) (off n : nat) : res Z := le_uint <$> slice bz off n.
Definition hex_string (bz : list Z) : string := "0x" +:+ of_bytes (hex_encode bz).

(** ** Borsh *)
Definition borsh_min_size : nat := 73.

Definition DecodeBorshPayload (bz : list Z) : res UniversalPayload :=
  check (bool_decide (borsh_min_size ≤ length bz)%nat) "borsh decode: insufficient data length" ;;
  to_ ← slice bz 0 20;
  value ← read_le bz 20 8;
  check (bool_decide (28 + 4 ≤ length bz)%nat) "borsh decode: truncated data length" ;;
  dataLen ← read_le bz 28 4;
  let dl := Z.to_nat dataLen in
  check (bool_decide (32 + dl ≤ length bz)%nat) "borsh decode: data length exceeds remaining bytes" ;;
  data ← slice bz 32 dl;
  let off := (32 + dl)%nat in
  check (bool_decide (off + 41 ≤ length bz)%nat) "borsh decode: truncated after data" ;;
  gasLimit ← read_le bz off 8;
  maxFeePerGas ← read_le bz (off + 8) 8;
  maxPriorityFeePerGas ← read_le bz (off + 16) 8;
  nonce ← read_le bz (off + 24) 8;
  deadline ← read_le bz (off + 32) 8;
  vType ← index bz (off + 40);
  mret {| To := hex_string to_; Value := fmt_d value; Data := hex_string data;
          PayGasLimit := fmt_d gasLimit; MaxFeePerGas := fmt_d maxFeePerGas;
          MaxPriorityFeePerGas := fmt_d maxPriorityFeePerGas; Nonce := fmt_d nonce;
          Deadline := fmt_d (i64 deadline); VType := VerificationType_of vType |}.

(** The bytes of a raw payload; [None] when there is no payload. *)
Definition raw_bytes (hexStr : string) : res (option (list Z)) :=
  if decide (TrimSpace hexStr = "") then Ok None
  else
    let clean := TrimPrefix0x hexStr in
    if decide (clean = "") then Ok None
    else match hex_decode (to_bytes clean) with
         | None => Err "hex decode: invalid"
         | Some [] => Ok None
         | Some bz => Ok (Some bz)
         end.
Definition DecodeUniversalPayloadSolana (hexStr : string) : res (option UniversalPayload) :=
  bz ← raw_bytes hexStr;
  match bz with
  | None => Ok None
  | Some bz => p ← DecodeBorshPayload bz; mret (Some p)
  end.

Section payloads.
Context `{EvmCodecs}.

Definition DecodeUniversalPayloadEVM (hexStr : string) : res (option UniversalPayload) :=
  bz ← raw_bytes hexStr;
  match bz with
  | None => Ok None
  | Some bz =>
      check (bool_decide (32 ≤ length bz)%nat) "insufficient data length" ;;
      p ← wrap_res "failed to unpack payload" (abi_unpack_payload bz);
      mret (Some {| To := Address_Hex (AbTo p); Value := fmt_d (AbValue p); Data := hex_string (AbData p);
                    PayGasLimit := fmt_d (AbGasLimit p); MaxFeePerGas := fmt_d (AbMaxFeePerGas p);
                    MaxPriorityFeePerGas := fmt_d (AbMaxPriorityFeePerGas p); Nonce := fmt_d (AbNonce p);
                    Deadline := fmt_d (AbDeadline p); VType := VerificationType_of (AbVType p) |})
  end.

(** [strings.Split(sourceChain, ":")[0]] *)
Definition chain_namespace (sourceChain : string) : string :=
  match split_colon (to_bytes sourceChain) with Some (a, _) => of_bytes a | None => sourceChain end.
Definition DecodeRawPayload (rawPayload sourceChain : string) : res (option UniversalPayload) :=
  let namespace := chain_namespace sourceChain in
  if decide (namespace = "eip155") then DecodeUniversalPayloadEVM rawPayload
  else if decide (namespace = "solana") then DecodeUniversalPayloadSolana rawPayload
  else Err ("unsupported chain namespace for payload decoding: " +:+ namespace).

(** The inbound is changed in place, also when decoding fails. *)
Definition NormalizeForTxType (p : Inbound) : Inbound * res unit :=
  match InTxType p with
  | FUNDS_AND_PAYLOAD | GAS_AND_PAYLOAD =>
      let p := if IsCEA p then p else p <| Recipient := EvmZeroAddress |> in
      let p := p <| UniversalPayloadOf := None |> in
      if decide (RawPayload p = "") then (p, Ok tt)
      else match DecodeRawPayload (RawPayload p) (SourceChain p) with
           | Ok (Some decoded) => (p <| UniversalPayloadOf := Some decoded |> <| RawPayload := "" |>, Ok tt)
           | Ok None => (p, Err "raw_payload decoded to nil for payload tx type")
           | Err e => (p, Err ("failed to decode raw payload: " +:+ e))
           | Panic e => (p, Panic e)
           end
  | _ => (p <| UniversalPayloadOf := None |> <| VerificationData := "" |> <| RawPayload := "" |>, Ok tt)
  end.
End payloads.

(** ** Validation *)
Definition has_colon (s : string) : bool := bool_decide (":"%char ∈ to_bytes s).

(** [types.ParseCAIP2] *)
Definition ParseCAIP2 (chain : string) : res (string * string) :=
  match split_colon (to_bytes chain) with
  | None => Err "invalid CAIP-2 identifier: missing ':'"
  | Some ([], _) => Err "invalid CAIP-2 identifier: empty namespace"
  | Some (_, []) => Err "invalid CAIP-2 identifier: empty chain reference"
  | Some (a, b) => Ok (of_bytes a, of_bytes b)
  end.

Definition blank (s : string) : bool := bool_decide (TrimSpace s = "").

Definition Inbound_ValidateBasic (p : Inbound) : res unit :=
  let chain := TrimSpace (SourceChain p) in
  check (negb (bool_decide (chain = ""))) "source chain cannot be empty" ;;
  check (has_colon chain) "source chain must be in CAIP-2 format <namespace>:<reference>" ;;
  check (negb (blank (TxHash p))) "tx_hash cannot be empty" ;;
  check (negb (blank (Sender p))) "sender cannot be empty" ;;
  check (negb (blank (LogIndex p))) "log_index cannot be empty" ;;
  check (TxType_known (InTxType p) && negb (bool_decide (InTxType p = UNSPECIFIED_TX))) "invalid tx_type".

Definition is_uint (s : string) : bool :=
  match big_SetString s with Some n => bool_decide (0 ≤ n) | None => false end.

Section validation.
Context `{Bech32, ChainCodecs}.

Definition UniversalPayload_ValidateBasic (p : UniversalPayload) : res unit :=
  check (negb (blank (To p))) "to address cannot be empty" ;;
  check (IsValidAddress (To p) HEX) "invalid to address format" ;;
  check (bool_decide (Data p = "") || is_ok (HexToBytes (Data p))) "invalid hex data" ;;
  check (forallb (λ v, bool_decide (v = "") || is_uint v)
           [Value p; PayGasLimit p; MaxFeePerGas p; MaxPriorityFeePerGas p; Nonce p; Deadline p])
    "must be a valid unsigned integer" ;;
  check (match VType p with VerificationType_other _ => false | _ => true end) "invalid verificationData type".

Definition cea_tx_type (t : TxType) : bool :=
  match t with FUNDS | FUNDS_AND_PAYLOAD | GAS_AND_PAYLOAD => true | _ => false end.
Definition zero_amount_tx_type (t : TxType) : bool :=
  match t with GAS_AND_PAYLOAD | FUNDS_AND_PAYLOAD => true | _ => false end.

Definition ValidateForExecution (p : Inbound) : res unit :=
  check (negb (blank (Amount p))) "amount cannot be empty" ;;
  check (is_uint (Amount p)) "amount must be a valid non-negative uint256" ;;
  check (negb (bool_decide (big_SetString (Amount p) = Some 0)) || zero_amount_tx_type (InTxType p))
    "amount must be positive for this tx type" ;;
  check (negb (blank (AssetAddr p))) "asset_addr cannot be empty" ;;
  check (negb (IsCEA p) || cea_tx_type (InTxType p))
    "isCEA is only supported for FUNDS, FUNDS_AND_PAYLOAD, and GAS_AND_PAYLOAD tx types" ;;
  match InTxType p with
  | FUNDS_AND_PAYLOAD | GAS_AND_PAYLOAD =>
      match UniversalPayloadOf p with
      | None => Err "payload is required for payload tx types"
      | Some payload =>
          check (negb (IsCEA p && blank (Recipient p))) "recipient cannot be empty when isCEA is true" ;;
          check (negb (IsCEA p) || IsValidAddress (Recipient p) HEX) "invalid recipient address when isCEA is true" ;;
          wrap_res "invalid payload" (UniversalPayload_ValidateBasic payload)
      end
  | FUNDS | GAS =>
      check (negb (blank (Recipient p))) "recipient cannot be empty" ;;
      check (IsValidAddress (Recipient p) HEX) "invalid recipient address"
  | _ => Ok tt
  end.
End validation.

(** [types/tx_type.go] *)
Definition SolidityTxTypeToProto (n : Z) : TxType :=
  if decide (n = 0) then GAS else if decide (n = 1) then GAS_AND_PAYLOAD
  else if decide (n = 2) then FUNDS else if decide (n = 3) then FUNDS_AND_PAYLOAD
  else if decide (n = 4) then RESCUE_FUNDS else if decide (n = 5) then INBOUND_REVERT
  else UNSPECIFIED_TX.
Definition ProtoTxTypeToSolidity (t : TxType) : Z :=
  match t with GAS => 0 | GAS_AND_PAYLOAD => 1 | FUNDS => 2 | FUNDS_AND_PAYLOAD => 3 | _ => 0 end.

(** ** Borsh decoding is exact

    The layout of the Rust struct, as an encoder. *)
Record BorshPayload := mkBorshPayload {
  BoTo : list Z; BoValue : Z; BoData : list Z; BoGasLimit : Z; BoMaxFeePerGas : Z;
  BoMaxPriorityFeePerGas : Z; BoNonce : Z; BoDeadline : Z; BoVType : Z }.

Fixpoint le_bytes (n : nat) (v : Z) : list Z :=
  match n with O => [] | S n => v mod 256 :: le_bytes n (v / 256) end.
Definition is_bytes (l : list Z) : Prop := Forall (λ z, 0 ≤ z < 256) l.

Definition borsh_fields (p : BorshPayload) : list (list Z) :=
  [BoTo p; le_bytes 8 (BoValue p); le_bytes 4 (Z.of_nat (length (BoData p))); BoData p;
   le_bytes 8 (BoGasLimit p); le_bytes 8 (BoMaxFeePerGas p); le_bytes 8 (BoMaxPriorityFeePerGas p);
   le_bytes 8 (BoNonce p); le_bytes 8 (BoDeadline p mod 2 ^ 64); [BoVType p]].
Definition borsh (p : BorshPayload) : list Z := mjoin (borsh_fields p).
Definition borsh_ok (p : BorshPayload) : Prop :=
  length (BoTo p) = 20%nat ∧ is_bytes (BoTo p) ∧ is_bytes (BoData p) ∧
  Z.of_nat (length (BoData p)) < 2 ^ 32 ∧ 0 ≤ BoValue p < 2 ^ 64 ∧ 0 ≤ BoGasLimit p < 2 ^ 64 ∧
  0 ≤ BoMaxFeePerGas p < 2 ^ 64 ∧ 0 ≤ BoMaxPriorityFeePerGas p < 2 ^ 64 ∧ 0 ≤ BoNonce p < 2 ^ 64 ∧
  - 2 ^ 63 ≤ BoDeadline p < 2 ^ 63 ∧ 0 ≤ BoVType p < 256.
(** The payload record of an encoded struct. *)
Definition borsh_payload (p : BorshPayload) : UniversalPayload :=
  {| To := hex_string (BoTo p); Value := fmt_d (BoValue p); Data := hex_string (BoData p);
     PayGasLimit := fmt_d (BoGasLimit p); MaxFeePerGas := fmt_d (BoMaxFeePerGas p);
     MaxPriorityFeePerGas := fmt_d (BoMaxPriorityFeePerGas p); Nonce := fmt_d (BoNonce p);
     Deadline := fmt_d (BoDeadline p); VType := VerificationType_of (BoVType p) |}.

Lemma length_le_bytes n v : length (le_bytes n v) = n.
Proof. revert v. induction n; intros v; cbn; [done|]. by rewrite IHn. Qed.
Lemma le_uint_bytes n v : 0 ≤ v < 256 ^ Z.of_nat n → le_uint (le_bytes n v) = v.
Proof.
  revert v. induction n as [|n IH]; intros v Hv; cbn [le_bytes le_uint foldr].
  { change (256 ^ Z.of_nat 0) with 1 in Hv. lia. }
  fold (le_uint (le_bytes n (v / 256))). rewrite IH.
  - pose proof (Z.div_mod v 256). lia.
  - rewrite Nat2Z.inj_succ, Z.pow_succ_r in Hv by lia.
    split; [apply Z.div_pos; lia|]. apply Z.div_lt_upper_bound; lia.
Qed.
Lemma le_bytes_uint l : is_bytes l → le_bytes (length l) (le_uint l) = l.
Proof.
  induction 1 as [|b l Hb _ IH]; [done|]. cbn [length le_bytes le_uint foldr]. fold (le_uint l).
  f_equal.
  - rewrite (Z.mul_comm 256), Z_mod_plus_full. apply Z.mod_small. lia.
  - rewrite (Z.mul_comm 256), Z.div_add, Z.div_small by lia. by rewrite Z.add_0_l.
Qed.
Lemma le_uint_bounds l : is_bytes l → 0 ≤ le_uint l < 256 ^ Z.of_nat (length l).
Proof.
  induction 1 as [|b l Hb _ IH]; [done|]. cbn [length le_uint foldr]. fold (le_uint l).
  rewrite Nat2Z.inj_succ, Z.pow_succ_r by lia. lia.
Qed.

(** Reading the [i]-th of a sequence of fields. *)
Lemma slice_field F rest i f off n :
  F !! i = Some f → off = length (mjoin (take i F)) → n = length f → slice (mjoin F ++ rest) off n = Ok f.
Proof.
  intros Hi -> ->. rewrite <- (take_drop_middle F i f Hi) at 1. rewrite join_app. cbn [mjoin list_join].
  rewrite <- !app_assoc. unfold slice. rewrite decide_True by (rewrite !length_app; lia).
  by rewrite drop_app_length, take_app_length.
Qed.
Lemma read_field F rest i v off n :
  F !! i = Some (le_bytes n v) → off = length (mjoin (take i F)) → 0 ≤ v < 256 ^ Z.of_nat n →
  read_le (mjoin F ++ rest) off n = Ok v.
Proof.
  intros Hi Hoff Hv. unfold read_le. rewrite (slice_field F rest i (le_bytes n v)); [|done|done|by rewrite length_le_bytes].
  cbn. by rewrite le_uint_bytes.
Qed.
Lemma index_field F rest i v off :
  F !! i = Some [v] → off = length (mjoin (take i F)) → index (mjoin F ++ rest) off = Ok v.
Proof.
  intros Hi Hoff. pose proof (slice_field F rest i [v] off 1 Hi Hoff eq_refl) as Hs. unfold slice in Hs.
  case_decide as Hl; [|done]. injection Hs as Hs. unfold index.
  destruct (drop off (mjoin F ++ rest)) as [|x l] eqn:Hd; [done|]. injection Hs as ->.
  pose proof (lookup_drop (mjoin F ++ rest) off 0) as Hk. rewrite Hd, Nat.add_0_r in Hk. by rewrite <- Hk.
Qed.

Ltac field_at i := intros; first [eapply (read_field _ _ i) | eapply (slice_field _ _ i) | eapply (index_field _ _ i)];
  [reflexivity | unfold borsh_fields; cbn [take mjoin list_join]; rewrite ?length_app, ?length_le_bytes; cbn [length]; lia | ..].

Lemma i64_of_u64 d : - 2 ^ 63 ≤ d < 2 ^ 63 → i64 (d mod 2 ^ 64) = d.
Proof.
  intros Hd. unfold i64. rewrite Zplus_mod_idemp_l. rewrite Z.mod_small by lia. lia.
Qed.
Lemma u64_of_i64 x : 0 ≤ x < 2 ^ 64 → i64 x mod 2 ^ 64 = x.
Proof. intros Hx. unfold i64. rewrite Zminus_mod_idemp_l. rewrite Z.mod_small; lia. Qed.

(** Encoding then decoding. *)
Lemma decode_borsh p rest :
  borsh_ok p → DecodeBorshPayload (borsh p ++ rest) = Ok (borsh_payload p).
Proof.
  intros (Hto & _ & _ & Hdl & Hv & Hg & Hf & Hpf & Hn & Hd & Hvt).
  set (dl := length (BoData p)) in *. set (bz := borsh p ++ rest).
  assert (length bz = (73 + dl + length rest)%nat) as Hlen.
  { unfold bz, borsh, borsh_fields. cbn [mjoin list_join].
    rewrite !length_app, !length_le_bytes, Hto. cbn [length]. fold dl. lia. }
  change (2 ^ 64) with (256 ^ Z.of_nat 8) in *. change (2 ^ 32) with (256 ^ Z.of_nat 4) in *.
  assert (slice bz 0 20 = Ok (BoTo p)) as E0 by (field_at 0%nat; done).
  assert (read_le bz 20 8 = Ok (BoValue p)) as E1 by (field_at 1%nat; done).
  assert (read_le bz 28 4 = Ok (Z.of_nat dl)) as E2 by (field_at 2%nat; fold dl; lia).
  assert (slice bz 32 dl = Ok (BoData p)) as E3 by (field_at 3%nat; done).
  assert (read_le bz (32 + dl) 8 = Ok (BoGasLimit p)) as E4 by (field_at 4%nat; done).
  assert (read_le bz (32 + dl + 8) 8 = Ok (BoMaxFeePerGas p)) as E5 by (field_at 5%nat; done).
  assert (read_le bz (32 + dl + 16) 8 = Ok (BoMaxPriorityFeePerGas p)) as E6 by (field_at 6%nat; done).
  assert (read_le bz (32 + dl + 24) 8 = Ok (BoNonce p)) as E7 by (field_at 7%nat; done).
  assert (read_le bz (32 + dl + 32) 8 = Ok (BoDeadline p mod 256 ^ Z.of_nat 8)) as E8.
  { field_at 8%nat. apply Z.mod_pos_bound. lia. }
  assert (index bz (32 + dl + 40) = Ok (BoVType p)) as E9 by (field_at 9%nat).
  unfold DecodeBorshPayload, check, borsh_min_size. rewrite Hlen.
  rewrite (bool_decide_eq_true_2 (73 ≤ _)%nat), (bool_decide_eq_true_2 (28 + 4 ≤ _)%nat) by lia.
  cbn [mbind res_bind]. rewrite E0. cbn [mbind res_bind]. rewrite E1. cbn [mbind res_bind]. rewrite E2.
  cbn [mbind res_bind]. rewrite Nat2Z.id, !bool_decide_eq_true_2 by lia. cbn [mbind res_bind].
  rewrite E3. cbn [mbind res_bind]. rewrite E4. cbn [mbind res_bind]. rewrite E5. cbn [mbind res_bind].
  rewrite E6. cbn [mbind res_bind]. rewrite E7. cbn [mbind res_bind]. rewrite E8. cbn [mbind res_bind].
  rewrite E9. cbn [mbind res_bind mret res_ret]. unfold borsh_payload.
  by rewrite i64_of_u64.
Qed.

(** Decoding then encoding. *)
Lemma slice_ok bz off n : (off + n ≤ length bz)%nat → slice bz off n = Ok (take n (drop off bz)).
Proof. intros. unfold slice. by rewrite decide_True. Qed.
Lemma read_le_ok bz off n : (off + n ≤ length bz)%nat → read_le bz off n = Ok (le_uint (take n (drop off bz))).
Proof. intros. unfold read_le. by rewrite slice_ok. Qed.
Lemma index_in_range bz i : (i < length bz)%nat → ∃ v, index bz i = Ok v ∧ take 1 (drop i bz) = [v].
Proof.
  intros Hi. apply lookup_lt_is_Some in Hi as [v Hv]. exists v. unfold index. rewrite Hv. split; [done|].
  by rewrite (drop_S bz v i Hv).
Qed.
Lemma drop_pieces (bz : list Z) k n m : m = (k + n)%nat → drop k bz = take n (drop k bz) ++ drop m bz.
Proof. intros ->. by rewrite <- drop_drop, take_drop. Qed.
Lemma is_bytes_piece bz k n : is_bytes bz → is_bytes (take n (drop k bz)).
Proof. intros Hb. by apply Forall_take, Forall_drop. Qed.
Lemma piece_bytes bz k n :
  is_bytes bz → (k + n ≤ length bz)%nat → le_bytes n (le_uint (take n (drop k bz))) = take n (drop k bz).
Proof.
  intros Hb Hl. rewrite <- (le_bytes_uint (take n (drop k bz))) at 2 by (by apply is_bytes_piece).
  rewrite length_take, length_drop. by rewrite Nat.min_l by lia.
Qed.
Lemma piece_bounds bz k n :
  is_bytes bz → (k + n ≤ length bz)%nat → 0 ≤ le_uint (take n (drop k bz)) < 256 ^ Z.of_nat n.
Proof.
  intros Hb Hl. pose proof (le_uint_bounds (take n (drop k bz)) (is_bytes_piece _ k n Hb)) as Hu.
  rewrite length_take, length_drop, Nat.min_l in Hu by lia. done.
Qed.

(** The struct a long enough byte string encodes. *)
Definition borsh_of (bz : list Z) : BorshPayload :=
  let u n k := le_uint (take n (drop k bz)) in
  let off := (32 + Z.to_nat (u 4%nat 28%nat))%nat in
  {| BoTo := take 20 bz; BoValue := u 8%nat 20%nat; BoData := take (Z.to_nat (u 4%nat 28%nat)) (drop 32 bz);
     BoGasLimit := u 8%nat off; BoMaxFeePerGas := u 8%nat (off + 8)%nat;
     BoMaxPriorityFeePerGas := u 8%nat (off + 16)%nat; BoNonce := u 8%nat (off + 24)%nat;
     BoDeadline := i64 (u 8%nat (off + 32)%nat); BoVType := default 0 (bz !! (off + 40)%nat) |}.
Definition borsh_long (bz : list Z) : Prop :=
  (32 + Z.to_nat (le_uint (take 4 (drop 28 bz))) + 41 ≤ length bz)%nat.

Lemma decode_borsh_long bz :
  borsh_long bz → DecodeBorshPayload bz = Ok (borsh_payload (borsh_of bz)).
Proof.
  unfold borsh_long. intros Hl. unfold DecodeBorshPayload, check, borsh_min_size.
  rewrite !bool_decide_eq_true_2 by lia. cbn [mbind res_bind].
  rewrite slice_ok by lia. cbn [mbind res_bind]. rewrite read_le_ok by lia. cbn [mbind res_bind].
  rewrite read_le_ok by lia. cbn [mbind res_bind]. rewrite !bool_decide_eq_true_2 by lia. cbn [mbind res_bind].
  rewrite slice_ok by lia. cbn [mbind res_bind]. do 5 (rewrite read_le_ok by lia; cbn [mbind res_bind]).
  destruct (index_in_range bz (32 + Z.to_nat (le_uint (take 4 (drop 28 bz))) + 40)) as (v & Hv & _); [lia|].
  rewrite Hv. cbn [mbind res_bind mret res_ret]. unfold borsh_payload, borsh_of.
  cbn [BoTo BoValue BoData BoGasLimit BoMaxFeePerGas BoMaxPriorityFeePerGas BoNonce BoDeadline BoVType].
  unfold index in Hv. destruct (bz !! _) as [v'|]; [|done]. by injection Hv as ->.
Qed.

Lemma decode_borsh_short bz : ¬ borsh_long bz → ∃ m, DecodeBorshPayload bz = Err m.
Proof.
  unfold borsh_long. intros Hl. unfold DecodeBorshPayload, check, borsh_min_size.
  destruct (decide (73 ≤ length bz)%nat) as [H1|H1]; cycle 1.
  { rewrite (bool_decide_eq_false_2 _ H1). by eexists. }
  rewrite (bool_decide_eq_true_2 _ H1), (slice_ok bz 0 20), (read_le_ok bz 20 8), (read_le_ok bz 28 4) by lia.
  rewrite (bool_decide_eq_true_2 (28 + 4 ≤ _)%nat) by lia. cbn [mbind res_bind]. set (n := Z.to_nat _) in *.
  destruct (decide (32 + n ≤ length bz)%nat) as [H2|H2]; cycle 1.
  { rewrite (bool_decide_eq_false_2 _ H2). by eexists. }
  rewrite (bool_decide_eq_true_2 _ H2), (slice_ok bz 32 n) by lia. cbn [mbind res_bind].
  rewrite bool_decide_eq_false_2 by lia. by eexists.
Qed.

Lemma borsh_of_ok bz : is_bytes bz → borsh_long bz → borsh_ok (borsh_of bz).
Proof.
  intros Hb Hl. unfold borsh_long in Hl. unfold borsh_ok, borsh_of.
  cbn [BoTo BoValue BoData BoGasLimit BoMaxFeePerGas BoMaxPriorityFeePerGas BoNonce BoDeadline BoVType].
  pose proof (piece_bounds bz 28 4 Hb ltac:(lia)) as H4.
  change (256 ^ Z.of_nat 4) with (2 ^ 32) in H4.
  assert (∀ k, (k + 8 ≤ length bz)%nat → 0 ≤ le_uint (take 8 (drop k bz)) < 2 ^ 64) as H8.
  { intros k Hk. exact (piece_bounds bz k 8 Hb Hk). }
  assert (∀ i, 0 ≤ default 0 (bz !! i) < 256) as Hvt.
  { intros i. destruct (bz !! i) as [v|] eqn:Hv; [|done]. exact (Forall_lookup_1 _ _ _ _ Hb Hv). }
  split_and!; try (by apply Forall_take); try (apply H8; lia).
  - rewrite length_take. lia.
  - by apply is_bytes_piece.
  - rewrite length_take, length_drop. lia.
  - unfold i64. pose proof (Z.mod_pos_bound (le_uint (take 8 (drop (32 + Z.to_nat (le_uint (take 4 (drop 28 bz))) + 32) bz)) + 2 ^ 63) (2 ^ 64)). lia.
  - unfold i64. pose proof (Z.mod_pos_bound (le_uint (take 8 (drop (32 + Z.to_nat (le_uint (take 4 (drop 28 bz))) + 32) bz)) + 2 ^ 63) (2 ^ 64)). lia.
  - apply Hvt.
  - apply Hvt.
Qed.

Lemma borsh_borsh_of bz :
  is_bytes bz → borsh_long bz →
  bz = borsh (borsh_of bz) ++ drop (32 + Z.to_nat (le_uint (take 4 (drop 28 bz))) + 41) bz.
Proof.
  intros Hb Hl. unfold borsh_long in Hl. unfold borsh, borsh_fields, borsh_of.
  cbn [mjoin list_join BoTo BoValue BoData BoGasLimit BoMaxFeePerGas BoMaxPriorityFeePerGas BoNonce BoDeadline BoVType].
  set (n := Z.to_nat (le_uint (take 4 (drop 28 bz)))) in *.
  assert (Z.of_nat (length (take n (drop 32 bz))) = le_uint (take 4 (drop 28 bz))) as ->.
  { rewrite length_take, length_drop. pose proof (piece_bounds bz 28 4 Hb ltac:(lia)). lia. }
  rewrite u64_of_i64 by (exact (piece_bounds bz (32 + n + 32) 8 Hb ltac:(lia))).
  rewrite !piece_bytes by (done || lia).
  destruct (index_in_range bz (32 + n + 40)) as (v & Hv & Ht); [lia|].
  assert (default 0 (bz !! (32 + n + 40)%nat) = v) as ->.
  { unfold index in Hv. by destruct (bz !! _); simplify_eq. }
  rewrite <- Ht, <- !app_assoc, app_nil_l.
  rewrite <- (drop_pieces bz (32 + n + 40) 1 (32 + n + 41)) by lia.
  rewrite <- (drop_pieces bz (32 + n + 32) 8 (32 + n + 40)) by lia.
  rewrite <- (drop_pieces bz (32 + n + 24) 8 (32 + n + 32)) by lia.
  rewrite <- (drop_pieces bz (32 + n + 16) 8 (32 + n + 24)) by lia.
  rewrite <- (drop_pieces bz (32 + n + 8) 8 (32 + n + 16)) by lia.
  rewrite <- (drop_pieces bz (32 + n) 8 (32 + n + 8)), <- (drop_pieces bz 32 n (32 + n)) by lia.
  rewrite <- (drop_pieces bz 28 4 32), <- (drop_pieces bz 20 8 28) by lia. by rewrite take_drop.
Qed.

(** The bytes a hex string carries. *)
Lemma raw_bytes_hex_string bz : is_bytes bz → bz ≠ [] → raw_bytes (hex_string bz) = Ok (Some bz).
Proof.
  intros Hb Hne. pose proof (hex_encode_decode bz Hb) as Hd. set (body := of_bytes (hex_encode bz)).
  assert (to_bytes body = hex_encode bz) as Hbody by apply to_of_bytes.
  assert (body ≠ "") as Hbne.
  { intros He. apply to_bytes_nil in He. rewrite Hbody in He. by destruct bz. }
  assert (isHexString body = true) as Hhex.
  { apply isHexString_spec. split; [done|]. rewrite Hbody. eauto. }
  assert (ToLower body = body) as Hlow.
  { apply to_bytes_inj. rewrite to_bytes_ToLower, Hbody. by apply hex_decode_encode. }
  unfold raw_bytes, hex_string. fold body.
  assert (TrimSpace ("0x" +:+ body) = "0x" +:+ body) as ->.
  { assert ("0x" +:+ body = with0x body) as -> by (unfold with0x; by rewrite Hlow). by apply TrimSpace_with0x. }
  rewrite decide_False by done.
  assert (TrimPrefix0x ("0x" +:+ body) = body) as ->.
  { unfold TrimPrefix0x. rewrite to_bytes_app. cbn. rewrite decide_True by done. apply of_to_bytes. }
  rewrite decide_False by done. rewrite Hbody, Hd. by destruct bz.
Qed.

(** C28. Decoding a Solana payload is safe and reads a prefix.  Bytes are accepted exactly
    when they start with the Borsh encoding of a payload struct, and the result is that
    struct; whatever follows the encoding is ignored.  No input makes a slice go out of
    range; and the encoding of every struct, as the hex string an observer submits, decodes
    to it. *)
Theorem solana_payload_exact bz :
  is_bytes bz →
  match DecodeBorshPayload bz with
  | Ok p => ∃ q rest, borsh_ok q ∧ bz = borsh q ++ rest ∧ p = borsh_payload q
  | Err _ => ∀ q rest, borsh_ok q → bz ≠ borsh q ++ rest
  | Panic _ => False
  end ∧
  (∀ q, borsh_ok q → bz = borsh q → DecodeUniversalPayloadSolana (hex_string bz) = Ok (Some (borsh_payload q))).
Proof.
  intros Hb. split.
  - destruct (decide (32 + Z.to_nat (le_uint (take 4 (drop 28 bz))) + 41 ≤ length bz)%nat) as [Hl|Hl].
    + rewrite decode_borsh_long by done. eexists _, _. split_and!; [by apply borsh_of_ok|by apply borsh_borsh_of|done].
    + destruct (decode_borsh_short bz Hl) as [m Hm]. rewrite Hm. intros q rest Hq ->.
      by rewrite decode_borsh in Hm.
  - intros q Hq ->. unfold DecodeUniversalPayloadSolana. rewrite raw_bytes_hex_string; [|done|].
    + cbn [mbind res_bind]. rewrite <- (app_nil_r (borsh q)). by rewrite decode_borsh.
    + intros He. apply (f_equal length) in He. unfold borsh, borsh_fields in He. cbn [mjoin list_join] in He.
      rewrite !length_app, !length_le_bytes in He. cbn in He. lia.
Qed.
