(* ===== verification/UxEvm.v ===== *)
(** * x/uexecutor: calls into the EVM, and gas fees

    [keeper/evm.go], [keeper/gas_fee.go], [keeper/fees.go],
    [keeper/execute_payload.go], [keeper/handler.go], [keeper/deploy_uea.go] and
    the module account nonce of [keeper/keeper.go].  The EVM, bank and fee market
    keepers are parameters: a view call is a query, a derived call returns a
    receipt, an error, or both. *)
From S2P Require Import Prelude GoStrings UvTypes TssTypes UxTypes RegTypes World Canonical.
From S2P Require Import UvValidator UvBallot Registry Utss UxKeys UxPayload.
Import Ux.

Record EvmLog := mkEvmLog {
  LogAddress : string; Topics : list string; LogData : list Z; Index : Z; Removed : bool }.
Record Receipt := mkReceipt { Hash : string; RcGasUsed : Z; Ret : list Z; Logs : list EvmLog }.
(** [(receipt, err)]: the receipt of a reverted call comes with the error. *)
Record EvmOut := mkEvmOut { rcpt : option Receipt; rerr : option error }.
Definition evm_err (e : error) : EvmOut := mkEvmOut None (Some e).

Record AbiUniversalAccountId := mkAbiUniversalAccountId {
  AaNamespace : string; AaChainId : string; AaOwner : list Z }.
(** A [*big.Int] field is [None] when it is nil. *)
Record AbiUniversalPayload := mkAbiUniversalPayload {
  ApTo : string; ApValue : option Z; ApData : list Z; ApGasLimit : option Z; ApMaxFeePerGas : option Z;
  ApMaxPriorityFeePerGas : option Z; ApNonce : option Z; ApDeadline : option Z; ApVType : Z }.
Record AbiMigrationPayload := mkAbiMigrationPayload {
  AmMigration : string; AmNonce : option Z; AmDeadline : option Z }.

(** The state-changing contract calls. *)
Inductive EvmCall :=
| deployUEA (account : AbiUniversalAccountId)
| uea_executeUniversalTx (uea : string) (gasLimit : Z) (payload : AbiUniversalPayload) (verificationData : list Z)
| migrateUEA (uea : string) (payload : AbiMigrationPayload) (signature : list Z)
| depositPRC20Token (prc20 : string) (amount : Z) (to : string)
| setChainMeta (chain : string) (price height : Z)
| depositPRC20WithAutoSwap (prc20 : string) (amount : Z) (to : string) (fee minPCOut : Z)
| refundUnusedGas (gasToken : string) (amount : Z) (recipient : string) (withSwap : bool) (fee minPCOut : Z)
| executeUniversalTx (recipient sourceChain cea : string) (payload : list Z) (amount : Z) (prc20 txId : string).

(** The data of the two gateway events, as the ABI library unpacks it. *)
Record OutboundEventData := mkOutboundEventData {
  OeChainId : string; OeTarget : list Z; OeAmount : Z; OeGasToken : string; OeGasFee : Z; OeGasLimit : Z;
  OePayload : list Z; OeProtocolFee : Z; OeRevertRecipient : string; OeTxType : Z; OeGasPrice : Z }.
Record RescueEventData := mkRescueEventData {
  ReChainNamespace : string; ReTxType : Z; ReGasFee : Z; ReGasPrice : Z; ReGasLimit : Z }.

Class EvmKeeper (E : Type) : Type := {
  DerivedEVMCall : Ctx → string → option Z → EvmCall → M (World E) EvmOut;
  view_getUEAForOrigin : Ctx → string → AbiUniversalAccountId → M (World E) (string * bool);
  view_getOriginForUEA : Ctx → string → string → M (World E) bool;       (* isUEA *)
  view_gasPriceByChainNamespace : Ctx → string → M (World E) Z;
  view_l1GasFeeByChainNamespace : Ctx → string → M (World E) Z;
  view_tssFundMigrationGasLimit : Ctx → string → M (World E) Z;
  view_uniswapV3Quoter : Ctx → M (World E) string;
  view_WPC : Ctx → M (World E) string;
  view_defaultFeeTier : Ctx → string → M (World E) Z;
  view_quoteExactInputSingle : Ctx → string → string → string → Z → Z → M (World E) Z;
  (* gasToken, gasFee, gasPrice, gasLimit *)
  view_getOutboundTxGasAndFees : Ctx → string → Z → M (World E) (string * Z * Z * Z);
  IsContract : string → World E → bool;              (* the code hash is neither empty nor zero *)
  ue_module_address : string;
  GetBaseFee : World E → option Z;                   (* LegacyDec: 18 decimals *)
  GetBalance : string → World E → Z;
  SendCoinsFromAccountToModule : string → Z → M (World E) unit;
  BurnCoins : Z → M (World E) unit;
  unpack_outbound_event : list Z → res OutboundEventData;
  unpack_rescue_event : list Z → res RescueEventData;
  UniversalTxOutboundEventSig : string;
  RescueFundsOnSourceChainEventSig : string;
  HexToHash : string → string;
  FromHex : string → list Z;                         (* common.FromHex *)
}.
(** What the keeper relies on: queries write nothing and do not panic, a contract
    call without an error has a receipt, and a contract call, a transfer or a burn
    writes the state of the EVM and the bank only.  Gateway
    events of a derived call are handled by the caller from its receipt. *)
Definition frame {E} (w w' : World E) : Prop := uv w' = uv w ∧ tss w' = tss w ∧ ux w' = ux w ∧ reg w' = reg w.
Class EvmKeeperLaws (E : Type) `{EvmKeeper E} : Prop := {
  derived_call_frame ctx a n c w : frame w (DerivedEVMCall ctx a n c w).2;
  derived_call_ok ctx a n c w : ∃ out, (DerivedEVMCall ctx a n c w).1 = Ok out;
  getUEAForOrigin_read ctx a b w : (view_getUEAForOrigin ctx a b w).2 = w;
  getOriginForUEA_read ctx a b w : (view_getOriginForUEA ctx a b w).2 = w;
  gasPrice_read ctx c w : (view_gasPriceByChainNamespace ctx c w).2 = w;
  l1GasFee_read ctx c w : (view_l1GasFeeByChainNamespace ctx c w).2 = w;
  migrationGas_read ctx c w : (view_tssFundMigrationGasLimit ctx c w).2 = w;
  quoter_read ctx w : (view_uniswapV3Quoter ctx w).2 = w;
  wpc_read ctx w : (view_WPC ctx w).2 = w;
  feeTier_read ctx a w : (view_defaultFeeTier ctx a w).2 = w;
  quote_read ctx q a b f n w : (view_quoteExactInputSingle ctx q a b f n w).2 = w;
  gasAndFees_read ctx a n w : (view_getOutboundTxGasAndFees ctx a n w).2 = w;
  derived_call_receipt ctx a n c w out :
    (DerivedEVMCall ctx a n c w).1 = Ok out → rerr out = None → is_Some (rcpt out);
  feeTier_no_panic ctx a w e : (view_defaultFeeTier ctx a w).1 ≠ Panic e;
  quoter_no_panic ctx w e : (view_uniswapV3Quoter ctx w).1 ≠ Panic e;
  wpc_no_panic ctx w e : (view_WPC ctx w).1 ≠ Panic e;
  quote_no_panic ctx q a b f n w e : (view_quoteExactInputSingle ctx q a b f n w).1 ≠ Panic e;
  gasAndFees_no_panic ctx a n w e : (view_getOutboundTxGasAndFees ctx a n w).1 ≠ Panic e;
  send_frame a n w : frame w (SendCoinsFromAccountToModule a n w).2;
  burn_frame n w : frame w (BurnCoins n w).2;
}.

Section evm.
Context {E : Type} `{Bech32, CC : ChainCodecs, EC : EvmCodecs, EK : EvmKeeper E}.
Implicit Types ctx : Ctx.
#[local] Abbreviation M := (M (World E)).

(** ** ABI values *)
Definition NewAbiUniversalAccountId (a : UniversalAccountId) : res AbiUniversalAccountId :=
  owner ← HexToBytes (Owner a);
  mret (mkAbiUniversalAccountId (ChainNamespace a) (ChainId a) owner).
Definition NewAbiUniversalPayload (p : UniversalPayload) : res AbiUniversalPayload :=
  data ← HexToBytes (Data p);
  mret {| ApTo := HexToAddress (To p); ApValue := StringToBigInt (Value p); ApData := data;
          ApGasLimit := StringToBigInt (PayGasLimit p); ApMaxFeePerGas := StringToBigInt (MaxFeePerGas p);
          ApMaxPriorityFeePerGas := StringToBigInt (MaxPriorityFeePerGas p);
          ApNonce := StringToBigInt (Nonce p); ApDeadline := StringToBigInt (Deadline p);
          ApVType := VerificationType_num (VType p) mod 256 |}.
Definition NewAbiMigrationPayload (p : MigrationPayload) : res AbiMigrationPayload :=
  if decide (Migration p = "") then Err "invalid migration payload"
  else Ok (mkAbiMigrationPayload (HexToAddress (Migration p)) (StringToBigInt (MpNonce p))
             (StringToBigInt (MpDeadline p))).

(** ** The module account nonce *)
Definition GetModuleAccountNonce : M Z := n ← get_ux ModuleAccountNonce; mret (default 0 n).
Definition IncrementModuleAccountNonce : M Z :=
  nonce ← GetModuleAccountNonce;
  let newNonce := u64 (nonce + 1) in
  set_ux (λ s, s <| ModuleAccountNonce := Some newNonce |>) ;;
  mret newNonce.
Definition SetModuleAccountNonce (nonce : Z) : M unit :=
  set_ux (λ s, s <| ModuleAccountNonce := Some nonce |>).

(** A call sent by the module account: the nonce is taken first. *)
Definition module_call ctx (c : EvmCall) : M EvmOut :=
  nonce ← GetModuleAccountNonce;
  IncrementModuleAccountNonce ;;
  DerivedEVMCall ctx ue_module_address (Some nonce) c.

(** ** evm.go *)
Definition CallFactoryToGetUEAAddressForOrigin ctx (from : string) (a : UniversalAccountId) : M (string * bool) :=
  abi ← lift_res (wrap_res "failed to create universal account" (NewAbiUniversalAccountId a));
  view_getUEAForOrigin ctx from abi.
Definition CallFactoryGetOriginForUEA ctx (from uea : string) : M bool := view_getOriginForUEA ctx from uea.
Definition CallFactoryToDeployUEA ctx (from : string) (a : UniversalAccountId) : M EvmOut :=
  match wrap_res "failed to create universal account" (NewAbiUniversalAccountId a) with
  | Ok abi => DerivedEVMCall ctx from None (deployUEA abi)
  | Err e => mret (evm_err e)
  | Panic e => panic e
  end.
Definition CallUEAExecutePayload ctx (from uea : string) (p : UniversalPayload) (vd : list Z) : M EvmOut :=
  match wrap_res "failed to create universal payload" (NewAbiUniversalPayload p) with
  | Ok abi =>
      match big_SetString (PayGasLimit p) with
      | Some gasLimit => DerivedEVMCall ctx from None (uea_executeUniversalTx uea gasLimit abi vd)
      | None => mret (evm_err ("invalid gas limit: " +:+ PayGasLimit p))
      end
  | Err e => mret (evm_err e)
  | Panic e => panic e
  end.
Definition CallUEAMigrateUEA ctx (from uea : string) (p : MigrationPayload) (signature : list Z) : M EvmOut :=
  match wrap_res "failed to create universal payload" (NewAbiMigrationPayload p) with
  | Ok abi => DerivedEVMCall ctx from None (migrateUEA uea abi signature)
  | Err e => mret (evm_err e)
  | Panic e => panic e
  end.
Definition CallPRC20Deposit ctx (prc20 to : string) (amount : Z) : M EvmOut :=
  module_call ctx (depositPRC20Token prc20 amount to).
Definition CallUniversalCoreSetChainMeta ctx (chain : string) (price height : Z) : M EvmOut :=
  module_call ctx (setChainMeta chain price height).
Definition CallPRC20DepositAutoSwap ctx (prc20 to : string) (amount fee minPCOut : Z) : M EvmOut :=
  module_call ctx (depositPRC20WithAutoSwap prc20 amount to fee minPCOut).
Definition CallUniversalCoreRefundUnusedGas ctx (gasToken : string) (amount : Z) (recipient : string)
    (withSwap : bool) (fee minPCOut : Z) : M EvmOut :=
  module_call ctx (refundUnusedGas gasToken amount recipient withSwap fee minPCOut).
Definition CallExecuteUniversalTx ctx (recipient sourceChain cea : string) (payload : list Z) (amount : Z)
    (prc20 txId : string) : M EvmOut :=
  module_call ctx (executeUniversalTx recipient sourceChain cea payload amount prc20 txId).

(** gas_fee.go *)
Definition GetGasFeeInfoForRevertOutbound ctx (prc20Addr : string) : M (string * string * string * string) :=
  info ← wrap "failed to get gas fee info" (view_getOutboundTxGasAndFees ctx (HexToAddress prc20Addr) 0);
  let '(gasToken, gasFee, gasPrice, gasLimit) := info in
  mret (Address_Hex gasToken, fmt_d gasFee, fmt_d gasPrice, fmt_d gasLimit).

(** 95% of a quote, the slippage bound of every swap. *)
Definition min_out (quote : Z) : Z := quote * 95 / 100.

Definition gasAndPayloadDepositAutoSwap ctx (prc20 uea : string) (amount : Z) : M EvmOut :=
  r ← attempt (
    quoterAddr ← view_uniswapV3Quoter ctx;
    wpcAddr ← view_WPC ctx;
    fee ← view_defaultFeeTier ctx prc20;
    quote ← view_quoteExactInputSingle ctx quoterAddr prc20 wpcAddr fee amount;
    mret (fee, quote));
  match r with
  | Ok (fee, quote) => CallPRC20DepositAutoSwap ctx prc20 uea amount fee (min_out quote)
  | Err e => mret (evm_err e)
  | Panic e => panic e
  end.

(** handler.go *)
Definition depositPRC20 ctx (sourceChain assetAddr recipient amountStr : string) : M EvmOut :=
  r ← attempt (
    tokenConfig ← GetTokenConfig sourceChain assetAddr;
    native ← lift_option (Reg.NativeRepresentationOf tokenConfig)
               ("token config for " +:+ sourceChain +:+ ":" +:+ assetAddr +:+ " has no native representation");
    amount ← lift_option (big_SetString amountStr) ("invalid amount: " +:+ amountStr);
    mret (HexToAddress (Reg.ContractAddress native), amount));
  match r with
  | Ok (prc20, amount) => CallPRC20Deposit ctx prc20 recipient amount
  | Err e => mret (evm_err e)
  | Panic e => panic e
  end.

(** deploy_uea.go: an error drops the receipt *)
Definition DeployUEAV2 ctx (from : string) (a : UniversalAccountId) : M EvmOut :=
  out ← CallFactoryToDeployUEA ctx from a;
  match rerr out with Some e => mret (evm_err e) | None => mret out end.

(** ** fees.go *)
Definition CalculateGasCost (baseFee : Z) (maxFeePerGas : option Z) (gasUsed : Z) : res Z :=
  let baseFeeBig := baseFee / 10 ^ 18 in
  maxFee ← deref_res maxFeePerGas;
  check (bool_decide (baseFeeBig ≤ maxFee)) "maxFeePerGas cannot be less than baseFee" ;;
  mret (baseFeeBig * gasUsed).

(** [sdkmath.NewIntFromBigInt] panics above 256 bits. *)
Definition DeductAndBurnFees (from : string) (gasCost : Z) : M unit :=
  (if decide (gasCost < 2 ^ 256) then mret tt else panic "NewIntFromBigInt() out of bound") ;;
  SendCoinsFromAccountToModule from gasCost ;;
  BurnCoins gasCost.

Definition DeductGasFeesFromReceipt (recipient : string) (receipt : option Receipt)
    (universalPayload : option UniversalPayload) : M unit :=
  match receipt, universalPayload with
  | Some receipt, Some payload =>
      if decide (RcGasUsed receipt = 0) then mret tt
      else
        abiPayload ← wrap "failed to parse payload for gas deduction" (lift_res (NewAbiUniversalPayload payload));
        fee ← gets GetBaseFee;
        baseFee ← lift_option fee "base fee not found";
        gasCost ← wrap "failed to calculate gas cost"
                    (lift_res (CalculateGasCost baseFee (ApMaxFeePerGas abiPayload) (RcGasUsed receipt)));
        if decide (gasCost ≤ 0) then mret tt
        else
          gasLimit ← deref (ApGasLimit abiPayload);
          require (bool_decide (RcGasUsed receipt ≤ gasLimit)) "gas used exceeds gas limit" ;;
          wrap "insufficient gas" (DeductAndBurnFees recipient gasCost)
  | _, _ => mret tt
  end.

(** execute_payload.go: the call and the fee are one cache context, written back
    only when both succeed. *)
Definition execute_and_charge ctx (evmFrom uea : string) (payload : UniversalPayload) (vd : list Z)
    : M (EvmOut * res unit) :=
  out ← CallUEAExecutePayload ctx evmFrom uea payload vd;
  fee ← attempt (DeductGasFeesFromReceipt uea (rcpt out) (Some payload));
  mret (out, fee).
Definition execute_cached ctx (evmFrom uea : string) (payload : UniversalPayload) (vd : list Z) : M EvmOut :=
  λ w,
    match execute_and_charge ctx evmFrom uea payload vd w with
    | (Ok (out, Ok _), w') =>
        match rerr out, rcpt out with
        | None, Some _ => (Ok out, w')
        | None, None => (Panic "invalid memory address or nil pointer dereference", w')   (* receipt.Hash *)
        | Some _, _ => (Ok out, w)
        end
    | (Ok (out, Err e), _) => (Ok (mkEvmOut (rcpt out) (Some ("gas fee deduction failed: " +:+ e))), w)
    | (Ok (_, Panic e), _) => (Panic e, w)
    | (Err e, _) => (Err e, w)
    | (Panic e, _) => (Panic e, w)
    end.
Definition ExecutePayloadV2 ctx (evmFrom uea : string) (universalPayload : option UniversalPayload)
    (verificationData : string) : M EvmOut :=
  payload ← deref universalPayload;
  match NewAbiUniversalPayload payload with
  | Err e => mret (evm_err ("invalid universal payload: " +:+ e))
  | Panic e => panic e
  | Ok _ =>
      match HexToBytes verificationData with
      | Err e => mret (evm_err ("invalid verificationData format: " +:+ e))
      | Panic e => panic e
      | Ok vd => execute_cached ctx evmFrom uea payload vd
      end
  end.
End evm.

(** ** What a call leaves alone

    A call sent by the module account changes the EVM's state and the account's
    nonce, nothing else. *)
Definition calm {E} (w w' : World E) : Prop :=
  uv w' = uv w ∧ tss w' = tss w ∧ reg w' = reg w ∧ ux w' = (ux w) <| ModuleAccountNonce := ModuleAccountNonce (ux w') |>.
#[global] Instance calm_preorder E : PreOrder (@calm E).
Proof.
  split.
  - intros w. split_and!; try done. by destruct (ux w).
  - intros w1 w2 w3 (? & ? & ? & Hx) (? & ? & ? & Hy). split_and!; [congruence..|].
    rewrite Hy at 1. by rewrite Hx.
Qed.
Lemma frame_calm {E} (w w' : World E) : frame w w' → calm w w'.
Proof. intros (? & ? & Hx & ?). split_and!; try done. rewrite Hx. by destruct (ux w). Qed.
Lemma calm_nonce {E} (w : World E) n : calm w (w <| ux ::= λ s, s <| ModuleAccountNonce := n |> |>).
Proof. done. Qed.

Section calls.
Context {E : Type} `{EC : EvmCodecs, EK : EvmKeeper E, !EvmKeeperLaws E}.
Implicit Types (ctx : Ctx) (w : World E).

(** A call returns, with a receipt or an error; the nonce it used is spent. *)
Lemma module_call_run ctx c w :
  ∃ out w', module_call ctx c w = (Ok out, w') ∧ calm w w' ∧ (rerr out = None → is_Some (rcpt out)) ∧
    ModuleAccountNonce (ux w') = Some (u64 (default 0 (ModuleAccountNonce (ux w)) + 1)).
Proof.
  unfold module_call, IncrementModuleAccountNonce, GetModuleAccountNonce. mrun.
  set (w0 := upd ux _ w).
  match goal with |- context [DerivedEVMCall ctx ?a ?n c w0] =>
    destruct (derived_call_ok ctx a n c w0) as [out Ho]; pose proof (derived_call_frame ctx a n c w0) as Hf;
    pose proof (derived_call_receipt ctx a n c w0 out Ho) as Hr;
    destruct (DerivedEVMCall ctx a n c w0) as [r w1] end.
  cbn [fst snd] in Ho, Hf. subst r. exists out, w1. split_and!; [done| |done|].
  - etrans; [apply (calm_nonce w)|]. by apply frame_calm.
  - destruct Hf as (_ & _ & -> & _). done.
Qed.
End calls.
