(* ===== verification/UxOutbound.v ===== *)
(** * x/uexecutor: universal transactions and their outbounds

    [keeper/universal_tx.go], [keeper/create_outbound.go], [keeper/outbound.go],
    [keeper/pending_outbound.go], [keeper/pending_outbound_query.go],
    [keeper/msg_vote_outbound.go], [keeper/build_revert_outbound.go] and
    [keeper/evm_hooks.go].  An outbound is created with the universal transaction
    that causes it, waits in the pending index until validators agree on its
    result, and is then observed, reverted or aborted. *)
From S2P Require Import Prelude GoStrings UvTypes TssTypes UxTypes RegTypes World Canonical.
From S2P Require Import UvValidator UvBallot Registry Utss UxKeys UxPayload UxEvm.
From Stdlib Require Import Ascii.
Import Ux.

Definition VotesThresholdNumerator : Z := 2.
Definition VotesThresholdDenominator : Z := 3.
Definition DefaultExpiryAfterBlocks : Z := 100000000.
(** [SYSTEM_CONTRACTS["UNIVERSAL_GATEWAY_PC"].Address] *)
Definition UNIVERSAL_GATEWAY_PC : string := "0x00000000000000000000000000000000000000C1".

Record UniversalTxOutboundEvent := mkUniversalTxOutboundEvent {
  EvTxID : string; EvSender : string; EvChainId : string; EvToken : string; EvTarget : string; EvAmount : Z;
  EvGasToken : string; EvGasFee : Z; EvGasLimit : Z; EvPayload : string; EvProtocolFee : Z;
  EvRevertRecipient : string; EvTxType : TxType; EvGasPrice : Z }.
Record RescueFundsOnSourceChainEvent := mkRescueFundsOnSourceChainEvent {
  RvUniversalTxId : string; RvPRC20 : string; RvChainNamespace : string; RvSender : string;
  RvTxType : TxType; RvGasFee : Z; RvGasPrice : Z; RvGasLimit : Z }.

(** [strings.Split(s, sep)] on one byte *)
Fixpoint split_byte (sep : ascii) (l : bytes) : list bytes :=
  match l with
  | [] => [[]]
  | c :: l' =>
      match split_byte sep l' with
      | p :: ps => if decide (c = sep) then [] :: p :: ps else (c :: p) :: ps
      | [] => [[c]]
      end
  end.
(** [utils.ExtractEvmChainID] *)
Definition ExtractEvmChainID (chainID : string) : res string :=
  match split_byte "_"%char (to_bytes chainID) with
  | [_; idPart] =>
      match split_byte "-"%char idPart with
      | [] => Err "invalid chain-id format"
      | evmChainID :: _ =>
          let id := of_bytes evmChainID in
          match big_SetString id with
          | Some _ => Ok id
          | None => Err "invalid EVM chain id in tendermint chain-id"
          end
      end
  | _ => Err "invalid chain-id format"
  end.

Section operations.
Context {E : Type} `{Bech32, CC : ChainCodecs, EC : EvmCodecs, SK : StakingKeeper, BH : BallotHooks E,
  SH : Sha256, EK : EvmKeeper E}.
Implicit Types ctx : Ctx.
#[local] Abbreviation M := (M (World E)).

(** ** universal_tx.go *)
Definition HasUniversalTx (key : string) : M bool :=
  get_ux (λ s, bool_decide (is_Some (UniversalTxs s !! key))).
Definition GetUniversalTx (key : string) : M (option UniversalTx) :=
  s ← get_ux UniversalTxs; mret (s !! key).
Definition CreateUniversalTx (key : string) (utx : UniversalTx) : M unit :=
  exists_ ← HasUniversalTx key;
  require (negb exists_) ("universal tx with key " +:+ key +:+ " already exists") ;;
  set_ux (λ s, s <| UniversalTxs ::= insert key utx |>).
Definition UpdateUniversalTx (key : string) (updateFn : UniversalTx → M UniversalTx) : M unit :=
  s ← get_ux UniversalTxs;
  utx ← lift_option (s !! key) ("universal tx with key " +:+ key +:+ " not found");
  utx' ← updateFn utx;
  set_ux (λ s, s <| UniversalTxs ::= insert key utx' |>).
Definition add_pc_tx (pc : PCTx) (utx : UniversalTx) : M UniversalTx := mret (utx <| PcTx ::= (.++ [pc]) |>).
Definition set_revert_error (e : error) (utx : UniversalTx) : M UniversalTx := mret (utx <| RevertError := e |>).

Definition push_caip ctx : res string :=
  evmChainID ← ExtractEvmChainID (ChainID ctx); mret ("eip155:" +:+ evmChainID).
Definition BuildPcUniversalTxKey ctx (pc : PCTx) : res string :=
  pcCaip ← push_caip ctx; mret (GetPcUniversalTxKey pcCaip pc).

(** ** Gateway events (types/gateway_pc_event_decode.go) *)
Definition DecodeUniversalTxOutboundFromLog (lg : EvmLog) : res UniversalTxOutboundEvent :=
  match Topics lg with
  | sig :: rest =>
      if decide (sig = UniversalTxOutboundEventSig) then
        match rest with
        | t1 :: t2 :: t3 :: _ =>
            v ← wrap_res "failed to unpack UniversalTxOutbound" (unpack_outbound_event (LogData lg));
            mret {| EvTxID := t1; EvSender := Address_Hex (HexToAddress t2); EvToken := Address_Hex (HexToAddress t3);
                    EvChainId := OeChainId v; EvTarget := hex_string (OeTarget v); EvAmount := OeAmount v;
                    EvGasToken := Address_Hex (OeGasToken v); EvGasFee := OeGasFee v; EvGasLimit := OeGasLimit v;
                    EvPayload := hex_string (OePayload v); EvProtocolFee := OeProtocolFee v;
                    EvRevertRecipient := Address_Hex (OeRevertRecipient v);
                    EvTxType := SolidityTxTypeToProto (OeTxType v); EvGasPrice := OeGasPrice v |}
        | _ => Err "insufficient topics"
        end
      else Err "not a UniversalTxOutbound event"
  | [] => Err "not a UniversalTxOutbound event"
  end.
Definition DecodeRescueFundsOnSourceChainFromLog (lg : EvmLog) : res RescueFundsOnSourceChainEvent :=
  match Topics lg with
  | sig :: t1 :: t2 :: t3 :: _ =>
      if decide (ToLower sig = ToLower RescueFundsOnSourceChainEventSig) then
        v ← wrap_res "failed to unpack RescueFundsOnSourceChain data" (unpack_rescue_event (LogData lg));
        mret {| RvUniversalTxId := t1; RvPRC20 := Address_Hex (HexToAddress t2);
                RvSender := Address_Hex (HexToAddress t3); RvChainNamespace := ReChainNamespace v;
                RvTxType := SolidityTxTypeToProto (ReTxType v); RvGasFee := ReGasFee v;
                RvGasPrice := ReGasPrice v; RvGasLimit := ReGasLimit v |}
      else Err "not a RescueFundsOnSourceChain event"
  | _ => Err "RescueFundsOnSourceChain: need 4 topics"
  end.

(** A log the gateway emitted under a signature. *)
Definition gateway_log (sig : string) (lg : EvmLog) : bool :=
  negb (Removed lg) && bool_decide (ToLower (LogAddress lg) = ToLower UNIVERSAL_GATEWAY_PC) &&
  match Topics lg with
  | [] => false
  | t :: _ => bool_decide (ToLower t = ToLower sig)
  end.

(** ** create_outbound.go *)
Definition outbound_of_event (txHash : string) (lg : EvmLog) (event : UniversalTxOutboundEvent)
    (tokenCfg : Reg.TokenConfig) : OutboundTx :=
  {| DestinationChain := EvChainId event; ObRecipient := EvTarget event; ObAmount := fmt_d (EvAmount event);
     ExternalAssetAddr := Reg.TokAddress tokenCfg; Prc20AssetAddr := EvToken event; ObSender := EvSender event;
     Payload := EvPayload event; GasLimit := fmt_d (EvGasLimit event); ObTxType := EvTxType event;
     OrigPcTx := Some (mkOriginatingPcTx txHash (fmt_d (Index lg))); ObservedTx := None;
     ObId := TrimPrefix0x (EvTxID event); OutboundStatus := PENDING;
     ObRevertInstructions := Some (mkRevertInstructions (EvRevertRecipient event)); PcRevertExecution := None;
     GasPrice := fmt_d (EvGasPrice event); GasFee := fmt_d (EvGasFee event); PcRefundExecution := None;
     RefundSwapError := ""; GasToken := EvGasToken event; AbortReason := "" |}.
Fixpoint outbounds_of_logs (txHash : string) (logs : list EvmLog) : M (list OutboundTx) :=
  match logs with
  | [] => mret []
  | lg :: logs' =>
      if gateway_log UniversalTxOutboundEventSig lg then
        event ← wrap "failed to decode UniversalTxWithdraw" (lift_res (DecodeUniversalTxOutboundFromLog lg));
        outboundEnabled ← IsChainOutboundEnabled (EvChainId event);
        require outboundEnabled ("outbound is disabled for chain " +:+ EvChainId event) ;;
        tokenCfg ← GetTokenConfigByPRC20 (EvChainId event) (EvToken event);
        rest ← outbounds_of_logs txHash logs';
        mret (outbound_of_event txHash lg event tokenCfg :: rest)
      else outbounds_of_logs txHash logs'
  end.
Definition BuildOutboundsFromReceipt (receipt : Receipt) : M (list OutboundTx) :=
  outbounds_of_logs (Hash receipt) (Logs receipt).

(** The signature deadline of an outbound: zero when its chain has none. *)
Definition signing_deadline ctx (chain : string) : M Z :=
  cfg ← attempt (GetChainConfig chain);
  mret (match cfg with
        | Ok c => match Reg.TssSigningDeadline c with
                  | Some d => if decide (0 < d) then i64 (BlockTime ctx + Duration_Seconds d) else 0
                  | None => 0
                  end
        | _ => 0
        end).
Fixpoint attach_all ctx (utxId : string) (outbounds : list OutboundTx) (utx : UniversalTx) : M UniversalTx :=
  match outbounds with
  | [] => mret utx
  | outbound :: rest =>
      let utx := utx <| OutboundTxs ::= (.++ [outbound]) |> in
      signingDeadline ← signing_deadline ctx (DestinationChain outbound);
      set_ux (λ s, s <| PendingOutbounds ::= insert (ObId outbound)
        (mkPendingOutboundEntry (ObId outbound) utxId (BlockHeight ctx) signingDeadline []) |>) ;;
      attach_all ctx utxId rest utx
  end.
Definition attachOutboundsToUtx ctx (utxId : string) (outbounds : list OutboundTx) : M unit :=
  match outbounds with
  | [] => mret tt
  | _ => UpdateUniversalTx utxId (attach_all ctx utxId outbounds)
  end.
(** [if attachErr := attach(...); attachErr != nil { store it }] *)
Definition or_store_error (utxId : string) (m : M unit) : M unit :=
  r ← attempt m;
  match r with Err e => UpdateUniversalTx utxId (set_revert_error e) | _ => mret tt end.

Definition CreateUniversalTxFromPCTx ctx (pcTx : PCTx) : M UniversalTx :=
  universalTxKey ← wrap "failed to create UniversalTx key" (lift_res (BuildPcUniversalTxKey ctx pcTx));
  found ← HasUniversalTx universalTxKey;
  require (negb found) ("universal tx already exists for pc tx " +:+ PcTxHash pcTx) ;;
  let utx := mkUniversalTx universalTxKey None [pcTx] [] "" in
  CreateUniversalTx universalTxKey utx ;;
  mret utx.
Definition AttachOutboundsToExistingUniversalTx ctx (receipt : Receipt) (utx : UniversalTx) : M unit :=
  outbounds ← BuildOutboundsFromReceipt receipt;
  attachOutboundsToUtx ctx (UtxId utx) outbounds.
Definition CreateUniversalTxFromReceiptIfOutbound ctx (receipt : Receipt) (pcTx : PCTx) : M unit :=
  wrap "failed to create UniversalTx key" (lift_res (BuildPcUniversalTxKey ctx pcTx)) ;;
  outbounds ← BuildOutboundsFromReceipt receipt;
  match outbounds with
  | [] => mret tt
  | _ =>
      utx ← CreateUniversalTxFromPCTx ctx pcTx;
      attachOutboundsToUtx ctx (UtxId utx) outbounds
  end.

(** Rescue: the funds of an inbound are stuck on its source chain when its
    deposit failed (CEA) or when its revert outbound was itself reverted. *)
Definition refund_recipient (fallback : string) (ri : option RevertInstructions) : string :=
  match ri with
  | Some r => if decide (FundRecipient r = "") then fallback else FundRecipient r
  | None => fallback
  end.
Definition rescue_eligible (utx : UniversalTx) (inbound : Inbound) : bool :=
  if IsCEA inbound then
    match PcTx utx with pc :: _ => bool_decide (PcStatus pc = "FAILED") | [] => false end
  else
    existsb (λ ob, bool_decide (ObTxType ob = INBOUND_REVERT) && bool_decide (OutboundStatus ob = REVERTED))
      (OutboundTxs utx).
Definition active_rescue (ob : OutboundTx) : bool :=
  bool_decide (ObTxType ob = RESCUE_FUNDS) &&
  (bool_decide (OutboundStatus ob = PENDING) || bool_decide (OutboundStatus ob = OBSERVED)).
Definition rescue_outbound (pushChainCaip : string) (receipt : Receipt) (lg : EvmLog)
    (event : RescueFundsOnSourceChainEvent) (inbound : Inbound) (tokenCfg : Reg.TokenConfig) : OutboundTx :=
  let logIndex := fmt_d (Index lg) in
  {| DestinationChain := SourceChain inbound;
     ObRecipient := refund_recipient (Sender inbound) (RevertInstructionsOf inbound);
     ObAmount := Amount inbound; ExternalAssetAddr := Reg.TokAddress tokenCfg; Prc20AssetAddr := RvPRC20 event;
     ObSender := RvSender event; Payload := ""; GasLimit := fmt_d (RvGasLimit event); ObTxType := RESCUE_FUNDS;
     OrigPcTx := Some (mkOriginatingPcTx (Hash receipt) logIndex); ObservedTx := None;
     ObId := GetRescueFundsOutboundId pushChainCaip (Hash receipt) logIndex; OutboundStatus := PENDING;
     ObRevertInstructions := None; PcRevertExecution := None; GasPrice := fmt_d (RvGasPrice event);
     GasFee := fmt_d (RvGasFee event); PcRefundExecution := None; RefundSwapError := ""; GasToken := "";
     AbortReason := "" |}.
Definition attach_rescue ctx (pushChainCaip : string) (receipt : Receipt) (pcTx : PCTx) (lg : EvmLog) : M unit :=
  if gateway_log RescueFundsOnSourceChainEventSig lg then
    event ← wrap "failed to decode RescueFundsOnSourceChain" (lift_res (DecodeRescueFundsOnSourceChainFromLog lg));
    let originalUtxId := TrimPrefix0x (RvUniversalTxId event) in
    found ← GetUniversalTx originalUtxId;
    originalUtx ← lift_option found ("rescue: original UTX " +:+ originalUtxId +:+ " not found");
    inbound ← lift_option (InboundTx originalUtx) ("rescue: UTX " +:+ originalUtxId +:+ " has no inbound tx");
    require (rescue_eligible originalUtx inbound) ("rescue: UTX " +:+ originalUtxId +:+ " is not eligible") ;;
    require (negb (existsb active_rescue (OutboundTxs originalUtx)))
      ("rescue: UTX " +:+ originalUtxId +:+ " already has an active rescue outbound") ;;
    tokenCfg ← wrap "rescue: token config not found" (GetTokenConfigByPRC20 (SourceChain inbound) (RvPRC20 event));
    let outbound := rescue_outbound pushChainCaip receipt lg event inbound tokenCfg in
    wrap "rescue: failed to record PCTx" (UpdateUniversalTx originalUtxId (add_pc_tx pcTx)) ;;
    wrap "rescue: failed to attach outbound" (attachOutboundsToUtx ctx originalUtxId [outbound])
  else mret tt.
Definition AttachRescueOutboundFromReceipt ctx (receipt : Receipt) (pcTx : PCTx) : M unit :=
  pushChainCaip ← wrap "rescue: failed to extract EVM chain ID" (lift_res (push_caip ctx));
  for_each (attach_rescue ctx pushChainCaip receipt pcTx) (Logs receipt).

(** evm_hooks.go; [nil] and empty logs return at once *)
Definition PostTxProcessing ctx (sender : string) (receipt : Receipt) : M unit :=
  match Logs receipt with
  | [] => mret tt
  | _ =>
      let pcTx := {| PcTxHash := Hash receipt; PcSender := Address_Hex sender; GasUsed := RcGasUsed receipt;
                     PcBlockHeight := u64 (BlockHeight ctx); PcStatus := "SUCCESS"; PcErrorMsg := "" |} in
      CreateUniversalTxFromReceiptIfOutbound ctx receipt pcTx ;;
      AttachRescueOutboundFromReceipt ctx receipt pcTx
  end.

(** ** build_revert_outbound.go *)
Definition revert_outbound (inbound : Inbound) : OutboundTx :=
  empty_OutboundTx <| DestinationChain := SourceChain inbound |>
    <| ObRecipient := refund_recipient (Sender inbound) (RevertInstructionsOf inbound) |>
    <| ObAmount := Amount inbound |> <| ExternalAssetAddr := AssetAddr inbound |>
    <| ObSender := Sender inbound |> <| ObTxType := INBOUND_REVERT |> <| OutboundStatus := PENDING |>
    <| ObId := GetOutboundRevertId (SourceChain inbound) (TxHash inbound) (LogIndex inbound) |>.
Definition buildRevertOutbound ctx (inbound : Inbound) : M OutboundTx :=
  let outbound := revert_outbound inbound in
  cfg ← attempt (GetTokenConfig (SourceChain inbound) (AssetAddr inbound));
  let prc20 := match cfg with
               | Ok c => match Reg.NativeRepresentationOf c with
                         | Some n => if decide (Reg.ContractAddress n = "") then None else Some (Reg.ContractAddress n)
                         | None => None
                         end
               | _ => None
               end in
  match prc20 with
  | None => mret outbound
  | Some prc20 =>
      r ← attempt (GetGasFeeInfoForRevertOutbound ctx prc20);
      mret (match r with
            | Ok (gasToken, gasFee, gasPrice, gasLimit) =>
                outbound <| GasToken := gasToken |> <| GasFee := gasFee |> <| GasPrice := gasPrice |>
                         <| GasLimit := gasLimit |>
            | _ => outbound
            end)
  end.
End operations.
