(* ===== verification/UxSettle.v ===== *)
(** * x/uexecutor: observing and settling an outbound

    [keeper/outbound.go], [keeper/pending_outbound.go],
    [keeper/pending_outbound_query.go], [keeper/voting.go] and
    [keeper/msg_vote_outbound.go].  Validators vote on what happened on the
    destination chain; the deciding vote moves the outbound from PENDING to
    OBSERVED, re-mints the funds of a failed transfer and refunds the unused
    gas. *)
From S2P Require Import Prelude GoStrings UvTypes TssTypes UxTypes RegTypes World Canonical.
From S2P Require Import UvValidator UvBallot Registry Utss UxKeys UxPayload UxEvm UxOutbound.
Import Ux.

Section operations.
Context {E : Type} `{Bech32, CC : ChainCodecs, EC : EvmCodecs, SK : StakingKeeper, BH : BallotHooks E,
  SH : Sha256, EK : EvmKeeper E}.
Implicit Types ctx : Ctx.
#[local] Abbreviation M := (M (World E)).

(** ** outbound.go *)
Definition with_id (id : string) (ob : OutboundTx) : bool := bool_decide (ObId ob = id).
(** The first outbound with the id of [ob] becomes [ob]; an empty list decodes to nil. *)
Definition replace_outbound (utxId : string) (ob : OutboundTx) (utx : UniversalTx) : M UniversalTx :=
  match OutboundTxs utx with
  | [] => throw ("outbound tx list is not initialized for utx " +:+ utxId)
  | _ =>
      match find_index (with_id (ObId ob)) (OutboundTxs utx) with
      | Some i => mret (utx <| OutboundTxs ::= <[i := ob]> |>)
      | None => throw ("outbound with id " +:+ ObId ob +:+ " not found in utx " +:+ utxId)
      end
  end.
Definition UpdateOutbound (utxId : string) (outbound : OutboundTx) : M unit :=
  UpdateUniversalTx utxId (replace_outbound utxId outbound).

Definition AbortOutbound (utxId : string) (outbound : OutboundTx) (reason : string) : M unit :=
  UpdateOutbound utxId (outbound <| OutboundStatus := ABORTED |> <| AbortReason := reason |>) ;;
  set_ux (λ s, s <| PendingOutbounds ::= delete (ObId outbound) |>).

Definition getSwapQuoteForRefund ctx (gasToken : string) (fee amount : Z) : M Z :=
  quoterAddr ← view_uniswapV3Quoter ctx;
  wpcAddr ← view_WPC ctx;
  view_quoteExactInputSingle ctx quoterAddr gasToken wpcAddr fee amount.

(** The refund of unused gas: [None] when there is nothing to refund. *)
Definition refund_amount (outbound : OutboundTx) (obs : OutboundObservation) : option Z :=
  if decide (GasFeeUsed obs = "" ∨ GasFee outbound = "" ∨ GasToken outbound = "") then None
  else gasFee ← big_SetString (GasFee outbound);
       gasFeeUsed ← big_SetString (GasFeeUsed obs);
       if decide (gasFee ≤ gasFeeUsed) then None else Some (gasFee - gasFeeUsed).

Definition succeeded_tx (pc : PCTx) (resp : Receipt) : PCTx :=
  pc <| PcTxHash := Hash resp |> <| GasUsed := RcGasUsed resp |> <| PcStatus := "SUCCESS" |>.
Definition failed_tx (pc : PCTx) (e : error) : PCTx :=
  pc <| PcStatus := "FAILED" |> <| PcErrorMsg := e |>.

(** Step 1, through the swap: the record of the refund, or why it fell back. *)
Definition refund_with_swap ctx (gasToken : string) (refundAmount : Z) (recipientAddr : string) (pc : PCTx)
    : M (PCTx + string) :=
  feeTier ← attempt (view_defaultFeeTier ctx gasToken);
  match feeTier with
  | Ok fee =>
      q ← attempt (getSwapQuoteForRefund ctx gasToken fee refundAmount);
      match q with
      | Ok quote =>
          out ← CallUniversalCoreRefundUnusedGas ctx gasToken refundAmount recipientAddr true fee (min_out quote);
          match rerr out with
          | None => resp ← deref (rcpt out); mret (inl (succeeded_tx pc resp))
          | Some e => mret (inr ("swap refund failed: " +:+ e))
          end
      | Err e => mret (inr ("quote fetch failed: " +:+ e))
      | Panic e => panic e
      end
  | Err e => mret (inr ("fee tier fetch failed: " +:+ e))
  | Panic e => panic e
  end.

Definition applyGasRefund ctx (outbound : OutboundTx) (obs : OutboundObservation) : M OutboundTx :=
  match refund_amount outbound obs with
  | None => mret outbound
  | Some refundAmount =>
      let gasToken := HexToAddress (GasToken outbound) in
      let recipientAddr := HexToAddress (refund_recipient (ObSender outbound) (ObRevertInstructions outbound)) in
      let refundPcTx := empty_PCTx <| PcSender := ObSender outbound |>
                          <| PcBlockHeight := u64 (BlockHeight ctx) |> in
      swap ← refund_with_swap ctx gasToken refundAmount recipientAddr refundPcTx;
      match swap with
      | inl pc => mret (outbound <| PcRefundExecution := Some pc |>)
      | inr swapFallbackReason =>
          out ← CallUniversalCoreRefundUnusedGas ctx gasToken refundAmount recipientAddr false 0 0;
          pc ← match rerr out with
               | Some e => mret (failed_tx refundPcTx e)
               | None => resp ← deref (rcpt out); mret (succeeded_tx refundPcTx resp)
               end;
          mret (outbound <| PcRefundExecution := Some pc |> <| RefundSwapError := swapFallbackReason |>)
      end
  end.

(** The transfers whose funds are re-minted when they fail. *)
Definition reminted (t : TxType) : bool :=
  bool_decide (t = FUNDS) || bool_decide (t = GAS_AND_PAYLOAD) || bool_decide (t = FUNDS_AND_PAYLOAD).
Definition mark_reverted ctx (utxId : string) (outbound : OutboundTx) (obs : OutboundObservation) : M unit :=
  outbound' ← applyGasRefund ctx (outbound <| OutboundStatus := REVERTED |>) obs;
  UpdateOutbound utxId outbound'.
Definition handleFailedOutbound ctx (utxId : string) (outbound : OutboundTx) (obs : OutboundObservation) : M unit :=
  if reminted (ObTxType outbound) then
    let recipient := refund_recipient (ObSender outbound) (ObRevertInstructions outbound) in
    amount ← lift_option (big_SetString (ObAmount outbound)) ("invalid amount: " +:+ ObAmount outbound);
    out ← CallPRC20Deposit ctx (HexToAddress (Prc20AssetAddr outbound)) (HexToAddress recipient) amount;
    let pcTx := empty_PCTx <| PcSender := ObSender outbound |> <| PcBlockHeight := u64 (BlockHeight ctx) |>
                  <| PcTxHash := from_option Hash "" (rcpt out) |>
                  <| GasUsed := from_option RcGasUsed 0 (rcpt out) |> in
    match rerr out with
    | Some e =>
        AbortOutbound utxId (outbound <| PcRevertExecution := Some (failed_tx pcTx e) |>)
          ("failed to re-mint tokens for revert: " +:+ e)
    | None =>
        receipt ← deref (rcpt out);
        mark_reverted ctx utxId (outbound <| PcRevertExecution := Some (succeeded_tx pcTx receipt) |>) obs
    end
  else mark_reverted ctx utxId outbound obs.

Definition handleSuccessfulOutbound ctx (utxId : string) (outbound : OutboundTx) (obs : OutboundObservation) : M unit :=
  outbound' ← applyGasRefund ctx outbound obs;
  UpdateOutbound utxId outbound'.

Definition FinalizeOutbound ctx (utxId : string) (outbound : OutboundTx) : M unit :=
  if decide (OutboundStatus outbound ≠ OBSERVED) then mret tt
  else match ObservedTx outbound with
       | None => mret tt
       | Some obs =>
           if Success obs then handleSuccessfulOutbound ctx utxId outbound obs
           else handleFailedOutbound ctx utxId outbound obs
       end.

(** ** pending_outbound.go *)
Definition add_voter (voter : string) (voters : list string) : list string :=
  if bool_decide (voter ∈ voters) then voters else voters ++ [voter].
Definition add_outbound_vote (height : Z) (observedTx : OutboundObservation) (voter ballotID : string)
    (vs : list OutboundObservationVariant) : list OutboundObservationVariant :=
  match find_index (λ v, bool_decide (ObsBallotId v = ballotID)) vs with
  | None => vs ++ [mkOutboundObservationVariant ballotID observedTx [voter] height height]
  | Some i => alter (λ v, v <| ObsVoters ::= add_voter voter |> <| ObsLastVotedAtHeight := height |>) i vs
  end.
Definition RecordOutboundVote ctx (outboundID : string) (observedTx : OutboundObservation)
    (voter ballotID : string) : M unit :=
  let height := u64 (BlockHeight ctx) in
  s ← get_ux PendingOutbounds;
  entry ← lift_option (s !! outboundID) ("pending outbound entry missing for " +:+ outboundID);
  set_ux (λ s, s <| PendingOutbounds ::=
    insert outboundID (entry <| ObsVariants ::= add_outbound_vote height observedTx voter ballotID |>) |>).

(** ** pending_outbound_query.go *)
Definition pending_on_chain (utxs : gmap string UniversalTx) (chain : string)
    (p : string * PendingOutboundEntry) : bool :=
  match utxs !! UniversalTxId p.2 with
  | None => false
  | Some utx => existsb (λ ob, bool_decide (DestinationChain ob = chain) && bool_decide (ObId ob = p.1))
                  (OutboundTxs utx)
  end.
Definition HasPendingOutboundsForChain (chain : string) : M bool :=
  get_ux (λ s, existsb (pending_on_chain (UniversalTxs s) chain) (walk (PendingOutbounds s))).

(** ** voting.go *)
Definition votes_needed (voters : list string) : Z :=
  VotesThresholdNumerator * Z.of_nat (length voters) / VotesThresholdDenominator + 1.
Definition vote_with_quorum ctx (universalValidator ballotKey : string) (ty : Ballot.BallotObservationType)
    : M (bool * bool) :=
  universalValidatorSet ← GetEligibleVoters;
  voters ← core_addresses universalValidatorSet;
  r ← VoteOnBallot ctx ballotKey ty (ValAddress_String universalValidator) Ballot.VOTE_RESULT_SUCCESS
        voters (votes_needed voters) DefaultExpiryAfterBlocks;
  let '(_, isFinalized, isNew) := r in
  mret (isFinalized, isNew).
Definition VoteOnInboundBallot ctx (universalValidator : string) (inbound : Inbound) : M (bool * bool) :=
  vote_with_quorum ctx universalValidator (GetInboundBallotKey inbound) Ballot.BALLOT_OBSERVATION_TYPE_INBOUND_TX.
Definition VoteOnOutboundBallot ctx (universalValidator utxId outboundId : string)
    (observedTx : OutboundObservation) : M (bool * bool) :=
  vote_with_quorum ctx universalValidator (GetOutboundBallotKey utxId outboundId observedTx)
    Ballot.BALLOT_OBSERVATION_TYPE_OUTBOUND_TX.

(** ** msg_vote_outbound.go *)
Definition canonical_observation (chain : string) (o : OutboundObservation) : OutboundObservation :=
  o <| ObsTxHash := LenientCanonicalizeTxHash chain (ObsTxHash o) |>
    <| GasFeeUsed := TrimSpace (GasFeeUsed o) |> <| ErrorMsg := TrimSpace (ErrorMsg o) |>.
(** Steps 3 and 3b, in one cache context. *)
Definition cast_outbound_vote ctx (universalValidator utxId outboundId : string)
    (observedTx : OutboundObservation) : M bool :=
  atomically (
    r ← VoteOnOutboundBallot ctx universalValidator utxId outboundId observedTx;
    RecordOutboundVote ctx outboundId observedTx (ValAddress_String universalValidator)
      (GetOutboundBallotKey utxId outboundId observedTx) ;;
    mret r.1).
(** Steps 5 and 6. *)
Definition settle_outbound ctx (utxId outboundId : string) (outbound : OutboundTx)
    (observedTx : OutboundObservation) : M unit :=
  let outbound := outbound <| OutboundStatus := OBSERVED |> <| ObservedTx := Some observedTx |> in
  UpdateOutbound utxId outbound ;;
  set_ux (λ s, s <| PendingOutbounds ::= delete outboundId |>) ;;
  or_store_error utxId (FinalizeOutbound ctx utxId outbound).
Definition VoteOutbound ctx (universalValidator utxId outboundId : string) (observedTx : OutboundObservation) : M unit :=
  found ← GetUniversalTx utxId;
  utx ← lift_option found ("UniversalTx not found: " +:+ utxId);
  require (bool_decide (OutboundTxs utx ≠ [])) ("no outbound tx found in UniversalTx " +:+ utxId) ;;
  outbound ← lift_option (find_index (with_id outboundId) (OutboundTxs utx) ≫= (OutboundTxs utx !!.))
    ("outbound " +:+ outboundId +:+ " not found in UniversalTx " +:+ utxId);
  let observedTx := canonical_observation (DestinationChain outbound) observedTx in
  require (bool_decide (OutboundStatus outbound = PENDING))
    ("outbound with key " +:+ outboundId +:+ " is already finalized") ;;
  isFinalized ← cast_outbound_vote ctx universalValidator utxId outboundId observedTx;
  if (isFinalized : bool) then settle_outbound ctx utxId outboundId outbound observedTx else mret tt.
End operations.
