(* ===== verification/UxInbound.v ===== *)
(** * x/uexecutor: observing and executing an inbound

    [keeper/inbound.go], [keeper/ballot_hooks.go], [keeper/msg_vote_inbound.go],
    [keeper/handle_failed_inbound_validation.go], [keeper/execute_inbound*.go],
    [keeper/admin_revert.go] and the user messages [keeper/msg_execute_payload.go],
    [keeper/msg_migrate_uea.go], [keeper/msg_deploy_uea.go].  Every vote is
    kept per variant of the observation; the deciding vote creates the
    universal transaction and executes it, and what happened is recorded in it. *)
From S2P Require Import Prelude GoStrings UvTypes TssTypes UxTypes RegTypes World Canonical.
From S2P Require Import UvValidator UvBallot Registry Utss UxKeys UxPayload UxEvm UxOutbound.
From S2P Require Import UxSettle.
Import Ux.

(** ** ballot_hooks.go *)
Section ballot_hook.
Context {E : Type}.
Implicit Types ctx : Ctx.
#[local] Abbreviation M := (M (World E)).

Definition is_variant (ballotID : string) (v : InboundVariant) : bool := bool_decide (BallotId v = ballotID).
Definition carries_variant (ballotID : string) (p : string * PendingInboundEntry) : bool :=
  existsb (is_variant ballotID) (Variants p.2).
Definition undecided (v : InboundVariant) : bool :=
  bool_decide (TerminalStatus v = Ballot.BALLOT_STATUS_PENDING).
Definition passed (v : InboundVariant) : bool := bool_decide (TerminalStatus v = Ballot.BALLOT_STATUS_PASSED).
Definition mark_variant (ballotID : string) (status : Ballot.BallotStatus) (vs : list InboundVariant)
    : list InboundVariant :=
  match find_index (is_variant ballotID) vs with
  | Some i => alter (λ v, v <| TerminalStatus := status |>) i vs
  | None => vs
  end.
Definition afterInboundBallotTerminal ctx (ballotID : string) (status : Ballot.BallotStatus) : M unit :=
  s ← get_ux PendingInbounds;
  match List.find (carries_variant ballotID) (walk s) with
  | None => mret tt
  | Some (utxKey, entry) =>
      let entry := entry <| Variants ::= mark_variant ballotID status |> in
      if existsb undecided (Variants entry) then
        set_ux (λ s, s <| PendingInbounds ::= insert utxKey entry |>)
      else
        set_ux (λ s, s <| PendingInbounds ::= delete utxKey |>) ;;
        if existsb passed (Variants entry) then mret tt
        else set_ux (λ s, s <| ExpiredInbounds ::= insert utxKey
               (mkExpiredInboundEntry utxKey (Variants entry) (u64 (BlockHeight ctx))) |>)
  end.
Definition ux_AfterBallotTerminal ctx (ballotID : string) (ballotType : Ballot.BallotObservationType)
    (status : Ballot.BallotStatus) : M unit :=
  match ballotType with
  | Ballot.BALLOT_OBSERVATION_TYPE_INBOUND_TX => afterInboundBallotTerminal ctx ballotID status
  | _ => mret tt
  end.
End ballot_hook.

(** The hook the application registers ([app/app.go]). *)
Definition ux_ballot_hooks (E : Type) : BallotHooks E :=
  {| AfterBallotTerminal := ux_AfterBallotTerminal |}.
Lemma ux_ballot_hooks_laws (E : Type) : @BallotHooksLaws E (ux_ballot_hooks E).
Proof.
  assert (∀ B (f : World E → B), (∀ w g, f (w <| ux ::= g |>) = f w) →
    ∀ ctx id ty st, stable f (ux_AfterBallotTerminal ctx id ty st)) as Hs.
  { intros B f Hf ctx id ty st. apply stable_keeps. intros b.
    unfold ux_AfterBallotTerminal, afterInboundBallotTerminal. keep; apply keeps_set_ux; intros w <-; apply Hf. }
  split; [intros; by apply Hs..|]. intros ctx id ty st w e. cbn.
  unfold ux_AfterBallotTerminal, afterInboundBallotTerminal. destruct ty; mrun; try done.
  destruct (List.find _ _) as [[k en]|]; mrun; [|done].
  repeat match goal with |- context [if ?c then _ else _] => destruct c; mrun end; done.
Qed.

Section operations.
Context {E : Type} `{Bech32, CC : ChainCodecs, EC : EvmCodecs, SK : StakingKeeper, BH : BallotHooks E,
  SH : Sha256, EK : EvmKeeper E}.
Implicit Types ctx : Ctx.
#[local] Abbreviation M := (M (World E)).

(** [x, err := m(); if err != nil { h } else { f }] *)
Definition catch {A B} (m : M A) (h : error → M B) (f : A → M B) : M B :=
  r ← attempt m;
  match r with Ok a => f a | Err e => h e | Panic e => panic e end.

(** ** inbound.go *)
Definition add_inbound_vote (height : Z) (inbound : Inbound) (voter ballotID : string)
    (vs : list InboundVariant) : list InboundVariant :=
  match find_index (is_variant ballotID) vs with
  | None => vs ++ [mkInboundVariant ballotID (Some inbound) [voter] height height Ballot.BALLOT_STATUS_PENDING]
  | Some i => alter (λ v, v <| Voters ::= add_voter voter |> <| LastVotedAtHeight := height |>) i vs
  end.
Definition RecordInboundVote ctx (inbound : Inbound) (voter ballotID : string) : M unit :=
  let height := u64 (BlockHeight ctx) in
  let utxKey := GetInboundUniversalTxKey inbound in
  s ← get_ux PendingInbounds;
  let entry := default (mkPendingInboundEntry utxKey [] height) (s !! utxKey) in
  set_ux (λ s, s <| PendingInbounds ::=
    insert utxKey (entry <| Variants ::= add_inbound_vote height inbound voter ballotID |>) |>).
Definition IsPendingInbound (inbound : Inbound) : M bool :=
  get_ux (λ s, bool_decide (is_Some (PendingInbounds s !! GetInboundUniversalTxKey inbound))).
Definition RemovePendingInbound (inbound : Inbound) : M unit :=
  set_ux (λ s, s <| PendingInbounds ::= delete (GetInboundUniversalTxKey inbound) |>).

(** ** Shared steps of the executors *)
Definition module_tx ctx : PCTx :=
  empty_PCTx <| PcSender := Address_Hex ue_module_address |> <| PcBlockHeight := u64 (BlockHeight ctx) |>.
(** A call as it is recorded: the hash and gas of its receipt, also when it failed. *)
Definition recorded_tx ctx (out : EvmOut) : PCTx :=
  let pc := (module_tx ctx) <| PcTxHash := from_option Hash "" (rcpt out) |>
              <| GasUsed := from_option RcGasUsed 0 (rcpt out) |> in
  match rerr out with
  | Some e => pc <| PcStatus := "FAILED" |> <| PcErrorMsg := e |>
  | None => pc <| PcStatus := "SUCCESS" |>
  end.
(** As [recorded_tx], but a call without a receipt did not succeed. *)
Definition recorded_call ctx (out : EvmOut) : PCTx :=
  match rerr out, rcpt out with
  | None, None => (module_tx ctx) <| PcStatus := "FAILED" |>
  | _, _ => recorded_tx ctx out
  end.
Definition record_pc_tx (key : string) (pc : PCTx) : M unit := UpdateUniversalTx key (add_pc_tx pc).
(** Schedule the refund of an inbound on its source chain. *)
Definition revert_inbound ctx (key : string) (inbound : Inbound) : M unit :=
  revertOutbound ← buildRevertOutbound ctx inbound;
  or_store_error key (attachOutboundsToUtx ctx key [revertOutbound]).
Definition wrap_out (msg : string) (out : EvmOut) : EvmOut :=
  mkEvmOut (rcpt out) ((λ e, msg +:+ ": " +:+ e) <$> rerr out).

Definition handleFailedInboundValidation ctx (utx : UniversalTx) (validationErr : error) : M unit :=
  inbound ← deref (InboundTx utx);
  record_pc_tx (UtxId utx) ((module_tx ctx) <| PcStatus := "FAILED" |> <| PcErrorMsg := validationErr |>) ;;
  if IsCEA inbound then mret tt else revert_inbound ctx (UtxId utx) inbound.

(** The account of the sender, deployed when it is missing; a failure is a value. *)
Definition resolve_uea ctx (key lookup_msg deploy_msg : string) (account : UniversalAccountId) : M (res string) :=
  catch (CallFactoryToGetUEAAddressForOrigin ctx ue_module_address account)
    (λ e, mret (Err (lookup_msg +:+ ": " +:+ e)))
    (λ '(ueaAddr, isDeployed),
      if (isDeployed : bool) then mret (Ok ueaAddr)
      else
        out ← DeployUEAV2 ctx ue_module_address account;
        match rerr out with
        | Some e => mret (Err (deploy_msg +:+ ": " +:+ e))
        | None =>
            deployReceipt ← deref (rcpt out);
            record_pc_tx key ((module_tx ctx) <| PcTxHash := Hash deployReceipt |>
              <| GasUsed := RcGasUsed deployReceipt |> <| PcStatus := "SUCCESS" |>) ;;
            mret (Ok (BytesToAddress (Ret deployReceipt)))
        end).
Definition sender_account (ns id : string) (inbound : Inbound) : UniversalAccountId :=
  mkUniversalAccountId ns id (Sender inbound).

(** ** execute_inbound_gas.go: every failure schedules a revert *)
Definition gas_deposit ctx (key : string) (inbound : Inbound) : M EvmOut :=
  catch (GetTokenConfig (SourceChain inbound) (AssetAddr inbound))
    (λ e, mret (evm_err ("GetTokenConfig failed: " +:+ e)))
    (λ tokenConfig,
      match big_SetString (Amount inbound) with
      | None => mret (evm_err ("invalid amount: " +:+ Amount inbound))
      | Some amount =>
          native ← deref (Reg.NativeRepresentationOf tokenConfig);
          match ParseCAIP2 (SourceChain inbound) with
          | Ok (ns, id) =>
              u ← resolve_uea ctx key "CallFactory failed" "DeployUEA failed" (sender_account ns id inbound);
              match u with
              | Ok uea => gasAndPayloadDepositAutoSwap ctx (HexToAddress (Reg.ContractAddress native)) uea amount
              | Err e => mret (evm_err e)
              | Panic e => panic e
              end
          | Err e => mret (evm_err ("invalid SourceChain: " +:+ e))
          | Panic e => panic e
          end
      end).
Definition ExecuteInboundGas ctx (inbound : Inbound) : M unit :=
  let universalTxKey := GetInboundUniversalTxKey inbound in
  out ← gas_deposit ctx universalTxKey inbound;
  (match rerr out with None => deref (rcpt out) ;; mret tt | Some _ => mret tt end) ;;
  record_pc_tx universalTxKey (recorded_tx ctx out) ;;
  match rerr out with
  | Some _ => revert_inbound ctx universalTxKey inbound
  | None => mret tt
  end.

(** ** execute_inbound_funds.go *)
Definition ExecuteInboundFunds ctx (utx : UniversalTx) : M unit :=
  inbound ← deref (InboundTx utx);
  out ← depositPRC20 ctx (SourceChain inbound) (AssetAddr inbound) (HexToAddress (Recipient inbound))
          (Amount inbound);
  (match rerr out with None => deref (rcpt out) ;; mret tt | Some _ => mret tt end) ;;
  record_pc_tx (GetInboundUniversalTxKey inbound) (recorded_tx ctx out) ;;
  match rerr out with
  | Some _ => if IsCEA inbound then mret tt else revert_inbound ctx (UtxId utx) inbound
  | None => mret tt
  end.

(** ** The two payload executors

    The deposit that precedes the payload: its outcome, the account or contract
    that runs the payload, and whether a failure is refunded on the source
    chain. *)
Record Deposit := mkDeposit { DpOut : EvmOut; DpAddr : string; DpIsContract : bool; DpRevert : bool }.
Definition no_deposit : EvmOut := mkEvmOut None None.
Definition deposit_to_recipient ctx (inbound : Inbound) (positive : bool) (msg : string)
    (deposit : string → M EvmOut) : M Deposit :=
  if (strip0x (Recipient inbound)).2 then
    let ueaAddr := HexToAddress (Recipient inbound) in
    catch (CallFactoryGetOriginForUEA ctx ue_module_address ueaAddr)
      (λ e, mret (mkDeposit (evm_err ("failed to verify UEA: " +:+ e)) ueaAddr false false))
      (λ isUEA,
        isSmartContract ← (if (isUEA : bool) then mret false else gets (IsContract ueaAddr));
        out ← (if positive then deposit ueaAddr else mret no_deposit);
        mret (mkDeposit (wrap_out msg out) ueaAddr isSmartContract false))
  else mret (mkDeposit (evm_err "recipient must be a valid hex address when isCEA is true") "" false false).
Definition deposit_to_account ctx (key : string) (account : UniversalAccountId) (positive : bool)
    (deposit : string → M EvmOut) : M Deposit :=
  u ← resolve_uea ctx key "factory lookup failed" "DeployUEAV2 failed" account;
  match u with
  | Ok ueaAddr =>
      out ← (if positive then deposit ueaAddr else mret no_deposit);
      mret (mkDeposit out ueaAddr false (bool_decide (is_Some (rerr out))))
  | Err e => mret (mkDeposit (evm_err e) "" false true)
  | Panic e => panic e
  end.
(** [amount.Sign() > 0]; execution follows [ValidateForExecution], so the amount parses *)
Definition positive_amount (inbound : Inbound) : bool :=
  bool_decide (0 < default 0 (big_SetString (Amount inbound))).
Definition record_deposit ctx (key : string) (inbound : Inbound) (out : EvmOut) : M unit :=
  if positive_amount inbound || bool_decide (is_Some (rerr out))
  then record_pc_tx key (recorded_tx ctx out) else mret tt.

(** The call of a contract recipient and its fee share a cache context, written
    back when both succeed ([need_receipt]: and there is a receipt). *)
Definition contract_and_fee ctx (utxId contract : string) (inbound : Inbound) (amount : Z) (prc20 : string)
    : M (EvmOut * res unit) :=
  let payload := match UniversalPayloadOf inbound with
                 | Some p => if decide (Data p = "") then [] else FromHex (Data p)
                 | None => []
                 end in
  out ← CallExecuteUniversalTx ctx contract (SourceChain inbound) (Sender inbound) payload amount prc20
          (HexToHash utxId);
  fee ← match rerr out with
        | Some _ => mret (Ok tt)
        | None => attempt (DeductGasFeesFromReceipt contract (rcpt out) (UniversalPayloadOf inbound))
        end;
  mret (out, fee).
Definition call_contract ctx (need_receipt : bool) (utxId contract : string) (inbound : Inbound) (amount : Z)
    (prc20 : string) : M EvmOut := λ w,
  match contract_and_fee ctx utxId contract inbound amount prc20 w with
  | (Ok (out, Ok _), w') =>
      match rerr out, rcpt out with
      | Some _, _ => (Ok out, w)
      | None, None => (Ok out, if need_receipt then w else w')
      | None, Some _ => (Ok out, w')
      end
  | (Ok (out, Err e), _) => (Ok (mkEvmOut (rcpt out) (Some ("gas fee deduction failed: " +:+ e))), w)
  | (Ok (_, Panic e), _) => (Panic e, w)
  | (Err e, _) => (Err e, w)
  | (Panic e, _) => (Panic e, w)
  end.
(** The payload, run by the account; the outbounds it asks for are attached. *)
Definition run_payload ctx (key : string) (utx : UniversalTx) (inbound : Inbound) (uea : string) : M unit :=
  out ← ExecutePayloadV2 ctx ue_module_address uea (UniversalPayloadOf inbound) (VerificationData inbound);
  (match rerr out, rcpt out with
   | None, Some receipt => or_store_error key (AttachOutboundsToExistingUniversalTx ctx receipt utx)
   | _, _ => mret tt
   end) ;;
  record_pc_tx key (recorded_call ctx out).

(** ** execute_inbound_funds_and_payload.go *)
Definition funds_contract_call ctx (utx : UniversalTx) (inbound : Inbound) (contract : string) : M EvmOut :=
  catch (GetTokenConfig (SourceChain inbound) (AssetAddr inbound))
    (λ e, mret (evm_err ("token config lookup failed: " +:+ e)))
    (λ tokenConfig,
      native ← deref (Reg.NativeRepresentationOf tokenConfig);
      match big_SetString (Amount inbound) with
      | None => mret (evm_err ("invalid amount: " +:+ Amount inbound))
      | Some amount => call_contract ctx false (UtxId utx) contract inbound amount
                         (HexToAddress (Reg.ContractAddress native))
      end).
Definition ExecuteInboundFundsAndPayload ctx (utx : UniversalTx) : M unit :=
  inbound ← deref (InboundTx utx);
  let universalTxKey := GetInboundUniversalTxKey inbound in
  caip ← wrap "invalid SourceChain" (lift_res (ParseCAIP2 (SourceChain inbound)));
  let deposit to := depositPRC20 ctx (SourceChain inbound) (AssetAddr inbound) to (Amount inbound) in
  dep ← (if IsCEA inbound
         then deposit_to_recipient ctx inbound (positive_amount inbound) "depositPRC20 failed" deposit
         else deposit_to_account ctx universalTxKey (sender_account caip.1 caip.2 inbound)
                (positive_amount inbound) (λ to, out ← deposit to; mret (wrap_out "depositPRC20 failed" out)));
  record_deposit ctx universalTxKey inbound (DpOut dep) ;;
  match rerr (DpOut dep) with
  | Some _ => if DpRevert dep then revert_inbound ctx universalTxKey inbound else mret tt
  | None =>
      if DpIsContract dep then
        out ← funds_contract_call ctx utx inbound (DpAddr dep);
        record_pc_tx universalTxKey (recorded_tx ctx out)
      else run_payload ctx universalTxKey utx inbound (DpAddr dep)
  end.

(** ** execute_inbound_gas_and_payload.go *)
Definition swap_into (tokenConfig : Reg.TokenConfig) ctx (amount : Z) (to : string) : M EvmOut :=
  native ← deref (Reg.NativeRepresentationOf tokenConfig);
  gasAndPayloadDepositAutoSwap ctx (HexToAddress (Reg.ContractAddress native)) to amount.
(** Steps 1 to 5; a missing token config or a bad amount is refunded, whoever sent it. *)
Definition gas_payload_deposit ctx (key : string) (inbound : Inbound) (account : UniversalAccountId)
    (cfg : res Reg.TokenConfig) : M Deposit :=
  match cfg with
  | Err e => mret (mkDeposit (evm_err ("GetTokenConfig failed: " +:+ e)) "" false true)
  | Panic e => panic e
  | Ok tokenConfig =>
      match big_SetString (Amount inbound) with
      | None => mret (mkDeposit (evm_err ("invalid amount: " +:+ Amount inbound)) "" false true)
      | Some amount =>
          let positive := bool_decide (0 < amount) in
          if IsCEA inbound
          then deposit_to_recipient ctx inbound positive "depositAutoSwap failed" (swap_into tokenConfig ctx amount)
          else deposit_to_account ctx key account positive (swap_into tokenConfig ctx amount)
      end
  end.
Definition ExecuteInboundGasAndPayload ctx (utx : UniversalTx) : M unit :=
  inbound ← deref (InboundTx utx);
  let universalTxKey := GetInboundUniversalTxKey inbound in
  caip ← wrap "invalid SourceChain" (lift_res (ParseCAIP2 (SourceChain inbound)));
  cfg ← attempt (GetTokenConfig (SourceChain inbound) (AssetAddr inbound));
  dep ← gas_payload_deposit ctx universalTxKey inbound (sender_account caip.1 caip.2 inbound) cfg;
  record_deposit ctx universalTxKey inbound (DpOut dep) ;;
  match rerr (DpOut dep), DpRevert dep, IsCEA inbound with
  | Some _, true, _ => revert_inbound ctx universalTxKey inbound
  | Some _, false, true => mret tt
  | _, _, _ =>
      if DpIsContract dep then
        tokenConfig ← lift_res cfg;
        native ← deref (Reg.NativeRepresentationOf tokenConfig);
        scAmount ← lift_option (big_SetString (Amount inbound)) ("invalid amount: " +:+ Amount inbound);
        out ← call_contract ctx true (UtxId utx) (DpAddr dep) inbound scAmount
                (HexToAddress (Reg.ContractAddress native));
        record_pc_tx universalTxKey (recorded_call ctx out)
      else run_payload ctx universalTxKey utx inbound (DpAddr dep)
  end.

(** ** execute_inbound.go *)
Definition ExecuteInbound ctx (utx : UniversalTx) : M unit :=
  inbound ← deref (InboundTx utx);
  match InTxType inbound with
  | GAS => ExecuteInboundGas ctx inbound
  | FUNDS => ExecuteInboundFunds ctx utx
  | FUNDS_AND_PAYLOAD => ExecuteInboundFundsAndPayload ctx utx
  | GAS_AND_PAYLOAD => ExecuteInboundGasAndPayload ctx utx
  | t => throw ("unsupported inbound tx type: " +:+ fmt_d (TxType_num t))
  end.

(** ** msg_vote_inbound.go *)
(** Steps 2 and 3, in one cache context. *)
Definition cast_inbound_vote ctx (universalValidator : string) (inbound : Inbound) : M bool :=
  atomically (
    RecordInboundVote ctx inbound (ValAddress_String universalValidator) (GetInboundBallotKey inbound) ;;
    r ← wrap "failed to vote on inbound ballot" (VoteOnInboundBallot ctx universalValidator inbound);
    mret r.1).
(** The ballot is decided: the universal transaction is created, whatever follows. *)
Definition open_universal_tx (universalTxKey : string) (inbound : Inbound) : M UniversalTx :=
  let utx := mkUniversalTx universalTxKey (Some inbound) [] [] "" in
  CreateUniversalTx universalTxKey utx ;;
  RemovePendingInbound inbound ;;
  mret utx.
Definition finalize_inbound ctx (universalTxKey : string) (inbound : Inbound) : M unit :=
  let '(inbound, normalized) := NormalizeForTxType inbound in
  match normalized with
  | Panic e => panic e
  | Err normalizeErr =>
      utx ← open_universal_tx universalTxKey inbound;
      handleFailedInboundValidation ctx utx normalizeErr
  | Ok _ =>
      utx ← open_universal_tx universalTxKey inbound;
      match ValidateForExecution inbound with
      | Err validationErr => handleFailedInboundValidation ctx utx validationErr
      | Panic e => panic e
      | Ok _ => ExecuteInbound ctx utx
      end
  end.
Definition VoteInbound ctx (universalValidator : string) (inbound : Inbound) : M unit :=
  let inbound := Canonicalize inbound in
  enabled ← wrap "failed to check inbound enabled" (IsChainInboundEnabled (SourceChain inbound));
  require enabled ("inbound is disabled for chain " +:+ SourceChain inbound) ;;
  let universalTxKey := GetInboundUniversalTxKey inbound in
  found ← HasUniversalTx universalTxKey;
  require (negb found) ("universal tx with key " +:+ universalTxKey +:+ " already exists") ;;
  isFinalized ← cast_inbound_vote ctx universalValidator inbound;
  if (isFinalized : bool) then finalize_inbound ctx universalTxKey inbound else mret tt.

(** ** admin_revert.go *)
Definition RevertStuckInbound ctx (inbound : Inbound) : M (string * string) :=
  let inbound := Canonicalize inbound in
  wrap "invalid request" (lift_res (Inbound_ValidateBasic inbound)) ;;
  ballot ← wrap "ballot for inbound not found" (GetBallot (GetInboundBallotKey inbound));
  require (bool_decide (Ballot.Status ballot = Ballot.BALLOT_STATUS_EXPIRED)) "admin revert requires EXPIRED" ;;
  let universalTxKey := GetInboundUniversalTxKey inbound in
  has ← HasUniversalTx universalTxKey;
  require (negb has) ("universal tx " +:+ universalTxKey +:+ " already exists for this inbound") ;;
  let utx := mkUniversalTx universalTxKey (Some inbound)
    [empty_PCTx <| PcStatus := "FAILED" |> <| PcErrorMsg := "admin revert: stuck ballot expired" |>] [] "" in
  wrap "failed to create utx for revert" (CreateUniversalTx universalTxKey utx) ;;
  revertOutbound ← buildRevertOutbound ctx inbound;
  wrap "failed to attach revert outbound" (attachOutboundsToUtx ctx universalTxKey [revertOutbound]) ;;
  mret (universalTxKey, ObId revertOutbound).

(** ** User messages *)
Definition GetCAIP2 (a : UniversalAccountId) : string := ChainNamespace a +:+ ":" +:+ ChainId a.
Definition enabled_chain (caip2 reason : string) : M unit :=
  chainConfig ← wrap "failed to get chain config" (GetChainConfig caip2);
  e ← deref (Reg.Enabled chainConfig);
  require (Reg.IsInboundEnabled e) reason.
Definition ExecutePayload ctx (evmFrom : string) (account : UniversalAccountId)
    (universalPayload : UniversalPayload) (verificationData : string) : M unit :=
  let caip2Identifier := GetCAIP2 account in
  wrap "invalid universal payload" (lift_res (NewAbiUniversalPayload universalPayload)) ;;
  verificationDataVal ← wrap "invalid verificationData format" (lift_res (HexToBytes verificationData));
  enabled_chain caip2Identifier ("inbound is disabled for chain " +:+ caip2Identifier) ;;
  r ← CallFactoryToGetUEAAddressForOrigin ctx evmFrom account;
  let '(ueaAddr, isDeployed) := r in
  (if (isDeployed : bool) then mret tt
   else
     balance ← gets (GetBalance ueaAddr);
     require (negb (bool_decide (balance = 0))) "UEA is not deployed" ;;
     out ← DeployUEAV2 ctx evmFrom account;
     match rerr out with
     | Some e => throw ("failed to auto-deploy pre-funded UEA: " +:+ e)
     | None => mret tt
     end) ;;
  out ← CallUEAExecutePayload ctx evmFrom ueaAddr universalPayload verificationDataVal;
  wrap "gas fee deduction failed" (DeductGasFeesFromReceipt ueaAddr (rcpt out) (Some universalPayload)) ;;
  match rerr out with
  | Some e => throw e
  | None =>
      receipt ← deref (rcpt out);
      let pcTx := {| PcTxHash := Hash receipt; PcSender := Address_Hex evmFrom; GasUsed := RcGasUsed receipt;
                     PcBlockHeight := u64 (BlockHeight ctx); PcStatus := "SUCCESS"; PcErrorMsg := "" |} in
      CreateUniversalTxFromReceiptIfOutbound ctx receipt pcTx ;;
      AttachRescueOutboundFromReceipt ctx receipt pcTx
  end.
Definition MigrateUEA ctx (evmFrom : string) (account : UniversalAccountId)
    (migrationPayload : MigrationPayload) (signature : string) : M unit :=
  let caip2Identifier := GetCAIP2 account in
  wrap "invalid migration payload" (lift_res (NewAbiMigrationPayload migrationPayload)) ;;
  signatureVal ← wrap "invalid signature format" (lift_res (HexToBytes signature));
  enabled_chain caip2Identifier ("chain " +:+ caip2Identifier +:+ " is not enabled") ;;
  r ← CallFactoryToGetUEAAddressForOrigin ctx evmFrom account;
  let '(ueaAddr, isDeployed) := r in
  require isDeployed "UEA is not deployed" ;;
  out ← CallUEAMigrateUEA ctx evmFrom ueaAddr migrationPayload signatureVal;
  match rerr out with
  | Some e => throw e
  | None => deref (rcpt out) ;; mret tt
  end.
Definition DeployUEA ctx (evmFrom : string) (account : UniversalAccountId) : M (list Z) :=
  out ← CallFactoryToDeployUEA ctx evmFrom account;
  match rerr out with
  | Some e => throw e
  | None => receipt ← deref (rcpt out); mret (Ret receipt)
  end.
End operations.
