(* ===== verification/UxChainMeta.v ===== *)
(** * x/uexecutor: the chain metadata oracle

    [keeper/chain_meta.go], [keeper/gas_price.go] and [keeper/uvalidator_hooks.go]:
    every validator keeps one vote (price, height, time) per chain, in parallel
    arrays; the medians of the fresh votes are written to the EVM. *)
From S2P Require Import Prelude GoStrings UvTypes TssTypes UxTypes RegTypes World Canonical.
From S2P Require Import UvValidator UvBallot Registry Utss UxKeys UxPayload UxEvm.
Import Ux.

Definition chainMetaVoteStalenessSeconds : Z := 300.
Definition chainMetaMinVotesForFirstWrite : nat := 3.

(** [sort.SliceStable] by a key *)
Fixpoint insert_by {A} (key : A → Z) (x : A) (l : list A) : list A :=
  match l with
  | [] => [x]
  | y :: l' => if decide (key x ≤ key y) then x :: l else y :: insert_by key x l'
  end.
Definition stable_sort {A} (key : A → Z) (l : list A) : list A := foldr (insert_by key) [] l.

Record VoteSnapshot := mkVoteSnapshot { SnPrice : Z; SnChainHeight : Z }.

(** The element at [len/2] of the sorted slice; an empty slice panics. *)
Definition upperMedianUint64 {T} (items : list T) (key : T → Z) : res Z :=
  match stable_sort key items !! (length items / 2)%nat with
  | Some x => Ok (key x)
  | None => Panic "index out of range"
  end.
Definition computeMedianIndex (values : list Z) : res Z :=
  match stable_sort snd (imap (λ i v, (Z.of_nat i, v)) values) !! (length values / 2)%nat with
  | Some p => Ok p.1
  | None => Panic "index out of range"
  end.

(** [l[i] = v] *)
Definition set_index (l : list Z) (i : nat) (v : Z) : res (list Z) :=
  if decide (i < length l)%nat then Ok (<[i := v]> l) else Panic "index out of range".
(** [append(l[:i], l[i+1:]...)] *)
Definition cut_index {A} (l : list A) (i : nat) : res (list A) :=
  if decide (i < length l)%nat then Ok (take i l ++ drop (S i) l) else Panic "slice bounds out of range".

(** Steps of [VoteChainMeta]: the vote is put into the arrays, then the votes of
    the last 300 seconds are collected. *)
Definition put_vote (cm : ChainMeta) (voter : string) (price blockNumber now : Z) : res ChainMeta :=
  match find_index (λ s, bool_decide (s = voter)) (Signers cm) with
  | Some i =>
      prices ← set_index (Prices cm) i price;
      heights ← set_index (ChainHeights cm) i blockNumber;
      stored ← set_index (StoredAts cm) i now;
      mret (cm <| Prices := prices |> <| ChainHeights := heights |> <| StoredAts := stored |>)
  | None => mret (cm <| Signers ::= (.++ [voter]) |> <| Prices ::= (.++ [price]) |>
                     <| ChainHeights ::= (.++ [blockNumber]) |> <| StoredAts ::= (.++ [now]) |>)
  end.
Fixpoint fresh_votes (cm : ChainMeta) (now : Z) (ids : list nat) : res (list VoteSnapshot) :=
  match ids with
  | [] => mret []
  | i :: ids' =>
      storedAt ← index (StoredAts cm) i;
      if decide (now < storedAt) then fresh_votes cm now ids'
      else if decide (now - storedAt ≤ chainMetaVoteStalenessSeconds) then
        price ← index (Prices cm) i;
        chainHeight ← index (ChainHeights cm) i;
        rest ← fresh_votes cm now ids';
        mret (mkVoteSnapshot price chainHeight :: rest)
      else fresh_votes cm now ids'
  end.

Section operations.
Context {E : Type} `{Bech32, EK : EvmKeeper E}.
Implicit Types ctx : Ctx.
#[local] Abbreviation M := (M (World E)).

Definition GetChainMeta (chainID : string) : M (ChainMeta * bool) :=
  s ← get_ux ChainMetas;
  mret (match s !! chainID with Some cm => (cm, true) | None => (empty_ChainMeta, false) end).
Definition SetChainMeta (chainID : string) (chainMeta : ChainMeta) : M unit :=
  set_ux (λ s, s <| ChainMetas ::= insert chainID chainMeta |>).

(** Medians of the fresh votes, written to the EVM, then to the entry. *)
Definition apply_medians ctx (observedChainId : string) (entry : ChainMeta) (fresh : list VoteSnapshot) : M unit :=
  medianPrice ← lift_res (upperMedianUint64 fresh SnPrice);
  medianChainHeight ← lift_res (upperMedianUint64 fresh SnChainHeight);
  medianIndex ← lift_res (computeMedianIndex (Prices entry));
  let entry := entry <| MedianIndex := medianIndex |> in
  out ← CallUniversalCoreSetChainMeta ctx observedChainId medianPrice medianChainHeight;
  match rerr out with
  | Some e => throw ("failed to call EVM setChainMeta: " +:+ e)
  | None => SetChainMeta observedChainId (entry <| LastAppliedChainHeight := medianChainHeight |>)
  end.
Definition VoteChainMeta ctx (universalValidator observedChainId : string) (price blockNumber : Z) : M unit :=
  let now := u64 (BlockTime ctx) in
  r ← GetChainMeta observedChainId;
  let entry := r.1 in
  let bootstrapped := bool_decide (0 < LastAppliedChainHeight entry) in
  require (negb (bootstrapped && bool_decide (blockNumber ≤ LastAppliedChainHeight entry)))
    "vote chain height is not greater than last applied chain height" ;;
  let entry := if decide (ObservedChainId entry = "") then entry <| ObservedChainId := observedChainId |>
               else entry in
  entry ← lift_res (put_vote entry (ValAddress_String universalValidator) price blockNumber now);
  fresh ← lift_res (fresh_votes entry now (seq 0 (length (Signers entry))));
  if decide (bootstrapped = false ∧ (length fresh < chainMetaMinVotesForFirstWrite)%nat) then
    SetChainMeta observedChainId entry
  else if decide (fresh = []) then SetChainMeta observedChainId entry
  else apply_medians ctx observedChainId entry fresh.

(** gas_price.go *)
Definition SetGasPrice (chainID : string) (gasPrice : GasPriceEntry) : M unit :=
  set_ux (λ s, s <| GasPrices ::= insert chainID gasPrice |>).
Definition prune_entry (validatorAddr chainId : string) (entry : ChainMeta) : M unit :=
  match find_index (λ s, bool_decide (s = validatorAddr)) (Signers entry) with
  | Some idx =>
      if decide (1 < length (Signers entry))%nat then
        signers ← lift_res (cut_index (Signers entry) idx);
        prices ← lift_res (cut_index (Prices entry) idx);
        heights ← lift_res (cut_index (ChainHeights entry) idx);
        stored ← lift_res (cut_index (StoredAts entry) idx);
        medianIndex ← lift_res (computeMedianIndex prices);
        SetChainMeta chainId (entry <| Signers := signers |> <| Prices := prices |> <| ChainHeights := heights |>
          <| StoredAts := stored |> <| MedianIndex := medianIndex |>)
      else set_ux (λ s, s <| ChainMetas ::= delete chainId |>)
  | None => mret tt
  end.
(** The walk visits the entries present when it starts. *)
Definition PruneValidatorVotes (validatorAddr : string) : M unit :=
  s ← get_ux ChainMetas;
  for_each (λ '(chainId, entry), prune_entry validatorAddr chainId entry) (walk s).

(** chain_meta.go, upgrade v5 *)
Definition migrate_gas_price (p : string * GasPriceEntry) : M unit :=
  let '(chainID, gp) := p in
  s ← get_ux ChainMetas;
  match s !! chainID with
  | Some existing =>
      if decide (ObservedChainId existing = "") then
        SetChainMeta chainID (mkChainMeta (GpObservedChainId gp) (GpSigners gp) (GpPrices gp) (GpBlockNums gp)
          (replicate (length (GpSigners gp)) 0) (GpMedianIndex gp) 0)
      else mret tt
  | None => SetChainMeta chainID (mkChainMeta (GpObservedChainId gp) (GpSigners gp) (GpPrices gp) (GpBlockNums gp)
              (replicate (length (GpSigners gp)) 0) (GpMedianIndex gp) 0)
  end.
Definition MigrateGasPricesToChainMeta : M unit :=
  s ← get_ux GasPrices;
  for_each migrate_gas_price (walk s).

(** uvalidator_hooks.go: only a removal does something *)
Definition ux_AfterValidatorRemoved (valAddr : string) : M unit :=
  PruneValidatorVotes (ValAddress_String valAddr).
End operations.

(** ** Medians *)
Section medians.
Context {A : Type} (key : A → Z).
Implicit Types l : list A.

Lemma insert_by_perm x l : insert_by key x l ≡ₚ x :: l.
Proof.
  induction l as [|y l IH]; cbn; [done|]. case_decide; [done|]. rewrite IH. apply Permutation_swap.
Qed.
Lemma stable_sort_perm l : stable_sort key l ≡ₚ l.
Proof. induction l as [|x l IH]; cbn; [done|]. by rewrite insert_by_perm, IH. Qed.
Lemma insert_by_sorted x l :
  StronglySorted (λ a b, key a ≤ key b) l → StronglySorted (λ a b, key a ≤ key b) (insert_by key x l).
Proof.
  induction 1 as [|y l Hs IH Hy]; cbn; [repeat constructor|]. case_decide.
  - constructor; [by constructor|]. constructor; [done|]. eapply Forall_impl; [done|]. cbn. lia.
  - constructor; [done|]. rewrite insert_by_perm. constructor; [lia|done].
Qed.
Lemma stable_sort_sorted l : StronglySorted (λ a b, key a ≤ key b) (stable_sort key l).
Proof. induction l; cbn; [constructor|]. by apply insert_by_sorted. Qed.

Lemma count_perm (P : A → bool) l k : l ≡ₚ k → count P l = count P k.
Proof. induction 1; rewrite ?count_cons; lia. Qed.
Lemma count_none (P : A → bool) l : Forall (λ a, P a = false) l → count P l = 0.
Proof. induction 1 as [|x l Hx _ IH]; [done|]. by rewrite count_cons, Hx, IH. Qed.

(** In a sorted list, the element at [i] has at most [i] smaller elements and
    more than [i] that are not larger. *)
Lemma sorted_rank l i x :
  StronglySorted (λ a b, key a ≤ key b) l → l !! i = Some x →
  count (λ a, bool_decide (key a < key x)) l ≤ Z.of_nat i <
    count (λ a, bool_decide (key a ≤ key x)) l.
Proof.
  intros Hs. revert i. induction Hs as [|y l Hs IH Hy]; intros [|i] Hi; try done; cbn in Hi.
  - injection Hi as ->. rewrite !count_cons, count_none.
    + rewrite bool_decide_false, bool_decide_true by lia.
      pose proof (count_bounds (λ a, bool_decide (key a ≤ key x)) l). lia.
    + eapply Forall_impl; [done|]. cbn. intros a Ha. apply bool_decide_eq_false. lia.
  - specialize (IH _ Hi). rewrite !count_cons.
    rewrite Forall_forall in Hy. specialize (Hy x ltac:(by eapply list_elem_of_lookup_2)).
    rewrite (bool_decide_true (key y ≤ _)) by done. case_bool_decide; lia.
Qed.
End medians.

(** [m] is the upper median of [l]. *)
Definition upper_median (l : list Z) (m : Z) : Prop :=
  m ∈ l ∧ count (λ z, bool_decide (z < m)) l ≤ Z.of_nat (length l / 2) < count (λ z, bool_decide (z ≤ m)) l.

Lemma count_fmap {A B} (f : A → B) (P : B → bool) l : count P (f <$> l) = count (λ a, P (f a)) l.
Proof. induction l as [|x l IH]; [done|]. rewrite fmap_cons, !count_cons. lia. Qed.

Lemma upperMedian_spec {T} (items : list T) key :
  items ≠ [] → ∃ m, upperMedianUint64 items key = Ok m ∧ upper_median (key <$> items) m.
Proof.
  intros Hne. pose proof (stable_sort_perm key items) as Hp.
  assert (length items / 2 < length (stable_sort key items))%nat as Hlt.
  { rewrite Hp. destruct items; [done|]. apply Nat.div_lt; cbn; lia. }
  apply lookup_lt_is_Some in Hlt as [x Hx]. unfold upperMedianUint64. rewrite Hx.
  exists (key x). split; [done|]. split.
  - apply list_elem_of_fmap. exists x. split; [done|]. rewrite <- Hp. by eapply list_elem_of_lookup_2.
  - rewrite !count_fmap, length_fmap, <- !(count_perm _ _ _ Hp).
    by apply sorted_rank; [apply stable_sort_sorted|].
Qed.

Lemma count_le_not {A} (P Q : A → bool) l :
  (∀ x, P x = true → Q x = false) → count P l ≤ Z.of_nat (length l) - count Q l.
Proof. intros Hd. pose proof (count_disjoint P Q l Hd). lia. Qed.

(** A strict majority of values in a range keeps the median in that range. *)
Lemma upper_median_robust l m lo hi :
  upper_median l m → Z.of_nat (length l) < 2 * count (λ z, bool_decide (lo ≤ z ≤ hi)) l → lo ≤ m ≤ hi.
Proof.
  intros (_ & Hlt & Hle) Hmaj. pose proof (Nat.div_mod (length l) 2). pose proof (Nat.mod_upper_bound (length l) 2).
  assert (∀ P Q, (∀ z, P z = true → Q z = false) → count P l ≤ Z.of_nat (length l) - count Q l) as Hd
    by (intros; by apply count_le_not).
  split.
  - destruct (decide (lo ≤ m)); [done|]. exfalso.
    specialize (Hd (λ z, bool_decide (z ≤ m)) (λ z, bool_decide (lo ≤ z ≤ hi))).
    ospecialize (Hd _). { intros z Hz%bool_decide_eq_true. apply bool_decide_eq_false. lia. } lia.
  - destruct (decide (m ≤ hi)); [done|]. exfalso.
    assert (count (λ z, bool_decide (lo ≤ z ≤ hi)) l ≤ count (λ z, bool_decide (z < m)) l); [|lia].
    clear -n. induction l as [|z l IH]; [done|]. rewrite !count_cons.
    repeat case_bool_decide; lia.
Qed.

(** The median cannot be moved by a minority: on any non-empty set of fresh
    votes [upperMedianUint64] returns a value, that value was voted, and whenever
    more than half of the votes lie between [lo] and [hi] so does the result. *)
Theorem median_follows_majority {T} (items : list T) (key : T → Z) lo hi :
  Z.of_nat (length items) < 2 * count (λ v, bool_decide (lo ≤ key v ≤ hi)) items →
  ∃ m, upperMedianUint64 items key = Ok m ∧ m ∈ key <$> items ∧ lo ≤ m ≤ hi.
Proof.
  intros Hmaj. destruct (upperMedian_spec items key) as (m & Hm & Hu).
  { intros ->. rewrite count_nil in Hmaj. cbn in Hmaj. lia. }
  exists m. split; [done|]. split; [apply Hu|].
  eapply upper_median_robust; [done|]. by rewrite length_fmap, count_fmap.
Qed.

(** ** Specification: an oracle is a set of votes and the height last applied *)
Record Vote := mkVote { VtPrice : Z; VtHeight : Z; VtAt : Z }.
Record Oracle := mkOracle { votes : gmap string Vote; applied : Z }.

Definition rows (cm : ChainMeta) : list (string * Vote) :=
  zip (Signers cm) (zip_with (λ p ha, mkVote p ha.1 ha.2) (Prices cm) (zip (ChainHeights cm) (StoredAts cm))).
Definition oracle_of (cm : ChainMeta) : Oracle := mkOracle (list_to_map (rows cm)) (LastAppliedChainHeight cm).
Definition oracles (s : UxState) : gmap string Oracle := oracle_of <$> ChainMetas s.
Definition no_oracle : Oracle := mkOracle ∅ 0.

(** The arrays are parallel and a validator has one vote. *)
Definition wf_meta (cm : ChainMeta) : Prop :=
  length (Prices cm) = length (Signers cm) ∧ length (ChainHeights cm) = length (Signers cm) ∧
  length (StoredAts cm) = length (Signers cm) ∧ NoDup (Signers cm).
Definition metas_inv (s : UxState) : Prop := ∀ id cm, ChainMetas s !! id = Some cm → wf_meta cm.

Definition is_fresh (now : Z) (v : Vote) : bool :=
  bool_decide (VtAt v ≤ now ∧ now - VtAt v ≤ chainMetaVoteStalenessSeconds).
(** A vote below the height already applied is refused; otherwise it replaces the
    voter's previous vote. *)
Definition vote_meta (voter : string) (v : Vote) (o : Oracle) : option (gmap string Vote) :=
  if decide (0 < applied o ∧ VtHeight v ≤ applied o) then None else Some (<[voter := v]> (votes o)).
Definition fresh_of (now : Z) (vs : gmap string Vote) : list Vote := List.filter (is_fresh now) (map_to_list vs).*2.

Lemma rows_fst cm : wf_meta cm → (rows cm).*1 = Signers cm.
Proof.
  intros (H1 & H2 & H3 & _). unfold rows. apply fst_zip. rewrite length_zip_with, length_zip_with. lia.
Qed.
Lemma rows_lookup cm i a v :
  wf_meta cm → rows cm !! i = Some (a, v) ↔
  Signers cm !! i = Some a ∧ Prices cm !! i = Some (VtPrice v) ∧ ChainHeights cm !! i = Some (VtHeight v) ∧
  StoredAts cm !! i = Some (VtAt v).
Proof.
  intros _. unfold rows. rewrite lookup_zip_with_Some. split.
  - intros (x & y & [= -> ->] & Hs & (p & [h t] & -> & Hp & (h' & t' & [= -> ->] & Hh & Ht)%lookup_zip_with_Some)%lookup_zip_with_Some).
    done.
  - intros (Hs & Hp & Hh & Ht). exists a, v. split_and!; [done..|]. apply lookup_zip_with_Some.
    exists (VtPrice v), (VtHeight v, VtAt v). destruct v. split_and!; [done..|].
    apply lookup_zip_with_Some. eauto.
Qed.
Lemma length_rows cm : wf_meta cm → length (rows cm) = length (Signers cm).
Proof. intros Hwf. by rewrite <- (rows_fst cm Hwf), length_fmap. Qed.
Lemma NoDup_rows cm : wf_meta cm → NoDup (rows cm).*1.
Proof. intros Hwf. rewrite rows_fst by done. apply Hwf. Qed.

Lemma index_ok l i z : l !! i = Some z → index l i = Ok z.
Proof. unfold index. by intros ->. Qed.
Lemma set_index_ok l i v : (i < length l)%nat → set_index l i v = Ok (<[i := v]> l).
Proof. intros. unfold set_index. by rewrite decide_True. Qed.

(** Putting a vote into the arrays puts it into the set. *)
Lemma put_vote_spec cm voter price h now :
  wf_meta cm →
  ∃ cm', put_vote cm voter price h now = Ok cm' ∧ wf_meta cm' ∧
    LastAppliedChainHeight cm' = LastAppliedChainHeight cm ∧ ObservedChainId cm' = ObservedChainId cm ∧
    votes (oracle_of cm') = <[voter := mkVote price h now]> (votes (oracle_of cm)) ∧ voter ∈ Signers cm'.
Proof.
  intros Hwf. pose proof Hwf as (Hp & Hh & Ht & Hnd). unfold put_vote.
  destruct (find_index _ _) as [i|] eqn:Hf.
  - apply find_index_Some in Hf as (a & Ha & ->%bool_decide_eq_true & _).
    pose proof (lookup_lt_Some _ _ _ Ha). rewrite !set_index_ok by lia. eexists. split; [done|].
    assert (wf_meta (cm <| Prices := <[i:=price]> (Prices cm) |> <| ChainHeights := <[i:=h]> (ChainHeights cm) |>
      <| StoredAts := <[i:=now]> (StoredAts cm) |>)) as Hwf'.
    { unfold wf_meta. cbn -[insert]. rewrite !length_insert. done. }
    split_and!; [done..| |by eapply list_elem_of_lookup_2]. cbn [votes oracle_of].
    apply map_eq. intros b. destruct (decide (voter = b)) as [<-|Hne].
    + rewrite lookup_insert_eq. apply elem_of_list_to_map_1; [by apply NoDup_rows|].
      apply (list_elem_of_lookup_2 _ i), rows_lookup; [done|]. cbn -[insert].
      rewrite !list_lookup_insert_eq by lia. done.
    + rewrite lookup_insert_ne by done. apply option_eq. intros v.
      rewrite <- !elem_of_list_to_map by (by apply NoDup_rows). rewrite !list_elem_of_lookup.
      apply exist_proper. intros j. rewrite !rows_lookup by done. cbn -[insert].
      destruct (decide (i = j)) as [<-|Hij]; [|by rewrite !list_lookup_insert_ne].
      rewrite Ha. split; intros ([= ?] & _); congruence.
  - eexists. split; [done|].
    assert (voter ∉ Signers cm) as Hnew.
    { intros Hin. eapply find_index_None in Hin; [|done]. by apply bool_decide_eq_false in Hin. }
    set (cm' := upd StoredAts _ _).
    assert (wf_meta cm') as Hwf'.
    { unfold wf_meta, cm'. cbn. rewrite !length_app, NoDup_app. cbn. split_and!; [lia|lia|lia|done|set_solver|].
      apply NoDup_singleton. }
    split_and!; [done..| |unfold cm'; cbn; set_solver]. cbn [votes oracle_of].
    assert (rows cm' = rows cm ++ [(voter, mkVote price h now)]) as ->.
    { unfold rows, cm'. cbn. rewrite (zip_with_app pair (ChainHeights cm)) by lia.
      rewrite (zip_with_app _ (Prices cm)) by (rewrite length_zip_with; lia).
      rewrite (zip_with_app pair (Signers cm)); [done|]. rewrite !length_zip_with. lia. }
    rewrite list_to_map_app. cbn. rewrite <- insert_union_r, (right_id_L ∅ (∪)); [done|].
    apply not_elem_of_list_to_map_1. by rewrite rows_fst.
Qed.

Definition snap (v : Vote) : VoteSnapshot := mkVoteSnapshot (VtPrice v) (VtHeight v).
Lemma fresh_votes_spec cm now ids vs :
  wf_meta cm → Forall2 (λ i v, ∃ a, rows cm !! i = Some (a, v)) ids vs →
  fresh_votes cm now ids = Ok (snap <$> List.filter (is_fresh now) vs).
Proof.
  intros Hwf. induction 1 as [|i v ids vs [a Hi] _ IH]; [done|].
  apply rows_lookup in Hi as (_ & Hp & Hh & Ht); [|done].
  cbn [fresh_votes]. rewrite (index_ok _ _ _ Ht), (index_ok _ _ _ Hp), (index_ok _ _ _ Hh).
  cbn [List.filter]. unfold is_fresh at 1. cbn [mbind res_bind].
  repeat case_decide; case_bool_decide; try (exfalso; lia); rewrite IH; done.
Qed.
Lemma rows_indices cm : Forall2 (λ i v, ∃ a, rows cm !! i = Some (a, v)) (seq 0 (length (rows cm))) (rows cm).*2.
Proof.
  apply Forall2_same_length_lookup_2; [by rewrite length_seq, length_fmap|].
  intros i j v (-> & Hi)%lookup_seq Hv. rewrite list_lookup_fmap in Hv.
  destruct (rows cm !! i) as [[a v']|] eqn:E; [|done]. injection Hv as <-. by exists a.
Qed.
Lemma upper_median_perm l k m : l ≡ₚ k → upper_median l m → upper_median k m.
Proof.
  intros Hp (Hin & Hc). split; [by rewrite <- Hp|].
  by rewrite !(count_perm _ _ _ Hp), (Permutation_length Hp) in Hc.
Qed.
(** The votes counted are the fresh votes of the set. *)
Lemma fresh_votes_of cm now :
  wf_meta cm → ∃ fresh, fresh_votes cm now (seq 0 (length (Signers cm))) = Ok (snap <$> fresh) ∧
    fresh ≡ₚ fresh_of now (votes (oracle_of cm)).
Proof.
  intros Hwf. eexists. split.
  - rewrite <- (length_rows cm Hwf). by apply fresh_votes_spec, rows_indices.
  - unfold fresh_of. apply filter_perm. cbn [votes oracle_of]. by rewrite map_to_list_to_map by (by apply NoDup_rows).
Qed.

Lemma computeMedianIndex_ok l : l ≠ [] → ∃ i, computeMedianIndex l = Ok i.
Proof.
  intros Hne. unfold computeMedianIndex. set (k := imap _ _).
  assert (length l / 2 < length (stable_sort snd k))%nat as [p ->]%lookup_lt_is_Some; [|eauto].
  rewrite (stable_sort_perm snd k). unfold k. rewrite length_imap. destruct l; [done|]. apply Nat.div_lt; cbn; lia.
Qed.

Section refinement.
Context {E : Type} `{Bech32, EK : EvmKeeper E, !EvmKeeperLaws E}.
Implicit Types (ctx : Ctx) (w : World E).

Definition oracle_at w (id : string) : Oracle := default no_oracle (oracles (ux w) !! id).

Lemma call_set_meta_ux ctx id p h w :
  ∃ out w1, CallUniversalCoreSetChainMeta ctx id p h w = (Ok out, w1) ∧
    uv w1 = uv w ∧ tss w1 = tss w ∧ reg w1 = reg w ∧ ChainMetas (ux w1) = ChainMetas (ux w).
Proof.
  destruct (module_call_run ctx (setChainMeta id p h) w) as (out & w1 & Hc & (Hu & Ht & Hr & Hx) & _).
  exists out, w1. split_and!; try done. by rewrite Hx.
Qed.

Lemma metas_insert s id cm : metas_inv s → wf_meta cm → metas_inv (s <| ChainMetas ::= insert id cm |>).
Proof. intros Hinv Hwf i c. cbn. intros [[-> ->]|[_ ?]]%lookup_insert_Some; [done|by eapply Hinv]. Qed.
Lemma oracles_insert s id cm : oracles (s <| ChainMetas ::= insert id cm |>) = <[id := oracle_of cm]> (oracles s).
Proof. apply fmap_insert. Qed.

(** The entry a vote starts from. *)
Lemma entry_at w id :
  metas_inv (ux w) →
  ∃ cm b, GetChainMeta id w = (Ok (cm, b), w) ∧ wf_meta cm ∧ oracle_of cm = oracle_at w id.
Proof.
  intros Hinv. unfold GetChainMeta, oracle_at, oracles. mrun. rewrite lookup_fmap.
  destruct (ChainMetas (ux w) !! id) as [cm|] eqn:Hl; eexists _, _; (split; [done|]); cbn; [eauto|].
  split; [|done]. repeat split. apply NoDup_nil_2.
Qed.
(** A median write on a non-empty fresh list either fails in the EVM or installs
    the medians. *)
Lemma apply_medians_spec ctx id cm fresh w :
  wf_meta cm → Signers cm ≠ [] → fresh ≠ [] → metas_inv (ux w) →
  ∃ mp mh, upper_median (VtPrice <$> fresh) mp ∧ upper_median (VtHeight <$> fresh) mh ∧
  let '(call, w1) := CallUniversalCoreSetChainMeta ctx id mp mh w in
  let '(out, w') := apply_medians ctx id cm (snap <$> fresh) w in
  match call with
  | Ok o => match rerr o with
            | Some _ => ∃ m, out = Err m
            | None => out = Ok tt ∧ metas_inv (ux w') ∧ w' = w1 <| ux := ux w' |> ∧
                      oracles (ux w') = <[id := mkOracle (votes (oracle_of cm)) mh]> (oracles (ux w))
            end
  | _ => False
  end.
Proof.
  intros Hwf Hs Hne Hinv.
  destruct (upperMedian_spec (snap <$> fresh) SnPrice) as (mp & Hmp & Hup); [by destruct fresh|].
  destruct (upperMedian_spec (snap <$> fresh) SnChainHeight) as (mh & Hmh & Huh); [by destruct fresh|].
  rewrite <- list_fmap_compose in Hup, Huh. exists mp, mh. split; [done|]. split; [done|].
  destruct (computeMedianIndex_ok (Prices cm)) as [ix Hix].
  { destruct Hwf as (Hl & _). by destruct (Prices cm), (Signers cm). }
  destruct (call_set_meta_ux ctx id mp mh w) as (o & w1 & Hc & Hu & Ht & Hr & Hm).
  unfold apply_medians. rewrite Hc, Hmp, Hmh, Hix. mrun. rewrite Hc. cbv beta iota.
  destruct (rerr o) as [e|]; [by eexists|]. unfold SetChainMeta. mrun.
  assert (metas_inv (ux w1)) as Hinv1 by (intros i c; rewrite Hm; apply Hinv).
  split; [done|]. split; [by apply metas_insert|]. split; [by destruct w1|].
  etransitivity; [apply oracles_insert|]. unfold oracles at 1. by rewrite Hm.
Qed.

(** What a vote computes before it writes: the arrays with the vote in them, and
    the fresh votes, the one just cast among them. *)
Lemma prepare_vote cm voter price h now :
  wf_meta cm →
  let vs := <[voter := mkVote price h now]> (votes (oracle_of cm)) in
  ∃ cm' fresh, put_vote cm voter price h now = Ok cm' ∧ wf_meta cm' ∧ Signers cm' ≠ [] ∧
    oracle_of cm' = mkOracle vs (LastAppliedChainHeight cm) ∧
    fresh_votes cm' now (seq 0 (length (Signers cm'))) = Ok (snap <$> fresh) ∧
    fresh ≡ₚ fresh_of now vs ∧ fresh ≠ [].
Proof.
  intros Hwf vs. destruct (put_vote_spec cm voter price h now Hwf) as (cm' & Hput & Hwf' & Hla & _ & Hvs & Hin).
  destruct (fresh_votes_of cm' now Hwf') as (fresh & Hfresh & Hperm). rewrite Hvs in Hperm. fold vs in Hperm, Hvs.
  exists cm', fresh. split_and!; [done..| | |done|done|].
  - intros Hnil. rewrite Hnil in Hin. by apply elem_of_nil in Hin.
  - rewrite <- Hvs, <- Hla. by destruct cm'.
  - assert (mkVote price h now ∈ fresh) as Hmine; [|by intros ->; apply elem_of_nil in Hmine].
    rewrite Hperm. apply list_elem_of_In, filter_In. split.
    + apply list_elem_of_In, list_elem_of_fmap. exists (voter, mkVote price h now). split; [done|].
      apply elem_of_map_to_list. by apply lookup_insert_eq.
    + apply bool_decide_eq_true. cbn. unfold chainMetaVoteStalenessSeconds. lia.
Qed.

(** C30. A chain metadata vote, on every branch.  A vote at or below the height
    already applied is refused and changes nothing.  Any other vote replaces the
    voter's previous vote; until the first write, fewer than three fresh votes are
    only recorded; otherwise the upper medians of the fresh prices and heights are
    sent to the EVM, and if that call succeeds the median height is the new
    applied height.  No other chain's votes change and the arrays stay parallel. *)
Theorem VoteChainMeta_refines_oracle ctx val id price h w :
  metas_inv (ux w) →
  let now := u64 (BlockTime ctx) in
  let o := oracle_at w id in
  let '(out, w') := VoteChainMeta ctx val id price h w in
  match vote_meta (ValAddress_String val) (mkVote price h now) o with
  | None => (∃ m, out = Err m) ∧ w' = w
  | Some vs =>
      let fresh := fresh_of now vs in
      if decide (applied o ≤ 0 ∧ (length fresh < 3)%nat) then
        out = Ok tt ∧ metas_inv (ux w') ∧ w' = w <| ux := ux w' |> ∧
        oracles (ux w') = <[id := mkOracle vs (applied o)]> (oracles (ux w))
      else ∃ mp mh, upper_median (VtPrice <$> fresh) mp ∧ upper_median (VtHeight <$> fresh) mh ∧
        let '(call, w1) := CallUniversalCoreSetChainMeta ctx id mp mh w in
        match call with
        | Ok r => match rerr r with
                  | Some _ => ∃ m, out = Err m
                  | None => out = Ok tt ∧ metas_inv (ux w') ∧ w' = w1 <| ux := ux w' |> ∧
                            oracles (ux w') = <[id := mkOracle vs mh]> (oracles (ux w))
                  end
        | _ => False
        end
  end.
Proof.
  intros Hinv now o. unfold VoteChainMeta.
  destruct (entry_at w id Hinv) as (cm & b & Hg & Hwf & Ho). fold o in Ho.
  rewrite bind_unfold, Hg. cbv beta iota zeta. cbn [fst]. rewrite <- Ho.
  change (applied (oracle_of cm)) with (LastAppliedChainHeight cm).
  unfold vote_meta. cbn [VtHeight]. change (applied (oracle_of cm)) with (LastAppliedChainHeight cm).
  destruct (decide (0 < LastAppliedChainHeight cm ∧ h ≤ LastAppliedChainHeight cm)) as [Hd|Hd].
  { rewrite (bool_decide_true (0 < _)), (bool_decide_true (h ≤ _)) by lia. cbn [andb negb]. mrun. eauto. }
  rewrite bind_unfold, require_run.
  replace (bool_decide (0 < LastAppliedChainHeight cm) && bool_decide (h ≤ LastAppliedChainHeight cm)) with false.
  2: { symmetry. apply andb_false_iff. rewrite !bool_decide_eq_false. lia. }
  cbv beta iota. cbn [negb].
  set (cm1 := if decide (ObservedChainId cm = "") then _ else _).
  assert (wf_meta cm1 ∧ oracle_of cm1 = oracle_of cm ∧ LastAppliedChainHeight cm1 = LastAppliedChainHeight cm)
    as (Hwf1 & Ho1 & Hla) by (unfold cm1; by case_decide).
  destruct (prepare_vote cm1 (ValAddress_String val) price h now Hwf1)
    as (cm2 & fresh & Hput & Hwf2 & Hs2 & Ho2 & Hfresh & Hperm & Hne). rewrite Ho1, Hla in Ho2. rewrite Ho1 in Hperm.
  fold now. rewrite bind_unfold, lift_res_run, Hput. cbv beta iota.
  rewrite bind_unfold, lift_res_run, Hfresh. cbv beta iota. rewrite length_fmap, (Permutation_length Hperm).
  change chainMetaMinVotesForFirstWrite with 3%nat.
  destruct (decide (bool_decide (0 < LastAppliedChainHeight cm) = false ∧ _)) as [Hb1|Hb1].
  { unfold SetChainMeta. mrun. rewrite decide_True by (destruct Hb1 as [?%bool_decide_eq_false ?]; lia).
    split; [done|]. split; [by apply metas_insert|].
    split; [by destruct w|]. etransitivity; [apply oracles_insert|]. by rewrite Ho2. }
  rewrite decide_False by (by intros Hnil%fmap_nil_inv).
  destruct (apply_medians_spec ctx id cm2 fresh w) as (mp & mh & Hp & Hh & Hrest); [done..|].
  rewrite Ho2 in Hrest. cbn [votes] in Hrest.
  destruct (apply_medians ctx id cm2 (snap <$> fresh) w) as [out w'].
  rewrite decide_False by (intros [??]; apply Hb1; split; [apply bool_decide_eq_false; lia|done]).
  exists mp, mh. split; [eapply upper_median_perm; [by apply fmap_Permutation|done]|].
  split; [eapply upper_median_perm; [by apply fmap_Permutation|done]|].
  by destruct (CallUniversalCoreSetChainMeta ctx id mp mh w) as [call w1].
Qed.

(** Pruning a validator: its vote leaves the set, and an entry without votes goes. *)
Definition prune_oracle (a : string) (o : Oracle) : option Oracle :=
  if decide (is_Some (votes o !! a)) then
    if decide (delete a (votes o) = ∅) then None else Some (mkOracle (delete a (votes o)) (applied o))
  else Some o.

Lemma cut_index_ok {A} (l : list A) i : (i < length l)%nat → cut_index l i = Ok (delete i l).
Proof. intros. unfold cut_index. rewrite decide_True by done. by rewrite delete_take_drop. Qed.

Lemma zip_with_delete {A B C} (f : A → B → C) l k i :
  length l = length k → delete i (zip_with f l k) = zip_with f (delete i l) (delete i k).
Proof.
  revert k i. induction l as [|x l IH]; intros [|y k] [|i] Hl; try done. cbn in *. f_equal. apply IH. lia.
Qed.

Lemma delete_vote cm i a :
  wf_meta cm → Signers cm !! i = Some a →
  let cm' := cm <| Signers ::= delete i |> <| Prices ::= delete i |> <| ChainHeights ::= delete i |>
                <| StoredAts ::= delete i |> in
  wf_meta cm' ∧ rows cm' = delete i (rows cm) ∧ oracle_of cm' = mkOracle (delete a (votes (oracle_of cm))) (applied (oracle_of cm)).
Proof.
  intros Hwf Ha cm'. pose proof Hwf as (Hp & Hh & Ht & Hnd). pose proof (lookup_lt_Some _ _ _ Ha) as Hi.
  assert (wf_meta cm') as Hwf'.
  { unfold wf_meta, cm'. cbn -[delete]. rewrite !length_delete by (apply lookup_lt_is_Some; lia).
    split_and!; [lia..|]. eapply sublist_NoDup; [done|apply sublist_delete]. }
  assert (rows cm' = delete i (rows cm)) as Hrows.
  { unfold rows, cm'. cbn -[delete]. by rewrite !zip_with_delete by (rewrite ?length_zip_with; lia). }
  split_and!; [done..|]. unfold oracle_of. rewrite Hrows. cbn [votes applied]. f_equal.
  apply map_eq. intros b. apply option_eq. intros v.
  rewrite lookup_delete_Some, <- !elem_of_list_to_map by (rewrite <- ?Hrows; by apply NoDup_rows).
  destruct (rows cm !! i) as [[a' u]|] eqn:Hr.
  2: { apply lookup_ge_None in Hr. rewrite length_rows in Hr by done. lia. }
  pose proof Hr as [Ha' _]%rows_lookup; [|done]. rewrite Ha in Ha'. injection Ha' as <-.
  pose proof (NoDup_rows cm Hwf) as Hnd'. rewrite (delete_take_drop _ _), elem_of_app.
  pose proof (take_drop_middle _ _ _ Hr) as Hmid. rewrite <- Hmid in Hnd'.
  assert ((b, v) ∈ rows cm ↔ (b, v) ∈ take i (rows cm) ∨ (b, v) = (a, u) ∨ (b, v) ∈ drop (S i) (rows cm)) as ->
    by (rewrite <- Hmid at 1; by rewrite elem_of_app, elem_of_cons).
  rewrite fmap_app, fmap_cons in Hnd'. apply NoDup_app in Hnd' as (_ & Hd1 & [Hd2 _]%NoDup_cons).
  assert ((b, v) ∈ take i (rows cm) ∨ (b, v) ∈ drop (S i) (rows cm) → a ≠ b) as Hnab.
  { intros [Hin|Hin] ->.
    - apply (Hd1 b); [|left]. apply list_elem_of_fmap. by exists (b, v).
    - apply Hd2, list_elem_of_fmap. by exists (b, v). }
  split; [naive_solver|]. intros [Hne [?|[[= -> _]|?]]]; [by left|done|by right].
Qed.

Lemma signers_votes cm a : wf_meta cm → a ∈ Signers cm ↔ is_Some (votes (oracle_of cm) !! a).
Proof.
  intros Hwf. cbn [votes oracle_of]. rewrite <- (rows_fst cm Hwf). split.
  - intros ([b v] & -> & Hin)%list_elem_of_fmap. exists v. by apply elem_of_list_to_map_1; [apply NoDup_rows|].
  - intros [v Hv%elem_of_list_to_map_2]. apply list_elem_of_fmap. by exists (a, v).
Qed.
Lemma single_signer cm a :
  wf_meta cm → a ∈ Signers cm → delete a (votes (oracle_of cm)) = ∅ ↔ (length (Signers cm) ≤ 1)%nat.
Proof.
  intros Hwf Ha. split.
  - intros He. destruct (Signers cm) as [|x [|y l]] eqn:Hs; cbn; [lia..|]. exfalso.
    pose proof (proj2 (proj2 (proj2 Hwf))) as Hnd. rewrite Hs in Hnd.
    assert (∃ z, z ∈ Signers cm ∧ z ≠ a) as (z & Hz & Hza).
    { rewrite Hs. apply NoDup_cons in Hnd as [Hx _].
      destruct (decide (x = a)) as [->|]; [exists y|exists x]; set_solver. }
    apply signers_votes in Hz as [v Hv]; [|done].
    assert (delete a (votes (oracle_of cm)) !! z = Some v) as Hd by (by rewrite lookup_delete_ne).
    by rewrite He, lookup_empty in Hd.
  - intros Hl. apply map_empty. intros z. destruct (decide (a = z)) as [<-|Hne]; [by rewrite lookup_delete_eq|].
    rewrite lookup_delete_ne by done. destruct (votes _ !! z) eqn:Hz; [|done]. exfalso.
    assert (z ∈ Signers cm) as Hz' by (apply signers_votes; eauto).
    destruct (Signers cm) as [|x [|y l]]; cbn in *; [set_solver|set_solver|lia].
Qed.

Lemma prune_entry_spec a id cm w :
  wf_meta cm → ChainMetas (ux w) !! id = Some cm →
  ∃ o, prune_entry a id cm w = (Ok tt, w <| ux ::= λ s, s <| ChainMetas ::= partial_alter (λ _, o) id |> |>) ∧
    oracle_of <$> o = prune_oracle a (oracle_of cm) ∧ ∀ c, o = Some c → wf_meta c.
Proof.
  intros Hwf Hcm. pose proof Hwf as (Hp & Hh & Ht & _). unfold prune_entry, prune_oracle.
  destruct (find_index _ _) as [i|] eqn:Hf.
  - apply find_index_Some in Hf as (a' & Ha & ->%bool_decide_eq_true & _).
    assert (a ∈ Signers cm) as Hin by (by eapply list_elem_of_lookup_2).
    pose proof (lookup_lt_Some _ _ _ Ha) as Hi.
    rewrite (decide_True (P := is_Some _)) by (by apply signers_votes). destruct (decide (1 < _)%nat) as [Hl|Hl].
    + rewrite decide_False by (rewrite single_signer by done; lia).
      destruct (delete_vote cm i a Hwf Ha) as (Hwf' & _ & Ho).
      rewrite !cut_index_ok by lia. mrun.
      destruct (computeMedianIndex_ok (delete i (Prices cm))) as [ix ->].
      { intros Hnil%(f_equal length). rewrite length_delete in Hnil by (apply lookup_lt_is_Some; lia). cbn in Hnil. lia. }
      unfold SetChainMeta. mrun. eexists (Some _). split; [done|]. split.
      * cbn [fmap option_fmap option_map]. rewrite <- Ho. done.
      * intros c [= <-]. exact Hwf'.
    + rewrite decide_True by (apply single_signer; [done..|lia]). mrun. exists None. done.
  - rewrite find_index_None in Hf. rewrite decide_False; mrun.
    2: { rewrite <- signers_votes by done. intros Hin. specialize (Hf _ Hin). by apply bool_decide_eq_false in Hf. }
    exists (Some cm). split_and!; [|done|by intros ? [= <-]].
    f_equal. destruct w as [? ? [] ? ?]. cbn in *. do 2 f_equal. symmetry.
    rewrite <- Hcm. apply partial_alter_self.
Qed.

Lemma prune_loop a l w :
  metas_inv (ux w) → NoDup l.*1 → (∀ id cm, (id, cm) ∈ l → ChainMetas (ux w) !! id = Some cm) →
  ∃ s', for_each (λ '(id, cm), prune_entry a id cm) l w = (Ok tt, w <| ux ::= λ s, s <| ChainMetas := s' |> |>) ∧
    (∀ id cm, s' !! id = Some cm → wf_meta cm) ∧
    ∀ id, oracle_of <$> s' !! id =
      if decide (id ∈ l.*1) then (oracles (ux w) !! id) ≫= prune_oracle a else oracles (ux w) !! id.
Proof.
  revert w. induction l as [|[id cm] l IH]; intros w Hinv Hnd Hl.
  { exists (ChainMetas (ux w)). split; [by destruct w as [? ? [] ? ?]|]. split; [done|].
    intros id. rewrite decide_False by (apply not_elem_of_nil). unfold oracles. by rewrite lookup_fmap. }
  cbn [fmap list_fmap fst] in Hnd. apply NoDup_cons in Hnd as [Hid Hnd].
  assert (ChainMetas (ux w) !! id = Some cm) as Hcm by (apply Hl; left).
  destruct (prune_entry_spec a id cm w) as (o & Hrun & Ho & Hwf); [by eapply Hinv|done|].
  rewrite for_each_cons_run, bind_unfold, Hrun. cbv beta iota. set (w1 := upd ux _ w).
  destruct (IH w1) as (s' & Hs & Hinv' & Hlook).
  { intros i c. unfold w1. cbn -[partial_alter]. destruct (decide (id = i)) as [<-|].
    - rewrite lookup_partial_alter_eq. apply Hwf.
    - rewrite lookup_partial_alter_ne by done. apply Hinv. }
  { done. }
  { intros i c Hic. unfold w1. cbn -[partial_alter]. rewrite lookup_partial_alter_ne.
    - apply Hl. by right.
    - intros ->. apply Hid, list_elem_of_fmap. by exists (i, c). }
  exists s'. split; [rewrite Hs; by destruct w as [? ? [] ? ?]|]. split; [done|]. intros i. rewrite Hlook.
  unfold w1, oracles. cbn -[partial_alter elem_of]. rewrite !lookup_fmap.
  destruct (decide (id = i)) as [<-|Hne].
  - rewrite decide_False by done. rewrite decide_True by left. by rewrite lookup_partial_alter_eq, Ho, Hcm.
  - rewrite lookup_partial_alter_ne by done. destruct (decide (i ∈ l.*1)) as [Hi|Hi].
    + by rewrite decide_True by (by right).
    + rewrite decide_False; [done|]. by intros [->|]%elem_of_cons.
Qed.

(** Removing a validator removes its votes and nothing else: pruning never
    fails, deletes the validator's vote from every chain's set, drops the entries
    left without a vote, and keeps every other vote and applied height. *)
Theorem PruneValidatorVotes_forgets a w :
  metas_inv (ux w) →
  let '(out, w') := PruneValidatorVotes a w in
  out = Ok tt ∧ metas_inv (ux w') ∧ oracles (ux w') = omap (prune_oracle a) (oracles (ux w)) ∧
  w' = w <| ux ::= λ s, s <| ChainMetas := ChainMetas (ux w') |> |>.
Proof.
  intros Hinv. unfold PruneValidatorVotes. mrun.
  destruct (prune_loop a (walk (ChainMetas (ux w))) w Hinv) as (s' & -> & Hwf & Hlook).
  { apply NoDup_walk_fst. }
  { intros id cm. apply elem_of_walk. }
  split_and!; [done|exact Hwf| |done]. apply map_eq. intros id. rewrite lookup_omap. cbn. unfold oracles at 1. cbn.
  rewrite lookup_fmap, Hlook. case_decide as Hin; [done|].
  unfold oracles. rewrite lookup_fmap. destruct (ChainMetas (ux w) !! id) eqn:Hl; [|done].
  destruct Hin. apply list_elem_of_fmap. eexists (_, _). split; [done|]. by apply elem_of_walk.
Qed.
End refinement.
