(* ===== verification/UxFinality.v ===== *)
(** * x/uexecutor: an outbound is settled once

    Votes on an observation go through the ballot keeper with a quorum of more
    than two thirds of the eligible validators; the deciding vote settles the
    outbound.  The theorems relate the handler to the poll of the ballot and to
    the life of the outbound: PENDING, then OBSERVED, REVERTED or ABORTED. *)
From S2P Require Import Prelude GoStrings UvTypes TssTypes UxTypes RegTypes World Canonical.
From S2P Require Import UvValidator UvBallot Registry Utss UxKeys UxPayload UxEvm UxOutbound.
From S2P Require Import UxSettle UxInbound.
Import Ux.

(** The records of transactions and outbounds; ballot hooks leave them alone. *)
Definition books {E} (w : World E) : gmap string UniversalTx * gmap string PendingOutboundEntry :=
  (UniversalTxs (ux w), PendingOutbounds (ux w)).
Class BooksHooksLaws (E : Type) `{BallotHooks E} : Prop := {
  ballot_hook_books ctx id ty st : stable books (AfterBallotTerminal ctx id ty st);
}.
Lemma ux_ballot_hooks_books E : @BooksHooksLaws E (ux_ballot_hooks E).
Proof.
  split. intros ctx id ty st. apply stable_keeps. intros b. cbn.
  unfold ux_AfterBallotTerminal, afterInboundBallotTerminal. keep; by apply keeps_set_ux.
Qed.
Lemma calm_books {E} (w w' : World E) : calm w w' → books w' = books w.
Proof. intros (_ & _ & _ & Hx). unfold books. by rewrite Hx. Qed.

(** ** Votes with the quorum of the day *)
Section votes.
Context {E : Type} `{Bech32, SK : StakingKeeper, BH : BallotHooks E, !BallotHooksLaws E}.
Implicit Types (ctx : Ctx) (w : World E).

Definition core_of (v : UV.UniversalValidator) : string := from_option UV.CoreValidatorAddress "" (UV.IdentifyInfo v).
Definition voters_now w : list string :=
  match (GetEligibleVoters w).1 with Ok vs => core_of <$> vs | _ => [] end.

Lemma core_addresses_run vs w :
  (∀ v, v ∈ vs → is_Some (UV.IdentifyInfo v)) → core_addresses vs w = (Ok (core_of <$> vs), w).
Proof.
  induction vs as [|v vs IH]; intros Hv; [done|]. cbn [core_addresses]. unfold core_address.
  destruct (Hv v) as [i Hi]; [left|]. mrun. rewrite Hi. mrun. rewrite IH by (intros; apply Hv; by right). mrun.
  unfold core_of at 2. by rewrite fmap_cons, Hi.
Qed.

Lemma NoDup_fst_filter {K V} (f : K * V → bool) l : NoDup l.*1 → NoDup (List.filter f l).*1.
Proof.
  induction l as [|p l IH]; [done|]. cbn [fmap list_fmap List.filter]. intros [Hp Hn]%NoDup_cons.
  destruct (f p); [|by apply IH]. cbn [fmap list_fmap]. apply NoDup_cons. split; [|by apply IH].
  intros (x & Hx & [Hin _]%list_elem_of_In%filter_In)%list_elem_of_fmap. apply Hp. rewrite Hx.
  apply list_elem_of_fmap. exists x. split; [done|]. by apply list_elem_of_In.
Qed.
Lemma voters_now_run h w :
  validators_inv h (uv w) →
  ∃ vs, GetEligibleVoters w = (Ok vs, w) ∧ core_addresses vs w = (Ok (voters_now w), w) ∧ NoDup (voters_now w).
Proof.
  intros Hvi. unfold voters_now. rewrite (GetEligibleVoters_run h) by done. cbn [fst].
  set (l := List.filter _ _).
  assert (∀ k v, (k, v) ∈ l → ∃ i, UV.IdentifyInfo v = Some i ∧ ValAddressFromBech32 (UV.CoreValidatorAddress i) = Ok k)
    as Hl.
  { intros k v [Hkv _]%list_elem_of_In%filter_In. apply list_elem_of_In, elem_of_walk in Hkv.
    destruct (Hvi k v Hkv) as (i & _ & _ & _ & Hi & _ & _ & Ha & _). eauto. }
  exists l.*2. split; [done|]. split.
  - apply core_addresses_run. intros v ([k v'] & -> & Hin)%list_elem_of_fmap. destruct (Hl _ _ Hin) as (i & Hi & _). cbn. by rewrite Hi.
  - assert (NoDup (omap (λ v, UV.CoreValidatorAddress <$> UV.IdentifyInfo v) l.*2)) as Hnd.
    { apply (NoDup_omap_snd _ (ValAddressFromBech32)).
      - apply NoDup_fst_filter, NoDup_walk_fst.
      - intros k v a Hkv Ha. destruct (Hl _ _ Hkv) as (i & Hi & Hk). rewrite Hi in Ha. by injection Ha as <-. }
    clearbody l. clear -Hl Hnd.
    assert (core_of <$> l.*2 = omap (λ v, UV.CoreValidatorAddress <$> UV.IdentifyInfo v) l.*2) as ->; [|done].
    clear Hnd. induction l as [|[k v] l IH]; [done|]. cbn. destruct (Hl k v) as (i & Hi & _); [left|].
    unfold core_of at 1. rewrite Hi. cbn. f_equal. apply IH. intros. apply (Hl k0). by right.
Qed.

(** The poll a vote is cast on: the stored one, or a new one among the eligible
    validators. *)
Definition quorum_poll ctx w (key : string) : Poll :=
  default (open_poll (voters_now w) (votes_needed (voters_now w)) (i64 (BlockHeight ctx + DefaultExpiryAfterBlocks)))
    (polls (uv w) !! key).
Definition aye ctx (val : string) (p : Poll) : option Poll :=
  cast (BlockHeight ctx) (ValAddress_String val) Ballot.VOTE_RESULT_SUCCESS p.

Lemma vote_with_quorum_spec ctx val key ty w h :
  validators_inv h (uv w) → ballots_inv (uv w) →
  let '(out, w') := vote_with_quorum ctx val key ty w in
  ballots_inv (uv w') ∧
  match aye ctx val (quorum_poll ctx w key) with
  | Some p => out = Ok (bool_decide (phase p ≠ Ballot.BALLOT_STATUS_PENDING), bool_decide (polls (uv w) !! key = None)) ∧
              polls (uv w') !! key = Some p
  | None => ∃ m, out = Err m
  end.
Proof.
  intros Hvi Hbi. destruct (voters_now_run h w Hvi) as (vs & Hg & Hc & Hnd).
  unfold vote_with_quorum. mrun. rewrite Hg. mrun. rewrite Hc. mrun.
  pose proof (VoteOnBallot_cast ctx key ty (ValAddress_String val) Ballot.VOTE_RESULT_SUCCESS (voters_now w)
    (votes_needed (voters_now w)) DefaultExpiryAfterBlocks w Hbi Hnd) as Hv. cbv zeta in Hv.
  fold (quorum_poll ctx w key) in Hv. fold (aye ctx val (quorum_poll ctx w key)) in Hv.
  destruct (VoteOnBallot _ _ _ _ _ _ _ _ w) as [out w'].
  destruct (aye ctx val (quorum_poll ctx w key)) as [p|].
  - destruct Hv as [[(b & -> & _) Hp] Hi]. mrun. split_and!; [done..|]. by rewrite Hp, lookup_insert_eq.
  - destruct Hv as [[[m ->] _] Hi]. mrun. eauto.
Qed.
Lemma vote_with_quorum_books `{!BooksHooksLaws E} ctx val key ty b :
  keeps (λ w, books w = b) (vote_with_quorum ctx val key ty).
Proof.
  assert (∀ vs, keeps (λ w : World E, books w = b) (core_addresses vs)) as Hc
    by (induction vs; cbn; unfold core_address; keep).
  unfold vote_with_quorum, GetEligibleVoters. keep; try apply Hc.
  apply VoteOnBallot_keeps; [|done]. intros. apply stable_keeps, ballot_hook_books.
Qed.
End votes.

(** ** Settling *)
Section settlement.
Context {E : Type} `{Bech32, CC : ChainCodecs, EC : EvmCodecs, SK : StakingKeeper, BH : BallotHooks E,
  SH : Sha256, EK : EvmKeeper E, !BallotHooksLaws E, !BooksHooksLaws E, !EvmKeeperLaws E}.
Implicit Types (ctx : Ctx) (w : World E).

Definition put_utx (key : string) (utx : UniversalTx) w : World E :=
  w <| ux ::= λ s, s <| UniversalTxs ::= insert key utx |> |>.
Definition put_outbound (i : nat) (ob : OutboundTx) (utx : UniversalTx) : UniversalTx :=
  utx <| OutboundTxs ::= <[i := ob]> |>.

Lemma UpdateUniversalTx_run key f utx utx' w :
  UniversalTxs (ux w) !! key = Some utx → f utx w = (Ok utx', w) →
  UpdateUniversalTx key f w = (Ok tt, put_utx key utx' w).
Proof. intros Hu Hf. unfold UpdateUniversalTx. mrun. rewrite Hu. mrun. rewrite Hf. by mrun. Qed.

(** [at_index utx i id]: the first outbound of [utx] with this id is the [i]-th. *)
Definition at_index (utx : UniversalTx) (i : nat) (id : string) : Prop :=
  find_index (with_id id) (OutboundTxs utx) = Some i.
Lemma at_index_put utx i ob : at_index utx i (ObId ob) → at_index (put_outbound i ob utx) i (ObId ob).
Proof.
  unfold at_index. intros (x & Hx & _ & Hmin)%find_index_Some. apply find_index_Some. cbn -[insert].
  exists ob. pose proof (lookup_lt_Some _ _ _ Hx). rewrite list_lookup_insert_eq by done.
  split_and!; [done|by apply bool_decide_eq_true|]. intros j y Hj. rewrite list_lookup_insert_ne by lia. by apply Hmin.
Qed.
Lemma UpdateOutbound_run key utx i ob w :
  UniversalTxs (ux w) !! key = Some utx → at_index utx i (ObId ob) →
  UpdateOutbound key ob w = (Ok tt, put_utx key (put_outbound i ob utx) w).
Proof.
  intros Hu Hi. apply (UpdateUniversalTx_run _ _ utx); [done|]. unfold replace_outbound.
  destruct (OutboundTxs utx) eqn:Ho; [by unfold at_index in Hi; rewrite Ho in Hi|].
  rewrite <- Ho. by rewrite Hi.
Qed.

(** A refund either has nothing to do or leaves its record; nothing else changes. *)
Definition refund_recorded (obs : OutboundObservation) (ob ob' : OutboundTx) : Prop :=
  ob' = ob <| PcRefundExecution := PcRefundExecution ob' |> <| RefundSwapError := RefundSwapError ob' |> ∧
  match refund_amount ob obs with
  | None => ob' = ob
  | Some _ => ∃ pc, PcRefundExecution ob' = Some pc ∧ (PcStatus pc = "SUCCESS" ∨ PcStatus pc = "FAILED")
  end.

Lemma attempt_view {A} (m : M (World E) A) w :
  (m w).2 = w → (∀ e, (m w).1 ≠ Panic e) → ∃ r, attempt m w = (Ok r, w) ∧ ∀ e, r ≠ Panic e.
Proof.
  unfold attempt. intros Hs Hp. destruct (m w) as [[a|e|e] w1]; cbn in *; subst; [eauto..|by destruct (Hp e)].
Qed.
Lemma quote_view ctx t f a w :
  (getSwapQuoteForRefund ctx t f a w).2 = w ∧ ∀ e, (getSwapQuoteForRefund ctx t f a w).1 ≠ Panic e.
Proof.
  unfold getSwapQuoteForRefund. mrun.
  pose proof (quoter_read ctx w) as H1. pose proof (quoter_no_panic ctx w) as P1.
  destruct (view_uniswapV3Quoter ctx w) as [[q|e|e] w1]; cbn in H1, P1; subst w1; [|done|by destruct (P1 e)]. mrun.
  pose proof (wpc_read ctx w) as H2. pose proof (wpc_no_panic ctx w) as P2.
  destruct (view_WPC ctx w) as [[wpc|e|e] w1]; cbn in H2, P2; subst w1; [|done|by destruct (P2 e)].
  split; [apply quote_read|]. intros e. apply quote_no_panic.
Qed.

Lemma refund_with_swap_run ctx t a r pc w :
  ∃ out w', refund_with_swap ctx t a r pc w = (Ok out, w') ∧ calm w w' ∧
    match out with inl pc' => PcStatus pc' = "SUCCESS" | inr _ => True end.
Proof.
  unfold refund_with_swap. mrun.
  destruct (attempt_view (view_defaultFeeTier ctx t) w) as (ft & Hft & Hp); [apply feeTier_read|apply feeTier_no_panic|].
  unfold attempt in Hft. rewrite Hft. cbv beta iota. clear Hft.
  destruct ft as [fee|e|e]; [|by eexists _, _|by destruct (Hp e)]. mrun.
  destruct (quote_view ctx t fee a w) as [Hr Hnp].
  destruct (attempt_view (getSwapQuoteForRefund ctx t fee a) w Hr Hnp) as (q & Hq & Hp').
  unfold attempt in Hq. rewrite Hq. cbv beta iota. clear Hq.
  destruct q as [quote|e|e]; [|by eexists _, _|by destruct (Hp' e)]. mrun.
  destruct (module_call_run ctx (refundUnusedGas t a r true fee (min_out quote)) w) as (out & w' & Hc & Hcalm & Hrc & _).
  unfold CallUniversalCoreRefundUnusedGas. rewrite Hc. cbv beta iota.
  destruct (rerr out) as [e|]; mrun; [by eexists _, _|]. destruct (Hrc eq_refl) as [rc ->]. mrun. by eexists _, _.
Qed.

Lemma applyGasRefund_run ctx ob obs w :
  ∃ ob' w', applyGasRefund ctx ob obs w = (Ok ob', w') ∧ calm w w' ∧ refund_recorded obs ob ob'.
Proof.
  unfold applyGasRefund, refund_recorded. destruct (refund_amount ob obs) as [a|]; mrun.
  2: { exists ob, w. split_and!; [done..| |done]. by destruct ob. }
  set (t := HexToAddress (GasToken ob)). set (r := HexToAddress (refund_recipient _ _)).
  set (pc := upd PcBlockHeight _ _).
  destruct (refund_with_swap_run ctx t a r pc w) as (out & w1 & -> & Hcalm & Hout). mrun.
  destruct out as [pc'|reason]; mrun.
  { eexists _, w1. split_and!; [done|done|by destruct ob|]. exists pc'. auto. }
  destruct (module_call_run ctx (refundUnusedGas t a r false 0 0) w1) as (out & w2 & Hc & Hcalm2 & Hrc & _).
  unfold CallUniversalCoreRefundUnusedGas. rewrite Hc. cbv beta iota.
  destruct (rerr out) as [e|]; mrun; [|destruct (Hrc eq_refl) as [rc ->]; mrun];
    (eexists _, w2; split_and!; [done|by etrans|by destruct ob|]; eexists; split; [done|]; auto).
Qed.

(** ** The end of an outbound

    What settling may change in the record, and the ways it can end: executed,
    refused on the destination and refunded here, or left for manual
    intervention. *)
Definition same_transfer (ob ob' : OutboundTx) : Prop :=
  ob' = ob <| OutboundStatus := OutboundStatus ob' |> <| ObservedTx := ObservedTx ob' |>
           <| PcRevertExecution := PcRevertExecution ob' |> <| PcRefundExecution := PcRefundExecution ob' |>
           <| RefundSwapError := RefundSwapError ob' |> <| AbortReason := AbortReason ob' |>.
Definition refunded (obs : OutboundObservation) (ob ob' : OutboundTx) : Prop :=
  match refund_amount ob obs with
  | None => PcRefundExecution ob' = PcRefundExecution ob
  | Some _ => ∃ pc, PcRefundExecution ob' = Some pc ∧ (PcStatus pc = "SUCCESS" ∨ PcStatus pc = "FAILED")
  end.
Inductive settled (obs : OutboundObservation) (ob ob' : OutboundTx) : string → string → Prop :=
| settled_executed err :
    Success obs = true → OutboundStatus ob' = OBSERVED → PcRevertExecution ob' = PcRevertExecution ob →
    refunded obs ob ob' → settled obs ob ob' err err
| settled_reverted err :
    Success obs = false → OutboundStatus ob' = REVERTED →
    (if reminted (ObTxType ob) then ∃ pc, PcRevertExecution ob' = Some pc ∧ PcStatus pc = "SUCCESS"
     else PcRevertExecution ob' = PcRevertExecution ob) →
    refunded obs ob ob' → settled obs ob ob' err err
| settled_aborted err pc :
    Success obs = false → OutboundStatus ob' = ABORTED → reminted (ObTxType ob) = true →
    PcRevertExecution ob' = Some pc → PcStatus pc = "FAILED" → settled obs ob ob' err err
| settled_unparsable err err' :
    Success obs = false → OutboundStatus ob' = OBSERVED → reminted (ObTxType ob) = true →
    big_SetString (ObAmount ob) = None → settled obs ob ob' err err'.
Hint Constructors settled : core.

Definition observed (obs : OutboundObservation) (ob : OutboundTx) : OutboundTx :=
  ob <| OutboundStatus := OBSERVED |> <| ObservedTx := Some obs |>.
(** [settles_to key i utx ob' w w']: the records of [w'] are those of [w] with [ob'] at [i]. *)
Definition settles_to key i utx ob' w w' : Prop :=
  books w' = (<[key := put_outbound i ob' utx]> (UniversalTxs (ux w)), PendingOutbounds (ux w)) ∧ uv w' = uv w.

Lemma put_after_calm key i utx ob' w w1 :
  calm w w1 → settles_to key i utx ob' w (put_utx key (put_outbound i ob' utx) w1).
Proof. intros Hc. pose proof (calm_books _ _ Hc) as Hb. unfold books in Hb. injection Hb as Hu Hp.
  destruct Hc as (Huv & _). split; [|done]. unfold books, put_utx. cbn -[insert]. by rewrite Hu, Hp. Qed.
Lemma calm_lookup key utx w w1 :
  calm w w1 → UniversalTxs (ux w) !! key = Some utx → UniversalTxs (ux w1) !! key = Some utx.
Proof. intros (_ & _ & _ & ->). done. Qed.

Lemma mark_reverted_run ctx key utx i ob obs w :
  UniversalTxs (ux w) !! key = Some utx → at_index utx i (ObId ob) →
  ∃ ob' w', mark_reverted ctx key ob obs w = (Ok tt, w') ∧ settles_to key i utx ob' w w' ∧
    refund_recorded obs (ob <| OutboundStatus := REVERTED |>) ob'.
Proof.
  intros Hu Hi. unfold mark_reverted. mrun.
  destruct (applyGasRefund_run ctx (ob <| OutboundStatus := REVERTED |>) obs w) as (ob' & w1 & -> & Hc & Hr). mrun.
  exists ob', (put_utx key (put_outbound i ob' utx) w1). split_and!; [|by apply put_after_calm|done].
  apply UpdateOutbound_run; [by eapply calm_lookup|]. by destruct Hr as [-> _].
Qed.

Lemma refunded_of obs ob ob1 ob' :
  refund_amount ob1 obs = refund_amount ob obs → PcRefundExecution ob1 = PcRefundExecution ob →
  refund_recorded obs ob1 ob' → refunded obs ob ob'.
Proof. intros Ha Hp (_ & Hr). unfold refunded. rewrite <- Ha. destruct (refund_amount ob1 obs); [done|by subst]. Qed.

(** An outbound that ended well: what [settled] needs besides the cause. *)
Definition ends key i utx obs ob w (r : res unit) w' : Prop :=
  r = Ok tt ∧ ∃ ob', settles_to key i utx ob' w w' ∧ same_transfer ob ob' ∧ ObservedTx ob' = Some obs ∧
    settled obs ob ob' (RevertError utx) (RevertError utx).

Lemma handleSuccessfulOutbound_run ctx key utx i ob obs w :
  UniversalTxs (ux w) !! key = Some utx → at_index utx i (ObId ob) → Success obs = true →
  ∃ r w', handleSuccessfulOutbound ctx key (observed obs ob) obs w = (r, w') ∧ ends key i utx obs ob w r w'.
Proof.
  intros Hu Hi Hs. unfold handleSuccessfulOutbound. mrun.
  destruct (applyGasRefund_run ctx (observed obs ob) obs w) as (ob' & w1 & -> & Hc & Href). mrun.
  pose proof (proj1 Href) as Hrec.
  rewrite (UpdateOutbound_run key utx i); [|by eapply calm_lookup|by rewrite Hrec].
  eexists _, _. split; [done|]. split; [done|]. exists ob'. split; [by apply put_after_calm|].
  pose proof (refunded_of obs ob (observed obs ob) ob' eq_refl eq_refl Href).
  split; [by rewrite Hrec|]. split; [by rewrite Hrec|]. apply settled_executed; [done|by rewrite Hrec|by rewrite Hrec|done].
Qed.
(** [o] is the observed outbound, with the record of the re-mint if there was one. *)
Lemma reverted_run ctx key utx i ob obs o w0 w :
  UniversalTxs (ux w) !! key = Some utx → at_index utx i (ObId ob) → calm w w0 → Success obs = false →
  o = (observed obs ob) <| PcRevertExecution := PcRevertExecution o |> →
  (if reminted (ObTxType ob) then ∃ pc, PcRevertExecution o = Some pc ∧ PcStatus pc = "SUCCESS"
   else PcRevertExecution o = PcRevertExecution ob) →
  ∃ r w', mark_reverted ctx key o obs w0 = (r, w') ∧ ends key i utx obs ob w r w'.
Proof.
  intros Hu Hi Hc Hs Ho Hrm.
  destruct (mark_reverted_run ctx key utx i o obs w0) as (ob' & w' & -> & [Hb Huv] & Href);
    [by eapply calm_lookup|by rewrite Ho|].
  eexists _, _. split; [done|]. split; [done|]. exists ob'.
  pose proof (calm_books _ _ Hc) as Hbk. unfold books in Hbk. injection Hbk as Hb1 Hb2.
  rewrite Hb1, Hb2 in Hb. pose proof (proj1 Href) as Hrec.
  assert (refunded obs ob ob') by (apply (refunded_of obs ob _ ob') in Href; [done|by rewrite Ho..]).
  split; [split; [done|]; destruct Hc as (<- & _); done|].
  split; [unfold same_transfer; rewrite Hrec, Ho; done|]. split; [by rewrite Hrec, Ho|].
  apply settled_reverted; [done|by rewrite Hrec|by rewrite Hrec|done].
Qed.
Lemma handleFailedOutbound_run ctx key utx i ob obs w :
  UniversalTxs (ux w) !! key = Some utx → at_index utx i (ObId ob) → PendingOutbounds (ux w) !! ObId ob = None →
  Success obs = false →
  ∃ r w', handleFailedOutbound ctx key (observed obs ob) obs w = (r, w') ∧
    (ends key i utx obs ob w r w' ∨
     (∃ m, r = Err m) ∧ w' = w ∧ reminted (ObTxType ob) = true ∧ big_SetString (ObAmount ob) = None).
Proof.
  intros Hu Hi Hpend Hs. unfold handleFailedOutbound. change (ObTxType (observed obs ob)) with (ObTxType ob).
  destruct (reminted (ObTxType ob)) eqn:Hrm.
  2: { destruct (reverted_run ctx key utx i ob obs (observed obs ob) w w) as (r & w' & -> & He); eauto; by rewrite ?Hrm. }
  change (ObAmount (observed obs ob)) with (ObAmount ob). mrun.
  destruct (big_SetString (ObAmount ob)) as [amount|] eqn:Ha; mrun; [|eauto 10].
  unfold CallPRC20Deposit.
  match goal with |- context [module_call ctx ?c w] =>
    destruct (module_call_run ctx c w) as (out & w1 & -> & Hc & Hrc & _) end. cbv beta iota.
  destruct (rerr out) as [e|] eqn:He.
  - unfold AbortOutbound. mrun. rewrite (UpdateOutbound_run key utx i); [|by eapply calm_lookup|done]. mrun.
    eexists _, _. split; [done|]. left. split; [done|]. eexists. split.
    { pose proof (calm_books _ _ Hc) as Hbk. unfold books in Hbk. injection Hbk as Hb1 Hb2.
      split; [|by destruct Hc as (<- & _)]. unfold books. cbn -[insert delete].
      rewrite Hb1, Hb2. f_equal. by apply delete_id. }
    split; [done|]. split; [done|]. by eapply settled_aborted.
  - destruct (Hrc eq_refl) as [rc Hrcpt]. rewrite Hrcpt. mrun.
    match goal with |- context [mark_reverted ctx key ?o obs w1] =>
      destruct (reverted_run ctx key utx i ob obs o w1 w) as (r & w' & -> & Hend) end; eauto.
    rewrite Hrm. by eexists.
Qed.

(** Finalizing returns an error only when the amount of a failed transfer does
    not parse, and then it changes nothing. *)
Lemma FinalizeOutbound_run ctx key utx i ob obs w :
  UniversalTxs (ux w) !! key = Some utx → at_index utx i (ObId ob) → PendingOutbounds (ux w) !! ObId ob = None →
  ∃ r w', FinalizeOutbound ctx key (observed obs ob) w = (r, w') ∧
    (ends key i utx obs ob w r w' ∨
     (∃ m, r = Err m) ∧ w' = w ∧ Success obs = false ∧ reminted (ObTxType ob) = true ∧
       big_SetString (ObAmount ob) = None).
Proof.
  intros Hu Hi Hpend. unfold FinalizeOutbound. cbn [OutboundStatus ObservedTx observed upd]. rewrite decide_False by tauto.
  destruct (Success obs) eqn:Hs.
  - destruct (handleSuccessfulOutbound_run ctx key utx i ob obs w Hu Hi Hs) as (r & w' & -> & He). eauto.
  - destruct (handleFailedOutbound_run ctx key utx i ob obs w Hu Hi Hpend Hs) as (r & w' & -> & [He|He]); [eauto|].
    eexists _, _. split; [done|]. naive_solver.
Qed.

Lemma put_outbound_twice i ob ob' utx : put_outbound i ob' (put_outbound i ob utx) = put_outbound i ob' utx.
Proof. unfold put_outbound. destruct utx. cbn -[insert]. by rewrite list_insert_insert_eq. Qed.

(** The deciding vote: the outbound is settled and leaves the pending index, and
    nothing else in the records changes. *)
Definition settled_books key i utx obs ob w w' : Prop :=
  ∃ ob' err', same_transfer ob ob' ∧ ObservedTx ob' = Some obs ∧ settled obs ob ob' (RevertError utx) err' ∧
    books w' = (<[key := (put_outbound i ob' utx) <| RevertError := err' |>]> (UniversalTxs (ux w)),
                delete (ObId ob) (PendingOutbounds (ux w))).

Lemma settle_outbound_run ctx key utx i ob obs w :
  UniversalTxs (ux w) !! key = Some utx → at_index utx i (ObId ob) →
  ∃ w', settle_outbound ctx key (ObId ob) ob obs w = (Ok tt, w') ∧ uv w' = uv w ∧
    settled_books key i utx obs ob w w'.
Proof.
  intros Hu Hi. unfold settle_outbound. cbv zeta. fold (observed obs ob). mrun.
  rewrite (UpdateOutbound_run key utx i (observed obs ob)) by done. mrun.
  set (utx1 := put_outbound i (observed obs ob) utx). set (w2 := upd ux _ _).
  assert (at_index utx1 i (ObId ob)) as Hi1 by (by apply (at_index_put utx i (observed obs ob))).
  destruct (FinalizeOutbound_run ctx key utx1 i ob obs w2) as (r & w3 & Hfin & Hend).
  { cbn -[insert]. by rewrite lookup_insert_eq. } { done. } { cbn -[insert delete]. by rewrite lookup_delete_eq. }
  unfold or_store_error. mrun. rewrite Hfin. destruct Hend as [(-> & ob' & [Hb Huv] & Hst & Hobs & Hset)|([m ->] & -> & Hs & Hr & Ha)].
  - mrun. exists w3. split; [done|]. split; [done|]. exists ob', (RevertError utx). split_and!; [done..|].
    rewrite Hb. unfold w2. cbn -[insert delete]. rewrite insert_insert_eq. unfold utx1. rewrite put_outbound_twice.
    by destruct utx.
  - mrun. rewrite (UpdateUniversalTx_run key _ utx1 (utx1 <| RevertError := m |>)); [|by cbn -[insert]; rewrite lookup_insert_eq|done].
    eexists. split; [done|]. split; [done|]. exists (observed obs ob), m. split_and!; [done|done|by apply settled_unparsable|].
    unfold books, put_utx, w2. cbn -[insert delete]. by rewrite insert_insert_eq.
Qed.

(** Casting the vote: the ballot and the audit trail change together or not at all. *)
Lemma cast_outbound_vote_run ctx val key id obs w h :
  validators_inv h (uv w) → ballots_inv (uv w) →
  let bk := GetOutboundBallotKey key id obs in
  match PendingOutbounds (ux w) !! id, aye ctx val (quorum_poll ctx w bk) with
  | Some e, Some p =>
      ∃ w', cast_outbound_vote ctx val key id obs w = (Ok (bool_decide (phase p ≠ Ballot.BALLOT_STATUS_PENDING)), w') ∧
        ballots_inv (uv w') ∧ polls (uv w') !! bk = Some p ∧
        books w' = (UniversalTxs (ux w),
          <[id := e <| ObsVariants ::= add_outbound_vote (u64 (BlockHeight ctx)) obs (ValAddress_String val) bk |>]>
            (PendingOutbounds (ux w)))
  | _, _ => ∃ m, cast_outbound_vote ctx val key id obs w = (Err m, w)
  end.
Proof.
  intros Hvi Hbi bk. unfold cast_outbound_vote, VoteOnOutboundBallot. fold bk. mrun.
  pose proof (vote_with_quorum_spec ctx val bk Ballot.BALLOT_OBSERVATION_TYPE_OUTBOUND_TX w h Hvi Hbi) as Hv.
  pose proof (vote_with_quorum_books ctx val bk Ballot.BALLOT_OBSERVATION_TYPE_OUTBOUND_TX (books w) w eq_refl) as Hbk.
  destruct (vote_with_quorum ctx val bk _ w) as [out w1]. cbn [snd] in Hbk. unfold books in Hbk. injection Hbk as Hb1 Hb2.
  destruct Hv as [Hbi1 Hv]. destruct (aye ctx val (quorum_poll ctx w bk)) as [p|].
  2: { destruct Hv as [m ->]. destruct (PendingOutbounds (ux w) !! id); mrun; eauto. }
  destruct Hv as [-> Hp]. mrun. unfold RecordOutboundVote. mrun. rewrite Hb2.
  destruct (PendingOutbounds (ux w) !! id) as [e|]; mrun; [|eauto]. cbn [fst].
  eexists. split; [done|]. split; [done|]. split; [done|]. unfold books. cbn -[insert]. by rewrite Hb1, Hb2.
Qed.

(** The outbound a vote is about. *)
Definition outbound_at w (key id : string) : option (UniversalTx * nat * OutboundTx) :=
  utx ← UniversalTxs (ux w) !! key;
  i ← find_index (with_id id) (OutboundTxs utx);
  ob ← OutboundTxs utx !! i;
  Some (utx, i, ob).
Lemma outbound_at_Some w key id utx i ob :
  outbound_at w key id = Some (utx, i, ob) ↔
  UniversalTxs (ux w) !! key = Some utx ∧ at_index utx i id ∧ OutboundTxs utx !! i = Some ob ∧ ObId ob = id.
Proof.
  unfold outbound_at, at_index. rewrite bind_Some. setoid_rewrite bind_Some. setoid_rewrite bind_Some. split.
  - intros (u & Hu & j & Hj & o & Ho & [= -> -> ->]). split_and!; try done.
    apply find_index_Some in Hj as (x & Hx & Hid & _). simplify_eq. by apply bool_decide_eq_true in Hid.
  - intros (Hu & Hi & Ho & _). eauto 10.
Qed.

Lemma VoteOutbound_cases ctx val key id obs w h :
  validators_inv h (uv w) → ballots_inv (uv w) →
  let '(out, w') := VoteOutbound ctx val key id obs w in
  match outbound_at w key id with
  | None => (∃ m, out = Err m) ∧ w' = w
  | Some (utx, i, ob) =>
      let obs := canonical_observation (DestinationChain ob) obs in
      let bk := GetOutboundBallotKey key id obs in
      match decide (OutboundStatus ob = PENDING), PendingOutbounds (ux w) !! id, aye ctx val (quorum_poll ctx w bk) with
      | left _, Some e, Some p =>
          out = Ok tt ∧ ballots_inv (uv w') ∧ polls (uv w') !! bk = Some p ∧
          if decide (phase p = Ballot.BALLOT_STATUS_PENDING) then
            books w' = (UniversalTxs (ux w),
              <[id := e <| ObsVariants ::= add_outbound_vote (u64 (BlockHeight ctx)) obs (ValAddress_String val) bk |>]>
                (PendingOutbounds (ux w)))
          else settled_books key i utx obs ob w w'
      | _, _, _ => (∃ m, out = Err m) ∧ w' = w
      end
  end.
Proof.
  intros Hvi Hbi. unfold VoteOutbound, GetUniversalTx. mrun.
  destruct (outbound_at w key id) as [[[utx i] ob]|] eqn:Hat.
  - apply outbound_at_Some in Hat as (Hu & Hi & Ho & Hid). rewrite Hu. mrun.
    rewrite bool_decide_true by (by intros Hn; rewrite Hn in Ho). mrun.
    rewrite Hi. cbn [mbind option_bind]. rewrite Ho. mrun.
    set (obs' := canonical_observation _ obs). set (bk := GetOutboundBallotKey key id obs').
    destruct (decide (OutboundStatus ob = PENDING)) as [Hp|Hp].
    2: { rewrite bool_decide_false by done. mrun. eauto. }
    rewrite bool_decide_true by done. mrun.
    pose proof (cast_outbound_vote_run ctx val key id obs' w h Hvi Hbi) as Hc. cbv zeta in Hc. fold bk in Hc.
    destruct (PendingOutbounds (ux w) !! id) as [e|]; [|destruct Hc as [m ->]; mrun; eauto].
    destruct (aye ctx val (quorum_poll ctx w bk)) as [p|]; [|destruct Hc as [m ->]; mrun; eauto].
    destruct Hc as (w1 & -> & Hbi1 & Hpl & Hbk). cbv beta iota. unfold books in Hbk. injection Hbk as Hb1 Hb2.
    destruct (decide (phase p = Ballot.BALLOT_STATUS_PENDING)) as [Hph|Hph].
    { rewrite bool_decide_false by tauto. mrun. split_and!; [done..|]. unfold books. by rewrite Hb1, Hb2. }
    rewrite bool_decide_true by done. rewrite <- Hid in Hi |- *.
    destruct (settle_outbound_run ctx key utx i ob obs' w1) as (w2 & -> & Huv & ob' & err' & H1 & H2 & H3 & H4);
      [by rewrite Hb1|done|]. rewrite Huv. split_and!; [done..|]. exists ob', err'. split_and!; [done..|].
    rewrite H4, Hb1, Hb2, Hid, delete_insert_eq. done.
  - unfold outbound_at in Hat. destruct (UniversalTxs (ux w) !! key) as [utx|]; mrun; [|eauto].
    destruct (bool_decide (OutboundTxs utx ≠ [])); mrun; [|eauto]. cbn [mbind option_bind] in Hat.
    destruct (find_index (with_id id) (OutboundTxs utx)) as [i|] eqn:Hi; cbn [mbind option_bind] in *; mrun; [|eauto].
    apply find_index_Some in Hi as (x & Hx & _). rewrite Hx in Hat. done.
Qed.

(** C2. A vote on an outbound, on every branch.  A vote on an unknown outbound, on
    one that is no longer PENDING, or one the ballot refuses (voter not entitled,
    already voted, ballot closed) is an error that changes nothing.  An accepted
    vote is counted in the ballot of exactly this observation; while the ballot is
    open only the audit trail changes; the deciding vote settles the outbound once
    and removes it from the pending index, whatever the EVM answers: executed and
    refunded for unused gas, or reverted with its funds minted back, or aborted
    when that mint fails. *)
Theorem VoteOutbound_settles_once ctx val key id obs w h :
  validators_inv h (uv w) → ballots_inv (uv w) →
  let '(out, w') := VoteOutbound ctx val key id obs w in
  match outbound_at w key id with
  | None => (∃ m, out = Err m) ∧ w' = w
  | Some (utx, i, ob) =>
      let obs := canonical_observation (DestinationChain ob) obs in
      let bk := GetOutboundBallotKey key id obs in
      match decide (OutboundStatus ob = PENDING), PendingOutbounds (ux w) !! id, aye ctx val (quorum_poll ctx w bk) with
      | left _, Some e, Some p =>
          out = Ok tt ∧ ballots_inv (uv w') ∧ polls (uv w') !! bk = Some p ∧
          if decide (phase p = Ballot.BALLOT_STATUS_PENDING) then
            books w' = (UniversalTxs (ux w),
              <[id := e <| ObsVariants ::= add_outbound_vote (u64 (BlockHeight ctx)) obs (ValAddress_String val) bk |>]>
                (PendingOutbounds (ux w)))
          else settled_books key i utx obs ob w w'
      | _, _, _ => (∃ m, out = Err m) ∧ w' = w
      end
  end.
Proof. apply VoteOutbound_cases. Qed.
End settlement.
