(* ===== verification/UxPending.v ===== *)
(** * x/uexecutor: the index of pending outbounds

    [PendingOutbounds] holds an entry for every PENDING outbound and for nothing
    else: creation adds entries, the deciding vote removes them, and the guard on
    fund migrations ([keeper/pending_outbound_query.go]) reads them. *)
From S2P Require Import Prelude GoStrings UvTypes TssTypes UxTypes RegTypes World Canonical.
From S2P Require Import UvValidator UvBallot Registry Utss UxKeys UxPayload UxEvm UxOutbound.
From S2P Require Import UxSettle UxInbound UxFinality.
Import Ux.

Section pending.
Context {E : Type} `{Bech32, CC : ChainCodecs, EC : EvmCodecs, SK : StakingKeeper, BH : BallotHooks E,
  SH : Sha256, EK : EvmKeeper E, !BallotHooksLaws E, !BooksHooksLaws E, !EvmKeeperLaws E}.
Implicit Types (ctx : Ctx) (w : World E).

#[local] Abbreviation book := (gmap string UniversalTx * gmap string PendingOutboundEntry)%type.
Definition outbound_in (b : book) (key : string) (ob : OutboundTx) : Prop :=
  ∃ utx, b.1 !! key = Some utx ∧ ob ∈ OutboundTxs utx.
(** The index holds the PENDING outbounds, each under its id. *)
Record pending_inv (b : book) : Prop := {
  pending_entry_ok id e : b.2 !! id = Some e →
    OutboundId e = id ∧ ∃ ob, outbound_in b (UniversalTxId e) ob ∧ ObId ob = id ∧ OutboundStatus ob = PENDING;
  pending_indexed key ob : outbound_in b key ob → OutboundStatus ob = PENDING →
    ∃ e, b.2 !! ObId ob = Some e ∧ UniversalTxId e = key;
  ids_unique key utx : b.1 !! key = Some utx → NoDup (ObId <$> OutboundTxs utx);
}.

Lemma unique_outbound (l : list OutboundTx) ob ob' :
  NoDup (ObId <$> l) → ob ∈ l → ob' ∈ l → ObId ob = ObId ob' → ob = ob'.
Proof.
  intros Hnd [i Hi]%list_elem_of_lookup [j Hj]%list_elem_of_lookup Heq.
  assert (i = j) as ->; [|congruence].
  eapply NoDup_lookup; [exact Hnd|..]; rewrite list_lookup_fmap, ?Hi, ?Hj; cbn; by rewrite ?Heq.
Qed.

Lemma has_pending_spec chain w :
  pending_inv (books w) →
  ∃ b, HasPendingOutboundsForChain chain w = (Ok b, w) ∧
    (b = true ↔ ∃ key ob, outbound_in (books w) key ob ∧ OutboundStatus ob = PENDING ∧ DestinationChain ob = chain).
Proof.
  intros Hinv. unfold HasPendingOutboundsForChain. rewrite get_ux_run. eexists. split; [done|].
  rewrite existsb_exists. split.
  - intros ([id e] & Hin%list_elem_of_In%elem_of_walk & Hp). unfold pending_on_chain in Hp. cbn [fst snd] in Hp.
    destruct (UniversalTxs (ux w) !! UniversalTxId e) as [utx|] eqn:Hu; [|done].
    apply existsb_exists in Hp as (ob & Hob%list_elem_of_In & [Hc%bool_decide_eq_true Hid%bool_decide_eq_true]%andb_true_iff).
    destruct (pending_entry_ok _ Hinv id e Hin) as (_ & ob' & (utx' & Hu' & Hob') & Hid' & Hst).
    cbn in Hu'. rewrite Hu in Hu'. injection Hu' as <-.
    assert (ob = ob') as -> by (eapply unique_outbound; [by eapply (ids_unique _ Hinv)|done..|congruence]).
    exists (UniversalTxId e), ob'. split; [by exists utx|done].
  - intros (key & ob & Hin & Hst & Hc). destruct (pending_indexed _ Hinv key ob Hin Hst) as (e & He & Hk).
    exists (ObId ob, e). split; [by apply list_elem_of_In, elem_of_walk|].
    destruct Hin as (utx & Hu & Hob). unfold pending_on_chain. cbn in Hu |- *. rewrite Hk, Hu.
    apply existsb_exists. exists ob. split; [by apply list_elem_of_In|]. by rewrite !bool_decide_true.
Qed.
(** The guard on fund migrations means what it says: on a store whose index is
    exact, [HasPendingOutboundsForChain] is true exactly when some transaction has
    a PENDING outbound to that chain. *)
Theorem HasPendingOutboundsForChain_exact chain w :
  pending_inv (books w) →
  ∃ b, HasPendingOutboundsForChain chain w = (Ok b, w) ∧
    (b = true ↔ ∃ key ob, outbound_in (books w) key ob ∧ OutboundStatus ob = PENDING ∧ DestinationChain ob = chain).
Proof. apply has_pending_spec. Qed.

(** Settling an outbound takes it out of the index with its PENDING status. *)
Lemma settled_books_inv key i utx obs ob w w' :
  pending_inv (books w) → UniversalTxs (ux w) !! key = Some utx → OutboundTxs utx !! i = Some ob →
  OutboundStatus ob = PENDING → settled_books key i utx obs ob w w' → pending_inv (books w').
Proof.
  intros Hinv Hu Hi Hst (ob' & err' & Hsame & _ & Hset & Hb).
  assert (ObId ob' = ObId ob) as Hid by (by rewrite Hsame).
  assert (OutboundStatus ob' ≠ PENDING) as Hns by (destruct Hset; congruence).
  set (utx' := (put_outbound i ob' utx) <| RevertError := err' |>) in Hb.
  assert (OutboundTxs utx' = <[i := ob']> (OutboundTxs utx)) as Hl by done.
  assert (ObId <$> OutboundTxs utx' = ObId <$> OutboundTxs utx) as Hids.
  { rewrite Hl, list_fmap_insert, Hid. apply list_insert_id. by rewrite list_lookup_fmap, Hi. }
  assert (∀ k o, outbound_in (books w') k o → OutboundStatus o = PENDING →
            outbound_in (books w) k o ∧ ObId o ≠ ObId ob) as Hback.
  { intros k o (u & Hk & Ho) Hp. rewrite Hb in Hk. cbn in Hk.
    pose proof (pending_indexed _ Hinv key ob ltac:(eexists; split; [done|by eapply list_elem_of_lookup_2]) Hst) as (e & He & Hke).
    destruct (decide (k = key)) as [->|Hne].
    - rewrite lookup_insert_eq in Hk. injection Hk as <-. rewrite Hl in Ho.
      apply list_elem_of_lookup in Ho as [j Hj]. destruct (decide (i = j)) as [<-|Hij].
      + rewrite list_lookup_insert_eq in Hj by (by eapply lookup_lt_Some). congruence.
      + rewrite list_lookup_insert_ne in Hj by done. split; [exists utx; split; [done|by eapply list_elem_of_lookup_2]|].
        intros Heq. assert (i = j) as ->; [|done]. eapply NoDup_lookup; [by eapply (ids_unique _ Hinv)|..];
          rewrite list_lookup_fmap, ?Hi, ?Hj; cbn; by rewrite ?Heq.
    - rewrite lookup_insert_ne in Hk by done. split; [by exists u|]. intros Heq.
      destruct (pending_indexed _ Hinv k o ltac:(by exists u) Hp) as (e' & He' & Hk'). rewrite Heq in He'. congruence. }
  assert (∀ k o, outbound_in (books w) k o → OutboundStatus o = PENDING → ObId o ≠ ObId ob → outbound_in (books w') k o) as Hfwd.
  { intros k o (u & Hk & Ho) Hp Hne. unfold outbound_in. rewrite Hb. cbn. destruct (decide (k = key)) as [->|Hkk].
    - cbn in Hk. rewrite Hu in Hk. injection Hk as <-. exists utx'. rewrite lookup_insert_eq. split; [done|].
      rewrite Hl. apply list_elem_of_lookup in Ho as [j Hj]. apply (list_elem_of_lookup_2 _ j).
      rewrite list_lookup_insert_ne; [done|]. intros ->. congruence.
    - exists u. by rewrite lookup_insert_ne. }
  split.
  - intros id e He. rewrite Hb in He. cbn in He. apply lookup_delete_Some in He as [Hne He].
    destruct (pending_entry_ok _ Hinv id e He) as (Hoid & o & Ho & Hoi & Hp). split; [done|]. exists o.
    split; [apply Hfwd; [done..|congruence]|done].
  - intros k o Ho Hp. destruct (Hback k o Ho Hp) as [Ho' Hne]. destruct (pending_indexed _ Hinv k o Ho' Hp) as (e & He & Hk).
    exists e. rewrite Hb. cbn. by rewrite lookup_delete_ne.
  - intros k u Hk. rewrite Hb in Hk. cbn in Hk. apply lookup_insert_Some in Hk as [[<- <-]|[_ Hk]].
    + rewrite Hids. by eapply (ids_unique _ Hinv).
    + by eapply (ids_unique _ Hinv).
Qed.

(** Attaching: the outbounds are appended and indexed, and it always succeeds.  Nothing checks
    that they are PENDING, that their identifiers differ, and that one of them is in use
    neither in the same transaction nor for a PENDING outbound of another. *)
Definition fresh_outbounds (b : book) (key : string) (obs : list OutboundTx) : Prop :=
  NoDup (ObId <$> obs) ∧ (∀ ob, ob ∈ obs → OutboundStatus ob = PENDING) ∧
  ∀ k ob ob', outbound_in b k ob → ob' ∈ obs → ObId ob = ObId ob' → k ≠ key ∧ OutboundStatus ob ≠ PENDING.

Lemma signing_deadline_run ctx c w : ∃ d, signing_deadline ctx c w = (Ok d, w).
Proof.
  unfold signing_deadline, GetChainConfig. mrun. destruct (_ !! c) as [cfg|]; mrun; eauto.
Qed.
Lemma attach_all_run ctx key obs utx w :
  ∃ P, attach_all ctx key obs utx w =
    (Ok (utx <| OutboundTxs ::= (.++ obs) |>), w <| ux ::= λ s, s <| PendingOutbounds := P |> |>) ∧
    (∀ id, id ∈ ObId <$> obs → ∃ e, P !! id = Some e ∧ OutboundId e = id ∧ UniversalTxId e = key) ∧
    (∀ id, id ∉ ObId <$> obs → P !! id = PendingOutbounds (ux w) !! id).
Proof.
  revert utx w. induction obs as [|ob obs IH]; intros utx w; cbn [attach_all]; mrun.
  { exists (PendingOutbounds (ux w)). split; [|split; [by intros id ?%elem_of_nil|done]].
    destruct utx, w as [? ? [] ? ?]. unfold upd. cbn. by rewrite app_nil_r. }
  destruct (signing_deadline_run ctx (DestinationChain ob) w) as [d ->]. mrun.
  set (w1 := upd ux _ w). destruct (IH (utx <| OutboundTxs ::= (.++ [ob]) |>) w1) as (P & -> & HP & HQ).
  exists P. split; [destruct utx, w as [? ? [] ? ?]; cbn; by rewrite <- app_assoc|]. split.
  - intros id Hi. destruct (decide (id ∈ ObId <$> obs)) as [Hin|Hin]; [by apply HP|].
    apply elem_of_cons in Hi as [->|Hi]; [|done]. rewrite HQ by done. cbn -[insert]. rewrite lookup_insert_eq. by eexists.
  - intros id [Hne Hin]%not_elem_of_cons. rewrite HQ by done. cbn -[insert]. by rewrite lookup_insert_ne.
Qed.
(** The books after attaching: [P] is the new index. *)
Section attached.
Context (key : string) (utx : UniversalTx) (obs : list OutboundTx) (b : book) (P : gmap string PendingOutboundEntry).
Hypothesis Hinv : pending_inv b.
Hypothesis Hu : b.1 !! key = Some utx.
Hypothesis HP : ∀ id, id ∈ ObId <$> obs → ∃ e, P !! id = Some e ∧ OutboundId e = id ∧ UniversalTxId e = key.
Hypothesis HQ : ∀ id, id ∉ ObId <$> obs → P !! id = b.2 !! id.
#[local] Abbreviation utx' := (utx <| OutboundTxs ::= (.++ obs) |>).
#[local] Abbreviation b' := (<[key := utx']> b.1, P).
Lemma outbound_in_attached k o : outbound_in b' k o ↔ outbound_in b k o ∨ k = key ∧ o ∈ obs.
Proof using Hu.
  unfold outbound_in. cbn -[insert]. destruct (decide (k = key)) as [->|Hne].
  - rewrite lookup_insert_eq. split.
    + intros (? & [= <-] & Ho). cbn in Ho. rewrite elem_of_app in Ho. destruct Ho; [left|right]; eauto.
    + intros [(u & Hk & Ho)|[_ Ho]]; exists utx'; (split; [done|]); cbn; rewrite elem_of_app; [|by right].
      left. rewrite Hu in Hk. by injection Hk as <-.
  - rewrite lookup_insert_ne by done. naive_solver.
Qed.
Lemma attached_exact : fresh_outbounds b key obs → pending_inv b'.
Proof using All.
  intros (Hnd & Hpend & Hfresh). split; cbn -[insert].
  - intros id e He. destruct (decide (id ∈ ObId <$> obs)) as [Hi|Hi].
    + destruct (HP id Hi) as (e' & He' & Hoid & Hk). rewrite He in He'. injection He' as <-. split; [done|].
      apply list_elem_of_fmap in Hi as (o & -> & Ho). exists o. rewrite Hk.
      split_and!; [by apply outbound_in_attached; right|done|by apply Hpend].
    + rewrite HQ in He by done. destruct (pending_entry_ok _ Hinv id e He) as (? & o & Ho & ? & ?).
      split; [done|]. exists o. split_and!; [by apply outbound_in_attached; left|done..].
  - intros k o [Ho|[-> Ho]]%outbound_in_attached Hst.
    + rewrite HQ; [by apply (pending_indexed _ Hinv)|].
      intros (o' & Heq & Ho')%list_elem_of_fmap. by destruct (Hfresh _ _ _ Ho Ho' Heq).
    + destruct (HP (ObId o)) as (e & He & _ & Hk); [apply list_elem_of_fmap|]; eauto.
  - intros k u. rewrite lookup_insert_Some. intros [[<- <-]|[_ Hk]]; [|by eapply (ids_unique _ Hinv)].
    cbn. rewrite fmap_app. apply NoDup_app. split_and!; [by eapply (ids_unique _ Hinv)| |done].
    intros id (o & -> & Ho)%list_elem_of_fmap (o' & Heq & Ho')%list_elem_of_fmap.
    by destruct (Hfresh key o o') as [? _]; [by exists utx|..].
Qed.
Lemma exact_attached : pending_inv b' → fresh_outbounds b key obs.
Proof using All.
  intros Hinv'. assert (NoDup (ObId <$> OutboundTxs utx')) as Hnd by (apply (ids_unique _ Hinv' key); cbn; apply lookup_insert_eq).
  pose proof Hnd as Hnd'. cbn in Hnd'. rewrite fmap_app in Hnd'. apply NoDup_app in Hnd' as (_ & Hdis & Hnd2).
  assert (∀ ob, ob ∈ obs → ObId ob ∈ ObId <$> obs) as Hid by (intros ob Ho; apply list_elem_of_fmap; eauto).
  split_and!; [done| |].
  - intros ob Ho. destruct (HP _ (Hid _ Ho)) as (e & He & _ & Hk). destruct (pending_entry_ok _ Hinv' _ _ He) as (_ & o & (u & Hku & Hou) & Hoid & Hst).
    rewrite Hk in Hku. cbn in Hku. rewrite lookup_insert_eq in Hku. injection Hku as <-.
    assert (ob = o) as -> by (eapply unique_outbound; [exact Hnd|cbn; apply elem_of_app; by right|done|done]). done.
  - intros k ob ob' Hin Ho Heq. split.
    + intros ->. destruct Hin as (u & Hku & Hou). rewrite Hu in Hku. injection Hku as <-. apply (Hdis (ObId ob)); [apply list_elem_of_fmap; eauto|].
      rewrite Heq. by apply Hid.
    + intros Hst. destruct (HP _ (Hid _ Ho)) as (e & He & _ & Hk).
      destruct (pending_indexed _ Hinv' k ob) as (e' & He' & Hk'); [by apply outbound_in_attached; left|done|]. cbn in He'.
      rewrite Heq, He in He'. injection He' as <-. destruct Hin as (u & Hku & Hou). rewrite <- Hk', Hk in Hku.
      rewrite Hu in Hku. injection Hku as <-. apply (Hdis (ObId ob)); [apply list_elem_of_fmap; eauto|]. rewrite Heq. by apply Hid.
Qed.
End attached.
Lemma attachOutboundsToUtx_exact ctx key utx obs w :
  pending_inv (books w) → UniversalTxs (ux w) !! key = Some utx →
  ∃ w', attachOutboundsToUtx ctx key obs w = (Ok tt, w') ∧ (pending_inv (books w') ↔ fresh_outbounds (books w) key obs) ∧
    UniversalTxs (ux w') = <[key := utx <| OutboundTxs ::= (.++ obs) |>]> (UniversalTxs (ux w)).
Proof.
  intros Hinv Hu. unfold attachOutboundsToUtx.
  destruct obs as [|ob0 obs0] eqn:Hobs.
  { exists w. split_and!; [done| |].
    - split; [intros _|done]. split_and!; [apply NoDup_nil_2|by intros ? ?%not_elem_of_nil|by intros ? ? ? _ ?%not_elem_of_nil].
    - symmetry. apply insert_id. rewrite Hu. destruct utx. unfold upd. cbn. by rewrite app_nil_r. }
  rewrite <- Hobs in *. clear Hobs. unfold UpdateUniversalTx. mrun. rewrite Hu. mrun.
  destruct (attach_all_run ctx key obs utx w) as (P & -> & HP & HQ). mrun. eexists. split; [done|]. split; [|done].
  split; [apply (exact_attached key utx obs (books w) P Hinv Hu HP HQ)|apply (attached_exact key utx obs (books w) P Hinv Hu HP HQ)].
Qed.

(** C25. When the index stays exact.  Attaching outbounds to a transaction always succeeds
    and appends them; afterwards the index is again the set of PENDING outbounds if and
    only if they are PENDING, their identifiers differ, and none of these is in use in the
    same transaction or for a PENDING outbound of another one, which the code does not
    check.  A vote on an outbound, whatever its outcome, keeps the index exact. *)
Theorem pending_index_maintained ctx w h :
  pending_inv (books w) → validators_inv h (uv w) → ballots_inv (uv w) →
  (∀ key utx obs, UniversalTxs (ux w) !! key = Some utx →
     ∃ w', attachOutboundsToUtx ctx key obs w = (Ok tt, w') ∧ (pending_inv (books w') ↔ fresh_outbounds (books w) key obs) ∧
       UniversalTxs (ux w') = <[key := utx <| OutboundTxs ::= (.++ obs) |>]> (UniversalTxs (ux w))) ∧
  (∀ val key id obs, pending_inv (books (VoteOutbound ctx val key id obs w).2)).
Proof.
  intros Hinv Hvi Hbi. split; [intros; by apply attachOutboundsToUtx_exact|].
  intros val key id obs. pose proof (VoteOutbound_cases ctx val key id obs w h Hvi Hbi) as Hc.
  destruct (VoteOutbound ctx val key id obs w) as [out w']. cbn [snd].
  destruct (outbound_at w key id) as [[[utx i] ob]|] eqn:Hat; [|by destruct Hc as [_ ->]].
  apply outbound_at_Some in Hat as (Hu & _ & Hi & Hid). cbv zeta in Hc.
  destruct (decide (OutboundStatus ob = PENDING)) as [Hst|]; [|by destruct Hc as [_ ->]].
  destruct (PendingOutbounds (ux w) !! id) as [e|] eqn:He; [|by destruct Hc as [_ ->]].
  destruct (aye _ _ _) as [p|]; [|by destruct Hc as [_ ->]]. destruct Hc as (_ & _ & _ & Hc).
  case_decide; [|by eapply settled_books_inv]. rewrite Hc. split; cbn -[insert].
  - intros id' e'. rewrite lookup_insert_Some. intros [[<- <-]|[_ He']]; [|by apply (pending_entry_ok _ Hinv)].
    by apply (pending_entry_ok _ Hinv) in He.
  - intros k o Ho Hp. destruct (pending_indexed _ Hinv k o Ho Hp) as (e' & He' & Hk).
    destruct (decide (id = ObId o)) as [->|Hne]; [rewrite lookup_insert_eq|rewrite lookup_insert_ne by done; eauto].
    cbn in He'. rewrite He in He'. injection He' as <-. eauto.
  - intros k u. apply (ids_unique _ Hinv).
Qed.
End pending.
