(* ===== verification/UxLedger.v ===== *)
(** * x/uexecutor: the ledger of universal transactions only grows

    Whatever messages arrive, in whatever order and with whatever answers from the
    EVM, a universal transaction is never removed or rewritten: its inbound and its
    recorded executions stay, its outbounds keep what they transfer, and an outbound
    changes state once, when it leaves PENDING. *)
From S2P Require Import Prelude GoStrings UvTypes TssTypes UxTypes RegTypes World Canonical.
From S2P Require Import UvValidator UvBallot Registry Utss TssVotes UxKeys UxPayload UxEvm.
From S2P Require Import UxOutbound UxSettle UxInbound UxFinality.
Import Ux.

(** ** How a record may change *)
Definition ob_evolves (ob ob' : OutboundTx) : Prop :=
  ob' = ob ∨ OutboundStatus ob = PENDING ∧ OutboundStatus ob' ≠ PENDING ∧ same_transfer ob ob' ∧
             is_Some (ObservedTx ob').
Record utx_evolves (u u' : UniversalTx) : Prop := {
  same_id : UtxId u' = UtxId u;
  same_inbound : InboundTx u' = InboundTx u;
  pctx_prefix : PcTx u `prefix_of` PcTx u';
  outbounds_evolve : ∃ l r, OutboundTxs u' = l ++ r ∧ Forall2 ob_evolves (OutboundTxs u) l;
}.
Definition ledger_evolves (m m' : gmap string UniversalTx) : Prop :=
  ∀ key u, m !! key = Some u → ∃ u', m' !! key = Some u' ∧ utx_evolves u u'.

#[global] Instance ob_evolves_preorder : PreOrder ob_evolves.
Proof.
  split; [by left|]. intros a b c [->|Hab] [->|Hbc]; [by left|by right|by right|].
  destruct Hab as (_ & Hb & _), Hbc as (? & _). done.
Qed.
#[global] Instance utx_evolves_preorder : PreOrder utx_evolves.
Proof.
  split.
  - intros u. split; [done..|]. exists (OutboundTxs u), []. split; [by rewrite app_nil_r|reflexivity].
  - intros a b c [Hi1 Hin1 Hp1 (l1 & r1 & Hl1 & Hf1)] [Hi2 Hin2 Hp2 (l2 & r2 & Hl2 & Hf2)].
    split; [congruence..|by etrans|]. rewrite Hl1 in Hf2. apply Forall2_app_inv_l in Hf2 as (la & lb & Ha & _ & ->).
    exists la, (lb ++ r2). split; [by rewrite Hl2, (assoc_L (++))|]. by etrans.
Qed.
#[global] Instance ledger_evolves_preorder : PreOrder ledger_evolves.
Proof.
  split.
  - intros m key u Hu. by exists u.
  - intros a b c Hab Hbc key u Hu. destruct (Hab key u Hu) as (v & Hv & Huv). destruct (Hbc key v Hv) as (x & Hx & Hvx).
    exists x. split; [done|]. by etrans.
Qed.

Lemma evolves_append u pcs obs err :
  utx_evolves u (u <| PcTx ::= (.++ pcs) |> <| OutboundTxs ::= (.++ obs) |> <| RevertError := err |>).
Proof.
  split; [done|done|by apply prefix_app_r|]. cbn. exists (OutboundTxs u), obs. split; [done|reflexivity].
Qed.
Lemma evolves_pc u pc : utx_evolves u (u <| PcTx ::= (.++ [pc]) |>).
Proof.
  split; [done|done|by apply prefix_app_r|]. cbn. exists (OutboundTxs u), []. rewrite app_nil_r. split; [done|reflexivity].
Qed.
Lemma evolves_error u e : utx_evolves u (u <| RevertError := e |>).
Proof. split; [done..|]. exists (OutboundTxs u), []. rewrite app_nil_r. split; [done|reflexivity]. Qed.
Lemma evolves_outbounds u obs : utx_evolves u (u <| OutboundTxs ::= (.++ obs) |>).
Proof. split; [done..|]. cbn. exists (OutboundTxs u), obs. split; [done|reflexivity]. Qed.
Lemma ledger_insert m key u u' : m !! key = Some u → utx_evolves u u' → ledger_evolves m (<[key := u']> m).
Proof.
  intros Hu He k x Hx. destruct (decide (k = key)) as [->|Hne].
  - rewrite lookup_insert_eq. simplify_eq. eauto.
  - rewrite lookup_insert_ne by done. by exists x.
Qed.
Lemma ledger_new m key u : m !! key = None → ledger_evolves m (<[key := u]> m).
Proof. intros Hn k x Hx. rewrite lookup_insert_ne by congruence. by exists x. Qed.

(** ** Every step keeps the ledger *)
Section ledger.
Context {E : Type} `{Bech32, CC : ChainCodecs, EC : EvmCodecs, SK : StakingKeeper, BH : BallotHooks E,
  SH : Sha256, EK : EvmKeeper E, !BallotHooksLaws E, !BooksHooksLaws E, !EvmKeeperLaws E}.
Implicit Types (ctx : Ctx) (w : World E).
Context (h : Z) (m0 : gmap string UniversalTx).

(** The ledger has grown from [m0], and the ballots and validators are consistent. *)
Definition grown w : Prop :=
  ballots_inv (uv w) ∧ validators_inv h (uv w) ∧ ledger_evolves m0 (UniversalTxs (ux w)).

Lemma grown_same w w' : uv w' = uv w → UniversalTxs (ux w') = UniversalTxs (ux w) → grown w → grown w'.
Proof. unfold grown. by intros -> ->. Qed.
Lemma frame_grown w w' : frame w w' → grown w → grown w'.
Proof. intros (? & _ & Hx & _). apply grown_same; [done|by rewrite Hx]. Qed.
Lemma read_grown {A} (m : M (World E) A) : (∀ w, (m w).2 = w) → keeps grown m.
Proof. intros Hm w. by rewrite Hm. Qed.
Lemma write_grown f : (∀ s, UniversalTxs (f s) = UniversalTxs s) → keeps grown (set_ux f).
Proof. intros Hf. apply keeps_set_ux. intros w. apply grown_same; [done|apply Hf]. Qed.

Lemma DerivedEVMCall_grown ctx a n c : keeps grown (DerivedEVMCall ctx a n c).
Proof. intros w. apply frame_grown, derived_call_frame. Qed.
Lemma send_grown a n : keeps grown (SendCoinsFromAccountToModule a n).
Proof. intros w. apply frame_grown, send_frame. Qed.
Lemma burn_grown n : keeps grown (BurnCoins n).
Proof. intros w. apply frame_grown, burn_frame. Qed.
Lemma getUEAForOrigin_grown ctx a b : keeps grown (view_getUEAForOrigin ctx a b).
Proof. apply read_grown, getUEAForOrigin_read. Qed.
Lemma getOriginForUEA_grown ctx a b : keeps grown (view_getOriginForUEA ctx a b).
Proof. apply read_grown, getOriginForUEA_read. Qed.
Lemma quoter_grown ctx : keeps grown (view_uniswapV3Quoter ctx).
Proof. apply read_grown, quoter_read. Qed.
Lemma wpc_grown ctx : keeps grown (view_WPC ctx).
Proof. apply read_grown, wpc_read. Qed.
Lemma feeTier_grown ctx a : keeps grown (view_defaultFeeTier ctx a).
Proof. apply read_grown. intros. apply feeTier_read. Qed.
Lemma quote_grown ctx q a b f n : keeps grown (view_quoteExactInputSingle ctx q a b f n).
Proof. apply read_grown. intros. apply quote_read. Qed.
Lemma gasAndFees_grown ctx a n : keeps grown (view_getOutboundTxGasAndFees ctx a n).
Proof. apply read_grown. intros. apply gasAndFees_read. Qed.
#[local] Hint Resolve DerivedEVMCall_grown send_grown burn_grown getUEAForOrigin_grown getOriginForUEA_grown
  quoter_grown wpc_grown feeTier_grown quote_grown gasAndFees_grown : keeper.

Lemma module_call_grown ctx c : keeps grown (module_call ctx c).
Proof. unfold module_call, IncrementModuleAccountNonce, GetModuleAccountNonce. keep. by apply write_grown. Qed.
#[local] Hint Resolve module_call_grown : keeper.

(** An update that appends to a record. *)
Lemma UpdateUniversalTx_grown key f :
  (∀ u w, let '(r, w') := f u w in uv w' = uv w ∧ UniversalTxs (ux w') = UniversalTxs (ux w) ∧
     ∀ u', r = Ok u' → utx_evolves u u') → keeps grown (UpdateUniversalTx key f).
Proof.
  intros Hf w (Hb & Hv & Hl). unfold UpdateUniversalTx. mrun.
  destruct (UniversalTxs (ux w) !! key) as [u|] eqn:Hu; mrun; [|done].
  specialize (Hf u w). destruct (f u w) as [[u'|e|e] w']; mrun; destruct Hf as (Huv & Hx & He);
    unfold grown; cbn -[insert]; rewrite Huv, Hx; try done.
  split_and!; [done..|]. etrans; [exact Hl|]. eapply ledger_insert; eauto.
Qed.
Lemma add_pc_tx_grown key pc : keeps grown (UpdateUniversalTx key (add_pc_tx pc)).
Proof. apply UpdateUniversalTx_grown. intros u w. split_and!; [done..|]. intros u' [= <-]. apply evolves_pc. Qed.
Lemma set_revert_error_grown key e : keeps grown (UpdateUniversalTx key (set_revert_error e)).
Proof. apply UpdateUniversalTx_grown. intros u w. split_and!; [done..|]. intros u' [= <-]. apply evolves_error. Qed.
#[local] Hint Resolve add_pc_tx_grown set_revert_error_grown : keeper.
Lemma attach_all_appends ctx key obs u w :
  let '(r, w') := attach_all ctx key obs u w in
  uv w' = uv w ∧ UniversalTxs (ux w') = UniversalTxs (ux w) ∧ ∀ u', r = Ok u' → utx_evolves u u'.
Proof.
  revert u w. induction obs as [|ob obs IH]; intros u w; cbn [attach_all]; mrun.
  { split_and!; [done..|]. by intros u' [= <-]. }
  assert (∃ d, signing_deadline ctx (DestinationChain ob) w = (Ok d, w)) as [d ->].
  { unfold signing_deadline, GetChainConfig. mrun. destruct (_ !! _); mrun; eauto. }
  mrun. match goal with |- context [attach_all _ _ _ ?v ?x] => specialize (IH v x); destruct (attach_all ctx key obs v x) as [r w'] end.
  destruct IH as (-> & -> & He). split_and!; [done..|]. intros u' ->. etrans; [apply evolves_outbounds|by apply He].
Qed.
Lemma attach_grown ctx key obs : keeps grown (attachOutboundsToUtx ctx key obs).
Proof.
  unfold attachOutboundsToUtx. destruct obs; [apply keeps_ret|].
  apply UpdateUniversalTx_grown. intros u w. apply attach_all_appends.
Qed.
Lemma CreateUniversalTx_grown key u : keeps grown (CreateUniversalTx key u).
Proof.
  intros w (Hb & Hv & Hl). unfold CreateUniversalTx, HasUniversalTx. mrun.
  case_bool_decide as Hn; mrun; [done|]. split_and!; [done..|]. cbn -[insert]. etrans; [exact Hl|]. apply ledger_new.
  by apply eq_None_not_Some.
Qed.
#[local] Hint Resolve attach_grown CreateUniversalTx_grown : keeper.

(** *** The executors *)
Lemma or_store_error_grown key m : keeps grown m → keeps grown (or_store_error key m).
Proof. intros Hm. unfold or_store_error. keep. Qed.
Lemma catch_grown {A B} (m : M (World E) A) (f : error → M (World E) B) g :
  keeps grown m → (∀ e, keeps grown (f e)) → (∀ a, keeps grown (g a)) → keeps grown (catch m f g).
Proof. intros. unfold catch. keep; auto. Qed.
Lemma buildRevertOutbound_grown ctx i : keeps grown (buildRevertOutbound ctx i).
Proof. unfold buildRevertOutbound, GetTokenConfig, GetGasFeeInfoForRevertOutbound. keep. Qed.
#[local] Hint Resolve or_store_error_grown buildRevertOutbound_grown : keeper.
Lemma revert_inbound_grown ctx key i : keeps grown (revert_inbound ctx key i).
Proof. unfold revert_inbound. keep. Qed.
Lemma record_pc_tx_grown key pc : keeps grown (record_pc_tx key pc).
Proof. apply add_pc_tx_grown. Qed.
#[local] Hint Resolve revert_inbound_grown record_pc_tx_grown : keeper.

Lemma resolve_uea_grown ctx key a b acc : keeps grown (resolve_uea ctx key a b acc).
Proof.
  unfold resolve_uea. apply catch_grown.
  - unfold CallFactoryToGetUEAAddressForOrigin. keep.
  - intros e. keep.
  - intros [uea isd]. unfold DeployUEAV2, CallFactoryToDeployUEA. keep.
Qed.
Lemma autoswap_grown ctx p u a : keeps grown (gasAndPayloadDepositAutoSwap ctx p u a).
Proof. unfold gasAndPayloadDepositAutoSwap, CallPRC20DepositAutoSwap. keep. Qed.
Lemma depositPRC20_grown ctx c a r s : keeps grown (depositPRC20 ctx c a r s).
Proof. unfold depositPRC20, GetTokenConfig, CallPRC20Deposit. keep. Qed.
Lemma deduct_grown r rc p : keeps grown (DeductGasFeesFromReceipt r rc p).
Proof. unfold DeductGasFeesFromReceipt, DeductAndBurnFees. keep. Qed.
#[local] Hint Resolve resolve_uea_grown autoswap_grown depositPRC20_grown deduct_grown : keeper.
Lemma CallUEAExecutePayload_grown ctx f u p vd : keeps grown (CallUEAExecutePayload ctx f u p vd).
Proof. unfold CallUEAExecutePayload. keep. Qed.
#[local] Hint Resolve CallUEAExecutePayload_grown : keeper.

(** A cache context is written back or dropped. *)
Lemma ExecutePayloadV2_grown ctx f u p vd : keeps grown (ExecutePayloadV2 ctx f u p vd).
Proof.
  unfold ExecutePayloadV2. keep. intros w Hw. unfold execute_cached.
  assert (keeps grown (execute_and_charge ctx f u a a1)) as Hk by (unfold execute_and_charge; keep).
  specialize (Hk w Hw).
  destruct (execute_and_charge ctx f u a a1 w) as [[[out [[]|e|e]]|e|e] w']; cbn in *; try done.
  by destruct (rerr out), (rcpt out).
Qed.
Lemma call_contract_grown ctx b id c i a p : keeps grown (call_contract ctx b id c i a p).
Proof.
  intros w Hw. unfold call_contract.
  assert (keeps grown (contract_and_fee ctx id c i a p)) as Hk
    by (unfold contract_and_fee, CallExecuteUniversalTx; keep).
  specialize (Hk w Hw).
  destruct (contract_and_fee ctx id c i a p w) as [[[out [[]|e|e]]|e|e] w']; cbn in *; try done.
  by destruct (rerr out), (rcpt out), b.
Qed.
#[local] Hint Resolve ExecutePayloadV2_grown call_contract_grown : keeper.
Lemma first_on_chain_grown c l : keeps grown (first_on_chain c l).
Proof. induction l; cbn [first_on_chain]; keep. Qed.
#[local] Hint Resolve first_on_chain_grown : keeper.
Lemma outbounds_of_logs_grown hsh l : keeps grown (outbounds_of_logs hsh l).
Proof.
  induction l as [|lg l IH]; cbn [outbounds_of_logs]; [keep|].
  unfold IsChainOutboundEnabled, GetTokenConfigByPRC20, GetChainConfig. keep.
Qed.
#[local] Hint Resolve outbounds_of_logs_grown : keeper.
Lemma run_payload_grown ctx key u i a : keeps grown (run_payload ctx key u i a).
Proof.
  unfold run_payload, AttachOutboundsToExistingUniversalTx, BuildOutboundsFromReceipt. keep.
  apply or_store_error_grown. keep.
Qed.
#[local] Hint Resolve run_payload_grown : keeper.
Lemma deposit_to_recipient_grown ctx i b msg d :
  (∀ a, keeps grown (d a)) → keeps grown (deposit_to_recipient ctx i b msg d).
Proof.
  intros Hd. unfold deposit_to_recipient. keep. apply catch_grown.
  - unfold CallFactoryGetOriginForUEA. keep.
  - intros. keep.
  - intros. keep.
Qed.
Lemma deposit_to_account_grown ctx key acc b d :
  (∀ a, keeps grown (d a)) → keeps grown (deposit_to_account ctx key acc b d).
Proof. intros Hd. unfold deposit_to_account. keep. Qed.

Lemma ExecuteInbound_grown ctx u : keeps grown (ExecuteInbound ctx u).
Proof.
  unfold ExecuteInbound. keep.
  - unfold ExecuteInboundGas, gas_deposit. keep. apply catch_grown; [unfold GetTokenConfig|intros..]; keep.
  - unfold ExecuteInboundGasAndPayload, gas_payload_deposit, GetTokenConfig, record_deposit. keep;
      [apply deposit_to_recipient_grown|apply deposit_to_account_grown]; intros; unfold swap_into; keep.
  - unfold ExecuteInboundFunds. keep.
  - unfold ExecuteInboundFundsAndPayload, record_deposit. keep;
      [apply deposit_to_recipient_grown|apply deposit_to_account_grown|]; [intros; keep..|].
    unfold funds_contract_call. apply catch_grown; [unfold GetTokenConfig|intros..]; keep.
Qed.

(** *** Votes *)
Lemma vote_with_quorum_grown ctx val key ty : keeps grown (vote_with_quorum ctx val key ty).
Proof.
  intros w Hg. pose proof Hg as (Hb & Hv & Hl).
  pose proof (vote_with_quorum_spec ctx val key ty w h Hv Hb) as Hs.
  pose proof (vote_with_quorum_books ctx val key ty (books w) w eq_refl) as Hbk.
  assert (keeps (validators_are (UniversalValidatorSet (uv w))) (vote_with_quorum ctx val key ty)) as Hk.
  { assert (∀ vs, keeps (validators_are (UniversalValidatorSet (uv w))) (core_addresses (E:=E) vs)) as Hc
      by (induction vs; cbn; unfold core_address; keep).
    unfold vote_with_quorum, GetEligibleVoters. keep; try apply Hc. apply VoteOnBallot_validators. }
  specialize (Hk w eq_refl). destruct (vote_with_quorum ctx val key ty w) as [out w']. cbn [snd] in *.
  destruct Hs as [Hb' _]. unfold books in Hbk. injection Hbk as Hu _. unfold validators_are in Hk.
  unfold grown, validators_inv. by rewrite Hk, Hu.
Qed.
#[local] Hint Resolve vote_with_quorum_grown : keeper.

Lemma handleFailed_grown ctx u e : keeps grown (handleFailedInboundValidation ctx u e).
Proof. unfold handleFailedInboundValidation. keep. Qed.
#[local] Hint Resolve handleFailed_grown ExecuteInbound_grown : keeper.
Lemma VoteInbound_grown ctx val i : keeps grown (VoteInbound ctx val i).
Proof.
  unfold VoteInbound, IsChainInboundEnabled, GetChainConfig, HasUniversalTx, cast_inbound_vote, RecordInboundVote,
    VoteOnInboundBallot, finalize_inbound, open_universal_tx, RemovePendingInbound.
  keep; by apply write_grown.
Qed.
Lemma RevertStuckInbound_grown ctx i : keeps grown (RevertStuckInbound ctx i).
Proof. unfold RevertStuckInbound, GetBallot, HasUniversalTx. keep. Qed.
Lemma attach_rescue_grown ctx c rc pc lg : keeps grown (attach_rescue ctx c rc pc lg).
Proof. unfold attach_rescue, GetUniversalTx, GetTokenConfigByPRC20. keep. Qed.
Lemma CreateFromReceipt_grown ctx rc pc : keeps grown (CreateUniversalTxFromReceiptIfOutbound ctx rc pc).
Proof.
  unfold CreateUniversalTxFromReceiptIfOutbound, BuildOutboundsFromReceipt, CreateUniversalTxFromPCTx, HasUniversalTx. keep.
Qed.
Lemma AttachRescue_grown ctx rc pc : keeps grown (AttachRescueOutboundFromReceipt ctx rc pc).
Proof.
  unfold AttachRescueOutboundFromReceipt. keep. apply keeps_for_each. intros. apply attach_rescue_grown.
Qed.
#[local] Hint Resolve CreateFromReceipt_grown AttachRescue_grown : keeper.
Lemma PostTxProcessing_grown ctx s rc : keeps grown (PostTxProcessing ctx s rc).
Proof. unfold PostTxProcessing. keep. Qed.
Lemma ExecutePayload_grown ctx f a p vd : keeps grown (ExecutePayload ctx f a p vd).
Proof.
  unfold ExecutePayload, enabled_chain, GetChainConfig, CallFactoryToGetUEAAddressForOrigin, DeployUEAV2,
    CallFactoryToDeployUEA. keep.
Qed.

(** The settlement of an outbound is the one rewrite, and only of a PENDING one. *)
Lemma settled_ledger key i utx obs ob w w' :
  UniversalTxs (ux w) !! key = Some utx → OutboundTxs utx !! i = Some ob → OutboundStatus ob = PENDING →
  settled_books key i utx obs ob w w' → ledger_evolves (UniversalTxs (ux w)) (UniversalTxs (ux w')).
Proof.
  intros Hu Hi Hst (ob' & err' & Hsame & Hobs & Hset & Hb). unfold books in Hb. injection Hb as -> _.
  eapply ledger_insert; [done|]. split; [done..|]. cbn -[insert].
  exists (<[i := ob']> (OutboundTxs utx)), []. rewrite app_nil_r. split; [done|].
  rewrite <- (list_insert_id (OutboundTxs utx) i ob) at 1 by done.
  apply Forall2_insert; [reflexivity|]. right. split_and!; [done|destruct Hset; congruence|done|by rewrite Hobs].
Qed.
Lemma VoteOutbound_validators ctx val key id obs V : keeps (validators_are V) (VoteOutbound ctx val key id obs).
Proof.
  assert (∀ (m : M (World E) EvmOut), (∀ w, ∃ out w', m w = (Ok out, w') ∧ calm w w') → keeps (validators_are V) m) as Hcall.
  { intros m Hm w Hw. destruct (Hm w) as (out & w' & -> & Huv & _). unfold validators_are in *. cbn. by rewrite Huv. }
  assert (∀ c, keeps (validators_are V) (module_call (E:=E) ctx c)) as Hmc.
  { intros c. apply Hcall. intros w. destruct (module_call_run ctx c w) as (out & w' & ? & ? & _). eauto. }
  assert (∀ A (m : M (World E) A), (∀ w, (m w).2 = w) → keeps (validators_are V) m) as Hread.
  { intros A m Hm w. by rewrite Hm. }
  assert (∀ vs, keeps (validators_are V) (core_addresses (E:=E) vs)) as Hc
    by (induction vs; cbn; unfold core_address; keep).
  unfold VoteOutbound, GetUniversalTx, cast_outbound_vote, VoteOnOutboundBallot, vote_with_quorum, GetEligibleVoters,
    RecordOutboundVote, settle_outbound, or_store_error, FinalizeOutbound, handleSuccessfulOutbound,
    handleFailedOutbound, mark_reverted, AbortOutbound, UpdateOutbound, UpdateUniversalTx, replace_outbound,
    set_revert_error, applyGasRefund, refund_with_swap, getSwapQuoteForRefund, CallPRC20Deposit,
    CallUniversalCoreRefundUnusedGas.
  keep; try apply Hc; try apply Hmc; try apply VoteOnBallot_validators; try (by apply keeps_set_ux);
    apply Hread; eauto using feeTier_read, quoter_read, wpc_read, quote_read.
Qed.
Lemma VoteOutbound_grown ctx val key id obs : keeps grown (VoteOutbound ctx val key id obs).
Proof.
  intros w Hg. pose proof Hg as (Hb & Hv & Hl). pose proof (VoteOutbound_cases ctx val key id obs w h Hv Hb) as Hc.
  pose proof (VoteOutbound_validators ctx val key id obs _ w eq_refl) as Hval.
  destruct (VoteOutbound ctx val key id obs w) as [out w']. cbn [snd] in *.
  destruct (outbound_at w key id) as [[[utx i] ob]|] eqn:Hat; [|by destruct Hc as [_ ->]].
  apply outbound_at_Some in Hat as (Hu & _ & Hi & Hid). cbv zeta in Hc.
  destruct (decide (OutboundStatus ob = PENDING)) as [Hst|]; [|by destruct Hc as [_ ->]].
  destruct (PendingOutbounds (ux w) !! id) as [e|] eqn:He; [|by destruct Hc as [_ ->]].
  destruct (aye _ _ _) as [p|]; [|by destruct Hc as [_ ->]]. destruct Hc as (_ & Hb' & _ & Hc).
  unfold grown, validators_inv. unfold validators_are in Hval. rewrite Hval. split_and!; [done..|].
  etrans; [exact Hl|]. case_decide; [|by eapply settled_ledger].
  unfold books in Hc. by injection Hc as -> _.
Qed.
End ledger.

(** ** Messages in sequence *)
Section messages.
Context {E : Type} `{Bech32, CC : ChainCodecs, EC : EvmCodecs, SK : StakingKeeper, BH : BallotHooks E,
  SH : Sha256, EK : EvmKeeper E, !BallotHooksLaws E, !BooksHooksLaws E, !EvmKeeperLaws E}.
Implicit Types (ctx : Ctx) (w : World E).

(** The operations that write universal transactions.  A failed one is rolled back. *)
Inductive ux_op :=
| OpVoteInbound (val : string) (inbound : Inbound)
| OpVoteOutbound (val utxId outboundId : string) (obs : OutboundObservation)
| OpRevertStuckInbound (inbound : Inbound)
| OpExecutePayload (evmFrom : string) (account : UniversalAccountId) (payload : UniversalPayload) (vd : string)
| OpEvmTx (sender : string) (receipt : Receipt).
Definition exec_ux_op ctx (op : ux_op) w : World E :=
  match op with
  | OpVoteInbound val i => (atomically (VoteInbound ctx val i) w).2
  | OpVoteOutbound val u o obs => (atomically (VoteOutbound ctx val u o obs) w).2
  | OpRevertStuckInbound i => (atomically (RevertStuckInbound ctx i) w).2
  | OpExecutePayload f a p vd => (atomically (ExecutePayload ctx f a p vd) w).2
  | OpEvmTx s rc => (atomically (PostTxProcessing ctx s rc) w).2
  end.
Definition run_ux_ops (ops : list (Ctx * ux_op)) w : World E := foldl (λ w co, exec_ux_op co.1 co.2 w) w ops.

Lemma exec_ux_op_grown ctx op h m0 w : grown h m0 w → grown h m0 (exec_ux_op ctx op w).
Proof.
  intros Hw. destruct op; cbn [exec_ux_op]; apply keeps_atomically; try done;
    [apply VoteInbound_grown|apply VoteOutbound_grown|apply RevertStuckInbound_grown|apply ExecutePayload_grown
    |apply PostTxProcessing_grown].
Qed.

(** C19. The ledger is append-only: over any sequence of votes on inbounds and
    outbounds, admin reverts, payload executions and EVM transactions, each in its
    own block and with any answers from the EVM, every universal transaction stays,
    with its id and inbound; recorded executions and outbounds are only appended;
    and an outbound changes only by leaving PENDING, once, with its observation
    recorded and what it transfers unchanged.  The ballots stay consistent too. *)
Theorem ledger_append_only ops w h :
  ballots_inv (uv w) → validators_inv h (uv w) →
  ballots_inv (uv (run_ux_ops ops w)) ∧
  ledger_evolves (UniversalTxs (ux w)) (UniversalTxs (ux (run_ux_ops ops w))).
Proof.
  intros Hb Hv. assert (grown h (UniversalTxs (ux w)) (run_ux_ops ops w)) as (? & _ & ?); [|done].
  assert (grown h (UniversalTxs (ux w)) w) as Hg by done. revert Hg. generalize w at 2 4.
  induction ops as [|[ctx op] ops IH]; intros w1 Hg; [done|]. apply IH. by apply exec_ux_op_grown.
Qed.
End messages.
