(* ===== verification/UxInboundSpec.v ===== *)
(** * x/uexecutor: what a vote on an inbound does

    The deciding vote always leaves a record: an inbound that cannot be decoded or
    fails validation is recorded as FAILED and, unless a contract account sent it,
    refunded on its source chain. *)
From S2P Require Import Prelude GoStrings UvTypes TssTypes UxTypes RegTypes World Canonical.
From S2P Require Import UvValidator UvBallot Registry Utss TssVotes UxKeys UxPayload UxEvm.
From S2P Require Import UxOutbound UxSettle UxInbound UxFinality UxPending UxLedger.
Import Ux.

Section inbounds.
Context {E : Type} `{Bech32, CC : ChainCodecs, EC : EvmCodecs, SK : StakingKeeper, BH : BallotHooks E,
  SH : Sha256, EK : EvmKeeper E, !BallotHooksLaws E, !BooksHooksLaws E, !EvmKeeperLaws E}.
Implicit Types (ctx : Ctx) (w : World E).

(** ** Refunds on the source chain *)
Definition refund_of (i : Inbound) (ob : OutboundTx) : Prop :=
  DestinationChain ob = SourceChain i ∧ ObAmount ob = Amount i ∧ ExternalAssetAddr ob = AssetAddr i ∧
  ObRecipient ob = refund_recipient (Sender i) (RevertInstructionsOf i) ∧ ObTxType ob = INBOUND_REVERT ∧
  OutboundStatus ob = PENDING ∧ ObId ob = GetOutboundRevertId (SourceChain i) (TxHash i) (LogIndex i).

Lemma buildRevertOutbound_run ctx i w : ∃ ob, buildRevertOutbound ctx i w = (Ok ob, w) ∧ refund_of i ob.
Proof.
  unfold buildRevertOutbound, GetTokenConfig, GetGasFeeInfoForRevertOutbound. mrun.
  destruct (_ !! _) as [cfg|]; mrun; [|by eexists].
  case_match; mrun; [|by eexists].
  match goal with |- context [view_getOutboundTxGasAndFees ctx ?a 0 w] =>
    pose proof (gasAndFees_read ctx a 0 w) as Hr; pose proof (gasAndFees_no_panic ctx a 0 w) as Hp;
    destruct (view_getOutboundTxGasAndFees ctx a 0 w) as [[[[[t f] p] l]|e|e] w'] end;
    cbn in Hr, Hp; subst w'; mrun; [by eexists..|by destruct (Hp e)].
Qed.

(** Scheduling the refund appends it to the record and indexes it. *)
Lemma revert_inbound_run ctx key i utx w :
  UniversalTxs (ux w) !! key = Some utx →
  ∃ ob e w', revert_inbound ctx key i w = (Ok tt, w') ∧ uv w' = uv w ∧ refund_of i ob ∧ UniversalTxId e = key ∧
    books w' = (<[key := utx <| OutboundTxs ::= (.++ [ob]) |>]> (UniversalTxs (ux w)),
                <[ObId ob := e]> (PendingOutbounds (ux w))).
Proof.
  intros Hu. unfold revert_inbound. mrun. destruct (buildRevertOutbound_run ctx i w) as (ob & -> & Href). mrun.
  unfold or_store_error, attachOutboundsToUtx, UpdateUniversalTx. mrun. rewrite Hu. mrun. cbn [attach_all]. mrun.
  destruct (signing_deadline_run ctx (DestinationChain ob) w) as [d ->]. mrun.
  eexists ob, _, _. split; [done|]. split; [done|]. split; [done|]. split; [|done]. done.
Qed.

(** ** Rejected inbounds *)

(** The inbound as it is recorded, and why it is not executed. *)
Definition rejection (i : Inbound) : option (Inbound * error) :=
  match NormalizeForTxType i with
  | (i', Err e) => Some (i', e)
  | (i', Ok _) => match ValidateForExecution i' with Err e => Some (i', e) | _ => None end
  | (_, Panic _) => None
  end.
Definition failed_record ctx (e : error) : PCTx :=
  (module_tx ctx) <| PcStatus := "FAILED" |> <| PcErrorMsg := e |>.

Lemma handleFailed_run ctx key i e w :
  UniversalTxs (ux w) !! key = Some (mkUniversalTx key (Some i) [] [] "") →
  ∃ w' obs, handleFailedInboundValidation ctx (mkUniversalTx key (Some i) [] [] "") e w = (Ok tt, w') ∧ uv w' = uv w ∧
    UniversalTxs (ux w') = <[key := mkUniversalTx key (Some i) [failed_record ctx e] obs ""]> (UniversalTxs (ux w)) ∧
    if IsCEA i then obs = [] ∧ PendingOutbounds (ux w') = PendingOutbounds (ux w)
    else ∃ ob en, obs = [ob] ∧ refund_of i ob ∧ UniversalTxId en = key ∧
           PendingOutbounds (ux w') = <[ObId ob := en]> (PendingOutbounds (ux w)).
Proof.
  intros Hu. unfold handleFailedInboundValidation, record_pc_tx. cbn [InboundTx UtxId]. mrun. fold (failed_record ctx e).
  erewrite UpdateUniversalTx_run by done. mrun. set (u1 := mkUniversalTx key (Some i) [failed_record ctx e] [] "").
  change (upd PcTx _ _) with u1. destruct (IsCEA i) eqn:Hcea; mrun.
  - eexists _, []. split_and!; done.
  - destruct (revert_inbound_run ctx key i u1 (put_utx key u1 w)) as (ob & en & w' & -> & Huv & Href & Hk & Hb).
    { cbn -[insert]. by rewrite lookup_insert_eq. }
    unfold books in Hb. injection Hb as Hb1 Hb2. exists w', [ob]. split_and!; [done..| |by exists ob, en].
    rewrite Hb1. cbn -[insert]. by rewrite insert_insert_eq.
Qed.

(** C24. A rejected inbound is never lost: when the ballot is decided for an inbound
    whose payload does not decode or which fails validation, finalizing it always
    succeeds, and creates its universal transaction with exactly one FAILED
    execution carrying the reason; unless a contract account (CEA) sent it, the
    record has exactly one outbound, a PENDING revert of the full amount on the
    source chain to the refund recipient, and that outbound is in the pending
    index. *)
Theorem rejected_inbound_is_refunded ctx i i' e w :
  rejection i = Some (i', e) → UniversalTxs (ux w) !! GetInboundUniversalTxKey i = None →
  let key := GetInboundUniversalTxKey i in
  ∃ w' obs, finalize_inbound ctx key i w = (Ok tt, w') ∧ uv w' = uv w ∧
    UniversalTxs (ux w') = <[key := mkUniversalTx key (Some i') [failed_record ctx e] obs ""]> (UniversalTxs (ux w)) ∧
    if IsCEA i' then obs = [] ∧ PendingOutbounds (ux w') = PendingOutbounds (ux w)
    else ∃ ob en, obs = [ob] ∧ refund_of i' ob ∧ UniversalTxId en = key ∧
           PendingOutbounds (ux w') = <[ObId ob := en]> (PendingOutbounds (ux w)).
Proof.
  intros Hrej Hnone key. fold key in Hnone.
  assert (finalize_inbound ctx key i w =
    (utx ← open_universal_tx key i'; handleFailedInboundValidation ctx utx e) w) as ->.
  { unfold finalize_inbound. unfold rejection in Hrej. destruct (NormalizeForTxType i) as [j [[]|e'|e']]; [|by simplify_eq|done].
    destruct (ValidateForExecution j); by simplify_eq. }
  unfold open_universal_tx, CreateUniversalTx, HasUniversalTx, RemovePendingInbound. mrun.
  rewrite (bool_decide_false (is_Some _)) by (by rewrite Hnone; intros []). cbn [negb]. mrun.
  set (w1 := upd ux _ (upd ux _ w)).
  destruct (handleFailed_run ctx key i' e w1) as (w' & obs & -> & Huv & Hu & Hobs).
  { cbn -[insert]. by rewrite lookup_insert_eq. }
  exists w', obs. split; [done|]. split; [done|]. split; [|exact Hobs].
  rewrite Hu. cbn -[insert]. by rewrite insert_insert_eq.
Qed.

(** ** Votes *)
Lemma quorum_poll_uv ctx w w' key : uv w = uv w' → quorum_poll ctx w key = quorum_poll ctx w' key.
Proof.
  intros Hw. unfold quorum_poll, voters_now, GetEligibleVoters. mrun. rewrite Hw. by destruct (res_filter _ _).
Qed.
Lemma cast_inbound_vote_run ctx val i w h :
  validators_inv h (uv w) → ballots_inv (uv w) →
  let bk := GetInboundBallotKey i in
  match aye ctx val (quorum_poll ctx w bk) with
  | Some p =>
      ∃ w', cast_inbound_vote ctx val i w = (Ok (bool_decide (phase p ≠ Ballot.BALLOT_STATUS_PENDING)), w') ∧
        grown h (UniversalTxs (ux w)) w' ∧ polls (uv w') !! bk = Some p ∧ books w' = books w
  | None => ∃ m, cast_inbound_vote ctx val i w = (Err m, w)
  end.
Proof.
  intros Hvi Hbi bk. unfold cast_inbound_vote, VoteOnInboundBallot, RecordInboundVote. fold bk. mrun.
  set (w0 := upd ux _ w).
  pose proof (vote_with_quorum_spec ctx val bk Ballot.BALLOT_OBSERVATION_TYPE_INBOUND_TX w0 h Hvi Hbi) as Hv.
  pose proof (vote_with_quorum_books ctx val bk Ballot.BALLOT_OBSERVATION_TYPE_INBOUND_TX (books w0) w0 eq_refl) as Hbk.
  pose proof (vote_with_quorum_grown h (UniversalTxs (ux w)) ctx val bk Ballot.BALLOT_OBSERVATION_TYPE_INBOUND_TX w0) as Hg.
  rewrite (quorum_poll_uv ctx w0 w bk) in Hv by done.
  destruct (vote_with_quorum ctx val bk _ w0) as [out w1]. cbn [snd] in Hbk, Hg. destruct Hv as [_ Hv].
  destruct (aye ctx val (quorum_poll ctx w bk)) as [p|].
  - destruct Hv as [-> Hp]. mrun. exists w1. split_and!; [done| |done|done]. by apply Hg.
  - destruct Hv as [m ->]. mrun. eauto.
Qed.

Definition chain_open w (chain : string) : bool :=
  match ChainConfigs (reg w) !! chain ≫= Reg.Enabled with Some e => Reg.IsInboundEnabled e | None => false end.

(** Finalizing opens the transaction, then only appends to it. *)
Lemma finalize_inbound_split ctx key i w w' :
  finalize_inbound ctx key i w = (Ok tt, w') →
  ∃ k, (∀ u h m0, keeps (grown h m0) (k u)) ∧ (open_universal_tx key (NormalizeForTxType i).1 ≫= k) w = (Ok tt, w').
Proof.
  unfold finalize_inbound. destruct (NormalizeForTxType i) as [i' [[]|e|e]]; cbn [fst]; intros Hrun; [| |done].
  - destruct (ValidateForExecution i') as [[]|e|e].
    + exists (ExecuteInbound ctx). split; [intros; apply ExecuteInbound_grown|done].
    + exists (λ u, handleFailedInboundValidation ctx u e). split; [intros; apply handleFailed_grown|done].
    + by apply bind_ok in Hrun as (? & ? & _ & ?).
  - exists (λ u, handleFailedInboundValidation ctx u e). split; [intros; apply handleFailed_grown|done].
Qed.
Lemma finalize_inbound_records ctx key i w h w' :
  grown h (UniversalTxs (ux w)) w → finalize_inbound ctx key i w = (Ok tt, w') →
  ∃ utx, UniversalTxs (ux w') !! key = Some utx ∧ InboundTx utx = Some (NormalizeForTxType i).1 ∧ UtxId utx = key.
Proof.
  intros (Hb & Hv & _) (k & Hk & Hrun)%finalize_inbound_split.
  apply bind_ok in Hrun as (u & w1 & Ho & Hrun). specialize (Hk u h (UniversalTxs (ux w1)) w1).
  rewrite Hrun in Hk. unfold open_universal_tx, CreateUniversalTx, HasUniversalTx, RemovePendingInbound in Ho. wrun Ho. wrun Hs.
  destruct Hk as (_ & _ & Hl); [split; [exact Hb|]; split; [exact Hv|reflexivity]|]. cbn -[insert] in Hl.
  destruct (Hl key _ (lookup_insert_eq _ _ _)) as (utx & Hu & [Hid Hin _ _]). eauto.
Qed.

(** C3. A vote on an inbound, on every branch.  A vote for a chain that is not
    enabled, for an inbound that already has its universal transaction, or one the
    ballot refuses, is an error that changes nothing; so an inbound is executed at
    most once.  An accepted vote is counted in the ballot of exactly this inbound
    and creates no transaction while the ballot is open; the deciding vote runs
    [finalize_inbound], and if that returns, the transaction is there, under its
    key and with the inbound the validators agreed on. *)
Theorem VoteInbound_executes_once ctx val inb w h :
  validators_inv h (uv w) → ballots_inv (uv w) →
  let i := Canonicalize inb in
  let key := GetInboundUniversalTxKey i in
  let bk := GetInboundBallotKey i in
  let '(out, w') := VoteInbound ctx val inb w in
  match chain_open w (SourceChain i), UniversalTxs (ux w) !! key, aye ctx val (quorum_poll ctx w bk) with
  | true, None, Some p =>
      ∃ w1, books w1 = books w ∧ ballots_inv (uv w1) ∧ polls (uv w1) !! bk = Some p ∧
        if decide (phase p = Ballot.BALLOT_STATUS_PENDING) then out = Ok tt ∧ w' = w1
        else (out, w') = finalize_inbound ctx key i w1 ∧
             (out = Ok tt → ∃ utx, UniversalTxs (ux w') !! key = Some utx ∧ UtxId utx = key ∧
                InboundTx utx = Some (NormalizeForTxType i).1)
  | _, _, _ => (∃ m, out = Err m) ∧ w' = w
  end.
Proof.
  intros Hvi Hbi i key bk. unfold VoteInbound, IsChainInboundEnabled, HasUniversalTx. fold i key. mrun.
  fold (chain_open w (SourceChain i)).
  destruct (chain_open w (SourceChain i)); mrun; [|eauto].
  destruct (UniversalTxs (ux w) !! key) as [u|] eqn:Hu.
  { rewrite bool_decide_true by eauto. cbn [negb]. mrun. eauto. }
  rewrite bool_decide_false by (by intros []). cbn [negb]. mrun.
  pose proof (cast_inbound_vote_run ctx val i w h Hvi Hbi) as Hc. cbv zeta in Hc. fold bk in Hc.
  destruct (aye ctx val (quorum_poll ctx w bk)) as [p|]; [|destruct Hc as [m ->]; mrun; eauto].
  destruct Hc as (w1 & -> & Hg & Hp & Hbk). cbv beta iota.
  destruct (decide (phase p = Ballot.BALLOT_STATUS_PENDING)) as [Hph|Hph].
  - rewrite bool_decide_false by tauto. mrun. exists w1. split_and!; [done|by destruct Hg|done..].
  - rewrite bool_decide_true by done. destruct (finalize_inbound ctx key i w1) as [out w'] eqn:Hf.
    exists w1. split_and!; [done|by destruct Hg|done..|]. intros ->.
    assert (grown h (UniversalTxs (ux w1)) w1) as Hg1 by (destruct Hg as (? & ? & _); by split_and!).
    destruct (finalize_inbound_records ctx key i w1 h w' Hg1 Hf) as (utx & ? & ? & ?). eauto.
Qed.

(** An inbound of a type the executor does not know passes the message checks
    (and may pass [ValidateForExecution]) but can never be finalized: no successful
    vote on it ever creates its transaction, because the deciding vote fails in
    [ExecuteInbound] and is rolled back with everything it recorded. *)
Theorem unsupported_inbound_never_lands ctx val inb w w' u :
  InTxType inb = PAYLOAD ∨ InTxType inb = INBOUND_REVERT ∨ InTxType inb = RESCUE_FUNDS →
  ValidateForExecution (NormalizeForTxType (Canonicalize inb)).1 = Ok tt →
  VoteInbound ctx val inb w = (Ok u, w') → UniversalTxs (ux w') = UniversalTxs (ux w).
Proof.
  intros Hty Hval Hrun. set (i := Canonicalize inb) in *.
  assert (InTxType i = InTxType inb) as Hi by done.
  assert (∀ w0 key, is_ok (finalize_inbound ctx key i w0).1 = false) as Hfin.
  { intros w0 key. unfold finalize_inbound.
    assert (NormalizeForTxType i = (i <| UniversalPayloadOf := None |> <| VerificationData := "" |> <| RawPayload := "" |>, Ok tt)) as Hn
      by (unfold NormalizeForTxType; rewrite Hi; by destruct Hty as [-> |[-> | ->]]).
    rewrite Hn in Hval |- *. cbn [fst] in Hval. rewrite Hval.
    unfold open_universal_tx. mrun. destruct (CreateUniversalTx _ _ w0) as [[] w1]; mrun; [|done..].
    unfold RemovePendingInbound, ExecuteInbound. mrun. cbn [InboundTx]. mrun.
    change (InTxType (upd _ _ _)) with (InTxType i). rewrite Hi. by destruct Hty as [-> |[-> | ->]]. }
  assert (∀ b, keeps (λ w, books w = b) (cast_inbound_vote ctx val i)) as Hcast.
  { intros b. unfold cast_inbound_vote, RecordInboundVote, VoteOnInboundBallot. keep; [by apply keeps_set_ux|].
    apply vote_with_quorum_books. }
  unfold VoteInbound, IsChainInboundEnabled, HasUniversalTx in Hrun. fold i in Hrun. wrun Hrun.
  match goal with
  | Hc : cast_inbound_vote ctx val i ?w0 = (Ok ?b, ?w1) |- _ =>
      specialize (Hcast _ w0 eq_refl); rewrite Hc in Hcast; destruct b
  end.
  - match type of Hrun with finalize_inbound _ ?k _ ?z = _ => specialize (Hfin z k); by rewrite Hrun in Hfin end.
  - injection Hrun as _ <-. cbn in Hcast. unfold books in Hcast. injection Hcast as -> _.
    by injection Hs as _ <-.
Qed.
End inbounds.
