(* ===== verification/UxMsg.v ===== *)
(** * x/uexecutor: message server and genesis

    [keeper/msg_server.go], [keeper/msg_update_params.go], the [ValidateBasic]
    methods of the messages and records ([types/msg_*.go], [types/pc_tx.go],
    [types/outbound_tx.go], [types/universal_tx.go], [types/universal_account_id.go],
    [types/migration_payload.go]) and [InitGenesis]/[ExportGenesis] of
    [keeper/keeper.go].  Who may send what, and that a genesis file carries the
    whole module. *)
From S2P Require Import Prelude GoStrings UvTypes TssTypes UxTypes RegTypes World Canonical.
From S2P Require Import UvValidator UvBallot UvMsg Registry Utss TssGenesis UxKeys UxPayload.
From S2P Require Import UxEvm UxOutbound UxSettle UxInbound UxChainMeta UxFinality UxPending.
From Stdlib Require Import Ascii.
Import Ux.

(** ** Messages: [types/tx.pb.go] *)
Record MsgUpdateParams := mkMsgUpdateParams { UpAuthority : string; UpParams : Params }.
Record MsgExecutePayload := mkMsgExecutePayload {
  EpSigner : string; EpAccount : option UniversalAccountId; EpPayload : option UniversalPayload;
  EpVerificationData : string }.
Record MsgMigrateUEA := mkMsgMigrateUEA {
  MuSigner : string; MuAccount : option UniversalAccountId; MuPayload : option MigrationPayload;
  MuSignature : string }.
Record MsgVoteInbound := mkMsgVoteInbound { ViSigner : string; ViInbound : option Inbound }.
Record MsgVoteOutbound := mkMsgVoteOutbound {
  VoSigner : string; VoTxId : string; VoUtxId : string; VoObservedTx : option OutboundObservation }.
Record MsgVoteChainMeta := mkMsgVoteChainMeta {
  VcSigner : string; VcObservedChainId : string; VcPrice : Z; VcChainHeight : Z }.
Record MsgRevertStuckInbound := mkMsgRevertStuckInbound { RsSigner : string; RsInbound : option Inbound }.

(** ** Validation *)
Section validation.
Context `{Bech32, ChainCodecs}.

Definition hex_blob (s : string) : bool := is_ok (HexToBytes s).
(** An unset number is fine. *)
Definition uint_or_empty (s : string) : bool := bool_decide (s = "") || is_uint s.

Definition UniversalAccountId_ValidateBasic (p : UniversalAccountId) : res unit :=
  check (negb (blank (ChainNamespace p))) "chain namespace cannot be empty" ;;
  check (negb (blank (ChainId p))) "chain ID cannot be empty" ;;
  check (negb (blank (Owner p))) "owner cannot be empty" ;;
  check (hex_blob (TrimSpace (Owner p))) "owner must be valid hex string".

Definition MigrationPayload_ValidateBasic (p : MigrationPayload) : res unit :=
  check (negb (blank (Migration p))) "migration address cannot be empty" ;;
  check (IsValidAddress (Migration p) HEX) "invalid migration contract address format" ;;
  check (uint_or_empty (MpNonce p) && uint_or_empty (MpDeadline p)) "must be a valid unsigned integer".

Definition MsgExecutePayload_ValidateBasic (m : MsgExecutePayload) : res unit :=
  valid_signer (EpSigner m) ;;
  check (bool_decide (is_Some (EpAccount m))) "universal account cannot be nil" ;;
  check (bool_decide (is_Some (EpPayload m))) "universal payload cannot be nil" ;;
  check (negb (bool_decide (EpVerificationData m = ""))) "verificationData cannot be empty" ;;
  check (hex_blob (EpVerificationData m)) "invalid verificationData hex" ;;
  account ← deref_res (EpAccount m);
  wrap_res "invalid universalAccountId" (UniversalAccountId_ValidateBasic account) ;;
  payload ← deref_res (EpPayload m);
  wrap_res "invalid universal payload" (UniversalPayload_ValidateBasic payload).

Definition MsgMigrateUEA_ValidateBasic (m : MsgMigrateUEA) : res unit :=
  valid_signer (MuSigner m) ;;
  check (bool_decide (is_Some (MuAccount m))) "universal account cannot be nil" ;;
  check (bool_decide (is_Some (MuPayload m))) "migration payload cannot be nil" ;;
  check (negb (bool_decide (MuSignature m = ""))) "signature cannot be empty" ;;
  account ← deref_res (MuAccount m);
  wrap_res "invalid universalAccountId" (UniversalAccountId_ValidateBasic account) ;;
  payload ← deref_res (MuPayload m);
  wrap_res "invalid migration payload" (MigrationPayload_ValidateBasic payload).

(** The inbound is dereferenced without a nil check. *)
Definition MsgVoteInbound_ValidateBasic (m : MsgVoteInbound) : res unit :=
  valid_signer (ViSigner m) ;;
  inbound ← deref_res (ViInbound m);
  Inbound_ValidateBasic inbound.

Definition MsgVoteOutbound_ValidateBasic (m : MsgVoteOutbound) : res unit :=
  valid_signer (VoSigner m) ;;
  check (negb (blank (VoTxId m))) "tx_id cannot be empty" ;;
  check (negb (blank (VoUtxId m))) "utx_id cannot be empty" ;;
  match VoObservedTx m with
  | None => Err "observed_tx cannot be nil"
  | Some obs =>
      check (negb (blank (GasFeeUsed obs))) "observed_tx.gas_fee_used is required" ;;
      if Success obs then
        check (negb (blank (ObsTxHash obs))) "observed_tx.tx_hash required when success=true" ;;
        check (negb (bool_decide (ObsBlockHeight obs = 0))) "observed_tx.block_height must be > 0 when success=true"
      else check (negb (negb (blank (ObsTxHash obs)) && bool_decide (ObsBlockHeight obs = 0)))
             "observed_tx.block_height must be > 0 when tx_hash is provided"
  end.

Definition MsgVoteChainMeta_ValidateBasic (m : MsgVoteChainMeta) : res unit :=
  valid_signer (VcSigner m) ;;
  check (negb (bool_decide (VcObservedChainId m = ""))) "observed_chain_id cannot be empty" ;;
  check (negb (bool_decide (VcPrice m = 0))) "price must be greater than 0" ;;
  check (negb (bool_decide (VcChainHeight m = 0))) "chain_height must be greater than 0".

(** [strings.ToUpper] as far as ASCII results go: ASCII letters, and the two other
    letters whose upper case is ASCII (dotless i, long s). *)
Definition upper (c : ascii) : ascii :=
  let n := nat_of_ascii c in
  if decide (97 ≤ n ∧ n ≤ 122)%nat then ascii_of_nat (n - 32) else c.
Fixpoint upper_bytes (l : bytes) : bytes :=
  match l with
  | c :: ((d :: rest) as l') =>
      if decide (c = ascii_of_nat 196 ∧ d = ascii_of_nat 177) then "I"%char :: upper_bytes rest
      else if decide (c = ascii_of_nat 197 ∧ d = ascii_of_nat 191) then "S"%char :: upper_bytes rest
      else upper c :: upper_bytes l'
  | _ => upper <$> l
  end.
Definition ToUpper (s : string) : string := of_bytes (upper_bytes (to_bytes s)).

Definition PCTx_ValidateBasic (p : PCTx) : res unit :=
  check (negb (blank (PcTxHash p))) "tx_hash cannot be empty" ;;
  check (negb (blank (PcSender p))) "sender cannot be empty" ;;
  check (IsValidAddress (PcSender p) HEX) "invalid sender address" ;;
  check (negb (bool_decide (PcBlockHeight p = 0))) "block_height must be greater than zero" ;;
  let status := ToUpper (TrimSpace (PcStatus p)) in
  check (bool_decide (status = "SUCCESS") || bool_decide (status = "FAILED")) "status must be either SUCCESS or FAILED".

Definition moves_funds (t : TxType) : bool := match t with FUNDS | FUNDS_AND_PAYLOAD => true | _ => false end.
Definition carries_payload (t : TxType) : bool := match t with PAYLOAD | FUNDS_AND_PAYLOAD => true | _ => false end.

(** What the status of an outbound says about its observation. *)
Definition status_valid (p : OutboundTx) : res unit :=
  match OutboundStatus p with
  | STATUS_UNSPECIFIED => Err "outbound_status cannot be UNSPECIFIED"
  | PENDING =>
      check (match ObservedTx p with Some o => blank (ObsTxHash o) | None => true end)
        "observed_tx must be empty when outbound_status is PENDING"
  | OBSERVED =>
      match ObservedTx p with
      | None => Err "observed_tx is required when outbound_status is OBSERVED"
      | Some o =>
          check (negb (blank (ObsTxHash o))) "observed_tx.tx_hash is required when outbound_status is OBSERVED" ;;
          check (negb (bool_decide (ObsBlockHeight o = 0)))
            "observed_tx.block_height must be > 0 when outbound_status is OBSERVED"
      end
  | ABORTED => Ok tt
  | REVERTED => Err "invalid outbound_status"
  end.
Definition OutboundTx_ValidateBasic (p : OutboundTx) : res unit :=
  let chain := TrimSpace (DestinationChain p) in
  check (negb (bool_decide (chain = ""))) "destination_chain cannot be empty" ;;
  check (has_colon chain) "destination_chain must be in CAIP-2 format <namespace>:<reference>" ;;
  check (negb (blank (ObRecipient p))) "recipient cannot be empty" ;;
  check (negb (blank (ObSender p))) "sender cannot be empty" ;;
  check (IsValidAddress (ObSender p) HEX) "invalid sender address" ;;
  check (moves_funds (ObTxType p) || carries_payload (ObTxType p)) "unsupported tx_type" ;;
  (if moves_funds (ObTxType p) then
     check (negb (blank (ObAmount p))) "amount cannot be empty for funds tx" ;;
     check (match big_SetString (ObAmount p) with Some n => bool_decide (0 < n) | None => false end)
       "amount must be a valid positive uint256"
   else Ok tt) ;;
  check (negb (carries_payload (ObTxType p) && blank (Payload p))) "payload cannot be empty for payload tx" ;;
  check (negb (moves_funds (ObTxType p) && blank (ExternalAssetAddr p)))
    "external_asset_addr cannot be empty for funds tx" ;;
  check (blank (Prc20AssetAddr p) || IsValidAddress (Prc20AssetAddr p) HEX) "invalid prc20 address" ;;
  check (blank (GasLimit p) || bool_decide (is_Some (big_SetString (GasLimit p)))) "gas_limit must be a valid uint" ;;
  orig ← deref_res (OrigPcTx p);
  check (negb (blank (OrigTxHash orig))) "pc_tx.tx_hash cannot be empty" ;;
  check (negb (blank (OrigLogIndex orig))) "pc_tx.log_index cannot be empty" ;;
  check (match ObservedTx p with Some o => blank (ObsTxHash o) || negb (bool_decide (ObsBlockHeight o = 0)) | None => true end)
    "observed_tx.block_height must be > 0" ;;
  check (negb (blank (ObId p))) "id cannot be empty" ;;
  status_valid p.

Definition UniversalTx_ValidateBasic (p : UniversalTx) : res unit :=
  check (negb (bool_decide (UtxId p = ""))) "id cannot be empty" ;;
  inbound ← deref_res (InboundTx p);
  wrap_res "invalid inbound_tx" (Inbound_ValidateBasic inbound) ;;
  res_all (λ tx, wrap_res "invalid pc_tx" (PCTx_ValidateBasic tx)) (PcTx p) ;;
  res_all (λ tx, wrap_res "invalid outbound_tx" (OutboundTx_ValidateBasic tx)) (OutboundTxs p).
End validation.

(** ** The message server *)
Record UxGenesis := mkUxGenesis {
  UgParams : Params;
  UgPendingInbounds : list PendingInboundEntry;
  UgExpiredInbounds : list ExpiredInboundEntry;
  UgUniversalTxs : list (string * UniversalTx);
  UgModuleAccountNonce : Z;
  UgGasPrices : list (string * GasPriceEntry);
  UgChainMetas : list (string * ChainMeta);
  UgPendingOutbounds : list PendingOutboundEntry;
  UgExported : bool
}.

Section server.
Context {E : Type} `{Bech32, CC : ChainCodecs, EC : EvmCodecs, SK : StakingKeeper, BH : BallotHooks E,
  SH : Sha256, EK : EvmKeeper E}.
(** the module's authority, and the deployment of the factory contracts into the EVM *)
Context (authority : string) (deployFactoryEA : M (World E) unit).
Implicit Types ctx : Ctx.
#[local] Abbreviation M := (M (World E)).

(** [utils.GetAddressPair], the EVM half *)
Definition GetAddressPair (addr : string) : res string :=
  bz ← ConvertAnyAddressToBytes addr;
  mret (BytesToAddress ((λ c, Z.of_nat (nat_of_ascii c)) <$> bz)).

Definition UpdateParams (p : Params) : M unit := set_ux (λ s, s <| UxParams := Some p |>).
Definition msg_UpdateParams (m : MsgUpdateParams) : M unit :=
  require (bool_decide (authority = UpAuthority m)) "invalid authority" ;; UpdateParams (UpParams m).
Definition msg_ExecutePayload ctx (m : MsgExecutePayload) : M unit :=
  evmFromAddress ← wrap "failed to parse signer address" (lift_res (GetAddressPair (EpSigner m)));
  account ← deref (EpAccount m);
  payload ← deref (EpPayload m);
  ExecutePayload ctx evmFromAddress account payload (EpVerificationData m).
Definition msg_MigrateUEA ctx (m : MsgMigrateUEA) : M unit :=
  evmFromAddress ← wrap "failed to parse signer address" (lift_res (GetAddressPair (MuSigner m)));
  account ← deref (MuAccount m);
  payload ← deref (MuPayload m);
  MigrateUEA ctx evmFromAddress account payload (MuSignature m).
Definition msg_VoteInbound ctx (m : MsgVoteInbound) : M unit :=
  signerValAddr ← voting_validator (ViSigner m);
  inbound ← deref (ViInbound m);
  VoteInbound ctx signerValAddr inbound.
Definition msg_VoteOutbound ctx (m : MsgVoteOutbound) : M unit :=
  signerValAddr ← voting_validator (VoSigner m);
  observedTx ← deref (VoObservedTx m);
  VoteOutbound ctx signerValAddr (TrimPrefix0x (VoUtxId m)) (TrimPrefix0x (VoTxId m)) observedTx.
Definition msg_VoteChainMeta ctx (m : MsgVoteChainMeta) : M unit :=
  signerValAddr ← voting_validator (VcSigner m);
  VoteChainMeta ctx signerValAddr (VcObservedChainId m) (VcPrice m) (VcChainHeight m).
Definition msg_RevertStuckInbound ctx (m : MsgRevertStuckInbound) : M (string * string) :=
  admin ← wrap "failed to read uvalidator admin" GetAdmin;
  require (bool_decide (admin = RsSigner m)) "invalid admin" ;;
  inbound ← lift_option (RsInbound m) "inbound is required";
  RevertStuckInbound ctx inbound.

(** ** Genesis *)
Definition ux_InitGenesis (data : UxGenesis) : M unit :=
  (if UgExported data then mret tt else deployFactoryEA) ;;
  set_ux (λ s, s <| UxParams := Some (UgParams data) |>) ;;
  for_each (λ e, set_ux (λ s, s <| PendingInbounds ::= insert (UtxKey e) e |>)) (UgPendingInbounds data) ;;
  for_each (λ e, set_ux (λ s, s <| ExpiredInbounds ::= insert (ExpUtxKey e) e |>)) (UgExpiredInbounds data) ;;
  for_each (λ kv, set_ux (λ s, s <| UniversalTxs ::= insert kv.1 kv.2 |>)) (UgUniversalTxs data) ;;
  (if decide (0 < UgModuleAccountNonce data)
   then set_ux (λ s, s <| ModuleAccountNonce := Some (UgModuleAccountNonce data) |>) else mret tt) ;;
  for_each (λ kv, set_ux (λ s, s <| GasPrices ::= insert kv.1 kv.2 |>)) (UgGasPrices data) ;;
  for_each (λ kv, set_ux (λ s, s <| ChainMetas ::= insert kv.1 kv.2 |>)) (UgChainMetas data) ;;
  for_each (λ e, set_ux (λ s, s <| PendingOutbounds ::= insert (OutboundId e) e |>)) (UgPendingOutbounds data).

Definition ux_ExportGenesis : M UxGenesis :=
  s ← get_ux (λ s, s);
  match UxParams s with
  | None => panic ErrNotFound
  | Some params =>
      mret {| UgParams := params;
              UgPendingInbounds := walk_values (PendingInbounds s);
              UgExpiredInbounds := walk_values (ExpiredInbounds s);
              UgUniversalTxs := walk (UniversalTxs s);
              UgModuleAccountNonce := default 0 (ModuleAccountNonce s);
              UgGasPrices := walk (GasPrices s);
              UgChainMetas := walk (ChainMetas s);
              UgPendingOutbounds := walk_values (PendingOutbounds s);
              UgExported := true |}
  end.
End server.

(** ** Who may send what *)
Section gates.
Context {E : Type} `{Bech32, CC : ChainCodecs, EC : EvmCodecs, SK : StakingKeeper, BH : BallotHooks E,
  SH : Sha256, EK : EvmKeeper E}.
Context (authority : string).
Implicit Types (ctx : Ctx) (w : World E).

(** The registered, bonded and not tombstoned validator behind an account. *)
Definition bonded_voter (signer : string) w : option string :=
  match AccAddressFromBech32 signer with
  | Ok a =>
      v ← (if decide (is_Some (UniversalValidatorSet (uv w) !! a)) then GetValidator a else None);
      cons ← GetConsAddr v;
      if IsBonded v && negb (IsTombstoned cons) then Some a else None
  | _ => None
  end.
Lemma registered_validator_run signer w :
  ∃ r, registered_core_validator signer w = (r, w) ∧
  match AccAddressFromBech32 signer with
  | Ok a => match (if decide (is_Some (UniversalValidatorSet (uv w) !! a)) then GetValidator a else None) with
            | Some v => r = Ok v
            | None => is_ok r = false
            end
  | _ => is_ok r = false
  end.
Proof.
  unfold registered_core_validator, HasUniversalValidatorInSet. mrun.
  destruct (AccAddressFromBech32 signer) as [a|e|e]; mrun; [|by eexists..].
  case_decide as Hd; [rewrite bool_decide_true by done|rewrite bool_decide_false by done]; mrun; [|by eexists].
  destruct (GetValidator a); mrun; by eexists.
Qed.
Lemma voting_validator_run signer w :
  (voting_validator signer w).2 = w ∧
  match bonded_voter signer w with
  | Some a => (voting_validator signer w).1 = Ok a
  | None => is_ok (voting_validator signer w).1 = false
  end.
Proof.
  destruct (registered_validator_run signer w) as (r & Hr & Hv).
  unfold voting_validator, bonded_voter, IsBondedUniversalValidator, IsTombstonedUniversalValidator. mrun.
  destruct (AccAddressFromBech32 signer) as [a|e|e]; mrun; try done. rewrite Hr. mrun.
  destruct (if decide _ then _ else _) as [v|]; [subst r|by destruct r]. mrun.
  destruct (IsBonded v) eqn:Hbo; mrun; [|split; [done|]; cbn; rewrite Hbo; by destruct (GetConsAddr v)]. rewrite Hr. mrun.
  destruct (GetConsAddr v) as [c|] eqn:Hc; mrun; cbn; rewrite Hc; [|done]. cbn. rewrite Hbo. by destruct (IsTombstoned c).
Qed.

Inductive ux_msg :=
| UMsgUpdateParams (m : MsgUpdateParams)
| UMsgVoteInbound (m : MsgVoteInbound)
| UMsgVoteOutbound (m : MsgVoteOutbound)
| UMsgVoteChainMeta (m : MsgVoteChainMeta)
| UMsgRevertStuckInbound (m : MsgRevertStuckInbound).
Definition exec_ux_msg ctx (m : ux_msg) : M (World E) unit :=
  match m with
  | UMsgUpdateParams m => msg_UpdateParams authority m
  | UMsgVoteInbound m => msg_VoteInbound ctx m
  | UMsgVoteOutbound m => msg_VoteOutbound ctx m
  | UMsgVoteChainMeta m => msg_VoteChainMeta ctx m
  | UMsgRevertStuckInbound m => msg_RevertStuckInbound ctx m ;; mret tt
  end.
(** What an authorised message does; [None] when its signer may not send it. *)
Definition authorised ctx (m : ux_msg) w : option (M (World E) unit) :=
  match m with
  | UMsgUpdateParams m => if decide (UpAuthority m = authority) then Some (UpdateParams (UpParams m)) else None
  | UMsgVoteInbound m =>
      v ← bonded_voter (ViSigner m) w; Some (i ← deref (ViInbound m); VoteInbound ctx v i)
  | UMsgVoteOutbound m =>
      v ← bonded_voter (VoSigner m) w;
      Some (obs ← deref (VoObservedTx m);
            VoteOutbound ctx v (TrimPrefix0x (VoUtxId m)) (TrimPrefix0x (VoTxId m)) obs)
  | UMsgVoteChainMeta m =>
      v ← bonded_voter (VcSigner m) w; Some (VoteChainMeta ctx v (VcObservedChainId m) (VcPrice m) (VcChainHeight m))
  | UMsgRevertStuckInbound m =>
      if decide (UV.Admin <$> UvParams (uv w) = Some (RsSigner m)) then
        Some (i ← lift_option (RsInbound m) "inbound is required"; RevertStuckInbound ctx i ;; mret tt)
      else None
  end.

Lemma gated_vote {A} signer (f : string → M (World E) A) w :
  match bonded_voter signer w with
  | Some a => (v ← voting_validator signer; f v) w = f a w
  | None => is_ok ((v ← voting_validator signer; f v) w).1 = false ∧ ((v ← voting_validator signer; f v) w).2 = w
  end.
Proof.
  destruct (voting_validator_run signer w) as [Hw Hr]. rewrite bind_unfold.
  destruct (voting_validator signer w) as [r w']. cbn in Hw, Hr. subst w'.
  destruct (bonded_voter signer w) as [a|]; [by subst r|]. by destruct r.
Qed.

(** Every privileged message of x/uexecutor is gated by its signer: a vote does
    what the keeper does for the bonded, not tombstoned universal validator of the
    signing account, the admin's revert and the authority's parameters likewise; sent
    by anybody else, a message is refused and the store of every module is unchanged. *)
Theorem ux_messages_gated ctx m w :
  match authorised ctx m w with
  | Some op => exec_ux_msg ctx m w = op w
  | None => is_ok (exec_ux_msg ctx m w).1 = false ∧ (exec_ux_msg ctx m w).2 = w
  end.
Proof.
  destruct m as [m|m|m|m|m]; cbn [exec_ux_msg authorised].
  - unfold msg_UpdateParams. mrun. case_decide as Hd; [by rewrite bool_decide_true; mrun|].
    by rewrite bool_decide_false; mrun.
  - pose proof (gated_vote (ViSigner m) (λ v, i ← deref (ViInbound m); VoteInbound ctx v i) w) as Hg.
    by destruct (bonded_voter (ViSigner m) w).
  - pose proof (gated_vote (VoSigner m) (λ v, obs ← deref (VoObservedTx m);
      VoteOutbound ctx v (TrimPrefix0x (VoUtxId m)) (TrimPrefix0x (VoTxId m)) obs) w) as Hg.
    by destruct (bonded_voter (VoSigner m) w).
  - pose proof (gated_vote (VcSigner m) (λ v, VoteChainMeta ctx v (VcObservedChainId m) (VcPrice m) (VcChainHeight m)) w) as Hg.
    by destruct (bonded_voter (VcSigner m) w).
  - unfold msg_RevertStuckInbound, GetAdmin. mrun. destruct (UvParams (uv w)) as [p|]; mrun; [|done].
    cbn. case_decide as Hd.
    + injection Hd as Hd. rewrite bool_decide_true by done. mrun. by destruct (RsInbound m); mrun.
    + rewrite bool_decide_false by congruence. by mrun.
Qed.
End gates.

(** ** Genesis round trip *)
Section genesis.
Context {E : Type}.
Implicit Types (w : World E) (s : UxState).

(** A loop of insertions into one collection, as one write.  [put] updates the
    collection inside the store. *)
Lemma for_each_insert_ux {A V} (put : (gmap string V → gmap string V) → UxState → UxState)
    (key : A → string) (val : A → V) l w :
  (∀ s, put (λ m, m) s = s) → (∀ f g s, put f (put g s) = put (λ m, f (g m)) s) →
  for_each (λ e, set_ux (put (insert (key e) (val e)))) l w =
  (Ok tt, w <| ux ::= put (λ m, foldl (λ m kv, <[ kv.1 := kv.2 ]> m) m ((λ e, (key e, val e)) <$> l)) |>).
Proof.
  intros Hid Hcomp. rewrite for_each_set_ux. destruct w as [u t s r x]. cbn. do 2 f_equal.
  revert s. induction l as [|e l IH]; intros s; cbn; [by rewrite Hid|]. by rewrite IH, Hcomp.
Qed.

(** One write per collection of the genesis file. *)
Lemma restore_pending_in l w :
  for_each (λ e, set_ux (λ s, s <| PendingInbounds ::= insert (UtxKey e) e |>)) l w =
  (Ok tt, w <| ux ::= λ s, s <| PendingInbounds ::= λ m, foldl (λ m kv, <[ kv.1 := kv.2 ]> m) m ((λ e, (UtxKey e, e)) <$> l) |> |>).
Proof. apply (for_each_insert_ux (λ f s, s <| PendingInbounds ::= f |>) UtxKey (λ e, e)); [by intros []|by intros ? ? []]. Qed.
Lemma restore_expired_in l w :
  for_each (λ e, set_ux (λ s, s <| ExpiredInbounds ::= insert (ExpUtxKey e) e |>)) l w =
  (Ok tt, w <| ux ::= λ s, s <| ExpiredInbounds ::= λ m, foldl (λ m kv, <[ kv.1 := kv.2 ]> m) m ((λ e, (ExpUtxKey e, e)) <$> l) |> |>).
Proof. apply (for_each_insert_ux (λ f s, s <| ExpiredInbounds ::= f |>) ExpUtxKey (λ e, e)); [by intros []|by intros ? ? []]. Qed.
Lemma restore_utxs l w :
  for_each (λ kv, set_ux (λ s, s <| UniversalTxs ::= insert kv.1 kv.2 |>)) l w =
  (Ok tt, w <| ux ::= λ s, s <| UniversalTxs ::= λ m, foldl (λ m kv, <[ kv.1 := kv.2 ]> m) m ((λ kv, (kv.1, kv.2)) <$> l) |> |>).
Proof. apply (for_each_insert_ux (λ f s, s <| UniversalTxs ::= f |>) fst snd); [by intros []|by intros ? ? []]. Qed.
Lemma restore_gas_prices l w :
  for_each (λ kv, set_ux (λ s, s <| GasPrices ::= insert kv.1 kv.2 |>)) l w =
  (Ok tt, w <| ux ::= λ s, s <| GasPrices ::= λ m, foldl (λ m kv, <[ kv.1 := kv.2 ]> m) m ((λ kv, (kv.1, kv.2)) <$> l) |> |>).
Proof. apply (for_each_insert_ux (λ f s, s <| GasPrices ::= f |>) fst snd); [by intros []|by intros ? ? []]. Qed.
Lemma restore_metas l w :
  for_each (λ kv, set_ux (λ s, s <| ChainMetas ::= insert kv.1 kv.2 |>)) l w =
  (Ok tt, w <| ux ::= λ s, s <| ChainMetas ::= λ m, foldl (λ m kv, <[ kv.1 := kv.2 ]> m) m ((λ kv, (kv.1, kv.2)) <$> l) |> |>).
Proof. apply (for_each_insert_ux (λ f s, s <| ChainMetas ::= f |>) fst snd); [by intros []|by intros ? ? []]. Qed.
Lemma restore_pending_out l w :
  for_each (λ e, set_ux (λ s, s <| PendingOutbounds ::= insert (OutboundId e) e |>)) l w =
  (Ok tt, w <| ux ::= λ s, s <| PendingOutbounds ::= λ m, foldl (λ m kv, <[ kv.1 := kv.2 ]> m) m ((λ e, (OutboundId e, e)) <$> l) |> |>).
Proof. apply (for_each_insert_ux (λ f s, s <| PendingOutbounds ::= f |>) OutboundId (λ e, e)); [by intros []|by intros ? ? []]. Qed.
#[local] Hint Rewrite restore_pending_in restore_expired_in restore_utxs restore_gas_prices restore_metas
  restore_pending_out : run.

(** Every entry of the audit trail is stored under its own key. *)
Definition audit_keyed s : Prop :=
  (∀ k e, PendingInbounds s !! k = Some e → UtxKey e = k) ∧ (∀ k e, ExpiredInbounds s !! k = Some e → ExpUtxKey e = k).

Lemma audit_keyed_hook ctx id ty st : keeps (λ w, audit_keyed (ux w)) (ux_AfterBallotTerminal (E:=E) ctx id ty st).
Proof.
  intros w [Hp He]. unfold ux_AfterBallotTerminal, afterInboundBallotTerminal. destruct ty; mrun; try done.
  destruct (List.find _ _) as [[key en]|] eqn:Hf; mrun; [|done].
  apply List.find_some in Hf as [Hin%list_elem_of_In%elem_of_walk _]. apply Hp in Hin.
  destruct (existsb undecided _); mrun; [|destruct (existsb passed _); mrun];
    split; intros k e; cbn; rewrite ?lookup_insert_Some, ?lookup_delete_Some; naive_solver.
Qed.

Lemma audit_keyed_vote `{Bech32, CC : ChainCodecs, SH : Sha256} ctx i voter id :
  keeps (λ w, audit_keyed (ux w)) (RecordInboundVote (E:=E) ctx i voter id).
Proof.
  intros w [Hp He]. unfold RecordInboundVote. mrun. split; [|exact He]. intros k e. cbn -[insert].
  rewrite lookup_insert_Some. intros [[<- <-]|[_ Hk]]; [|by apply Hp]. cbn.
  destruct (PendingInbounds (ux w) !! _) eqn:Hl; cbn; [by apply Hp|done].
Qed.

(** The same module state, up to an unset nonce, which reads as zero. *)
Definition same_ux s s' : Prop :=
  s' <| ModuleAccountNonce := None |> = s <| ModuleAccountNonce := None |> ∧
  default 0 (ModuleAccountNonce s') = default 0 (ModuleAccountNonce s).

(** Writing exported values back under the key each carries. *)
Lemma restore_values {V} (key : V → string) (m : gmap string V) :
  (∀ k v, m !! k = Some v → key v = k) →
  foldl (λ m kv, <[ kv.1 := kv.2 ]> m) ∅ ((λ v, (key v, v)) <$> walk_values m) = m.
Proof.
  intros Hk. unfold walk_values. rewrite <- list_fmap_compose.
  rewrite (list_fmap_ext _ (λ kv, kv) (walk m)); [by rewrite list_fmap_id; apply restore_walk|].
  intros j [k v] Hj. apply list_elem_of_lookup_2, elem_of_walk, Hk in Hj. cbn. by rewrite Hj.
Qed.
Lemma restore_entries {V} (m : gmap string V) :
  foldl (λ m kv, <[ kv.1 := kv.2 ]> m) ∅ ((λ kv, (kv.1, kv.2)) <$> walk m) = m.
Proof. rewrite (list_fmap_ext _ (λ kv, kv) (walk m)); [by rewrite list_fmap_id; apply restore_walk|]. by intros ? []. Qed.

(** Genesis round trip of x/uexecutor: exporting a store whose index of pending
    outbounds is exact and whose audit entries are keyed, and importing the file into
    an empty module, restores every collection of the module, does not deploy the
    factory contracts again, and touches no other module. *)
Theorem ux_genesis_roundtrip deployFactoryEA w w0 p :
  UxParams (ux w) = Some p → audit_keyed (ux w) → pending_inv (books w) →
  0 ≤ default 0 (ModuleAccountNonce (ux w)) → ux w0 = empty_ux →
  ∃ g w1, ux_ExportGenesis w = (Ok g, w) ∧ ux_InitGenesis deployFactoryEA g w0 = (Ok tt, w1) ∧
    same_ux (ux w) (ux w1) ∧ w1 = w0 <| ux := ux w1 |>.
Proof.
  intros Hp [Hpi Hei] Hinv Hn Hw0.
  assert (∀ k e, PendingOutbounds (ux w) !! k = Some e → OutboundId e = k) as Hpo
    by (intros k e Hk; by destruct (pending_entry_ok _ Hinv k e Hk)).
  unfold ux_ExportGenesis, ux_InitGenesis. mrun. rewrite Hp. mrun.
  destruct (decide (0 < default 0 (ModuleAccountNonce (ux w)))) as [Hd|Hd]; eexists _, _; (split; [done|]);
    cbn [UgParams UgPendingInbounds UgExpiredInbounds UgUniversalTxs UgModuleAccountNonce UgGasPrices UgChainMetas
      UgPendingOutbounds UgExported]; mrun; [rewrite decide_True by done|rewrite decide_False by done]; mrun.
  all: (split; [done|]); destruct w0 as [u0 t0 x0 r0 e0]; cbn in Hw0; subst x0; (split; [|done]);
    unfold same_ux; cbn -[foldl]; rewrite !restore_entries, !restore_values by done; destruct (ux w); cbn in *;
    (split; [by rewrite Hp|]); cbn in *; lia.
Qed.
End genesis.
