(* ===== verification/UxQuery.v ===== *)
(** * x/uexecutor: queries and store migrations

    [keeper/query_server.go], [keeper/query_server_v2.go], [keeper/query_keys.go]
    and [migrations/v2], [migrations/v4], [migrations/v7].  The queries that only
    hand a collection to the SDK's paginator are not modelled. *)
From S2P Require Import Prelude GoStrings UvTypes TssTypes UxTypes RegTypes World Canonical.
From S2P Require Import UvValidator UvBallot Registry Utss UxKeys UxPayload UxEvm UxOutbound.
From S2P Require Import UxSettle UxInbound UxChainMeta UxFinality UxPending UxMsg.
Import Ux.

(** ** The legacy view of a universal transaction *)
Inductive UniversalTxStatus :=
| UNIVERSAL_TX_STATUS_UNSPECIFIED
| INBOUND_SUCCESS
| PENDING_INBOUND_EXECUTION
| PC_EXECUTED_SUCCESS
| PC_EXECUTED_FAILED
| PC_PENDING_REVERT
| OUTBOUND_PENDING
| OUTBOUND_SUCCESS
| OUTBOUND_FAILED
| CANCELED.
Inductive InboundTxTypeLegacy :=
| INBOUND_LEGACY_UNSPECIFIED_TX
| INBOUND_LEGACY_GAS
| INBOUND_LEGACY_FUNDS
| INBOUND_LEGACY_FUNDS_AND_PAYLOAD
| INBOUND_LEGACY_GAS_AND_PAYLOAD.
Record InboundLegacy := mkInboundLegacy {
  LegSourceChain : string; LegTxHash : string; LegSender : string; LegRecipient : string; LegAmount : string;
  LegAssetAddr : string; LegLogIndex : string; LegTxType : InboundTxTypeLegacy;
  LegUniversalPayload : option UniversalPayload; LegVerificationData : string }.
Record OutboundTxLegacy := mkOutboundTxLegacy {
  LegObDestinationChain : string; LegObTxHash : string; LegObRecipient : string; LegObAmount : string;
  LegObAssetAddr : string }.
Record UniversalTxLegacy := mkUniversalTxLegacy {
  LegInboundTx : option InboundLegacy; LegPcTx : list PCTx; LegOutboundTx : option OutboundTxLegacy;
  LegUniversalStatus : UniversalTxStatus }.

Definition has_status (st : Status) (ob : OutboundTx) : bool := bool_decide (OutboundStatus ob = st).
Definition computeUniversalStatus (utx : UniversalTx) : UniversalTxStatus :=
  match OutboundTxs utx, PcTx utx, InboundTx utx with
  | _ :: _, _, _ =>
      if existsb (has_status PENDING) (OutboundTxs utx) then OUTBOUND_PENDING
      else if existsb (has_status REVERTED) (OutboundTxs utx) then OUTBOUND_FAILED
      else OUTBOUND_SUCCESS
  | [], _ :: _, _ =>
      if existsb (λ pc, bool_decide (PcStatus pc = "FAILED")) (PcTx utx) then PC_EXECUTED_FAILED else PC_EXECUTED_SUCCESS
  | [], [], Some _ => PENDING_INBOUND_EXECUTION
  | [], [], None => UNIVERSAL_TX_STATUS_UNSPECIFIED
  end.
Definition mapTxTypeToLegacy (t : TxType) : InboundTxTypeLegacy :=
  match t with
  | GAS => INBOUND_LEGACY_GAS
  | GAS_AND_PAYLOAD => INBOUND_LEGACY_GAS_AND_PAYLOAD
  | FUNDS => INBOUND_LEGACY_FUNDS
  | FUNDS_AND_PAYLOAD => INBOUND_LEGACY_FUNDS_AND_PAYLOAD
  | _ => INBOUND_LEGACY_UNSPECIFIED_TX
  end.
Definition legacy_inbound (i : Inbound) : InboundLegacy :=
  {| LegSourceChain := SourceChain i; LegTxHash := TxHash i; LegSender := Sender i; LegRecipient := Recipient i;
     LegAmount := Amount i; LegAssetAddr := AssetAddr i; LegLogIndex := LogIndex i;
     LegTxType := mapTxTypeToLegacy (InTxType i); LegUniversalPayload := UniversalPayloadOf i;
     LegVerificationData := VerificationData i |}.
Definition legacy_outbound (ob : OutboundTx) : OutboundTxLegacy :=
  {| LegObDestinationChain := DestinationChain ob; LegObTxHash := from_option ObsTxHash "" (ObservedTx ob);
     LegObRecipient := ObRecipient ob; LegObAmount := ObAmount ob; LegObAssetAddr := Prc20AssetAddr ob |}.
Definition convertToUniversalTxLegacy (current : UniversalTx) : UniversalTxLegacy :=
  {| LegInboundTx := legacy_inbound <$> InboundTx current; LegPcTx := PcTx current;
     LegOutboundTx := legacy_outbound <$> head (OutboundTxs current);
     LegUniversalStatus := computeUniversalStatus current |}.
Definition chainMetaToGasPrice (cm : ChainMeta) : GasPriceEntry :=
  {| GpObservedChainId := ObservedChainId cm; GpSigners := Signers cm; GpPrices := Prices cm;
     GpBlockNums := ChainHeights cm; GpMedianIndex := MedianIndex cm |}.

(** ** Requests *)
Record PageRequest := mkPageRequest { Offset : Z; Limit : Z; Reverse : bool }.
Record PendingPage := mkPendingPage {
  PgEntries : list PendingOutboundEntry; PgOutbounds : list OutboundTx; PgTotal : Z }.
Definition DefaultLimit : Z := 100.

Section queries.
Context {E : Type} `{Bech32, CC : ChainCodecs, SH : Sha256, SO : SortSlice}.
#[local] Abbreviation M := (M (World E)).

Definition query_UniversalTx (id : string) : M UniversalTxLegacy :=
  s ← get_ux UniversalTxs; tx ← lift_option (s !! id) "UniversalTx not found"; mret (convertToUniversalTxLegacy tx).
Definition query_v2_UniversalTx (id : string) : M UniversalTx :=
  s ← get_ux UniversalTxs; lift_option (s !! TrimPrefix0x id) "UniversalTx not found".
Definition query_GasPrice (chainId : string) : M GasPriceEntry :=
  require (negb (bool_decide (chainId = ""))) "chain_id is required" ;;
  s ← get_ux (λ s, s);
  match ChainMetas s !! chainId with
  | Some cm => mret (chainMetaToGasPrice cm)
  | None => lift_option (GasPrices s !! chainId) ("no gas price found for chain_id: " +:+ chainId)
  end.
Definition query_ChainMeta (chainId : string) : M ChainMeta :=
  require (negb (bool_decide (chainId = ""))) "chain_id is required" ;;
  s ← get_ux ChainMetas; lift_option (s !! chainId) ("no chain meta found for chain_id: " +:+ chainId).

(** The first outbound with an id; an entry whose transaction is gone has none. *)
Definition outbound_of (utxs : gmap string UniversalTx) (e : PendingOutboundEntry) (id : string) : option OutboundTx :=
  utx ← utxs !! UniversalTxId e; List.find (with_id id) (OutboundTxs utx).
Definition GetPendingOutbound (outboundId : string) : M (PendingOutboundEntry * option OutboundTx) :=
  require (negb (bool_decide (outboundId = ""))) "outbound_id is required" ;;
  s ← get_ux (λ s, s);
  entry ← lift_option (PendingOutbounds s !! outboundId) ("pending outbound not found: " +:+ outboundId);
  lift_option (UniversalTxs s !! UniversalTxId entry) ("parent UTX not found for pending outbound " +:+ outboundId) ;;
  mret (entry, outbound_of (UniversalTxs s) entry outboundId).

Definition created_before (reverse : bool) (a b : PendingOutboundEntry) : bool :=
  if reverse then bool_decide (CreatedAt b < CreatedAt a) else bool_decide (CreatedAt a < CreatedAt b).
(** [l[start:end]] of a slice *)
Definition slice_expr {A} (l : list A) (from to : Z) : res (list A) :=
  if decide (0 ≤ from ≤ to ∧ to ≤ Z.of_nat (length l)) then
    Ok (take (Z.to_nat (to - from)) (drop (Z.to_nat from) l))
  else Panic "slice bounds out of range".
(** A nil request reads as zeros. *)
Definition AllPendingOutbounds (pagination : option PageRequest) : M PendingPage :=
  s ← get_ux (λ s, s);
  let reverse := from_option Reverse false pagination in
  let allEntries := sort_Slice (created_before reverse) (walk_values (PendingOutbounds s)) in
  let total := Z.of_nat (length allEntries) in
  let limit := from_option Limit 0 pagination in
  let limit := if decide (limit = 0) then DefaultLimit else limit in
  let offset := from_option Offset 0 pagination in
  let start := if decide (total < offset) then total else offset in
  let stop := u64 (start + limit) in
  let stop := if decide (total < stop) then total else stop in
  pageEntries ← lift_res (slice_expr allEntries start stop);
  mret {| PgEntries := pageEntries;
          PgOutbounds := omap (λ e, outbound_of (UniversalTxs s) e (OutboundId e)) pageEntries;
          PgTotal := total |}.

(** ** query_keys.go *)
Definition query_InboundKeys (inbound : option Inbound) : M (string * string * Inbound) :=
  inbound ← lift_option inbound "inbound is required";
  let inbound := Canonicalize inbound in
  mret (GetInboundUniversalTxKey inbound, GetInboundBallotKey inbound, inbound).
Definition query_OutboundBallotKey (utxId outboundId : string) (observedTx : option OutboundObservation)
    : M (string * OutboundObservation) :=
  obs ← lift_option observedTx "observed_tx is required";
  require (negb (blank utxId || blank outboundId)) "utx_id and outbound_id are required" ;;
  found ← GetUniversalTx utxId;
  utx ← lift_option found ("universal tx " +:+ utxId +:+ " not found");
  ob ← lift_option (List.find (with_id outboundId) (OutboundTxs utx))
    ("outbound " +:+ outboundId +:+ " not found in universal tx " +:+ utxId);
  let obs := canonical_observation (DestinationChain ob) obs in
  mret (GetOutboundBallotKey utxId outboundId obs, obs).
End queries.

(** ** Migrations *)
Inductive OldTxType :=
| OLD_UNSPECIFIED_TX | OLD_GAS | OLD_FUNDS | OLD_FUNDS_AND_PAYLOAD | OLD_GAS_AND_PAYLOAD | OldTxType_other (n : Z).
Record OldInbound := mkOldInbound {
  OldSourceChain : string; OldTxHash : string; OldSender : string; OldRecipient : string; OldAmount : string;
  OldAssetAddr : string; OldLogIndex : string; OldTxTypeOf : OldTxType; OldUniversalPayload : option UniversalPayload;
  OldVerificationData : string }.
Record OldOutboundTx := mkOldOutboundTx {
  OldDestinationChain : string; OldObTxHash : string; OldObRecipient : string; OldObAmount : string;
  OldObAssetAddr : string }.
Record OldUniversalTx := mkOldUniversalTx {
  OldInboundTx : option OldInbound; OldPcTx : list PCTx; OldOutbound : option OldOutboundTx }.

Definition mapTxType (t : OldTxType) : TxType :=
  match t with
  | OLD_GAS => GAS
  | OLD_FUNDS => FUNDS
  | OLD_FUNDS_AND_PAYLOAD => FUNDS_AND_PAYLOAD
  | OLD_GAS_AND_PAYLOAD => GAS_AND_PAYLOAD
  | _ => UNSPECIFIED_TX
  end.
Definition mapInbound (old : OldInbound) : Inbound :=
  {| SourceChain := OldSourceChain old; TxHash := OldTxHash old; Sender := OldSender old;
     Recipient := OldRecipient old; Amount := OldAmount old; AssetAddr := OldAssetAddr old;
     LogIndex := OldLogIndex old; InTxType := mapTxType (OldTxTypeOf old);
     UniversalPayloadOf := OldUniversalPayload old; VerificationData := OldVerificationData old;
     RevertInstructionsOf := Some (mkRevertInstructions (OldSender old)); IsCEA := false; RawPayload := "" |}.
Definition mapOutbound (old : option OldOutboundTx) : list OutboundTx :=
  match old with
  | Some o =>
      if decide (OldDestinationChain o = "") then []
      else [empty_OutboundTx <| DestinationChain := OldDestinationChain o |> <| ObRecipient := OldObRecipient o |>
              <| ObAmount := OldObAmount o |> <| ExternalAssetAddr := OldObAssetAddr o |>
              <| ObservedTx := if decide (OldObTxHash o = "") then None
                               else Some (mkOutboundObservation true 0 (OldObTxHash o) "" "") |>]
  | None => []
  end.
Section migrations.
Context {E : Type}.
Implicit Types (ctx : Ctx) (w : World E).
#[local] Abbreviation M := (M (World E)).

Definition MigrateParamsFromAdminToBool : M unit := set_ux (λ s, s <| UxParams := Some (mkParams true) |>).
(** [oldMap] is the collection as the old types decode it. *)
Definition MigrateUniversalTx (oldMap : gmap string OldUniversalTx) : M unit :=
  for_each (λ kv, set_ux (λ s, s <| UniversalTxs ::= insert kv.1
    (mkUniversalTx kv.1 (mapInbound <$> OldInboundTx kv.2) (OldPcTx kv.2) (mapOutbound (OldOutbound kv.2)) "") |>))
    (walk oldMap).
(** A row of the old key set decodes to an entry without a key. *)
Definition legacy_row (kv : string * PendingInboundEntry) : bool := bool_decide (UtxKey kv.2 = "").
Definition MigratePendingInbounds ctx : M unit :=
  s ← get_ux PendingInbounds;
  for_each (λ key, set_ux (λ s, s <| PendingInbounds ::=
    insert key (mkPendingInboundEntry key [] (u64 (BlockHeight ctx))) |>)) (List.filter legacy_row (walk s)).*1.
End migrations.

(** ** What the queries answer *)
Lemma omap_Forall2 {A B} (f : A → option B) (P : A → B → Prop) l :
  Forall (λ a, ∃ b, f a = Some b ∧ P a b) l → Forall2 P l (omap f l).
Proof. induction 1 as [|a l (b & Hb & HP) _ IH]; cbn; [constructor|]. rewrite Hb. by constructor. Qed.
Lemma length_walk_values {V} (m : gmap string V) : length (walk_values m) = size m.
Proof.
  unfold walk_values. rewrite length_fmap. rewrite <- (list_to_map_walk m) at 2.
  rewrite map_size_list_to_map; [done|apply NoDup_walk_fst].
Qed.

Section pages.
Context {E : Type} `{SO : SortSlice, !SortSliceLaws}.
Implicit Types w : World E.

(** The outbound an entry of the index stands for. *)
Definition entry_outbound w (e : PendingOutboundEntry) (ob : OutboundTx) : Prop :=
  outbound_in (books w) (UniversalTxId e) ob ∧ ObId ob = OutboundId e ∧ OutboundStatus ob = PENDING.
Lemma outbound_of_entry w e :
  pending_inv (books w) → e ∈ walk_values (PendingOutbounds (ux w)) →
  ∃ ob, outbound_of (UniversalTxs (ux w)) e (OutboundId e) = Some ob ∧ entry_outbound w e ob.
Proof.
  intros Hinv [id He]%elem_of_walk_values.
  destruct (pending_entry_ok _ Hinv id e He) as (Hid & ob & Hin & Hob & Hst).
  exists ob. split; [|split_and!; [done|congruence|done]]. destruct Hin as (utx & Hu & Hin).
  unfold outbound_of. change (UniversalTxs (ux w)) with (books w).1. rewrite Hu. cbn.
  destruct (List.find _ _) as [ob'|] eqn:Hf.
  - apply List.find_some in Hf as [Hin'%list_elem_of_In Hid'%bool_decide_eq_true]. f_equal.
    eapply unique_outbound; [by eapply (ids_unique _ Hinv)|done..|congruence].
  - apply list_elem_of_In in Hin. pose proof (List.find_none _ _ Hf ob Hin) as Hn.
    apply bool_decide_eq_false in Hn. congruence.
Qed.

Definition page_order (reverse : bool) (e : PendingOutboundEntry) : Z :=
  if reverse then - CreatedAt e else CreatedAt e.
Definition page_limit (pg : option PageRequest) : Z :=
  let l := from_option Limit 0 pg in if decide (l = 0) then DefaultLimit else l.
Definition uint64_page (pg : option PageRequest) : Prop :=
  0 ≤ from_option Offset 0 pg < 2 ^ 64 ∧ 0 ≤ from_option Limit 0 pg < 2 ^ 64.

(** The slice that is returned, and when its bounds overflow. *)
Lemma page_slice {A} (l : list A) offset limit :
  0 ≤ offset < 2 ^ 64 → 0 < limit < 2 ^ 64 → Z.of_nat (length l) < 2 ^ 64 →
  let start := if decide (Z.of_nat (length l) < offset) then Z.of_nat (length l) else offset in
  let stop := if decide (Z.of_nat (length l) < u64 (start + limit)) then Z.of_nat (length l) else u64 (start + limit) in
  if decide (start + limit < 2 ^ 64)
  then slice_expr l start stop = Ok (take (Z.to_nat limit) (drop (Z.to_nat start) l))
  else ∃ m, slice_expr l start stop = Panic m.
Proof.
  intros Ho Hl Hlen start stop. assert (0 ≤ start ≤ Z.of_nat (length l) ∧ start < 2 ^ 64) as Hs
    by (unfold start; case_decide; lia). clearbody start.
  case_decide as Hd.
  - assert (u64 (start + limit) = start + limit) as Hu by (apply Z.mod_small; lia).
    unfold stop. rewrite Hu. unfold slice_expr.
    destruct (decide (Z.of_nat (length l) < start + limit)) as [Ht|Ht]; rewrite decide_True by lia; f_equal.
    + rewrite !take_ge by (rewrite length_drop; lia). done.
    + f_equal. lia.
  - assert (u64 (start + limit) = start + limit - 2 ^ 64) as Hu.
    { symmetry. apply (Z.mod_unique_pos _ _ 1); lia. }
    unfold stop. rewrite Hu. unfold slice_expr. rewrite decide_False; [by eexists|].
    rewrite decide_False by lia. lia.
Qed.

(** The page of pending outbounds the signers poll: on a consistent store the
    query returns entries in the order of creation, each with its own PENDING outbound
    at the same position and the number of all entries; and it answers exactly when
    [start + limit] fits 64 bits: past that the end of the page wraps around and the
    slice expression panics. *)
Theorem AllPendingOutbounds_exact pg w :
  pending_inv (books w) → uint64_page pg → Z.of_nat (size (PendingOutbounds (ux w))) < 2 ^ 64 →
  let reverse := from_option Reverse false pg in
  let total := Z.of_nat (size (PendingOutbounds (ux w))) in
  let start := if decide (total < from_option Offset 0 pg) then total else from_option Offset 0 pg in
  ∃ all, all ≡ₚ walk_values (PendingOutbounds (ux w)) ∧
    StronglySorted (λ a b, page_order reverse a ≤ page_order reverse b) all ∧
    if decide (start + page_limit pg < 2 ^ 64) then
      ∃ obs, let entries := take (Z.to_nat (page_limit pg)) (drop (Z.to_nat start) all) in
        AllPendingOutbounds pg w = (Ok (mkPendingPage entries obs total), w) ∧ Forall2 (entry_outbound w) entries obs
    else ∃ m, AllPendingOutbounds pg w = (Panic m, w).
Proof.
  intros Hinv [Ho Hl] Hsz reverse total start.
  set (all := sort_Slice (created_before reverse) (walk_values (PendingOutbounds (ux w)))).
  assert (all ≡ₚ walk_values (PendingOutbounds (ux w))) as Hp by apply sort_Slice_perm.
  assert (Z.of_nat (length all) = total) as Hlen by (by rewrite Hp, length_walk_values).
  exists all. split; [done|]. split.
  { apply sort_Slice_sorted. intros a b. unfold created_before, page_order.
    destruct reverse; apply bool_decide_ext; lia. }
  pose proof (page_slice all (from_option Offset 0 pg) (page_limit pg)) as Hsl. cbv zeta in Hsl. rewrite Hlen in Hsl.
  specialize (Hsl Ho). unfold AllPendingOutbounds. mrun. cbv zeta. fold reverse all. rewrite Hlen.
  change (if decide (from_option Limit 0 pg = 0) then _ else _) with (page_limit pg). fold start.
  assert (0 < page_limit pg < 2 ^ 64) as Hpl by (clear -Hl; unfold page_limit, DefaultLimit; cbv zeta; case_decide; lia).
  specialize (Hsl Hpl ltac:(done)). fold start in Hsl. case_decide as Hd.
  - rewrite Hsl. mrun. eexists. split; [done|]. apply omap_Forall2. apply Forall_forall.
    intros e [i Hi]%list_elem_of_lookup. apply outbound_of_entry; [done|]. rewrite <- Hp.
    apply lookup_take_Some in Hi as [Hi _]. rewrite lookup_drop in Hi. by eapply list_elem_of_lookup_2.
  - destruct Hsl as [m ->]. mrun. by eexists.
Qed.
End pages.

(** An outbound that was ABORTED, its refund having failed, reads as a success in the
    legacy status. *)
Lemma aborted_reads_as_success u :
  OutboundTxs u ≠ [] → Forall (λ ob, OutboundStatus ob = ABORTED) (OutboundTxs u) →
  LegUniversalStatus (convertToUniversalTxLegacy u) = OUTBOUND_SUCCESS.
Proof.
  intros Hne Hf. cbn. unfold computeUniversalStatus.
  assert (∀ st, st ≠ ABORTED → existsb (has_status st) (OutboundTxs u) = false) as Hno.
  { intros st Hst. apply not_true_iff_false. intros (x & Hx%list_elem_of_In & Hs)%existsb_exists.
    apply bool_decide_eq_true in Hs. rewrite Forall_forall in Hf. rewrite (Hf x Hx) in Hs. done. }
  rewrite !Hno by done. by destruct (OutboundTxs u).
Qed.

(** ** The v7 migration *)
Section markers.
Context {E : Type}.
Implicit Types (ctx : Ctx) (w : World E).

Definition bare_marker ctx (key : string) : PendingInboundEntry :=
  mkPendingInboundEntry key [] (u64 (BlockHeight ctx)).
Lemma foldl_insert_keys {V} (f : string → V) (l : list string) (m : gmap string V) k :
  foldl (λ m k, <[ k := f k ]> m) m l !! k = if decide (k ∈ l) then Some (f k) else m !! k.
Proof.
  revert m. induction l as [|x l IH]; intros m; cbn; [by rewrite decide_False by apply not_elem_of_nil|].
  rewrite IH. destruct (decide (k ∈ l)) as [Hin|Hn]; [by rewrite decide_True by (by right)|].
  destruct (decide (k = x)) as [->|Hne].
  - by rewrite lookup_insert_eq, decide_True by left.
  - rewrite lookup_insert_ne by done. by rewrite decide_False by (by rewrite elem_of_cons; intros [|]).
Qed.
(** Exactly the rows of the old key set are rewritten. *)
Lemma MigratePendingInbounds_run ctx w :
  ∃ w', MigratePendingInbounds ctx w = (Ok tt, w') ∧
    ∀ k, PendingInbounds (ux w') !! k =
      (λ e, if decide (UtxKey e = "") then bare_marker ctx k else e) <$> PendingInbounds (ux w) !! k.
Proof.
  unfold MigratePendingInbounds. mrun. rewrite for_each_set_ux. eexists. split; [done|]. intros k.
  assert (∀ l s, PendingInbounds (foldl (λ s key, s <| PendingInbounds ::=
    insert key (mkPendingInboundEntry key [] (u64 (BlockHeight ctx))) |>) s l) =
    foldl (λ m k, <[ k := bare_marker ctx k ]> m) (PendingInbounds s) l) as Hf.
  { intros l. induction l as [|x l IH]; intros s; [done|]. cbn. by rewrite IH. }
  cbn -[insert]. rewrite Hf, foldl_insert_keys.
  assert (k ∈ (List.filter legacy_row (walk (PendingInbounds (ux w)))).*1 ↔
    ∃ e, PendingInbounds (ux w) !! k = Some e ∧ UtxKey e = "") as Hin.
  { rewrite list_elem_of_fmap. split.
    - intros ([k' e] & -> & Hin). apply list_elem_of_In, filter_In in Hin as [Hin Hl%bool_decide_eq_true].
      apply list_elem_of_In, elem_of_walk in Hin. by exists e.
    - intros (e & He & Hl). exists (k, e). split; [done|]. apply list_elem_of_In, filter_In.
      split; [by apply list_elem_of_In, elem_of_walk|by apply bool_decide_eq_true]. }
  destruct (PendingInbounds (ux w) !! k) as [e|] eqn:Hk; cbn.
  - case_decide as Hd; case_decide as Hl; [done| |by destruct Hd; apply Hin; eauto|done].
    apply Hin in Hd as (e' & [= <-] & ?). done.
  - rewrite decide_False; [done|]. rewrite Hin. naive_solver.
Qed.

(** The end of a ballot: who it was about, and how it ended. *)
Definition ballot_end : Type := Ctx * string * Ballot.BallotObservationType * Ballot.BallotStatus.
Definition run_ballot_end (w : World E) (b : ballot_end) : World E :=
  let '(ctx, id, ty, st) := b in (ux_AfterBallotTerminal ctx id ty st w).2.
Lemma bare_survives ctx id ty st k e w :
  PendingInbounds (ux w) !! k = Some e → Variants e = [] →
  PendingInbounds (ux (ux_AfterBallotTerminal ctx id ty st w).2) !! k = Some e.
Proof.
  intros Hk Hv. unfold ux_AfterBallotTerminal, afterInboundBallotTerminal. destruct ty; mrun; try done.
  destruct (List.find _ _) as [[key en]|] eqn:Hf; mrun; [|done].
  apply List.find_some in Hf as [Hin%list_elem_of_In%elem_of_walk Hc].
  assert (key ≠ k) as Hne. { intros ->. rewrite Hk in Hin. injection Hin as <-. 
    unfold carries_variant in Hc. cbn [snd] in Hc. by rewrite Hv in Hc. }
  destruct (existsb undecided _); mrun; [|destruct (existsb passed _); mrun]; cbn -[insert delete];
    rewrite ?lookup_insert_ne, ?lookup_delete_ne by done; exact Hk.
Qed.
(** The markers the migration leaves behind outlive every ballot: however ballots
    end afterwards, none of those ends removes one. *)
Lemma legacy_markers_are_never_swept ctx w k e (ends : list ballot_end) :
  PendingInbounds (ux w) !! k = Some e → UtxKey e = "" →
  PendingInbounds (ux (foldl run_ballot_end (MigratePendingInbounds ctx w).2 ends)) !! k = Some (bare_marker ctx k).
Proof.
  intros Hk He. destruct (MigratePendingInbounds_run ctx w) as (w' & -> & Hw). cbn [snd].
  assert (PendingInbounds (ux w') !! k = Some (bare_marker ctx k)) as Hb
    by (rewrite Hw, Hk; cbn; by rewrite decide_True).
  clear -Hb. revert w' Hb. induction ends as [|[[[c id] ty] st] ends IH]; intros w Hb; [done|].
  cbn [foldl]. apply IH. unfold run_ballot_end. by apply bare_survives.
Qed.
End markers.
