(* ===== verification/UcStore.v ===== *)
(** * The universal client: its event store

    [universalClient/store/models.go], [tss/eventstore/store.go],
    [tss/expirysweeper/sweeper.go], the event rows of [chains/common/chain_store.go]
    and the converters of [chains/push/event_parser.go].  Each universal validator
    runs a client; its database holds one row per event of Push Chain (a key process,
    an outbound or a fund migration to sign) with the status of its processing.

    The database is reliable and serves one statement at a time.  A JSON payload is
    the record it decodes to; a payload that does not decode is [None]. *)
From S2P Require Import Prelude GoStrings UvTypes TssTypes UxTypes RegTypes World Utss.
From Stdlib Require Import Ascii.

Module Uc.
(** ** Rows *)
Inductive EventStatus :=
| StatusPending | StatusConfirmed | StatusInProgress | StatusSigned | StatusBroadcasted
| StatusCompleted | StatusReverted | StatusReorged.
#[global] Instance EventStatus_eq_dec : EqDecision EventStatus.
Proof. solve_decision. Defined.
Inductive EventType :=
| EventTypeKeygen | EventTypeKeyrefresh | EventTypeQuorumChange | EventTypeSignOutbound
| EventTypeSignFundMigrate | EventTypeInbound | EventTypeOutbound.
#[global] Instance EventType_eq_dec : EqDecision EventType.
Proof. solve_decision. Defined.
(** [ConfirmationUnset]: the empty string of a row whose parser gave up early. *)
Inductive ConfirmationType := ConfirmationStandard | ConfirmationFast | ConfirmationInstant | ConfirmationUnset.

(** [uexecutortypes.OutboundCreatedEvent] *)
Record OutboundCreatedEvent := mkOutboundCreatedEvent {
  OcUniversalTxId : string; OcTxID : string; OcDestinationChain : string; OcRecipient : string; OcAmount : string;
  OcAssetAddr : string; OcSender : string; OcPayload : string; OcGasFee : string; OcGasLimit : string;
  OcGasPrice : string; OcGasToken : string; OcTxType : string; OcPcTxHash : string; OcLogIndex : string;
  OcRevertMsg : string; OcSigningDeadline : Z }.
(** [utsstypes.FundMigrationInitiatedEventData] *)
Record FundMigrationInitiatedEventData := mkFundMigrationData {
  FmMigrationID : Z; FmOldKeyID : string; FmOldTssPubkey : string; FmCurrentKeyID : string;
  FmCurrentTssPubkey : string; FmChain : string; FmBlockHeight : Z; FmGasPrice : string; FmGasLimit : Z;
  FmL1GasFee : string }.
(** [txflow.SigningData]: hexadecimal strings. *)
Record SigningData := mkSigningData {
  Signature : string; SigningHash : string; SdNonce : Z; TSSFundMigrationAmount : option Z }.
(** [common.UniversalTx]: an inbound seen on another chain. *)
Record UniversalTx := mkUniversalTx {
  UtSourceChain : string; UtLogIndex : Z; UtSender : string; UtRecipient : string; UtToken : string; UtAmount : string;
  UtRawPayload : string; UtVerificationData : string; UtRevertFundRecipient : string; UtTxType : Z; UtFromCEA : bool }.
#[global] Instance UniversalTx_eta : Eta UniversalTx := λ r,
  mkUniversalTx (UtSourceChain r) (UtLogIndex r) (UtSender r) (UtRecipient r) (UtToken r) (UtAmount r)
    (UtRawPayload r) (UtVerificationData r) (UtRevertFundRecipient r) (UtTxType r) (UtFromCEA r).
(** [common.OutboundEvent]: the execution of an outbound seen on another chain. *)
Record OutboundEvent := mkOutboundEvent { ObsTxID : string; ObsUniversalTxID : string; ObsGasFeeUsed : string }.
(** A decoded payload: the fields the readers look for; absent ones are zero. *)
Record Payload := mkPayload {
  AsOutbound : OutboundCreatedEvent;
  AsMigration : FundMigrationInitiatedEventData;
  ProcessID : Z;
  SigningDataOf : option SigningData;
  AsUniversalTx : UniversalTx;
  AsObserved : OutboundEvent }.
#[global] Instance Payload_eta : Eta Payload := λ r,
  mkPayload (AsOutbound r) (AsMigration r) (ProcessID r) (SigningDataOf r) (AsUniversalTx r) (AsObserved r).
Record Event := mkEvent {
  EventID : string;
  EvBlockHeight : Z;
  ExpiryBlockHeight : Z;
  EvType : EventType;
  EvConfirmation : ConfirmationType;
  EvStatus : EventStatus;
  EventData : option Payload;
  VoteTxHash : string;
  BroadcastedTxHash : string;
  EvCreatedAt : Z;
  EvUpdatedAt : Z }.
#[global] Instance Event_eta : Eta Event := λ r,
  mkEvent (EventID r) (EvBlockHeight r) (ExpiryBlockHeight r) (EvType r) (EvConfirmation r) (EvStatus r)
    (EventData r) (VoteTxHash r) (BroadcastedTxHash r) (EvCreatedAt r) (EvUpdatedAt r).

Definition empty_outbound : OutboundCreatedEvent :=
  mkOutboundCreatedEvent "" "" "" "" "" "" "" "" "" "" "" "" "" "" "" "" 0.
Definition empty_migration : FundMigrationInitiatedEventData := mkFundMigrationData 0 "" "" "" "" "" 0 "" 0 "".
Definition empty_universal_tx : UniversalTx := mkUniversalTx "" 0 "" "" "" "" "" "" "" 0 false.
Definition empty_observed : OutboundEvent := mkOutboundEvent "" "" "".
(** The payload of an event of Push Chain, and of one of another chain. *)
Definition push_payload (ob : OutboundCreatedEvent) (m : FundMigrationInitiatedEventData) (process : Z)
    (sd : option SigningData) : Payload := mkPayload ob m process sd empty_universal_tx empty_observed.
Definition universal_payload (u : UniversalTx) : Payload := mkPayload empty_outbound empty_migration 0 None u empty_observed.
Definition observed_payload (o : OutboundEvent) : Payload :=
  mkPayload empty_outbound empty_migration 0 None empty_universal_tx o.
Definition new_event (id : string) (height expiry : Z) (ty : EventType) (data : option Payload) : Event :=
  mkEvent id height expiry ty ConfirmationInstant StatusConfirmed data "" "" 0 0.

(** ** Messages between the clients *)
Record UnsignedSigningReq := mkUnsignedSigningReq {
  ReqSigningHash : list Z; ReqNonce : Z; ReqAmount : option Z }.
Record SignedDataPayload := mkSignedDataPayload {
  SdSignature : list Z; SdSigningHash : list Z; SpNonce : Z; SpAmount : option Z }.
Inductive MessageType :=
| MessageTypeSetup | MessageTypeACK | MessageTypeBegin | MessageTypeStep | MessageTypeSignatureBroadcast
| MessageType_other (s : string).
Record Message := mkMessage {
  MsgType : MessageType; MsgEventID : string; MsgPayload : list Z; MsgParticipants : list string;
  MsgSigningReq : option UnsignedSigningReq; MsgSignedData : option SignedDataPayload }.

(** ** Logs and receipts of other chains *)
Record EvmLog := mkEvmLog {
  LgTopics : list (list Z); LgData : list Z; LgBlockNumber : Z; LgTxHash : list Z; LgIndex : Z }.
Record EvmReceipt := mkEvmReceipt { RcStatus : Z; RcBlockNumber : Z; RcGasUsed : Z }.
(** [solana-go]: signatures are base58 strings; [TxMeta] is the error flag and the log lines. *)
Record SvmSignature := mkSvmSignature { SigSlot : Z; SigString : string }.
Record SvmTransaction := mkSvmTransaction { TxSlot : Z; TxMeta : option (bool * list string) }.

(** ** Transactions for other chains *)
(** [types.NewTransaction] of go-ethereum, and the same with a chain and a signature. *)
Record LegacyTx := mkLegacyTx {
  EtNonce : Z; EtTo : list Z; EtValue : Z; EtGas : Z; EtGasPrice : Z; EtData : list Z }.
Record SignedEvmTx := mkSignedEvmTx { StChainID : Z; StTx : LegacyTx; StSignature : list Z }.
(** [solana-go]: accounts, instructions, and a transaction with its options, signed by its payer. *)
Record AccountMeta := mkAccountMeta { AmPublicKey : list Z; AmIsWritable : bool; AmIsSigner : bool }.
Record SvmInstruction := mkSvmInstruction { IxProgram : list Z; IxAccounts : list AccountMeta; IxData : list Z }.
Record SvmTx := mkSvmTx {
  StxInstructions : list SvmInstruction; StxBlockhash : list Z; StxPayer : list Z;
  StxTables : gmap (list Z) (list (list Z)) }.

(** ** What the session manager and the coordinator keep in memory *)
Record sessionState := mkSessionState {
  protocolType : EventType; coordinatorPeer : string; expiryTime : Z; participants : list string;
  signingReq : option UnsignedSigningReq }.
Record ackState := mkAckState { ackParticipants : list string; ackedBy : gset string; ackCount : Z }.
Record Coordinator := mkCoordinator {
  allValidators : list UV.UniversalValidator;
  lastValidatorsRefreshAt : option Z;                    (* [None]: the zero time *)
  ackTracking : gmap string ackState;
  consecutiveWaitPerChain : gmap string Z }.
#[global] Instance Coordinator_eta : Eta Coordinator := λ r,
  mkCoordinator (allValidators r) (lastValidatorsRefreshAt r) (ackTracking r) (consecutiveWaitPerChain r).

(** ** The outside world

    What the client asks of chains, peers, the threshold library, its files, the dice
    and the clock, with the type of the answer.  Nothing is assumed of the answers,
    nor that two equal questions get the same one. *)
Record FundMigrationData := mkFundMigration {
  MgFrom : string; MgTo : string; MgGasPrice : Z; MgGasLimit : Z; MgL1GasFee : Z; MgBalance : option Z }.
(** [found, blockHeight, confirmations, status] *)
Record TxReceipt := mkTxReceipt { Found : bool; TxHeight : Z; Confirmations : Z; TxStatus : Z }.
(** [dkls.Result] *)
Record DklsResult := mkDklsResult { ResSignature : list Z; ResPublicKey : list Z; ResKeyshare : list Z }.
(** [keyshareManager.Get] *)
Inductive keyshare_answer := Keyshare (share : list Z) | ErrKeyshareNotFound | KeyshareError (e : error).
Inductive Call : Type → Type :=
| NowUnix : Call Z                                        (* seconds *)
| Now : Call Z                                            (* nanoseconds *)
| RandIntn (bound : Z) : Call Z
| GetLatestBlock : Call (res Z)
| GetCurrentKey : Call (res (option Tss.TssKey))
| GetAllUniversalValidators : Call (res (list UV.UniversalValidator))
| IsChainOutboundEnabled (chain : string) : Call bool
| IsEVMChain (chain : string) : Call bool
| GetStandardConfirmations (chain : string) : Call Z
| GetTxBuilder (chain : string) : Call (res unit)
| BroadcastOutboundSigningRequest (chain : string) (req : UnsignedSigningReq) (data : OutboundCreatedEvent)
    (signature : list Z) : Call (string * option error)
| BroadcastFundMigrationTx (chain : string) (req : UnsignedSigningReq) (data : FundMigrationData)
    (signature : list Z) : Call (string * option error)
| VerifyBroadcastedTx (chain txHash : string) : Call (res TxReceipt)
| IsAlreadyExecuted (chain txID : string) : Call (bool * Z * option error)
| GetGasFeeUsed (chain txHash : string) : Call (res string)
| GetNextNonce (chain signer : string) (useFinalized : bool) : Call (res Z)
| GetOutboundSigningRequest (chain : string) (data : OutboundCreatedEvent) (nonce : Z) : Call (res UnsignedSigningReq)
| GetFundMigrationSigningRequest (chain : string) (data : FundMigrationData) (nonce : Z) : Call (res UnsignedSigningReq)
| VoteOutbound (txID utxID : string) (obs : Ux.OutboundObservation) : Call (res string)
| VoteFundMigration (migrationID : Z) (txHash : string) (success : bool) : Call (res string)
| VoteTssKeyProcess (pubKey keyID : string) (processID : Z) : Call (res string)
| Send (peer : string) (msg : Message) : Call (res unit)
| GetKeyshare (keyID : string) : Call keyshare_answer
| StoreKeyshare (share : list Z) (storageID : string) : Call (res unit)
| DklsKeygenSetupMsgNew (threshold : Z) (ids : list Z) : Call (res (list Z))
| DklsSignSetupMsgNew (keyID hash ids : list Z) : Call (res (list Z))
| DklsKeyshareFromBytes (share : list Z) : Call (res unit)
| DklsQcSetupMsgNew (threshold : Z) (partyIDs : list string) (old new : list Z) : Call (res (list Z))
| NewKeySession (ty : EventType) (setup : list Z) (eventID : string) (participants : list string) (threshold : Z)
    (oldKeyshare : option (list Z)) : Call (res unit)
| NewSignSession (setup : list Z) (eventID : string) (participants : list string) (share hash : list Z) : Call (res unit)
| InputMessage (eventID : string) (payload : list Z) : Call (res unit)
| StepSession (eventID : string) : Call (res (list (string * list Z) * bool))     (* messages, finished *)
| GetResult (eventID : string) : Call (res DklsResult)
| CloseSession (eventID : string) : Call unit
(* the chain that is watched: its head, logs and transactions *)
| ChainHead : Call (res Z)
| FilterLogs (fromBlock toBlock : Z) (addresses : list string) (topics : list (list Z)) : Call (res (list EvmLog))
| GetTransactionReceipt (hash : list Z) : Call (res EvmReceipt)
| GetTransactionGasPrice (hash : list Z) : Call (res Z)
| GetSignaturesForAddress (address before : string) : Call (res (list SvmSignature))
| GetTransaction (signature : string) : Call (res (option SvmTransaction))
| GetGasPrice : Call (res Z)
(* and what the builder of its transactions asks *)
| GetBalance (address : list Z) : Call (res Z)
| PendingNonceAt (address : list Z) : Call (res Z)
| NonceAt (address : list Z) (block : option Z) : Call (res Z)         (* [None]: the latest block *)
| SendEvmTransaction (tx : SignedEvmTx) : Call (res unit)
| GetAccountData (key : list Z) : Call (res (list Z))
| LatestFinalizedBlockTime : Call (res Z)
| GetRecentBlockhash : Call (res (list Z))
| GetAddressLookupTable (key : list Z) : Call (res (list (list Z)))
| ReadKeyFile (namespace : string) : Call (res (list Z))               (* a JSON array of bytes *)
| SendSvmTransaction (tx : SvmTx) : Call (res string)
| GetProgramAccounts (program : list Z) (memcmp : list (Z * list Z)) : Call (res (list (option (list Z * list Z))))
| GetLastSignature (key : list Z) : Call (res (list (option Z)))       (* block times, in seconds *)
(* votes on what was seen, and the events that wait on Push Chain *)
| VoteInbound (inbound : Ux.Inbound) : Call (res string)
| VoteChainMeta (chain : string) (price height : Z) : Call (res string)
| GetPendingTssEvents : Call (res (list (option Tss.TssEvent)))
| GetAllPendingOutbounds : Call (res (list (option Ux.PendingOutboundEntry) * list (option Ux.OutboundTx)))
| GetPendingFundMigrations : Call (res (list (option Tss.FundMigration))).
Record Logged := Log { answer_type : Type; asked : Call answer_type; answered : answer_type }.
Arguments Log {_} _ _.
Class Env (E : Type) : Type := answer : ∀ {A}, Call A → E → A * E.

(** Curve arithmetic and hashes. *)
Class Crypto : Type := {
  DecompressPubkey : list Z → option (Z * Z);
  ecdsa_Verify : Z * Z → list Z → Z → Z → bool;
  Keccak256 : list Z → list Z;
  Sum256 : list Z → list Z;
}.
(** How a node was set up; a part that is not configured is [false]. *)
Class ClientConfig : Type := {
  has_chains : bool;
  has_push_signer : bool;
  has_tss_lookup : bool;
  validatorAddress : string;
  coordinatorRange : Z;
  pollInterval : Z;
  sessionExpiryTime : Z;
  sessionExpiryBlockDelay : Z;
}.

(** ** The node

    A database (the rows, and the height of [State], zero when there is no such row) with
    the code that works on it: the threshold signer on the database of Push Chain, the
    watcher of a chain, which has no sessions, on the one of its chain.  [E] is the state
    of everything outside. *)
Record Node (E : Type) := mkNode {
  rows : gmap string Event; sessions : gmap string sessionState; coord : Coordinator; dbHeight : Z;
  trace : list Logged; env : E }.
Arguments mkNode {_} _ _ _ _ _ _.
Arguments rows {_} _.
Arguments sessions {_} _.
Arguments coord {_} _.
Arguments dbHeight {_} _.
Arguments trace {_} _.
Arguments env {_} _.
#[global] Instance Node_eta {E} : Eta (Node E) := λ r, mkNode (rows r) (sessions r) (coord r) (dbHeight r) (trace r) (env r).
Definition rpc {E} `{Env E} {A} (c : Call A) : M (Node E) A := λ n,
  let '(a, e) := answer c (env n) in (Ok a, n <| env := e |> <| trace ::= cons (Log c a) |>).
(** A call whose failure is the caller's. *)
Definition ask {E} `{Env E} {A} (c : Call (res A)) : M (Node E) A :=
  r ← rpc c; match r with Ok a => mret a | Err e | Panic e => throw e end.
Definition set_sessions {E} (f : gmap string sessionState → gmap string sessionState) : M (Node E) unit :=
  modify (λ n, n <| sessions ::= f |>).
Definition set_coord {E} (f : Coordinator → Coordinator) : M (Node E) unit := modify (λ n, n <| coord ::= f |>).

(** *** Integers as big-endian bytes *)
Fixpoint be_bytes (k : nat) (z : Z) : list Z :=
  match k with O => [] | S k' => be_bytes k' (z / 256) ++ [z mod 256] end.
Definition SetBytes (bz : list Z) : Z := foldl (λ acc b, acc * 256 + b) 0 bz.
Definition ascii_bytes (s : string) : list Z := (λ c, Z.of_N (Ascii.N_of_ascii c)) <$> to_bytes s.

Section store.
Context {E : Type} `{SO : SortSlice}.
Implicit Types (n : Node E).
#[local] Abbreviation M := (M (Node E)).

Definition get_rows {A} (f : gmap string Event → A) : M A := gets (λ n, f (rows n)).
Definition set_rows (f : gmap string Event → gmap string Event) : M unit := modify (λ n, n <| rows ::= f |>).

Definition GetEvent (eventID : string) : M Event :=
  r ← get_rows (.!! eventID); lift_option r "record not found".
(** [Update]: the fields of one row. *)
Definition Update (eventID : string) (f : Event → Event) : M unit :=
  r ← get_rows (.!! eventID);
  ev ← lift_option r ("event " +:+ eventID +:+ " not found");
  set_rows (insert eventID (f ev)).
Definition set_status (st : EventStatus) (ev : Event) : Event := ev <| EvStatus := st |>.

Definition unsigned (st : EventStatus) : bool :=
  match st with StatusConfirmed | StatusInProgress => true | _ => false end.
Definition hex_of (bz : list Z) : string := of_bytes (hex_encode bz).
(** [PersistSignature] writes the caller's copy of the payload back, with the signature. *)
Definition signing_data (signature signingHash : list Z) (nonce : Z) (amount : option Z) : SigningData :=
  mkSigningData (hex_of signature) (hex_of signingHash) nonce
    (a ← amount; if decide (0 < a) then Some a else None).
Definition PersistSignature (eventID : string) (eventData : option Payload) (signature signingHash : list Z)
    (nonce : Z) (fundMigrationAmount : option Z) : M bool :=
  raw ← lift_option eventData "parse event data for signing_data injection";
  let data := raw <| SigningDataOf := Some (signing_data signature signingHash nonce fundMigrationAmount) |> in
  r ← get_rows (.!! eventID);
  match r with
  | Some ev =>
      if unsigned (EvStatus ev) then
        set_rows (insert eventID (ev <| EventData := Some data |> <| EvStatus := StatusSigned |>)) ;; mret true
      else mret false
  | None => mret false
  end.

Definition decoded_length (s : string) : option nat := length <$> hex_decode (to_bytes s).
Definition hasSigningData (eventData : option Payload) : bool :=
  match d ← eventData; SigningDataOf d with
  | Some sd =>
      (bool_decide (decoded_length (Signature sd) = Some 64%nat)
       || bool_decide (decoded_length (Signature sd) = Some 65%nat))
      && bool_decide (decoded_length (SigningHash sd) = Some 32%nat)
  | None => false
  end.
Definition recovery_target (ev : Event) : EventStatus :=
  if hasSigningData (EventData ev) then StatusSigned else StatusConfirmed.
Definition RecoverInProgressEvents : M unit :=
  l ← get_rows (λ m, List.filter (λ kv, bool_decide (EvStatus kv.2 = StatusInProgress)) (walk m));
  for_each (λ kv, set_rows (alter (set_status (recovery_target kv.2)) kv.1)) l.

(** [ORDER BY block_height ASC, created_at ASC LIMIT n] *)
Definition oldest_first (a b : Event) : bool :=
  bool_decide (EvBlockHeight a < EvBlockHeight b)
  || bool_decide (EvBlockHeight a = EvBlockHeight b) && bool_decide (EvCreatedAt a < EvCreatedAt b).
Definition select (p : Event → bool) (limit : option nat) (m : gmap string Event) : list Event :=
  let l := sort_Slice oldest_first (List.filter p (walk_values m)) in
  match limit with Some k => take k l | None => l end.

Definition ready (currentBlock minBlock : Z) (ev : Event) : bool :=
  bool_decide (EvStatus ev = StatusConfirmed) && bool_decide (EvBlockHeight ev ≤ minBlock)
  && (bool_decide (ExpiryBlockHeight ev = 0) || bool_decide (currentBlock < ExpiryBlockHeight ev)).
Definition GetNonExpiredConfirmedEvents (currentBlock minBlockConfirmation : Z) (limit : nat) : M (list Event) :=
  let minBlock := if decide (minBlockConfirmation < currentBlock) then currentBlock - minBlockConfirmation else 0 in
  get_rows (select (ready currentBlock minBlock) (if decide (limit = 0%nat) then None else Some limit)).

Definition is_sign (ty : EventType) : bool :=
  match ty with EventTypeSignOutbound | EventTypeSignFundMigrate => true | _ => false end.
Definition in_flight (ev : Event) : bool :=
  is_sign (EvType ev) && (bool_decide (EvStatus ev = StatusInProgress) || bool_decide (EvStatus ev = StatusSigned)).
Definition GetInFlightSignEvents : M (list Event) := get_rows (λ m, List.filter in_flight (walk_values m)).
Definition is_signed (ev : Event) : bool := is_sign (EvType ev) && bool_decide (EvStatus ev = StatusSigned).
Definition GetSignedSignEvents (limit : nat) : M (list Event) :=
  get_rows (select is_signed (Some (if decide (limit = 0%nat) then 50%nat else limit))).
Definition is_broadcasted (ev : Event) : bool :=
  is_sign (EvType ev) && bool_decide (EvStatus ev = StatusBroadcasted) && negb (bool_decide (BroadcastedTxHash ev = "")).
Definition GetBroadcastedSignEvents (limit : nat) : M (list Event) :=
  get_rows (select is_broadcasted (Some (if decide (limit = 0%nat) then 50%nat else limit))).

(** Deletions report how many rows they removed. *)
Definition delete_where (p : Event → bool) : M Z :=
  k ← get_rows (λ m, Z.of_nat (length (List.filter p (walk_values m))));
  set_rows (filter (λ kv, p kv.2 = false)) ;; mret k.
Definition DeleteExpiredEvents (currentBlock : Z) : M Z :=
  delete_where (λ ev, bool_decide (0 < ExpiryBlockHeight ev) && bool_decide (ExpiryBlockHeight ev ≤ currentBlock)).
Definition DeleteOldUnsignedEvents (cutoff : Z) : M Z :=
  delete_where (λ ev, bool_decide (EvCreatedAt ev < cutoff) && unsigned (EvStatus ev)).

(** *** A new row of a chain's store; it comes with its time stamps *)
Definition InsertEventIfNotExists (ev : Event) : M bool :=
  r ← get_rows (.!! EventID ev);
  match r with Some _ => mret false | None => set_rows (insert (EventID ev) ev) ;; mret true end.
End store.

(** ** chains/push/event_parser.go *)
Section parser.
Context `{SH : Sha256}.

Definition EventType_String (ty : EventType) : string :=
  match ty with
  | EventTypeKeygen => "KEYGEN" | EventTypeKeyrefresh => "KEYREFRESH" | EventTypeQuorumChange => "QUORUM_CHANGE"
  | EventTypeSignOutbound => "SIGN_OUTBOUND" | EventTypeSignFundMigrate => "SIGN_FUND_MIGRATE"
  | EventTypeInbound => "INBOUND" | EventTypeOutbound => "OUTBOUND"
  end.
Definition TxType_String (t : Ux.TxType) : string :=
  match t with
  | Ux.UNSPECIFIED_TX => "UNSPECIFIED_TX" | Ux.GAS => "GAS" | Ux.GAS_AND_PAYLOAD => "GAS_AND_PAYLOAD"
  | Ux.FUNDS => "FUNDS" | Ux.FUNDS_AND_PAYLOAD => "FUNDS_AND_PAYLOAD" | Ux.PAYLOAD => "PAYLOAD"
  | Ux.INBOUND_REVERT => "INBOUND_REVERT" | Ux.RESCUE_FUNDS => "RESCUE_FUNDS" | Ux.TxType_other n => fmt_d n
  end.
Definition hashEventID (ty : EventType) (rawID : string) : string := sha256_hex (EventType_String ty +:+ ":" +:+ rawID).

Definition process_type (s : string) : res EventType :=
  if decide (s = Tss.TssProcessType_String Tss.TSS_PROCESS_KEYGEN) then Ok EventTypeKeygen
  else if decide (s = Tss.TssProcessType_String Tss.TSS_PROCESS_REFRESH) then Ok EventTypeKeyrefresh
  else if decide (s = Tss.TssProcessType_String Tss.TSS_PROCESS_QUORUM_CHANGE) then Ok EventTypeQuorumChange
  else Err ("unknown process type: " +:+ s).
Definition convertTssEvent (e : option Tss.TssEvent) : res Event :=
  match e with
  | None => Err "tss event is nil"
  | Some e =>
      ty ← process_type (Tss.EvProcessType e);
      let data := match Tss.EvParticipants e with
                  | [] => None
                  | _ => Some (push_payload empty_outbound empty_migration (Z.of_N (Tss.EvProcessId e)) None)
                  end in
      mret (new_event (hashEventID ty (fmt_N (Tss.EvProcessId e))) (u64 (Tss.EvBlockHeight e))
              (u64 (Tss.EvExpiryHeight e)) ty data)
  end.
Definition convertFundMigrationEvent (m : option Tss.FundMigration) : res Event :=
  match m with
  | None => Err "fund migration is nil"
  | Some m =>
      let data := mkFundMigrationData (Z.of_N (Tss.MigId m)) (Tss.OldKeyId m) (Tss.OldTssPubkey m)
        (Tss.CurrentKeyId m) (Tss.CurrentTssPubkey m) (Tss.MigChain m) (Tss.InitiatedBlock m)
        (Tss.MigGasPrice m) (Tss.MigGasLimit m) (Tss.MigL1GasFee m) in
      mret (new_event (hashEventID EventTypeSignFundMigrate (fmt_N (Tss.MigId m))) (u64 (Tss.InitiatedBlock m)) 0
              EventTypeSignFundMigrate (Some (push_payload empty_outbound data 0 None)))
  end.
Definition convertOutboundToEvent
    (entry : option Ux.PendingOutboundEntry) (outbound : option Ux.OutboundTx) : res Event :=
  match entry, outbound with
  | Some entry, Some ob =>
      let data := {|
        OcUniversalTxId := Ux.UniversalTxId entry; OcTxID := Ux.ObId ob; OcDestinationChain := Ux.DestinationChain ob;
        OcRecipient := Ux.ObRecipient ob; OcAmount := Ux.ObAmount ob; OcAssetAddr := Ux.ExternalAssetAddr ob;
        OcSender := Ux.ObSender ob; OcPayload := Ux.Payload ob; OcGasFee := Ux.GasFee ob;
        OcGasLimit := Ux.GasLimit ob; OcGasPrice := Ux.GasPrice ob; OcGasToken := Ux.GasToken ob;
        OcTxType := TxType_String (Ux.ObTxType ob);
        OcPcTxHash := from_option Ux.OrigTxHash "" (Ux.OrigPcTx ob);
        OcLogIndex := from_option Ux.OrigLogIndex "" (Ux.OrigPcTx ob);
        OcRevertMsg := from_option Ux.FundRecipient "" (Ux.ObRevertInstructions ob);
        OcSigningDeadline := Ux.SigningDeadline entry |} in
      mret (new_event (Ux.ObId ob) (u64 (Ux.CreatedAt entry)) 0 EventTypeSignOutbound
              (Some (push_payload data empty_migration 0 None)))
  | _, _ => Err "entry or outbound is nil"
  end.
End parser.
End Uc.
