(* ===== verification/UcChain.v ===== *)
(** * The universal client: the watcher of a chain

    [chains/common]: the store of a chain ([chain_store.go]), the processor that votes on
    what was confirmed ([event_processor.go]) and the cleaner ([event_cleaner.go]); the
    price oracles of the chains; and the listener of Push Chain
    ([chains/push/event_listener.go]).  Each is a loop around a timer; its tick is modelled. *)
From S2P Require Import Prelude GoStrings UvTypes TssTypes UxTypes RegTypes World Canonical Utss UxPayload UcStore.
From Stdlib Require Import Ascii.
Import Uc.

(** How the watcher of a chain was set up. *)
Class WatcherConfig : Type := {
  watchedChain : string;
  inboundEnabled : bool;
  outboundEnabled : bool;
  watchedGateway : string;
  watchedVault : string;
  watchedGatewayMethods : list Reg.GatewayMethods;
  watchedVaultMethods : list Reg.VaultMethods;
  eventStartFrom : option Z;
  fastConfirmations : Z;
  standardConfirmations : Z;
  retentionPeriodSeconds : option Z;
  gasPriceMarkupPercent : Z;
}.

Section chain.
Context {E : Type} `{EV : Env E, WC : WatcherConfig, SO : SortSlice, CC : ChainCodecs}.
Implicit Types (n : Node E).
#[local] Abbreviation M := (M (Node E)).

(** ** The store of a chain *)
Definition GetChainHeight : M Z := gets dbHeight.
Definition UpdateChainHeight (blockHeight : Z) : M unit :=
  h ← gets dbHeight;
  if decide (h < blockHeight) then modify (λ n, n <| dbHeight := blockHeight |>) else mret tt.

(** [ORDER BY created_at ASC LIMIT n] *)
Definition created_before (a b : Event) : bool := bool_decide (EvCreatedAt a < EvCreatedAt b).
Definition by_status (st : EventStatus) (limit : nat) (m : gmap string Event) : list Event :=
  take limit (sort_Slice created_before (List.filter (λ ev, bool_decide (EvStatus ev = st)) (walk_values m))).
Definition GetPendingEvents (limit : nat) : M (list Event) := get_rows (by_status StatusPending limit).
Definition GetConfirmedEvents (limit : nat) : M (list Event) := get_rows (by_status StatusConfirmed limit).

(** A write stamps the row with the time. *)
Definition store_event (ev : Event) : M bool :=
  now ← rpc Now; InsertEventIfNotExists (ev <| EvCreatedAt := now |> <| EvUpdatedAt := now |>).
(** Compare and swap on the status; the number of rows written. *)
Definition swap_status (eventID : string) (oldStatus newStatus : EventStatus) (f : Event → Event) : M Z :=
  now ← rpc Now;
  r ← get_rows (.!! eventID);
  match r with
  | Some ev =>
      if decide (EvStatus ev = oldStatus) then
        set_rows (insert eventID (set_status newStatus (f ev) <| EvUpdatedAt := now |>)) ;; mret 1
      else mret 0
  | None => mret 0
  end.
Definition UpdateEventStatus (eventID : string) (oldStatus newStatus : EventStatus) : M Z :=
  swap_status eventID oldStatus newStatus (λ ev, ev).
Definition UpdateStatusAndVoteTxHash (eventID : string) (oldStatus newStatus : EventStatus) (voteTxHash : string) : M Z :=
  swap_status eventID oldStatus newStatus (λ ev, ev <| VoteTxHash := voteTxHash |>).
Definition UpdateStatusAndEventData (eventID : string) (oldStatus newStatus : EventStatus)
    (eventData : option Payload) : M Z :=
  swap_status eventID oldStatus newStatus (λ ev, ev <| EventData := eventData |>).
Definition UpdateVoteTxHash (eventID voteTxHash : string) : M unit :=
  now ← rpc Now;
  set_rows (alter (λ ev, ev <| VoteTxHash := voteTxHash |> <| EvUpdatedAt := now |>) eventID).
Definition terminal_status (st : EventStatus) : bool :=
  match st with StatusCompleted | StatusReorged | StatusReverted => true | _ => false end.
Definition DeleteTerminalEvents (updatedBefore : Z) : M Z :=
  delete_where (λ ev, terminal_status (EvStatus ev) && bool_decide (EvUpdatedAt ev < updatedBefore)).

(** ** The cleaner; durations are in nanoseconds *)
Definition second : Z := 10^9.
Definition defaultRetentionPeriod : Z := 24 * 3600 * second.
Definition retentionPeriod : Z := from_option (λ s, i64 (s * second)) defaultRetentionPeriod retentionPeriodSeconds.
Definition performCleanup : M unit := now ← rpc Now; DeleteTerminalEvents (now - retentionPeriod) ;; mret tt.

(** ** The processor *)
(** [strings.Split(eventID, ":")[0]] *)
Definition getTxHashFromEventID (eventID : string) : string := chain_namespace eventID.
Definition base58ToHex (s : string) : res string :=
  if decide (s = "") then Ok "0x"
  else if String.prefix "0x" s then Ok s
  else hex_string <$> wrap_res "failed to decode base58" (base58_Decode s).
(** The original spelling when it does not decode. *)
Definition tx_hash_hex (eventID : string) : string :=
  let txHash := getTxHashFromEventID eventID in
  match base58ToHex txHash with Ok h => h | _ => txHash end.
Definition inbound_tx_type (n : Z) : Ux.TxType :=
  if decide (n = 0) then Ux.GAS else if decide (n = 1) then Ux.GAS_AND_PAYLOAD
  else if decide (n = 2) then Ux.FUNDS else if decide (n = 3) then Ux.FUNDS_AND_PAYLOAD else Ux.UNSPECIFIED_TX.
Definition inbound_of (eventID : string) (u : UniversalTx) : Ux.Inbound :=
  let txHashHex := tx_hash_hex eventID in
  {| Ux.SourceChain := UtSourceChain u; Ux.TxHash := txHashHex; Ux.Sender := UtSender u; Ux.Recipient := UtRecipient u;
     Ux.Amount := UtAmount u; Ux.AssetAddr := UtToken u; Ux.LogIndex := fmt_d (UtLogIndex u);
     Ux.InTxType := inbound_tx_type (UtTxType u); Ux.UniversalPayloadOf := None;
     Ux.VerificationData :=
       if bool_decide (UtVerificationData u = "") || bool_decide (UtVerificationData u = "0x") then txHashHex
       else UtVerificationData u;
     Ux.RevertInstructionsOf :=
       if decide (UtRevertFundRecipient u = "") then None else Some (Ux.mkRevertInstructions (UtRevertFundRecipient u));
     Ux.IsCEA := UtFromCEA u; Ux.RawPayload := UtRawPayload u |}.
Definition constructInbound (ev : Event) : res Ux.Inbound :=
  match EventData ev with
  | None => Err ("event data is missing for event_id: " +:+ EventID ev)
  | Some d => Ok (inbound_of (EventID ev) (AsUniversalTx d))
  end.
Definition processInboundEvent (ev : Event) : M unit :=
  inbound ← wrap "failed to construct inbound" (lift_res (constructInbound ev));
  voteTxHash ← ask (VoteInbound inbound);
  UpdateStatusAndVoteTxHash (EventID ev) StatusConfirmed StatusCompleted voteTxHash ;; mret tt.

Definition parseOutboundEventData (ev : Event) : res OutboundEvent :=
  match EventData ev with
  | None => Err "event data is empty"
  | Some d =>
      check (negb (bool_decide (ObsTxID (AsObserved d) = ""))) "tx_id not found in event data" ;;
      check (negb (bool_decide (ObsUniversalTxID (AsObserved d) = ""))) "universal_tx_id not found in event data" ;;
      mret (AsObserved d)
  end.
Definition buildOutboundObservation (ev : Event) (o : OutboundEvent) : Ux.OutboundObservation :=
  Ux.mkOutboundObservation true (EvBlockHeight ev) (tx_hash_hex (EventID ev)) ""
    (if decide (ObsGasFeeUsed o = "") then "0" else ObsGasFeeUsed o).
Definition processOutboundEvent (ev : Event) : M unit :=
  o ← wrap "failed to parse outbound event data" (lift_res (parseOutboundEventData ev));
  voteTxHash ← wrap "failed to vote on outbound"
                 (ask (VoteOutbound (ObsTxID o) (ObsUniversalTxID o) (buildOutboundObservation ev o)));
  UpdateStatusAndVoteTxHash (EventID ev) StatusConfirmed StatusCompleted voteTxHash ;; mret tt.
(** One event of a tick; a failure is logged. *)
Definition process_event (ev : Event) : M unit :=
  match EvType ev with
  | EventTypeInbound => if inboundEnabled then swallow (processInboundEvent ev) else mret tt
  | EventTypeOutbound => if outboundEnabled then swallow (processOutboundEvent ev) else mret tt
  | _ => mret tt
  end.
Definition ep_processConfirmedEvents : M unit := evs ← GetConfirmedEvents 1000; for_each process_event evs.

(** ** The oracle of a chain's price and height *)
Definition marked_up (gasPrice : Z) : Z :=
  if decide (0 < gasPriceMarkupPercent) then gasPrice + gasPrice * gasPriceMarkupPercent / 100 else gasPrice.
Definition fetchAndVoteChainMeta : M unit :=
  p ← rpc GetGasPrice;
  match p with
  | Ok gasPrice =>
      h ← rpc ChainHead;
      match h with
      | Ok height => rpc (VoteChainMeta watchedChain (u64 (marked_up gasPrice)) height) ;; mret tt
      | _ => mret tt
      end
  | _ => mret tt
  end.

(** ** The place to start *)
Definition getStartBlockFromConfig : M Z :=
  match eventStartFrom with
  | Some z =>
      if decide (0 ≤ z) then mret z
      else if decide (z = -1) then r ← rpc ChainHead; mret (match r with Ok head => head | _ => 0 end)
      else ask ChainHead
  | None => ask ChainHead
  end.
Definition getStartBlock : M Z :=
  h ← GetChainHeight; if decide (h = 0) then getStartBlockFromConfig else mret h.

(** ** The listener of Push Chain *)
Section push.
Context `{SH : Sha256}.
(** A failure is logged with the identifier of the object, which must not be nil. *)
Definition push_store {A} (o : option A) (r : res Event) : M unit :=
  match r with Ok ev => store_event ev ;; mret tt | Err _ => deref o ;; mret tt | Panic e => panic e end.
Definition pollTssEvents : M unit :=
  r ← rpc GetPendingTssEvents;
  match r with Ok evs => for_each (λ e, push_store e (convertTssEvent e)) evs | _ => mret tt end.
Definition pollOutboundEvents : M unit :=
  r ← rpc GetAllPendingOutbounds;
  match r with
  | Ok (entries, outbounds) =>
      if decide (length entries = length outbounds) then
        for_each (λ p, push_store p.1 (convertOutboundToEvent p.1 p.2)) (zip entries outbounds)
      else mret tt
  | _ => mret tt
  end.
Definition pollFundMigrationEvents : M unit :=
  r ← rpc GetPendingFundMigrations;
  match r with Ok ms => for_each (λ m, push_store m (convertFundMigrationEvent m)) ms | _ => mret tt end.
Definition push_poll : M unit :=
  pollTssEvents ;; pollOutboundEvents ;; pollFundMigrationEvents ;;
  r ← rpc GetLatestBlock;
  match r with Ok latestBlock => UpdateChainHeight latestBlock | _ => mret tt end.
End push.
End chain.
