(* ===== verification/UcEvm.v ===== *)
(** * The universal client: watching an EVM chain

    [chains/evm]: the parser of gateway and vault logs ([event_parser.go]), the listener
    that fetches them in ranges of blocks ([event_listener.go]) and the confirmer
    ([event_confirmer.go]).  Block numbers, offsets and lengths are [uint64] and wrap; a
    slice expression out of range panics. *)
From S2P Require Import Prelude GoStrings UvTypes TssTypes UxTypes RegTypes World Canonical Utss UxPayload UcStore UcChain.
From Stdlib Require Import Ascii.
Import Uc.

(** [go-ethereum/common]: fixed-width values from bytes, cropped or padded on the left. *)
Definition left_pad (k : nat) (bz : list Z) : list Z := replicate (k - length bz) 0 ++ drop (length bz - k) bz.
Definition EventTypeSendFunds : string := "sendFunds".
Definition EventTypeExecuteUniversalTx : string := "executeUniversalTx".
Definition EventTypeRevertUniversalTx : string := "revertUniversalTx".
Definition EventTypeFinalizeUniversalTx : string := "finalizeUniversalTx".
Definition EventTypeFundsRescued : string := "fundsRescued".

Section evm.
Context `{CC : ChainCodecs}.

(** [BytesToAddress(bz).Hex()], [HexToHash(s)] *)
Definition address_hex (bz : list Z) : string := ChecksumHex (hex_string (left_pad 20 bz)).
Definition evm_HexToHash (s : string) : list Z := left_pad 32 ((λ c, Z.of_N (N_of_ascii c)) <$> Canonical.FromHex s).

(** ** The parser *)
(** [bz[lo:hi]] on [uint64] bounds *)
Definition slice_from_to (bz : list Z) (lo hi : Z) : res (list Z) :=
  if bool_decide (lo ≤ hi) && bool_decide (hi ≤ Z.of_nat (length bz))
  then Ok (take (Z.to_nat (hi - lo)) (drop (Z.to_nat lo) bz))
  else Panic "slice bounds out of range".
Definition readDynamicBytes (data : list Z) (absOff : Z) : res (option string) :=
  let len := Z.of_nat (length data) in
  if decide (len < u64 (absOff + 32)) then Ok None
  else
    w ← slice_from_to data absOff (u64 (absOff + 32));
    let byteLen := u64 (SetBytes w) in
    let dataStart := u64 (absOff + 32) in
    let dataEnd := u64 (dataStart + byteLen) in
    if decide (len < dataEnd) then Ok None
    else bz ← slice_from_to data dataStart dataEnd; Ok (Some (hex_string bz)).
Definition readWord (data : list Z) (i : nat) : option (list Z) :=
  if decide (i * 32 + 32 ≤ length data)%nat then Some (take 32 (drop (i * 32) data)) else None.
Definition decodePayload (data : list Z) (dataOffset : Z) (payload : UniversalTx) : res UniversalTx :=
  if decide (dataOffset < 32 * 5) then Ok payload
  else r ← readDynamicBytes data dataOffset;
       Ok (match r with Some hexStr => payload <| UtRawPayload := hexStr |> | None => payload end).
Definition decodeSignatureData (data w : list Z) (minOffset : Z) : res string :=
  let offset := u64 (SetBytes w) in
  if bool_decide (minOffset ≤ offset) && bool_decide (offset < Z.of_nat (length data)) then
    r ← readDynamicBytes data offset;
    Ok (match r with Some hexStr => hexStr | None => hex_string w end)
  else Ok (hex_string w).
Definition confirmation_of (txType : Z) : ConfirmationType :=
  if bool_decide (txType = 0) || bool_decide (txType = 1) then ConfirmationFast else ConfirmationStandard.
Definition finalizeEvent (ev : Event) (payload : UniversalTx) : Event :=
  ev <| EventData := Some (universal_payload payload) |> <| EvConfirmation := confirmation_of (UtTxType payload) |>.
(** A field that may be missing. *)
Definition with_word (data : list Z) (i : nat) (f : list Z → UniversalTx → res UniversalTx) (p : UniversalTx) : res UniversalTx :=
  match readWord data i with Some w => f w p | None => Ok p end.
Definition parseUniversalTx (ev : Event) (data : list Z) (dataOffset : Z) (payload : UniversalTx) : res Event :=
  p ← decodePayload data dataOffset payload;
  p ← with_word data 3 (λ w p, Ok (p <| UtRevertFundRecipient := address_hex (drop 12 w) |>)) p;
  p ← with_word data 4 (λ w p, Ok (p <| UtTxType := u64 (SetBytes w) |>)) p;
  p ← with_word data 5 (λ w p, s ← decodeSignatureData data w (32 * 7); Ok (p <| UtVerificationData := s |>)) p;
  p ← with_word data 6 (λ w p, Ok (p <| UtFromCEA := negb (bool_decide (u64 (SetBytes w) = 0)) |>)) p;
  Ok (finalizeEvent ev p).
Definition topic (log : EvmLog) (i : nat) : list Z := default [] (LgTopics log !! i).
Definition parseUniversalTxEvent (ev : Event) (log : EvmLog) (chainID : string) : res Event :=
  let payload := mkUniversalTx chainID (LgIndex log) (address_hex (topic log 1)) (address_hex (topic log 2)) "" "" "" "" "" 0 false in
  let data := LgData log in
  if decide (length data < 32 * 5)%nat then Ok (ev <| EventData := Some (universal_payload payload) |>)
  else
    let payload := payload <| UtToken := address_hex (take 20 (drop 12 data)) |>
                     <| UtAmount := fmt_d (SetBytes (take 32 (drop 32 data))) |> in
    parseUniversalTx ev data (u64 (SetBytes (take 32 (drop 64 data)))) payload.
Definition evm_event_id (log : EvmLog) : string := hex_string (LgTxHash log) +:+ ":" +:+ fmt_d (LgIndex log).
Definition pending_event (id : string) (height : Z) (ty : EventType) (ct : ConfirmationType) (data : option Payload) : Event :=
  mkEvent id height 0 ty ct StatusPending data "" "" 0 0.
(** [None]: nothing to store. *)
Definition parseSendFundsEvent (log : EvmLog) (chainID : string) : res (option Event) :=
  if decide (length (LgTopics log) < 3)%nat then Ok None
  else Some <$> parseUniversalTxEvent
                  (pending_event (evm_event_id log) (LgBlockNumber log) EventTypeInbound ConfirmationUnset None) log chainID.
Definition parseOutboundObservationEvent (log : EvmLog) : option Event :=
  if decide (length (LgTopics log) < 3)%nat then None
  else Some (pending_event (evm_event_id log) (LgBlockNumber log) EventTypeOutbound ConfirmationStandard
    (Some (observed_payload (mkOutboundEvent (hex_string (topic log 1)) (hex_string (topic log 2)) "")))).
Definition observation_name (s : string) : bool :=
  bool_decide (s ∈ [EventTypeExecuteUniversalTx; EventTypeRevertUniversalTx; EventTypeFinalizeUniversalTx; EventTypeFundsRescued]).
Definition evm_ParseEvent (log : EvmLog) (eventType chainID : string) : res (option Event) :=
  match LgTopics log with
  | [] => Ok None
  | _ =>
      if decide (eventType = EventTypeSendFunds) then parseSendFundsEvent log chainID
      else if observation_name eventType then Ok (parseOutboundObservationEvent log)
      else Ok None
  end.

(** ** The listener *)
Context {E : Type} `{EV : Env E, WC : WatcherConfig, SO : SortSlice}.
Implicit Types (n : Node E).
#[local] Abbreviation M := (M (Node E)).

(** [NewEventListener]: the topics to filter on, in order, and their names. *)
Definition gateway_names : list string := [EventTypeSendFunds; EventTypeExecuteUniversalTx; EventTypeRevertUniversalTx].
Definition vault_names : list string := [EventTypeFinalizeUniversalTx; EventTypeFundsRescued].
Definition method_topics (names : list string) (ms : list (string * string)) : list (list Z * string) :=
  omap (λ m, if bool_decide (m.2 = "") then None
             else if decide (m.1 ∈ names) then Some (evm_HexToHash m.2, m.1) else None) ms.
Definition listener_topics : list (list Z * string) :=
  method_topics gateway_names ((λ m, (Reg.GmName m, Reg.GmEventIdentifier m)) <$> watchedGatewayMethods)
  ++ method_topics vault_names ((λ m, (Reg.VmName m, Reg.VmEventIdentifier m)) <$> watchedVaultMethods).
Definition eventTopics : list (list Z) := fst <$> listener_topics.
(** A map: the last of two methods with the same topic counts. *)
Definition topicToEventType (t : list Z) : option string :=
  snd <$> last (List.filter (λ p, bool_decide (p.1 = t)) listener_topics).

Definition process_log (log : EvmLog) : M unit :=
  match LgTopics log with
  | [] => mret tt
  | t0 :: _ =>
      match topicToEventType t0 with
      | None => mret tt
      | Some eventType =>
          r ← lift_res (evm_ParseEvent log eventType watchedChain);
          match r with Some ev => store_event ev ;; mret tt | None => mret tt end
      end
  end.
Definition processBlockChunk (fromBlock toBlock : Z) : M unit :=
  logs ← wrap "failed to get logs"
           (ask (FilterLogs (i64 fromBlock) (i64 toBlock)
                   [ChecksumHex watchedGateway; ChecksumHex watchedVault] eventTopics));
  for_each process_log logs.
Definition maxBlockRange : Z := 9000.
(** [for currentFrom <= toBlock]; out of fuel is [Panic], which the listener never reaches. *)
Fixpoint processBlockRange (fuel : nat) (currentFrom toBlock : Z) : M unit :=
  if decide (currentFrom ≤ toBlock) then
    match fuel with
    | O => panic "out of fuel"
    | S fuel =>
        let currentTo := u64 (currentFrom + maxBlockRange - 1) in
        let currentTo := if decide (toBlock < currentTo) then toBlock else currentTo in
        wrap "failed to process chunk" (processBlockChunk currentFrom currentTo) ;;
        processBlockRange fuel (u64 (currentTo + 1)) toBlock
    end
  else mret tt.
Definition chunks (fromBlock toBlock : Z) : nat := S (Z.to_nat ((toBlock - fromBlock) / maxBlockRange)).
(** A tick; the result is the block to go on from, also after a failure. *)
Definition processNewBlocks (currentBlock : Z) : M Z :=
  latestBlock ← wrap "failed to get latest block" (ask ChainHead);
  if decide (latestBlock ≤ currentBlock) then mret currentBlock
  else
    wrap "failed to process block range" (processBlockRange (chunks currentBlock latestBlock) currentBlock latestBlock) ;;
    UpdateChainHeight latestBlock ;;
    mret (u64 (latestBlock + 1)).
Definition listen_tick (currentBlock : Z) : M Z :=
  r ← attempt (processNewBlocks currentBlock); mret (match r with Ok next => next | _ => currentBlock end).

(** The start of [listen]: the first block, [None] when there is nothing to listen to. *)
Definition listen_start : M (option Z) :=
  r ← attempt getStartBlock;
  mret (match r with Ok from => if decide (eventTopics = []) then None else Some from | _ => None end).

(** ** The confirmer *)
(** A [uint64] is never negative: the defaults of the source are never used. *)
Definition evm_getRequiredConfirmations (ct : ConfirmationType) : Z :=
  match ct with ConfirmationFast => fastConfirmations | _ => standardConfirmations end.
Definition with_gas_fee (gasFeeUsed : string) (d : Payload) : Payload :=
  observed_payload (mkOutboundEvent (ObsTxID (AsObserved d)) (ObsUniversalTxID (AsObserved d)) gasFeeUsed).
Definition evm_confirm (ev : Event) (hash : list Z) (receipt : EvmReceipt) : M unit :=
  match EvType ev with
  | EventTypeOutbound =>
      g ← rpc (GetTransactionGasPrice hash);
      match g, EventData ev with
      | Ok gasPrice, Some d =>
          UpdateStatusAndEventData (EventID ev) StatusPending StatusConfirmed
            (Some (with_gas_fee (fmt_d (RcGasUsed receipt * gasPrice)) d)) ;; mret tt
      | _, _ => mret tt
      end
  | _ => UpdateEventStatus (EventID ev) StatusPending StatusConfirmed ;; mret tt
  end.
Definition evm_confirm_event (latestBlock : Z) (ev : Event) : M unit :=
  let txHash := getTxHashFromEventID (EventID ev) in
  if bool_decide (EvBlockHeight ev = 0) || bool_decide (txHash = "") then mret tt
  else
    let hash := evm_HexToHash txHash in
    r ← rpc (GetTransactionReceipt hash);
    match r with
    | Ok receipt =>
        if decide (RcStatus receipt = 1) then
          let confirmations := u64 (latestBlock - RcBlockNumber receipt + 1) in
          if decide (evm_getRequiredConfirmations (EvConfirmation ev) ≤ confirmations) then evm_confirm ev hash receipt
          else mret tt
        else UpdateEventStatus (EventID ev) StatusPending StatusReverted ;; mret tt
    | _ => mret tt
    end.
Definition evm_processPendingEvents : M unit :=
  latestBlock ← wrap "failed to get latest block" (ask ChainHead);
  evs ← GetPendingEvents 1000;
  for_each (evm_confirm_event latestBlock) evs.
End evm.
