(* ===== verification/UcSvm.v ===== *)
(** * The universal client: watching Solana

    [chains/svm]: the parser of the gateway's log lines ([event_parser.go]), the listener
    that pages backwards through the gateway's signatures ([event_listener.go]) and the
    confirmer ([event_confirmer.go]), with the median of recent fees ([rpc_client.go]).
    A log line carries a Borsh record in base64. *)
From S2P Require Import Prelude GoStrings UvTypes TssTypes UxTypes RegTypes World Canonical Utss UxPayload UcStore UcChain UcEvm.
From Stdlib Require Import Ascii.
Import Uc.

(** ** [encoding/base64.StdEncoding] *)
Definition base64_alphabet : bytes := to_bytes "ABCDEFGHIJKLMNOPQRSTUVWXYZabcdefghijklmnopqrstuvwxyz0123456789+/".
Definition base64_value (c : ascii) : option Z := Z.of_nat <$> find_index (λ x, bool_decide (x = c)) base64_alphabet.
Definition newline (c : ascii) : bool := bool_decide (c = "010"%char) || bool_decide (c = "013"%char).
Fixpoint base64_quanta (l : bytes) : option (list Z) :=
  match l with
  | [] => Some []
  | [a; b; "="%char; "="%char] => x ← base64_value a; y ← base64_value b; Some [x * 4 + y / 16]
  | [a; b; c; "="%char] =>
      x ← base64_value a; y ← base64_value b; z ← base64_value c;
      Some [x * 4 + y / 16; (y mod 16) * 16 + z / 4]
  | a :: b :: c :: d :: l' =>
      x ← base64_value a; y ← base64_value b; z ← base64_value c; w ← base64_value d;
      r ← base64_quanta l';
      Some (x * 4 + y / 16 :: (y mod 16) * 16 + z / 4 :: (z mod 4) * 64 + w :: r)
  | _ => None
  end.
(** Line ends are ignored, bits after the last byte are not looked at. *)
Definition base64_DecodeString (s : string) : option (list Z) :=
  base64_quanta (List.filter (λ c, negb (newline c)) (to_bytes s)).

(** [mr-tron/base58] and [solana-go]: how a public key is printed. *)
Class Base58Encode : Type := base58_Encode : list Z → string.

Definition SvmSendFunds : string := "send_funds".
Definition SvmFinalizeUniversalTx : string := "finalize_universal_tx".
Definition SvmRevertUniversalTx : string := "revert_universal_tx".
Definition SvmFundsRescued : string := "funds_rescued".
Definition svm_names : list string := [SvmSendFunds; SvmFinalizeUniversalTx; SvmRevertUniversalTx; SvmFundsRescued].

Section parser.
Context `{CC : ChainCodecs, B58 : Base58Encode}.

Definition svm_base58ToHex (s : string) : res string :=
  if decide (s = "") then Ok "0x" else hex_string <$> wrap_res "failed to decode base58" (base58_Decode s).
Definition bytes_at (data : list Z) (off k : nat) : list Z := take k (drop off data).
(** The end of the record; what is missing keeps its zero value. *)
Definition decode_tail (data : list Z) (off : nat) (p : UniversalTx) : UniversalTx :=
  if decide (length data < off + 32)%nat then p
  else
    let p := p <| UtRevertFundRecipient := base58_Encode (bytes_at data off 32) |> in
    let off := (off + 32)%nat in
    match data !! off with
    | None => p <| UtTxType := 0 |>
    | Some txType =>
        let p := p <| UtTxType := txType |> in
        let off := S off in
        if decide (length data < off + 4)%nat then p
        else
          let sigLen := le_uint (bytes_at data off 4) in
          let off := (off + 4)%nat in
          if decide (Z.of_nat (length data) - Z.of_nat off < sigLen) then p
          else
            let k := Z.to_nat sigLen in
            let p := if decide (0 < sigLen) then p <| UtVerificationData := hex_string (bytes_at data off k) |> else p in
            match data !! (off + k)%nat with
            | Some b => p <| UtFromCEA := negb (bool_decide (b = 0)) |>
            | None => p
            end
    end.
Definition decodeUniversalTxEvent (data : list Z) : res UniversalTx :=
  check (bool_decide (8 + 32 ≤ length data)%nat) "not enough data for sender" ;;
  let sender := base58_Encode (bytes_at data 8 32) in
  check (bool_decide (40 + 20 ≤ length data)%nat) "not enough data for recipient" ;;
  check (bool_decide (60 + 32 ≤ length data)%nat) "not enough data for bridge_token" ;;
  check (bool_decide (92 + 8 ≤ length data)%nat) "not enough data for bridge_amount" ;;
  let p := empty_universal_tx <| UtSender := match svm_base58ToHex sender with Ok h => h | _ => sender end |>
             <| UtRecipient := hex_string (bytes_at data 40 20) |> <| UtToken := base58_Encode (bytes_at data 60 32) |>
             <| UtAmount := fmt_d (le_uint (bytes_at data 92 8)) |> in
  Ok (if decide (length data < 104)%nat then p
      else
        let dataLen := le_uint (bytes_at data 100 4) in
        if decide (Z.of_nat (length data) < 104 + dataLen) then p
        else
          let k := Z.to_nat dataLen in
          let p := if decide (0 < dataLen) then p <| UtRawPayload := hex_string (bytes_at data 104 k) |> else p in
          decode_tail data (104 + k) p).

Definition program_data : string := "Program data: ".
(** The bytes of a log line. *)
Definition decode_line (log : string) : option (list Z) :=
  if String.prefix program_data log then base64_DecodeString (of_bytes (drop 14 (to_bytes log))) else None.
Definition svm_event_id (signature : string) (logIndex : Z) : string := signature +:+ ":" +:+ fmt_d logIndex.
Definition svm_parseUniversalTxEvent (ev : Event) (decoded : list Z) (logIndex : Z) (chainID : string) : Event :=
  match decodeUniversalTxEvent decoded with
  | Ok p =>
      let p := p <| UtSourceChain := chainID |> <| UtLogIndex := logIndex |> in
      ev <| EventData := Some (universal_payload p) |> <| EvConfirmation := confirmation_of (UtTxType p) |>
  | _ => ev
  end.
Definition svm_parseSendFundsEvent (log signature : string) (slot logIndex : Z) (chainID : string) : option Event :=
  decoded ← decode_line log;
  if decide (length decoded < 8)%nat then None
  else Some (svm_parseUniversalTxEvent
               (pending_event (svm_event_id signature logIndex) slot EventTypeInbound ConfirmationUnset None)
               decoded logIndex chainID).
Definition svm_parseOutboundObservationEvent (log signature : string) (slot logIndex : Z) : option Event :=
  decoded ← decode_line log;
  if decide (length decoded < 97)%nat then None
  else Some (pending_event (svm_event_id signature logIndex) slot EventTypeOutbound ConfirmationStandard
         (Some (observed_payload (mkOutboundEvent (hex_string (bytes_at decoded 8 32)) (hex_string (bytes_at decoded 40 32))
                                    (fmt_d (le_uint (bytes_at decoded 80 8))))))).
Definition svm_ParseEvent (log signature : string) (slot logIndex : Z) (eventType chainID : string) : option Event :=
  if decide (eventType = SvmSendFunds) then svm_parseSendFundsEvent log signature slot logIndex chainID
  else if decide (eventType ∈ [SvmFinalizeUniversalTx; SvmRevertUniversalTx; SvmFundsRescued])
  then svm_parseOutboundObservationEvent log signature slot logIndex
  else None.
End parser.

Section svm.
Context `{CC : ChainCodecs, B58 : Base58Encode} {E : Type} `{EV : Env E, WC : WatcherConfig, SO : SortSlice}.
Implicit Types (n : Node E).
#[local] Abbreviation M := (M (Node E)).

(** ** The listener *)
(** [NewEventListener]: discriminators in lower case; the last of two equal ones counts. *)
Definition discriminators : list (string * string) :=
  omap (λ m, if bool_decide (Reg.GmEventIdentifier m = "") then None
             else if decide (Reg.GmName m ∈ svm_names) then Some (ToLower (Reg.GmEventIdentifier m), Reg.GmName m) else None)
    watchedGatewayMethods.
Definition discriminatorToEventType (d : string) : option string :=
  snd <$> last (List.filter (λ p, bool_decide (p.1 = d)) discriminators).
Definition determineEventType (log : string) : option string :=
  decoded ← decode_line log;
  if decide (length decoded < 8)%nat then None
  else discriminatorToEventType (ToLower (hex_of (take 8 decoded))).
Definition svm_process_log (signature : string) (slot : Z) (logIndex : nat) (log : string) : M unit :=
  match eventType ← determineEventType log; svm_ParseEvent log signature slot (Z.of_nat logIndex) eventType watchedChain with
  | Some ev => store_event ev ;; mret tt
  | None => mret tt
  end.
Definition process_signature (fromSlot toSlot : Z) (sig : SvmSignature) : M unit :=
  if bool_decide (SigSlot sig < fromSlot) || bool_decide (toSlot < SigSlot sig) then mret tt
  else
    r ← rpc (GetTransaction (SigString sig));
    match r with
    | Ok (Some (mkSvmTransaction _ (Some (_, logs)))) =>
        for_each (λ p, svm_process_log (SigString sig) (SigSlot sig) p.1 p.2) (imap pair logs)
    | _ => mret tt
    end.
Definition processSignatureBatch (batch : list SvmSignature) (fromSlot toSlot : Z) : M unit :=
  for_each (process_signature fromSlot toSlot) batch.
(** The first entry of a batch with the least slot. *)
Definition oldest_signature (s : SvmSignature) (batch : list SvmSignature) : SvmSignature :=
  foldl (λ m s, if decide (SigSlot s < SigSlot m) then s else m) s batch.
(** Pages until the oldest signature of a page is before the range; out of fuel is [Panic]. *)
Fixpoint slot_pages (fuel : nat) (gateway beforeSig : string) (fromSlot toSlot : Z) : M unit :=
  match fuel with
  | O => panic "out of fuel"
  | S fuel =>
      batch ← wrap "failed to get signatures" (ask (GetSignaturesForAddress gateway beforeSig));
      match batch with
      | [] => mret tt
      | s :: rest =>
          processSignatureBatch batch fromSlot toSlot ;;
          let m := oldest_signature s rest in
          if decide (SigSlot m < fromSlot) then mret tt else slot_pages fuel gateway (SigString m) fromSlot toSlot
      end
  end.
(** [solana.PublicKeyFromBase58], [solana.SignatureFromBase58] *)
Definition base58_of_length (k : nat) (s : string) : bool :=
  match base58_Decode s with Ok bz => bool_decide (length bz = k) | _ => false end.
Definition processSlotRange (fuel : nat) (fromSlot toSlot : Z) : M unit :=
  require (base58_of_length 32 watchedGateway) "invalid gateway address" ;;
  slot_pages fuel watchedGateway "" fromSlot toSlot.
Definition processNewSlots (fuel : nat) (currentSlot : Z) : M Z :=
  latestSlot ← wrap "failed to get latest slot" (ask ChainHead);
  if decide (latestSlot ≤ currentSlot) then mret currentSlot
  else
    wrap "failed to process slot range" (processSlotRange fuel currentSlot latestSlot) ;;
    UpdateChainHeight latestSlot ;;
    mret (u64 (latestSlot + 1)).
Definition svm_listen_tick (fuel : nat) (currentSlot : Z) : M Z :=
  r ← attempt (processNewSlots fuel currentSlot); mret (match r with Ok next => next | _ => currentSlot end).

(** ** The confirmer *)
Definition svm_getRequiredConfirmations (ct : ConfirmationType) : Z :=
  match ct with
  | ConfirmationFast => if decide (0 < fastConfirmations) then fastConfirmations else 5
  | _ => if decide (0 < standardConfirmations) then standardConfirmations else 12
  end.
Definition svm_confirm_event (latestSlot : Z) (ev : Event) : M unit :=
  let signature := getTxHashFromEventID (EventID ev) in
  if bool_decide (EvBlockHeight ev = 0) || bool_decide (signature = "") || negb (base58_of_length 64 signature) then mret tt
  else
    r ← rpc (GetTransaction signature);
    match r with
    | Ok tx =>
        t ← deref tx;
        match TxMeta t with
        | None => mret tt
        | Some (true, _) => UpdateEventStatus (EventID ev) StatusPending StatusReverted ;; mret tt
        | Some (false, _) =>
            let txSlot := if decide (TxSlot t = 0) then EvBlockHeight ev else TxSlot t in
            let confirmations := u64 (latestSlot - txSlot + 1) in
            if decide (svm_getRequiredConfirmations (EvConfirmation ev) ≤ confirmations)
            then UpdateEventStatus (EventID ev) StatusPending StatusConfirmed ;; mret tt
            else mret tt
        end
    | _ => mret tt
    end.
Definition svm_processPendingEvents : M unit :=
  latestSlot ← wrap "failed to get latest slot" (ask ChainHead);
  evs ← GetPendingEvents 1000;
  for_each (svm_confirm_event latestSlot) evs.

(** ** The price: the median of the recent fees that are not zero, in lamports *)
Definition calculateMedian (fees : list Z) : Z :=
  let l := sort_Slice (λ a b, bool_decide (a < b)) fees in
  let k := length l in
  match l with
  | [] => 0
  | _ => if Nat.even k then u64 (default 0 (l !! (k / 2 - 1)%nat) + default 0 (l !! (k / 2)%nat)) / 2
         else default 0 (l !! (k / 2)%nat)
  end.
Definition price_of_fees (fees : list Z) : Z :=
  match List.filter (λ f, bool_decide (0 < f)) fees with [] => 1000 | l => i64 (calculateMedian l) end.
End svm.
