(* ===== verification/UcCoord.v ===== *)
(** * The universal client: the coordinator

    [tss/coordinator]: [coordinator.go], [msg_handler.go], [utils.go], [types.go].
    One client at a time is the coordinator, by rotation over blocks.  It gives nonces
    to the transactions to sign, invites a set of clients to a session of the
    threshold protocol, and starts it when all of them acknowledged.

    A goroutine runs a handler to its end here; the locks of the code protect each
    access to the maps, and the second check of [handleUnsignedAck] is kept.  A message
    to oneself, which [Node.Send] delivers by a direct call, arrives like any other. *)
From S2P Require Import Prelude GoStrings UvTypes TssTypes UxTypes RegTypes World Canonical Utss UcStore.
Import Uc.

Section coordinator.
Context {E : Type} `{EV : Env E, CF : ClientConfig, CR : Crypto, SO : SortSlice}.
Implicit Types (n : Node E) (v : UV.UniversalValidator).
#[local] Abbreviation M := (M (Node E)).

(** ** Addresses and signatures *)
Definition pubkey_bytes (pubkeyHex : string) : option (list Z) :=
  hex_decode (to_bytes (TrimPrefix0x (TrimSpace pubkeyHex))).
Definition DeriveEVMAddressFromPubkey (pubkeyHex : string) : res string :=
  match pubkey_bytes pubkeyHex with
  | None => Err "failed to decode public key"
  | Some bz =>
      if decide (length bz = 33%nat) then
        match DecompressPubkey bz with
        | None => Err "failed to decompress public key"
        | Some (vkX, vkY) =>
            Ok ("0x" +:+ hex_of (drop 12 (Keccak256 (be_bytes 32 vkX ++ be_bytes 32 vkY))))
        end
      else Err "invalid public key length"
  end.
Definition verifyECDSASignature (pubkeyHex : string) (hash signature : list Z) : res unit :=
  check (bool_decide (length hash = 32%nat)) "hash must be 32 bytes" ;;
  check (bool_decide (length signature = 64%nat) || bool_decide (length signature = 65%nat))
    "signature must be 64 or 65 bytes" ;;
  match pubkey_bytes pubkeyHex with
  | None => Err "decode pubkey"
  | Some pubBytes =>
      check (bool_decide (length pubBytes = 33%nat)) "pubkey must be 33 bytes (compressed)" ;;
      match DecompressPubkey pubBytes with
      | None => Err "failed to decompress pubkey"
      | Some vk =>
          let r := SetBytes (take 32 signature) in
          let s := SetBytes (take 32 (drop 32 signature)) in
          check (ecdsa_Verify vk hash r s) "ECDSA signature does not verify"
      end
  end.
(** floor(2 n / 3) + 1, at most n *)
Definition CalculateThreshold (numParticipants : Z) : Z :=
  if decide (numParticipants ≤ 0) then 1
  else
    let threshold := 2 * numParticipants / 3 + 1 in
    if decide (numParticipants < threshold) then numParticipants else threshold.
Definition deriveKeyIDBytes (keyID : string) : list Z := Sum256 (ascii_bytes keyID).

(** ** Validators *)
Definition status_of v : option UV.UVStatus := UV.CurrentStatus <$> UV.LifecycleInfoOf v.
Definition addr_of v : string := from_option UV.CoreValidatorAddress "" (UV.IdentifyInfo v).
Definition getActiveParticipants (l : list UV.UniversalValidator) : list UV.UniversalValidator :=
  List.filter (λ v, bool_decide (status_of v = Some UV.UV_STATUS_ACTIVE)) l.
Definition getQuorumChangeParticipants (l : list UV.UniversalValidator) : list UV.UniversalValidator :=
  List.filter (λ v, bool_decide (status_of v = Some UV.UV_STATUS_ACTIVE)
                    || bool_decide (status_of v = Some UV.UV_STATUS_PENDING_JOIN)) l.
Definition getSignEligible (l : list UV.UniversalValidator) : list UV.UniversalValidator :=
  List.filter (λ v, bool_decide (status_of v = Some UV.UV_STATUS_ACTIVE)
                    || bool_decide (status_of v = Some UV.UV_STATUS_PENDING_LEAVE)) l.
Definition getEligibleForProtocol (ty : EventType) (l : list UV.UniversalValidator) : list UV.UniversalValidator :=
  match ty with
  | EventTypeKeygen | EventTypeQuorumChange => getQuorumChangeParticipants l
  | EventTypeKeyrefresh | EventTypeSignOutbound | EventTypeSignFundMigrate => getSignEligible l
  | _ => []
  end.
Definition getCoordinatorParticipants (l : list UV.UniversalValidator) : list UV.UniversalValidator :=
  match getActiveParticipants l with [] => l | active => active end.
(** A range of zero divides by zero. *)
Definition coordinatorAddressForBlock (l : list UV.UniversalValidator) (range currentBlock : Z) : res string :=
  match getCoordinatorParticipants l with
  | [] => Ok ""
  | ps =>
      if decide (range = 0) then Panic "integer divide by zero"
      else
        let epoch := currentBlock / range in
        let idx := Z.to_nat (epoch mod Z.of_nat (length ps)) in
        Ok (from_option addr_of "" (ps !! idx))
  end.

Definition staleValidatorsHaltMultiplier : Z := 10.
Definition validatorsSnapshot : M (list UV.UniversalValidator) :=
  c ← gets coord;
  match lastValidatorsRefreshAt c with
  | None => mret []
  | Some at_ =>
      now ← rpc Now;
      if decide (pollInterval * staleValidatorsHaltMultiplier < now - at_) then
        set_coord (λ c, c <| allValidators := [] |>) ;; mret []
      else mret (allValidators c)
  end.
Definition Validators : M (list UV.UniversalValidator) := validatorsSnapshot.
Definition updateValidators : M unit :=
  r ← rpc GetAllUniversalValidators;
  match r with
  | Ok l => now ← rpc Now; set_coord (λ c, c <| allValidators := l |> <| lastValidatorsRefreshAt := Some now |>)
  | _ => mret tt
  end.
Definition CancelTracking (eventID : string) : M unit := set_coord (λ c, c <| ackTracking ::= delete eventID |>).

Definition party_of (peerID : string) v : option string :=
  ni ← UV.NetworkInfoOf v;
  if decide (UV.PeerId ni = peerID) then UV.CoreValidatorAddress <$> UV.IdentifyInfo v else None.
Definition peer_of (partyID : string) v : option string :=
  id ← UV.IdentifyInfo v;
  if decide (UV.CoreValidatorAddress id = partyID) then UV.PeerId <$> UV.NetworkInfoOf v else None.
Definition GetPartyIDFromPeerID (peerID : string) : M string :=
  l ← validatorsSnapshot;
  lift_option (head (omap (party_of peerID) l)) ("peerID " +:+ peerID +:+ " not found in validators").
Definition GetPeerIDFromPartyID (partyID : string) : M string :=
  l ← validatorsSnapshot;
  lift_option (head (omap (peer_of partyID) l)) ("partyID " +:+ partyID +:+ " not found in validators").
Definition has_peer (peerID : string) v : bool :=
  bool_decide (UV.PeerId <$> UV.NetworkInfoOf v = Some peerID).
Definition GetMultiAddrsFromPeerID (peerID : string) : M (list string) :=
  l ← validatorsSnapshot;
  match List.find (has_peer peerID) l with
  | Some v => mret (from_option UV.MultiAddrs [] (UV.NetworkInfoOf v))
  | None => throw ("peerID " +:+ peerID +:+ " not found in validators")
  end.
Definition IsPeerCoordinator (peerID : string) : M bool :=
  currentBlock ← wrap "failed to get latest block" (ask GetLatestBlock);
  l ← validatorsSnapshot;
  match l with
  | [] => mret false
  | _ =>
      let validatorAddress := from_option addr_of "" (List.find (has_peer peerID) l) in
      if decide (validatorAddress = "") then mret false
      else c ← lift_res (coordinatorAddressForBlock l coordinatorRange currentBlock);
           mret (bool_decide (c = validatorAddress))
  end.
Definition GetCurrentTSSKey : M (string * string) :=
  k ← ask GetCurrentKey;
  mret (match k with None => ("", "") | Some key => (Tss.KeyId key, Tss.TssPubkey key) end).
Definition GetTSSAddress : M string :=
  k ← wrap "failed to get current TSS key" (ask GetCurrentKey);
  match k with
  | Some key => if decide (Tss.TssPubkey key = "") then throw "no TSS key found"
                else lift_res (DeriveEVMAddressFromPubkey (Tss.TssPubkey key))
  | None => throw "no TSS key found"
  end.
Definition GetEligibleUV (ty : EventType) : M (list UV.UniversalValidator) :=
  l ← validatorsSnapshot; mret (getEligibleForProtocol ty l).

(** [rand.Shuffle]: swap each element from the last down with a random one before it. *)
Definition swap {A} (l : list A) (i j : nat) : list A :=
  match l !! i, l !! j with Some a, Some b => <[ i := b ]> (<[ j := a ]> l) | _, _ => l end.
Fixpoint shuffle {A} (i : nat) (l : list A) : M (list A) :=
  match i with
  | O => mret l
  | S i' => j ← rpc (RandIntn (Z.of_nat i + 1)); shuffle i' (swap l i (Z.to_nat j))
  end.
Definition selectRandomThreshold (eligible : list UV.UniversalValidator) : M (list UV.UniversalValidator) :=
  let minRequired := CalculateThreshold (Z.of_nat (length eligible)) in
  if decide (Z.of_nat (length eligible) ≤ minRequired) then mret eligible
  else l ← shuffle (length eligible - 1) eligible; mret (take (Z.to_nat minRequired) l).
Definition getSignParticipants (l : list UV.UniversalValidator) : M (list UV.UniversalValidator) :=
  selectRandomThreshold (getSignEligible l).

(** ** Transactions to sign *)
Definition buildSignTransaction (eventData : option Payload) (assignedNonce : option Z) : M UnsignedSigningReq :=
  d ← lift_option eventData "failed to unmarshal outbound event data";
  let data := AsOutbound d in
  require (negb (bool_decide (OcTxID data = ""))) "outbound event missing tx_id" ;;
  require (negb (bool_decide (OcDestinationChain data = ""))) "outbound event missing destination_chain" ;;
  require has_chains "chains manager not configured" ;;
  wrap "failed to get tx builder" (ask (GetTxBuilder (OcDestinationChain data))) ;;
  nonce ← lift_option assignedNonce "assigned nonce is required for sign transaction";
  wrap "failed to get outbound signing request" (ask (GetOutboundSigningRequest (OcDestinationChain data) data nonce)).
(** [new(big.Int); x.SetString(s, 10)], the failure ignored *)
Definition lenient_int (s : string) : Z := default 0 (big_SetString s).
Definition migration_data (d : FundMigrationInitiatedEventData) (from to : string) (balance : option Z) : FundMigrationData :=
  mkFundMigration from to (lenient_int (FmGasPrice d)) (FmGasLimit d) (lenient_int (FmL1GasFee d)) balance.
Definition claimed_balance (d : FundMigrationInitiatedEventData) (amount : Z) : Z :=
  let l1 := lenient_int (FmL1GasFee d) in
  amount + lenient_int (FmGasPrice d) * FmGasLimit d + (if decide (0 < l1) then l1 else 0).
Definition buildFundMigrationTransaction (eventData : option Payload) (assignedNonce claimedAmount : option Z) :
    M UnsignedSigningReq :=
  nonce ← lift_option assignedNonce "assigned nonce is required for fund migration transaction";
  d ← lift_option eventData "unmarshal fund migration event data";
  let data := AsMigration d in
  oldTSSAddr ← wrap "derive old TSS address" (lift_res (DeriveEVMAddressFromPubkey (FmOldTssPubkey data)));
  currentTSSAddr ← wrap "derive current TSS address" (lift_res (DeriveEVMAddressFromPubkey (FmCurrentTssPubkey data)));
  require has_chains "chains manager not configured" ;;
  wrap "get tx builder" (ask (GetTxBuilder (FmChain data))) ;;
  ask (GetFundMigrationSigningRequest (FmChain data)
         (migration_data data oldTSSAddr currentTSSAddr (claimed_balance data <$> claimedAmount)) nonce).

(** ** Setup messages *)
(** The identifiers, separated by null bytes. *)
Definition participant_bytes (partyIDs : list string) : list Z :=
  mjoin (imap (λ i id, (if decide (i = 0%nat) then [] else [0]) ++ ascii_bytes id) partyIDs).
Definition load_keyshare (keyID : string) : M (list Z) :=
  k ← rpc (GetKeyshare keyID);
  match k with
  | Keyshare share => mret share
  | _ => throw ("failed to load keyshare for keyId " +:+ keyID)
  end.
Definition current_key : M Tss.TssKey :=
  k ← wrap "failed to get current TSS keyId" (ask GetCurrentKey); lift_option k "no TSS key exists".
Definition createKeygenSetup (threshold : Z) (partyIDs : list string) : M (list Z) :=
  wrap "failed to create setup" (ask (DklsKeygenSetupMsgNew threshold (participant_bytes partyIDs))).
Definition createSignSetup (eventData : option Payload) (partyIDs : list string) (assignedNonce : option Z) :
    M (list Z * UnsignedSigningReq) :=
  key ← current_key;
  load_keyshare (Tss.KeyId key) ;;
  req ← wrap "failed to build sign transaction" (buildSignTransaction eventData assignedNonce);
  setup ← wrap "failed to create sign setup"
            (ask (DklsSignSetupMsgNew (deriveKeyIDBytes (Tss.KeyId key)) (ReqSigningHash req) (participant_bytes partyIDs)));
  mret (setup, req).
Definition createFundMigrationSignSetup (eventData : option Payload) (partyIDs : list string) (assignedNonce : option Z) :
    M (list Z * UnsignedSigningReq) :=
  d ← lift_option eventData "failed to unmarshal fund migration event data";
  let oldKeyID := FmOldKeyID (AsMigration d) in
  load_keyshare oldKeyID ;;
  req ← wrap "failed to build fund migration transaction" (buildFundMigrationTransaction eventData assignedNonce None);
  setup ← wrap "failed to create fund migration sign setup"
            (ask (DklsSignSetupMsgNew (deriveKeyIDBytes oldKeyID) (ReqSigningHash req) (participant_bytes partyIDs)));
  mret (setup, req).
Definition status_map (l : list UV.UniversalValidator) : gmap string UV.UVStatus :=
  foldl (λ m v, match UV.IdentifyInfo v, UV.LifecycleInfoOf v with
                | Some id, Some li => <[ UV.CoreValidatorAddress id := UV.CurrentStatus li ]> m
                | _, _ => m
                end) ∅ l.
Definition old_indices (m : gmap string UV.UVStatus) (partyIDs : list string) : list Z :=
  mjoin (imap (λ i id, if decide (m !! id = Some UV.UV_STATUS_ACTIVE) then [Z.of_nat i] else []) partyIDs).
Definition createQcSetup (threshold : Z) (partyIDs : list string) (l : list UV.UniversalValidator) : M (list Z) :=
  key ← current_key;
  share ← load_keyshare (Tss.KeyId key);
  wrap "failed to load keyshare handle" (ask (DklsKeyshareFromBytes share)) ;;
  wrap "failed to create quorumchange setup"
    (ask (DklsQcSetupMsgNew threshold partyIDs (old_indices (status_map l) partyIDs) (imap (λ i _, Z.of_nat i) partyIDs))).

Definition track (eventID : string) (partyIDs : list string) : M unit :=
  set_coord (λ c, c <| ackTracking ::= insert eventID (mkAckState partyIDs ∅ 0) |>).
Definition setup_for (ev : Event) (threshold : Z) (partyIDs : list string) (l : list UV.UniversalValidator)
    (assignedNonce : option Z) : M (list Z * option UnsignedSigningReq) :=
  match EvType ev with
  | EventTypeKeygen | EventTypeKeyrefresh => s ← createKeygenSetup threshold partyIDs; mret (s, None)
  | EventTypeQuorumChange => s ← createQcSetup threshold partyIDs l; mret (s, None)
  | EventTypeSignOutbound => s ← createSignSetup (EventData ev) partyIDs assignedNonce; mret (s.1, Some s.2)
  | EventTypeSignFundMigrate => s ← createFundMigrationSignSetup (EventData ev) partyIDs assignedNonce; mret (s.1, Some s.2)
  | _ => throw "unknown protocol type"
  end.
Definition processEventAsCoordinator (ev : Event) (l : list UV.UniversalValidator) (assignedNonce : option Z) : M unit :=
  let sorted := sort_Slice (λ a b, String.ltb (addr_of a) (addr_of b)) l in
  let partyIDs := addr_of <$> sorted in
  let threshold := CalculateThreshold (Z.of_nat (length partyIDs)) in
  s ← wrap "failed to create setup message" (setup_for ev threshold partyIDs sorted assignedNonce);
  let msg := mkMessage MessageTypeSetup (EventID ev) s.1 partyIDs s.2 None in
  track (EventID ev) partyIDs ;;
  for_each (λ v, match UV.NetworkInfoOf v with
                 | Some ni => rpc (Send (UV.PeerId ni) msg) ;; mret tt
                 | None => mret tt
                 end) sorted.

(** ** Nonces *)
Definition PerChainCap : Z := 16.
Definition ConsecutiveWaitThreshold : Z := 20.
(** The maps of one poll; an absent key reads as zero. *)
Record poll := mkPoll { inFlightPerChain : gmap string Z; nonceByChain : gmap string Z; skippedChains : gset string }.
#[local] Instance poll_eta : Eta poll := λ r, mkPoll (inFlightPerChain r) (nonceByChain r) (skippedChains r).
Definition at_ (m : gmap string Z) (k : string) : Z := default 0 (m !! k).
Definition incr (k : string) (m : gmap string Z) : gmap string Z := <[ k := at_ m k + 1 ]> m.
Definition extractDestinationChain (eventData : option Payload) : string :=
  from_option (λ d, OcDestinationChain (AsOutbound d)) "" eventData.
Definition extractFundMigrateChain (eventData : option Payload) : string :=
  from_option (λ d, FmChain (AsMigration d)) "" eventData.
Definition getInFlightSignCountPerChain : M (gmap string Z) :=
  l ← GetInFlightSignEvents;
  mret (foldl (λ m ev, let chain := extractDestinationChain (EventData ev) in
                       if decide (chain = "") then m else incr chain m) ∅ l).
Definition getNextNonceForChain (chain : string) (useFinalized : bool) : M Z :=
  require has_chains "chains manager not configured" ;;
  ask (GetTxBuilder chain) ;;
  tssAddress ← GetTSSAddress;
  ask (GetNextNonce chain tssAddress useFinalized).
Definition is_evm (chain : string) : M bool := if has_chains then rpc (IsEVMChain chain) else mret false.
(** The first event of a chain in a poll: ask the chain. *)
Definition fetch_nonce (chain : string) (p : poll) (useFinalized : bool) : M (option Z * poll) :=
  r ← attempt (getNextNonceForChain chain useFinalized);
  match r with
  | Ok nonce =>
      set_coord (λ c, c <| consecutiveWaitPerChain ::= insert chain 0 |>) ;;
      mret (Some nonce, p <| nonceByChain ::= insert chain nonce |> <| inFlightPerChain ::= incr chain |>)
  | _ => mret (None, p)
  end.
Definition assignSignNonce (chain : string) (p : poll) : M (option Z * poll) :=
  if decide (chain ∈ skippedChains p) then mret (None, p)
  else
    isEVM ← is_evm chain;
    match nonceByChain p !! chain with
    | Some nonce =>
        if (isEVM : bool) && bool_decide (PerChainCap ≤ at_ (inFlightPerChain p) chain) then mret (None, p)
        else mret (Some (u64 (nonce + 1)),
                   p <| nonceByChain ::= insert chain (u64 (nonce + 1)) |> <| inFlightPerChain ::= incr chain |>)
    | None =>
        if (isEVM : bool) && bool_decide (0 < at_ (inFlightPerChain p) chain) then
          c ← gets coord;
          if decide (at_ (consecutiveWaitPerChain c) chain < ConsecutiveWaitThreshold) then
            set_coord (λ c, c <| consecutiveWaitPerChain ::= incr chain |>) ;;
            mret (None, p <| skippedChains ::= union {[ chain ]} |>)
          else fetch_nonce chain p true
        else fetch_nonce chain p false
    end.
Definition assignFundMigrateNonce (ev : Event) (chain : string) : M Z :=
  d ← lift_option (EventData ev) "failed to unmarshal fund migration event data";
  oldTSSAddr ← wrap "failed to derive old TSS address"
                 (lift_res (DeriveEVMAddressFromPubkey (FmOldTssPubkey (AsMigration d))));
  require has_chains "chains manager not configured" ;;
  ask (GetTxBuilder chain) ;;
  ask (GetNextNonce chain oldTSSAddr true).

(** The nonce of an event, [None] to leave the event for a later poll. *)
Definition assign_nonce (ev : Event) (p : poll) : M (option (option Z) * poll) :=
  match EvType ev with
  | EventTypeSignFundMigrate =>
      let chain := extractFundMigrateChain (EventData ev) in
      if decide (chain = "") then mret (None, p)
      else
        r ← attempt (assignFundMigrateNonce ev chain);
        mret (match r with Ok nonce => Some (Some nonce) | _ => None end, p)
  | EventTypeSignOutbound =>
      let chain := extractDestinationChain (EventData ev) in
      if decide (chain = "") then mret (None, p)
      else
        enabled ← (if has_chains then rpc (IsChainOutboundEnabled chain) else panic "nil pointer dereference");
        if (enabled : bool) then
          r ← assignSignNonce chain p;
          mret (match r.1 with Some nonce => Some (Some nonce) | None => None end, r.2)
        else mret (None, p)
  | _ => mret (Some None, p)
  end.
(** Whom to invite: all of the eligible, or a random threshold of them to sign. *)
Definition invitees (ty : EventType) (all : list UV.UniversalValidator) : M (list UV.UniversalValidator) :=
  if is_sign ty then getSignParticipants all else mret (getEligibleForProtocol ty all).
Definition coordinate (all : list UV.UniversalValidator) (ev : Event) (p : poll) : M poll :=
  r ← assign_nonce ev p;
  match r.1 with
  | None => mret r.2
  | Some nonce =>
      l ← invitees (EvType ev) all;
      match l with
      | [] => mret r.2
      | _ => attempt (processEventAsCoordinator ev l nonce) ;; mret r.2
      end
  end.
Fixpoint coordinate_all (all : list UV.UniversalValidator) (evs : list Event) (p : poll) : M unit :=
  match evs with
  | [] => mret tt
  | ev :: evs' => p' ← coordinate all ev p; coordinate_all all evs' p'
  end.
Definition processConfirmedEvents : M unit :=
  currentBlock ← wrap "failed to get latest block" (ask GetLatestBlock);
  all ← validatorsSnapshot;
  match all with
  | [] => mret tt
  | _ =>
      c ← lift_res (coordinatorAddressForBlock all coordinatorRange currentBlock);
      if decide (c = validatorAddress) then
        evs ← GetNonExpiredConfirmedEvents currentBlock 10 0;
        inFlight ← getInFlightSignCountPerChain;
        coordinate_all all evs (mkPoll inFlight ∅ ∅)
      else mret tt
  end.
(** A tick of [pollLoop]. *)
Definition poll_tick : M unit := updateValidators ;; swallow processConfirmedEvents.

(** ** Acknowledgements *)
Definition rebuildSigningHash (ev : Event) (nonce : Z) (claimedAmount : option Z) : M (list Z) :=
  match EvType ev with
  | EventTypeSignOutbound => req ← buildSignTransaction (EventData ev) (Some nonce); mret (ReqSigningHash req)
  | EventTypeSignFundMigrate =>
      match claimedAmount with
      | Some amount =>
          require (bool_decide (0 < amount)) "fund migration verification requires positive claimed amount" ;;
          req ← buildFundMigrationTransaction (EventData ev) (Some nonce) (Some amount); mret (ReqSigningHash req)
      | None => throw "fund migration verification requires positive claimed amount"
      end
  | _ => throw "event type has no signature to verify"
  end.
Definition verifyingPubkey (ev : Event) : M string :=
  match EvType ev with
  | EventTypeSignOutbound =>
      k ← wrap "fetch current TSS key" GetCurrentTSSKey;
      require (negb (bool_decide (k.2 = ""))) "no current TSS key configured" ;; mret k.2
  | EventTypeSignFundMigrate =>
      d ← lift_option (EventData ev) "unmarshal fund migration event data";
      require (negb (bool_decide (FmOldTssPubkey (AsMigration d) = ""))) "fund migration event missing old_tss_pubkey" ;;
      mret (FmOldTssPubkey (AsMigration d))
  | _ => throw "event type has no verifying pubkey"
  end.
Definition VerifySignedData (ev : Event) (signedData : option SignedDataPayload) : M unit :=
  sd ← lift_option signedData "signed_data is nil";
  require (bool_decide (length (SdSignature sd) = 64%nat) || bool_decide (length (SdSignature sd) = 65%nat))
    "signature must be 64 or 65 bytes" ;;
  expectedHash ← wrap "rebuild signing hash" (rebuildSigningHash ev (SpNonce sd) (SpAmount sd));
  require (bool_decide (expectedHash = SdSigningHash sd)) "announced signing_hash does not match rebuilt hash" ;;
  pubkeyHex ← wrap "resolve verifying pubkey" (verifyingPubkey ev);
  wrap "ECDSA verification failed" (lift_res (verifyECDSASignature pubkeyHex expectedHash (SdSignature sd))).

(** The sentinel errors make a message skipped. *)
Inductive ack_verdict := AckProcess | AckSkip | AckRefuse (e : error).
Definition validateIncomingRequest (eventID senderPeerID : string) : M ack_verdict :=
  c ← gets coord;
  match ackTracking c !! eventID with
  | Some st =>
      if decide (ackParticipants st = []) then mret AckSkip
      else
        r ← attempt (GetPartyIDFromPeerID senderPeerID);
        match r with
        | Ok partyID =>
            if decide (partyID ∈ ackParticipants st) then
              mret (if decide (senderPeerID ∈ ackedBy st) then AckSkip else AckProcess)
            else mret (AckRefuse "sender is not a participant")
        | Err e | Panic e => mret (AckRefuse ("failed to get partyID for sender: " +:+ e))
        end
  | None => mret AckSkip
  end.
Definition on_ack (eventID senderPeerID : string) (m : M unit) : M unit :=
  v ← validateIncomingRequest eventID senderPeerID;
  match v with AckProcess => m | AckSkip => mret tt | AckRefuse e => throw e end.
Definition send_begin (eventID : string) (partyIDs : list string) : M unit :=
  for_each (λ party,
    r ← attempt (GetPeerIDFromPartyID party);
    match r with
    | Ok peer => rpc (Send peer (mkMessage MessageTypeBegin eventID [] partyIDs None None)) ;; mret tt
    | _ => mret tt
    end) partyIDs.
Definition handleUnsignedAck (senderPeerID eventID : string) : M unit :=
  on_ack eventID senderPeerID (
    c ← gets coord;
    match ackTracking c !! eventID with
    | Some st =>
        if decide (senderPeerID ∈ ackedBy st) then mret tt
        else
          let st' := mkAckState (ackParticipants st) ({[ senderPeerID ]} ∪ ackedBy st) (ackCount st + 1) in
          set_coord (λ c, c <| ackTracking ::= insert eventID st' |>) ;;
          if decide (ackCount st' = Z.of_nat (length (ackParticipants st))) then
            send_begin eventID (ackParticipants st) ;; CancelTracking eventID
          else mret tt
    | None => mret tt
    end).
Definition handleSignedAck (senderPeerID eventID : string) (signedData : SignedDataPayload) : M unit :=
  on_ack eventID senderPeerID (
    ev ← wrap ("event " +:+ eventID +:+ " not found in store") (GetEvent eventID);
    wrap ("event " +:+ eventID) (VerifySignedData ev (Some signedData)) ;;
    wrap "persist verified signature"
      (PersistSignature eventID (EventData ev) (SdSignature signedData) (SdSigningHash signedData)
         (SpNonce signedData) (SpAmount signedData)) ;;
    CancelTracking eventID).
Definition coordinator_HandleIncomingMessage (peerID : string) (msg : Message) : M unit :=
  match MsgType msg with
  | MessageTypeACK =>
      match MsgSignedData msg with
      | Some sd => handleSignedAck peerID (MsgEventID msg) sd
      | None => handleUnsignedAck peerID (MsgEventID msg)
      end
  | _ => throw "unknown coordinator message type"
  end.
End coordinator.
