(* ===== verification/UcSession.v ===== *)
(** * The universal client: sessions of the threshold protocol

    [tss/sessionmanager].  A client that is invited to a session checks the
    invitation against its own view of the event and of the validators, takes part in
    the protocol, and stores what comes out: a signature on the event's row, or a key
    share and a vote on Push Chain.  A signature announced by another client is
    checked in the same way before it is stored. *)
From S2P Require Import Prelude GoStrings UvTypes TssTypes UxTypes RegTypes World Canonical Utss UcStore UcCoord.
Import Uc.

Section sessions.
Context {E : Type} `{EV : Env E, CF : ClientConfig, CR : Crypto, SO : SortSlice}.
Implicit Types (n : Node E) (ev : Event).
#[local] Abbreviation M := (M (Node E)).

Definition get_session (eventID : string) : M (option sessionState) := gets (λ n, sessions n !! eventID).

(** ** What an invitation must satisfy *)
Definition eligible_addresses (l : list UV.UniversalValidator) : list string :=
  omap (λ v, UV.CoreValidatorAddress <$> UV.IdentifyInfo v) l.
Definition validateParticipants (parties : list string) ev : M unit :=
  eligible ← GetEligibleUV (EvType ev);
  require (negb (bool_decide (eligible = []))) "no eligible validators for protocol" ;;
  let eligibleList := eligible_addresses eligible in
  require (bool_decide (Forall (.∈ eligibleList) parties)) "participant is not eligible for protocol" ;;
  match EvType ev with
  | EventTypeKeygen | EventTypeKeyrefresh | EventTypeQuorumChange =>
      require (bool_decide (length parties = length eligibleList)) "participants count does not match eligible count" ;;
      require (bool_decide (Forall (.∈ parties) eligibleList)) "eligible participant is missing from participants list"
  | EventTypeSignOutbound | EventTypeSignFundMigrate =>
      require (bool_decide (CalculateThreshold (Z.of_nat (length eligibleList)) ≤ Z.of_nat (length parties)))
        "participants count is below required threshold"
  | _ => throw "unknown protocol type"
  end.

(** [GetClient] and [GetTxBuilder]: without them the check is skipped. *)
Definition if_builder (chain : string) (f : M unit) : M unit :=
  b ← rpc (GetTxBuilder chain); match b with Ok _ => f | _ => mret tt end.
Definition signing_req (req : option UnsignedSigningReq) : M UnsignedSigningReq :=
  r ← lift_option req "unsigned transaction request is required";
  require (negb (bool_decide (ReqSigningHash r = []))) "signing hash is missing in request" ;; mret r.
(** A nonce the chain has finalized is refused; an unknown one is let through. *)
Definition nonce_not_used (chain signer : string) (nonce : Z) : M unit :=
  f ← rpc (GetNextNonce chain signer true);
  match f with
  | Ok finalizedNonce => require (negb (bool_decide (nonce < finalizedNonce))) "nonce already used on chain"
  | _ => mret tt
  end.
Definition verifyOutboundSigningRequest ev (req : option UnsignedSigningReq) : M unit :=
  req ← signing_req req;
  d ← lift_option (EventData ev) "failed to parse outbound event data";
  let data := AsOutbound d in
  let chainID := OcDestinationChain data in
  require (negb (bool_decide (chainID = ""))) "destination chain is missing" ;;
  if has_chains then
    enabled ← rpc (IsChainOutboundEnabled chainID);
    require enabled "outbound disabled for chain, refusing to sign" ;;
    if_builder chainID (
      a ← attempt GetTSSAddress;
      match a with Ok tssAddr => nonce_not_used chainID tssAddr (ReqNonce req) | _ => mret tt end ;;
      ours ← wrap "failed to get signing request for verification"
               (ask (GetOutboundSigningRequest chainID data (ReqNonce req)));
      require (bool_decide (ReqSigningHash ours = ReqSigningHash req)) "signing hash mismatch")
  else mret tt.
Definition verifyFundMigrationSigningRequest ev (req : option UnsignedSigningReq) : M unit :=
  req ← signing_req req;
  d ← lift_option (EventData ev) "failed to parse fund migration event data";
  let data := AsMigration d in
  oldTSSAddr ← wrap "failed to derive old TSS address" (lift_res (DeriveEVMAddressFromPubkey (FmOldTssPubkey data)));
  currentTSSAddr ← wrap "failed to derive current TSS address"
                     (lift_res (DeriveEVMAddressFromPubkey (FmCurrentTssPubkey data)));
  if has_chains then
    if_builder (FmChain data) (
      nonce_not_used (FmChain data) oldTSSAddr (ReqNonce req) ;;
      ours ← wrap "failed to get fund migration signing request for verification"
               (ask (GetFundMigrationSigningRequest (FmChain data)
                       (migration_data data oldTSSAddr currentTSSAddr None) (ReqNonce req)));
      require (bool_decide (ReqSigningHash ours = ReqSigningHash req)) "fund migration signing hash mismatch" ;;
      amount ← lift_option (ReqAmount req) "coordinator's signing request is missing TSSFundMigrationAmount";
      (* [Cmp] of a nil amount *)
      oursAmount ← deref (ReqAmount ours);
      require (bool_decide (amount = oursAmount)) "TSSFundMigrationAmount mismatch")
  else mret tt.

(** [nil, nil] without signing data; an error when it is corrupt. *)
Definition extractSignedDataFromEvent ev : res (option SignedDataPayload) :=
  match EventData ev with
  | None => Err "unmarshal event_data"
  | Some d =>
      match SigningDataOf d with
      | None => Ok None
      | Some sd =>
          match hex_decode (to_bytes (Signature sd)), hex_decode (to_bytes (SigningHash sd)) with
          | Some sig, Some hash => Ok (Some (mkSignedDataPayload sig hash (SdNonce sd) (TSSFundMigrationAmount sd)))
          | None, _ => Err "decode signing_data.signature hex"
          | _, None => Err "decode signing_data.signing_hash hex"
          end
      end
  end.
Definition signed_data ev : option SignedDataPayload :=
  match extractSignedDataFromEvent ev with Ok sd => sd | _ => None end.

(** ** Opening a session *)
Definition sendACK (coordinatorPeerID eventID : string) (signedData : option SignedDataPayload) : M unit :=
  wrap "failed to send ACK message"
    (ask (Send coordinatorPeerID (mkMessage MessageTypeACK eventID [] [] None signedData))).
(** A key share that is missing is no share for a party that joins. *)
Definition joining_keyshare (keyID : string) : M (option (list Z)) :=
  k ← rpc (GetKeyshare keyID);
  match k with
  | Keyshare share => mret (Some share)
  | ErrKeyshareNotFound => mret None
  | KeyshareError e => throw ("failed to load keyshare for keyId " +:+ keyID +:+ ": " +:+ e)
  end.
Definition current_keyID : M string := k ← wrap "failed to get current TSS keyId" GetCurrentTSSKey; mret k.1.
Definition createSession ev (msg : Message) : M unit :=
  let threshold := CalculateThreshold (Z.of_nat (length (MsgParticipants msg))) in
  let key_session share := ask (NewKeySession (EvType ev) (MsgPayload msg) (MsgEventID msg) (MsgParticipants msg) threshold share) in
  let sign_session share :=
    req ← deref (MsgSigningReq msg);
    ask (NewSignSession (MsgPayload msg) (MsgEventID msg) (MsgParticipants msg) share (ReqSigningHash req)) in
  match EvType ev with
  | EventTypeKeygen => key_session None
  | EventTypeKeyrefresh => keyID ← current_keyID; share ← load_keyshare keyID; key_session (Some share)
  | EventTypeQuorumChange => keyID ← current_keyID; share ← joining_keyshare keyID; key_session share
  | EventTypeSignOutbound => keyID ← current_keyID; share ← load_keyshare keyID; sign_session share
  | EventTypeSignFundMigrate =>
      d ← lift_option (EventData ev) "failed to parse fund migration data";
      share ← load_keyshare (FmOldKeyID (AsMigration d)); sign_session share
  | _ => throw "unknown protocol type"
  end.
Definition verify_request ev (req : option UnsignedSigningReq) : M unit :=
  match EvType ev with
  | EventTypeSignOutbound => wrap "signing request verification failed" (verifyOutboundSigningRequest ev req)
  | EventTypeSignFundMigrate =>
      wrap "fund migration signing request verification failed" (verifyFundMigrationSigningRequest ev req)
  | _ => mret tt
  end.
Definition open_session (senderPeerID : string) ev (msg : Message) : M unit :=
  require (bool_decide (EvStatus ev = StatusConfirmed)) "event is not in confirmed status" ;;
  currentBlock ← wrap "failed to get current block for setup validation" (ask GetLatestBlock);
  require (negb (bool_decide (0 < ExpiryBlockHeight ev) && bool_decide (ExpiryBlockHeight ev ≤ currentBlock)))
    "event has expired" ;;
  wrap "participants validation failed" (validateParticipants (MsgParticipants msg) ev) ;;
  verify_request ev (MsgSigningReq msg) ;;
  wrap "failed to create session" (createSession ev msg) ;;
  now ← rpc Now;
  set_sessions (insert (MsgEventID msg)
    (mkSessionState (EvType ev) senderPeerID (now + sessionExpiryTime) (MsgParticipants msg) (MsgSigningReq msg))) ;;
  swallow (Update (MsgEventID msg) (set_status StatusInProgress)) ;;
  swallow (sendACK senderPeerID (MsgEventID msg) None).
Definition handleSetupMessage (senderPeerID : string) (msg : Message) : M unit :=
  s ← get_session (MsgEventID msg);
  match s with
  | Some _ => mret tt
  | None =>
      isCoord ← wrap "failed to check if sender is coordinator" (IsPeerCoordinator senderPeerID);
      require isCoord "sender is not the coordinator" ;;
      ev ← wrap "event not found in database" (GetEvent (MsgEventID msg));
      match signed_data ev with
      | Some sd => wrap "failed to send ACK with signed data" (sendACK senderPeerID (MsgEventID msg) (Some sd))
      | None => open_session senderPeerID ev msg
      end
  end.

(** ** Results *)
Definition handleSigningComplete (eventID : string) (eventData : option Payload) (signature : list Z)
    (req : option UnsignedSigningReq) : M unit :=
  r ← lift_option req "signing request is nil - cannot persist signing data";
  wrap "failed to persist signing data"
    (PersistSignature eventID eventData signature (ReqSigningHash r) (ReqNonce r) (ReqAmount r)) ;; mret tt.
Definition broadcastSignature (eventID : string) (sd : SignedDataPayload) : M unit :=
  l ← Validators;
  for_each (λ v,
    match UV.NetworkInfoOf v with
    | Some ni =>
        if decide (UV.PeerId ni = "" ∨ UV.CoreValidatorAddress <$> UV.IdentifyInfo v = Some validatorAddress) then mret tt
        else rpc (Send (UV.PeerId ni) (mkMessage MessageTypeSignatureBroadcast eventID [] [] None (Some sd))) ;; mret tt
    | None => mret tt
    end) l.
Definition handleSignFinished (eventID : string) (result : DklsResult) (req : option UnsignedSigningReq) : M unit :=
  ev ← wrap "failed to get event for broadcasting" (GetEvent eventID);
  handleSigningComplete eventID (EventData ev) (ResSignature result) req ;;
  r ← deref req;
  broadcastSignature eventID
    (mkSignedDataPayload (ResSignature result) (ReqSigningHash r) (ReqNonce r) (ReqAmount r)).
Definition handleKeyFinished (eventID : string) (result : DklsResult) : M unit :=
  let storageID := hex_of (Sum256 (ascii_bytes eventID)) in
  wrap "failed to store keyshare" (ask (StoreKeyshare (ResKeyshare result) storageID)) ;;
  voteTxHash ←
    (if has_push_signer then
       ev ← wrap "failed to get event for process ID extraction" (GetEvent eventID);
       d ← lift_option (EventData ev) "failed to parse process id from event data";
       v ← rpc (VoteTssKeyProcess (hex_of (ResPublicKey result)) storageID (ProcessID d));
       match v with
       | Ok voteTxHash => mret voteTxHash
       | Err e | Panic e =>
           swallow (Update eventID (set_status StatusReverted)) ;; throw ("TSS vote failed — marked REVERTED: " +:+ e)
       end
     else mret "");
  wrap "failed to update event status to completed"
    (Update eventID (λ r, r <| EvStatus := StatusCompleted |> <| VoteTxHash := voteTxHash |>)).
Definition cleanSession (eventID : string) : M unit := set_sessions (delete eventID) ;; rpc (CloseSession eventID).
(** [defer m]: [m] runs whatever the outcome. *)
Definition deferring (d m : M unit) : M unit :=
  λ n, let '(r, n') := m n in let '(_, n'') := d n' in (r, n'').
Definition handleSessionFinished (eventID : string) (state : sessionState) : M unit :=
  deferring (cleanSession eventID) (
    result ← wrap "failed to get result for session" (ask (GetResult eventID));
    if is_sign (protocolType state) then handleSignFinished eventID result (signingReq state)
    else handleKeyFinished eventID result).

(** ** Messages *)
Definition no_session {A} (eventID : string) : M A := throw ("session for event " +:+ eventID +:+ " does not exist").
Definition processSessionStep (eventID : string) : M unit :=
  s ← get_session eventID;
  match s with
  | None => no_session eventID
  | Some state =>
      r ← wrap "failed to step session" (ask (StepSession eventID));
      for_each (λ m,
        p ← attempt (GetPeerIDFromPartyID m.1);
        match p with
        | Ok peer => rpc (Send peer (mkMessage MessageTypeStep eventID m.2 [] None None)) ;; mret tt
        | _ => mret tt
        end) r.1 ;;
      if (r.2 : bool) then handleSessionFinished eventID state else mret tt
  end.
Definition handleStepMessage (senderPeerID : string) (msg : Message) : M unit :=
  s ← get_session (MsgEventID msg);
  match s with
  | None => no_session (MsgEventID msg)
  | Some state =>
      party ← wrap "failed to get partyID for sender" (GetPartyIDFromPeerID senderPeerID);
      require (bool_decide (party ∈ participants state)) "sender is not in session participants" ;;
      wrap "failed to input message to session" (ask (InputMessage (MsgEventID msg) (MsgPayload msg))) ;;
      processSessionStep (MsgEventID msg)
  end.
Definition handleBeginMessage (senderPeerID : string) (msg : Message) : M unit :=
  s ← get_session (MsgEventID msg);
  match s with
  | None => no_session (MsgEventID msg)
  | Some state =>
      require (bool_decide (senderPeerID = coordinatorPeer state)) "begin message must come from coordinator" ;;
      processSessionStep (MsgEventID msg)
  end.
Definition past_confirmed (st : EventStatus) : bool :=
  match st with StatusSigned | StatusBroadcasted | StatusCompleted | StatusReverted => true | _ => false end.
Definition handleSignatureBroadcast (msg : Message) : M unit :=
  ev ← wrap "event not found in database" (GetEvent (MsgEventID msg));
  if past_confirmed (EvStatus ev) then CancelTracking (MsgEventID msg)
  else
    require (is_sign (EvType ev)) "signature_broadcast for non-sign event type" ;;
    wrap "signature_broadcast" (VerifySignedData ev (MsgSignedData msg)) ;;
    sd ← deref (MsgSignedData msg);
    wrap "persist signature from broadcast"
      (handleSigningComplete (MsgEventID msg) (EventData ev) (SdSignature sd)
         (Some (mkUnsignedSigningReq (SdSigningHash sd) (SpNonce sd) (SpAmount sd)))) ;;
    CancelTracking (MsgEventID msg).
Definition session_HandleIncomingMessage (peerID : string) (msg : Message) : M unit :=
  match MsgType msg with
  | MessageTypeSetup => handleSetupMessage peerID msg
  | MessageTypeBegin => handleBeginMessage peerID msg
  | MessageTypeStep => handleStepMessage peerID msg
  | MessageTypeSignatureBroadcast => handleSignatureBroadcast msg
  | _ => throw "unknown message type"
  end.

(** ** Sessions that take too long *)
Definition expire_session (blockDelay : Z) (eventID : string) : M unit :=
  s ← get_session eventID;
  match s with
  | None => mret tt
  | Some _ =>
      b ← rpc GetLatestBlock;
      match b with
      | Ok currentBlock =>
          cleanSession eventID ;;
          r ← attempt (GetEvent eventID);
          match r with
          | Ok ev =>
              swallow (Update eventID
                (match signed_data ev with
                 | Some _ => set_status StatusSigned
                 | None => λ r, r <| EvStatus := StatusConfirmed |> <| EvBlockHeight := u64 (currentBlock + blockDelay) |>
                 end))
          | _ => mret tt
          end
      | _ => mret tt
      end
  end.
Definition checkExpiredSessions (blockDelay : Z) : M unit :=
  now ← rpc Now;
  expired ← gets (λ n, (List.filter (λ kv, bool_decide (expiryTime kv.2 < now)) (walk (sessions n))).*1);
  for_each (expire_session blockDelay) expired.
Definition expiry_tick : M unit :=
  checkExpiredSessions (if decide (sessionExpiryBlockDelay = 0) then 60 else sessionExpiryBlockDelay).

(** ** A message from the network ([tss.go]); an error is logged. *)
Definition onReceive (peerID : string) (msg : Message) : M unit :=
  swallow (match MsgType msg with
           | MessageTypeACK => coordinator_HandleIncomingMessage peerID msg
           | _ => session_HandleIncomingMessage peerID msg
           end).
End sessions.
