(* ===== verification/UcEvmTx.v ===== *)
(** * The universal client: transactions for an EVM chain

    [chains/evm/tx_builder.go]: an outbound becomes a call of the vault, a fund migration a
    transfer of what the retired key holds.  A builder is asked twice, by different nodes
    and at different times: for the hash to sign, and to assemble the transaction again
    around the signature and send it. *)
From S2P Require Import Prelude GoStrings UvTypes TssTypes UxTypes RegTypes World Canonical Utss UxPayload UxMsg.
From S2P Require Import UcStore UcChain UcEvm UcCoord.
From Stdlib Require Import Ascii.
Import Uc.

(** ** [go-ethereum]: the ABI encoding and transactions *)
Inductive AbiValue :=
| AbiBytes32 (bz : list Z) | AbiAddress (bz : list Z) | AbiUint256 (z : Z) | AbiBytes (bz : list Z)
| AbiRevertInstructions (revertRecipient revertMsg : list Z).      (* a tuple *)
Class EvmTxLib : Type := {
  abi_Pack : list AbiValue → res (list Z);
  signer_Hash : Z → LegacyTx → list Z;                     (* [NewEIP155Signer(chainID).Hash(tx)] *)
  WithSignature : Z → LegacyTx → list Z → option error;    (* why the signature does not apply *)
  tx_Hash : SignedEvmTx → list Z;
}.
(** How the builder of a chain was set up. *)
Class EvmBuilderConfig : Type := { chainIDInt : Z; vaultAddress : list Z }.

(** ** Strings *)
Definition removeHexPrefix (s : string) : string :=
  if String.prefix "0x" s then of_bytes (drop 2 (to_bytes s)) else s.
Definition decode_prefixed (s : string) : option (list Z) := hex_decode (to_bytes (removeHexPrefix s)).
(** [strconv.ParseInt(s, 10, 32)] *)
Definition ParseInt32 (s : string) : option Z :=
  n ← big_SetString s; if decide (- 2 ^ 31 ≤ n < 2 ^ 31) then Some n else None.
Definition TxType_values : list Ux.TxType :=
  [Ux.UNSPECIFIED_TX; Ux.GAS; Ux.GAS_AND_PAYLOAD; Ux.FUNDS; Ux.FUNDS_AND_PAYLOAD; Ux.PAYLOAD; Ux.INBOUND_REVERT; Ux.RESCUE_FUNDS].
Definition TxType_value (s : string) : option Ux.TxType := snd <$> list_find (λ t, TxType_String t = s) TxType_values.
Definition TxType_of (n : Z) : Ux.TxType :=
  default (Ux.TxType_other n) (snd <$> list_find (λ t, Ux.TxType_num t = n) TxType_values).
Definition parseTxType (txTypeStr : string) : res Ux.TxType :=
  let s := TrimSpace (ToUpper txTypeStr) in
  match TxType_value s with
  | Some t => Ok t
  | None => match ParseInt32 s with Some n => Ok (TxType_of n) | None => Err ("unknown tx type: " +:+ s) end
  end.
(** An identifier in 32 bytes, aligned to the right. *)
Definition id32 (bz : list Z) : res (list Z) :=
  if decide (32 < length bz)%nat then Panic "slice bounds out of range" else Ok (replicate (32 - length bz) 0 ++ bz).
(** [big.Int.Uint64]: the low 64 bits of the absolute value *)
Definition big_Uint64 (z : Z) : Z := u64 (Z.abs z).

Section builder.
Context `{CC : ChainCodecs, CR : Crypto, TL : EvmTxLib, BC : EvmBuilderConfig}.

Definition HexToAddress (s : string) : list Z := left_pad 20 ((λ c, Z.of_N (N_of_ascii c)) <$> Canonical.FromHex s).
Definition zero_address : list Z := replicate 20 0.

(** ** Outbounds *)
Definition parseGasLimit (gasLimitStr : string) : res Z :=
  if bool_decide (gasLimitStr = "") || bool_decide (gasLimitStr = "0") then Err "gas limit is required in outbound event"
  else match big_SetString gasLimitStr with Some z => Ok z | None => Err ("invalid gas limit: " +:+ gasLimitStr) end.
Definition determineFunctionName (txType : Ux.TxType) : string :=
  match txType with
  | Ux.INBOUND_REVERT => "revertUniversalTx"
  | Ux.RESCUE_FUNDS => "rescueFunds"
  | _ => "finalizeUniversalTx"
  end.
Definition getFunctionSignature (funcName : string) : string :=
  if decide (funcName = "finalizeUniversalTx") then "finalizeUniversalTx(bytes32,bytes32,address,address,address,uint256,bytes)"
  else if decide (funcName = "revertUniversalTx") then "revertUniversalTx(bytes32,bytes32,address,uint256,(address,bytes))"
  else if decide (funcName = "rescueFunds") then "rescueFunds(bytes32,bytes32,address,uint256,(address,bytes))"
  else "".
Definition funcSelector (funcName : string) : list Z := take 4 (Keccak256 (ascii_bytes (getFunctionSignature funcName))).
Definition call_values (funcName : string) (data : OutboundCreatedEvent) (amount : Z) (assetAddr txID32 universalTxID : list Z) :
    res (list AbiValue) :=
  let target := HexToAddress (OcRecipient data) in
  if decide (funcName = "finalizeUniversalTx") then
    Ok [AbiBytes32 txID32; AbiBytes32 universalTxID; AbiAddress (HexToAddress (OcSender data)); AbiAddress target;
        AbiAddress assetAddr; AbiUint256 amount; AbiBytes (default [] (decode_prefixed (OcPayload data)))]
  else if decide (funcName = "revertUniversalTx" ∨ funcName = "rescueFunds") then
    Ok [AbiBytes32 txID32; AbiBytes32 universalTxID; AbiAddress assetAddr; AbiUint256 amount;
        AbiRevertInstructions target (default [] (decode_prefixed (OcRevertMsg data)))]
  else Err ("unknown function name: " +:+ funcName).
Definition encodeFunctionCall (funcName : string) (data : OutboundCreatedEvent) (amount : Z) (assetAddr : list Z) : res (list Z) :=
  txIDBytes ← from_option Ok (Err ("invalid txID: " +:+ OcTxID data)) (decode_prefixed (OcTxID data));
  universalTxID ← from_option Ok (Err ("invalid universalTxID: " +:+ OcUniversalTxId data)) (decode_prefixed (OcUniversalTxId data));
  check (bool_decide (length universalTxID = 32%nat)) ("invalid universalTxID: " +:+ OcUniversalTxId data) ;;
  txID32 ← id32 txIDBytes;
  values ← call_values funcName data amount assetAddr txID32 universalTxID;
  encodedArgs ← wrap_res "failed to pack arguments" (abi_Pack values);
  Ok (funcSelector funcName ++ encodedArgs).

(** The call and the value of an outbound, as the request for a signature has them. *)
Definition vault_call (data : OutboundCreatedEvent) : res (list Z * Z) :=
  amount ← from_option Ok (Err ("invalid amount: " +:+ OcAmount data)) (big_SetString (OcAmount data));
  let assetAddr := HexToAddress (OcAssetAddr data) in
  txType ← wrap_res "invalid tx type" (parseTxType (OcTxType data));
  txData ← wrap_res "failed to encode function call" (encodeFunctionCall (determineFunctionName txType) data amount assetAddr);
  Ok (txData, if decide (assetAddr = zero_address) then amount else 0).
Definition evm_GetOutboundSigningRequest (data : OutboundCreatedEvent) (nonce : Z) : res UnsignedSigningReq :=
  check (negb (bool_decide (OcTxID data = ""))) "txID is required" ;;
  check (negb (bool_decide (OcDestinationChain data = ""))) "destinationChain is required" ;;
  gasPrice ← (if decide (OcGasPrice data = "") then Ok 0
              else from_option Ok (Err ("invalid gas price in event data: " +:+ OcGasPrice data)) (big_SetString (OcGasPrice data)));
  check (negb (bool_decide (gasPrice = 0))) "gas price is zero or missing in outbound event" ;;
  gasLimit ← parseGasLimit (OcGasLimit data);
  call ← vault_call data;
  let tx := mkLegacyTx nonce vaultAddress call.2 (big_Uint64 gasLimit) gasPrice call.1 in
  Ok (mkUnsignedSigningReq (signer_Hash chainIDInt tx) nonce None).
Definition apply_signature (tx : LegacyTx) (signature : list Z) : res SignedEvmTx :=
  match WithSignature chainIDInt tx signature with
  | None => Ok (mkSignedEvmTx chainIDInt tx signature)
  | Some e => Err ("failed to apply signature: " +:+ e)
  end.
(** The same as the broadcast has them, which parses the event anew. *)
Definition broadcast_call (data : OutboundCreatedEvent) : res (list Z * Z) :=
  amount ← from_option Ok (Err ("invalid amount: " +:+ OcAmount data)) (big_SetString (OcAmount data));
  let assetAddr := HexToAddress (OcAssetAddr data) in
  txType ← wrap_res "invalid tx type" (parseTxType (OcTxType data));
  txData ← wrap_res "failed to encode function call" (encodeFunctionCall (determineFunctionName txType) data amount assetAddr);
  Ok (txData, if decide (assetAddr = zero_address) then amount else 0).
Definition assembled_outbound (req : UnsignedSigningReq) (data : OutboundCreatedEvent) (signature : list Z) : res SignedEvmTx :=
  check (bool_decide (length signature = 65%nat)) "signature must be 65 bytes [r(32)|s(32)|v(1)]" ;;
  call ← broadcast_call data;
  gasLimit ← wrap_res "invalid gas limit" (parseGasLimit (OcGasLimit data));
  let gasPrice := if decide (OcGasPrice data = "") then 0 else lenient_int (OcGasPrice data) in
  apply_signature (mkLegacyTx (ReqNonce req) vaultAddress call.2 (big_Uint64 gasLimit) gasPrice call.1) signature.

(** ** Fund migrations *)
Definition computeFundMigrationTransfer (balance gasPrice gasLimit l1GasFee : Z) : res Z :=
  let gasCost := gasPrice * gasLimit in
  let totalFee := if decide (0 < l1GasFee) then gasCost + l1GasFee else gasCost in
  let maxTransfer := balance - totalFee in
  if decide (maxTransfer ≤ 0) then Err ("insufficient balance for gas: balance=" +:+ fmt_d balance) else Ok maxTransfer.
Definition migration_gas (data : FundMigrationData) : res unit :=
  check (negb (bool_decide (MgGasPrice data = 0))) "gas price must be provided for fund migration" ;;
  check (negb (bool_decide (MgGasLimit data = 0))) "gas limit must be provided for fund migration".
Definition migration_tx (data : FundMigrationData) (nonce amount : Z) : LegacyTx :=
  mkLegacyTx nonce (HexToAddress (MgTo data)) amount (MgGasLimit data) (MgGasPrice data) [].
Definition assembled_migration (req : UnsignedSigningReq) (data : FundMigrationData) (signature : list Z) : res SignedEvmTx :=
  check (bool_decide (length signature = 65%nat)) "signature must be 65 bytes [r(32)|s(32)|v(1)]" ;;
  migration_gas data ;;
  match ReqAmount req with
  | Some amount =>
      check (bool_decide (0 < amount)) "req.TSSFundMigrationAmount must be set for fund migration broadcast" ;;
      apply_signature (migration_tx data (ReqNonce req) amount) signature
  | None => Err "req.TSSFundMigrationAmount must be set for fund migration broadcast"
  end.

(** ** With the chain *)
Context {E : Type} `{EV : Env E}.
Implicit Types (n : Node E).
#[local] Abbreviation M := (M (Node E)).

Definition evm_GetFundMigrationSigningRequest (data : FundMigrationData) (nonce : Z) : M UnsignedSigningReq :=
  lift_res (migration_gas data) ;;
  balance ← match MgBalance data with
            | Some b => mret b
            | None => wrap "failed to get balance" (ask (GetBalance (HexToAddress (MgFrom data))))
            end;
  maxTransfer ← lift_res (computeFundMigrationTransfer balance (MgGasPrice data) (MgGasLimit data) (MgL1GasFee data));
  mret (mkUnsignedSigningReq (signer_Hash chainIDInt (migration_tx data nonce maxTransfer)) nonce (Some maxTransfer)).
(** The hash of what was sent, also when sending it failed. *)
Definition send_assembled (msg : string) (r : res SignedEvmTx) : M (string * option error) :=
  match r with
  | Ok tx =>
      let txHash := hex_string (tx_Hash tx) in
      a ← rpc (SendEvmTransaction tx);
      mret (txHash, match a with Ok _ => None | Err e | Panic e => Some (msg +:+ ": " +:+ e) end)
  | Err e => mret ("", Some e)
  | Panic e => panic e
  end.
Definition evm_BroadcastOutboundSigningRequest (req : UnsignedSigningReq) (data : OutboundCreatedEvent) (signature : list Z) :
    M (string * option error) := send_assembled "failed to broadcast transaction" (assembled_outbound req data signature).
Definition evm_BroadcastFundMigrationTx (req : UnsignedSigningReq) (data : FundMigrationData) (signature : list Z) :
    M (string * option error) := send_assembled "failed to broadcast fund migration tx" (assembled_migration req data signature).
Definition evm_GetNextNonce (signerAddress : string) (useFinalized : bool) : M Z :=
  require (negb (bool_decide (signerAddress = ""))) "signerAddress is required" ;;
  let signerAddr := HexToAddress signerAddress in
  if useFinalized then ask (NonceAt signerAddr None) else ask (PendingNonceAt signerAddr).
Definition evm_VerifyBroadcastedTx (txHash : string) : M TxReceipt :=
  r ← rpc (GetTransactionReceipt (evm_HexToHash txHash));
  match r with
  | Ok receipt =>
      l ← rpc ChainHead;
      let confs := match l with
                   | Ok latestBlock =>
                       if decide (RcBlockNumber receipt ≤ latestBlock) then u64 (latestBlock - RcBlockNumber receipt + 1) else 0
                   | _ => 0
                   end in
      mret (mkTxReceipt true (RcBlockNumber receipt) confs (RcStatus receipt mod 256))
  | _ => mret (mkTxReceipt false 0 0 0)
  end.
Definition evm_GetGasFeeUsed (txHash : string) : M string :=
  let hash := evm_HexToHash txHash in
  r ← rpc (GetTransactionReceipt hash);
  match r with
  | Ok receipt =>
      p ← rpc (GetTransactionGasPrice hash);
      match p with
      | Ok gasPrice => mret (if decide (gasPrice = 0) then "0" else fmt_d (RcGasUsed receipt * gasPrice))
      | _ => mret "0"
      end
  | _ => mret "0"
  end.
(** Replay is the nonce's affair. *)
Definition evm_IsAlreadyExecuted (txID : string) : M (bool * Z * option error) := mret (false, 0, None).
End builder.
