(* ===== verification/UcSvmTx.v ===== *)
(** * The universal client: transactions for Solana

    [chains/svm/tx_builder.go] and [rent_reclaimer.go]: the message that the threshold key
    signs, the instructions of the gateway program that carry it, and the two-step route
    for payloads that do not fit one transaction. *)
From S2P Require Import Prelude GoStrings UvTypes TssTypes UxTypes RegTypes World Canonical Utss UxPayload UxMsg.
From S2P Require Import UcStore UcChain UcEvm UcSvm UcCoord UcEvmTx.
From Stdlib Require Import Ascii.
Import Uc.

(** ** [solana-go]: derived addresses, known programs, transactions *)
Class SvmTxLib : Type := {
  FindProgramAddress : list (list Z) → list Z → res (list Z);
  PublicKeyOf : list Z → list Z;                            (* of a private key *)
  NewTransaction : SvmTx → option error;                    (* why there is no such transaction *)
  SignTransaction : SvmTx → list Z → option error;
  MarshalSize : SvmTx → option nat;
  SystemProgramID : list Z; TokenProgramID : list Z; SPLAssociatedTokenAccountProgramID : list Z;
  SysVarRentPubkey : list Z; ComputeBudget : list Z;
}.
(** How the builder was set up; a lookup table that is not configured is zero. *)
Class SvmBuilderConfig : Type := {
  svmChainID : string; gatewayAddress : list Z; protocolALT : list Z; tokenALTs : gmap (list Z) (list Z);
  reclaimMinAge : Z;                                        (* nanoseconds *)
}.

(** ** Constants of the gateway program *)
Definition configSeed : list Z := ascii_bytes "config".
Definition vaultSeed : list Z := ascii_bytes "vault".
Definition feeVaultSeed : list Z := ascii_bytes "fee_vault".
Definition tssSeed : list Z := ascii_bytes "final_tss_pda".
Definition executedSubTxSeed : list Z := ascii_bytes "executed_sub_tx".
Definition ceaAuthoritySeed : list Z := ascii_bytes "push_identity".
Definition rateLimitConfigSeed : list Z := ascii_bytes "rate_limit_config".
Definition tokenRateLimitSeed : list Z := ascii_bytes "rate_limit".
Definition storedIxDataSeed : list Z := ascii_bytes "stored_ix_data".
Definition tssMessagePrefix : list Z := ascii_bytes "PUSH_CHAIN_SVM".
Definition discStoreExecuteIxData : list Z := [177; 199; 114; 191; 66; 93; 93; 110].
Definition discFinalizeUniversalTxRef : list Z := [143; 158; 113; 225; 174; 35; 57; 141].
Definition discCloseStoredIxData : list Z := [58; 81; 153; 208; 99; 218; 247; 14].
Definition maxDirectTxSize : nat := 1180.
Definition maxRefRouteIxData : nat := 921.
Definition defaultComputeUnitLimit : Z := 400000.
Definition zero_key : list Z := replicate 32 0.

(** ** Payloads *)
Record GatewayAccountMeta := mkGatewayAccountMeta { GaPubkey : list Z; GaIsWritable : bool }.
Definition be_uint : list Z → Z := SetBytes.
(** [n] accounts of 33 bytes *)
Fixpoint payload_accounts (n : nat) (bz : list Z) : list GatewayAccountMeta :=
  match n with
  | O => []
  | S n' => mkGatewayAccountMeta (take 32 bz) (bool_decide (bz !! 32%nat = Some 1)) :: payload_accounts n' (drop 33 bz)
  end.
Definition svm_decodePayload (payload : list Z) : res (list GatewayAccountMeta * list Z * Z * list Z) :=
  let len := Z.of_nat (length payload) in
  check (bool_decide (41 ≤ len)) "payload too short" ;;
  let accountsCount := be_uint (take 4 payload) in
  let ixDataLenOff := u64 (4 + u64 (accountsCount * 33)) in
  check (bool_decide (u64 (ixDataLenOff + 4) ≤ len)) "payload too short for accounts" ;;
  let ixDataLen := be_uint (take 4 (drop (Z.to_nat ixDataLenOff) payload)) in
  let expectedLen := u64 (ixDataLenOff + 4 + ixDataLen + 1 + 32) in
  check (bool_decide (expectedLen ≤ len)) "payload too short" ;;
  check (bool_decide (len ≤ expectedLen)) "payload has trailing bytes" ;;
  let ixDataOff := (Z.to_nat ixDataLenOff + 4)%nat in
  let instrIDOff := (ixDataOff + Z.to_nat ixDataLen)%nat in
  instructionID ← from_option Ok (Panic "index out of range") (payload !! instrIDOff);
  check (bool_decide (instructionID = 1) || bool_decide (instructionID = 2)) "invalid instruction_id" ;;
  check (negb (bool_decide (instructionID = 1) && (negb (bool_decide (accountsCount = 0)) || negb (bool_decide (ixDataLen = 0)))))
    "withdraw payload must have accountsCount=0 and ixDataLen=0" ;;
  Ok (payload_accounts (Z.to_nat accountsCount) (drop 4 payload), take (Z.to_nat ixDataLen) (drop ixDataOff payload), instructionID,
      take 32 (drop (S instrIDOff) payload)).
(** Eight flags to a byte, the first in its highest bit. *)
Fixpoint flag_byte (bit : Z) (flags : list bool) : Z :=
  match flags with [] => 0 | b :: fs => Z.lor (if b then Z.shiftl 1 bit else 0) (flag_byte (bit - 1) fs) end.
Fixpoint flag_bytes (fuel : nat) (flags : list bool) : list Z :=
  match fuel, flags with
  | S fuel, _ :: _ => flag_byte 7 (take 8 flags) :: flag_bytes fuel (drop 8 flags)
  | _, _ => []
  end.
Definition accountsToWritableFlags (accounts : list GatewayAccountMeta) : list Z :=
  flag_bytes (length accounts) (GaIsWritable <$> accounts).

(** [strconv.ParseUint(s, 10, 64)], its error dropped: the greatest value when it is out of range *)
Fixpoint parse_uint64 (acc : Z) (l : bytes) : Z :=
  match l with
  | [] => acc
  | c :: l' =>
      match digit c with
      | None => 0
      | Some d => if decide (2 ^ 64 ≤ 10 * acc + d) then 2 ^ 64 - 1 else parse_uint64 (10 * acc + d) l'
      end
  end.
Definition determineInstructionID (txType : Ux.TxType) : res Z :=
  match txType with
  | Ux.FUNDS => Ok 1
  | Ux.FUNDS_AND_PAYLOAD | Ux.GAS_AND_PAYLOAD => Ok 2
  | Ux.INBOUND_REVERT => Ok 3
  | Ux.RESCUE_FUNDS => Ok 4
  | _ => Err ("unsupported tx type for SVM: " +:+ TxType_String txType)
  end.
Definition returns_funds (txType : Ux.TxType) : bool :=
  match txType with Ux.INBOUND_REVERT | Ux.RESCUE_FUNDS => true | _ => false end.
Definition native_asset (assetAddr : string) : bool :=
  bool_decide (assetAddr = "") || bool_decide (assetAddr = "0x0")
  || bool_decide (assetAddr = "0x0000000000000000000000000000000000000000").

Section builder.
Context `{CC : ChainCodecs, CR : Crypto, SL : SvmTxLib, BC : SvmBuilderConfig}.

(** ** The fields of an outbound *)
Definition svm_pubkey (what s : string) : res (list Z) :=
  let from_hex := match decode_prefixed s with
                  | Some h => if decide (length h = 32%nat) then Ok h else Err (what +:+ s)
                  | None => Err (what +:+ s)
                  end in
  match base58_Decode s with Ok bz => if decide (length bz = 32%nat) then Ok bz else from_hex | _ => from_hex end.
Definition svm_amount (data : OutboundCreatedEvent) : res Z :=
  amount ← from_option Ok (Err ("invalid amount: " +:+ OcAmount data)) (big_SetString (OcAmount data));
  check (bool_decide (0 ≤ amount < 2 ^ 64)) ("amount exceeds u64 max: " +:+ OcAmount data) ;; Ok amount.
Record SvmFields := mkSvmFields {
  SfTxID : list Z; SfUniversalTxID : list Z; SfSender : list Z; SfMint : list Z; SfGasFee : Z; SfRecipient : list Z }.
Definition svm_fields (data : OutboundCreatedEvent) : res SvmFields :=
  txIDBytes ← from_option Ok (Err ("invalid txID: " +:+ OcTxID data)) (decode_prefixed (OcTxID data));
  txID ← id32 txIDBytes;
  utxIDBytes ← from_option Ok (Err ("invalid universalTxID: " +:+ OcUniversalTxId data)) (decode_prefixed (OcUniversalTxId data));
  universalTxID ← id32 utxIDBytes;
  sender ← from_option Ok (Err ("invalid sender: " +:+ OcSender data)) (decode_prefixed (OcSender data));
  check (bool_decide (length sender = 20%nat)) "invalid sender length" ;;
  mint ← (if native_asset (OcAssetAddr data) then Ok zero_key else svm_pubkey "invalid asset address format: " (OcAssetAddr data));
  recipient ← svm_pubkey "invalid recipient address format: " (OcRecipient data);
  Ok (mkSvmFields txID universalTxID sender mint (parse_uint64 0 (to_bytes (OcGasFee data))) recipient).
(** The accounts, the data and the target of the payload, and what the gateway is to do:
    as the payload says, or the type when there is none. *)
Definition svm_mode (data : OutboundCreatedEvent) (txType : Ux.TxType) : res (list GatewayAccountMeta * list Z * Z * list Z) :=
  if returns_funds txType then
    instructionID ← wrap_res "failed to determine instruction ID" (determineInstructionID txType);
    Ok ([], [], instructionID, zero_key)
  else
    match decode_prefixed (OcPayload data) with
    | None => Err "failed to decode payload hex"
    | Some [] =>
        instructionID ← wrap_res "failed to determine instruction ID" (determineInstructionID txType);
        Ok ([], [], instructionID, zero_key)
    | Some payload => wrap_res "failed to decode payload" (svm_decodePayload payload)
    end.

(** ** The message *)
Record TSSMessage := mkTSSMessage {
  MInstructionID : Z; MChainID : list Z; MDeadline : Z; MAmount : Z; MTxID : list Z; MUniversalTxID : list Z;
  MSender : list Z; MToken : list Z; MGasFee : Z; MTarget : list Z; MAccounts : list GatewayAccountMeta; MIxData : list Z;
  MRevertRecipient : list Z; MRevertMint : list Z; MRevertMsg : list Z }.
Definition account_bytes (a : GatewayAccountMeta) : list Z := GaPubkey a ++ [if GaIsWritable a then 1 else 0].
Definition tss_message (m : TSSMessage) : res (list Z) :=
  let head := tssMessagePrefix ++ [MInstructionID m] ++ MChainID m ++ be_bytes 8 (u64 (MDeadline m)) ++ be_bytes 8 (MAmount m) in
  let ids := MTxID m ++ MUniversalTxID m in
  let gasFee := be_bytes 8 (MGasFee m) in
  let withdraw := ids ++ MSender m ++ MToken m ++ gasFee ++ MTarget m in
  let mint := if decide (MRevertMint m = zero_key) then [] else MRevertMint m in
  if decide (MInstructionID m = 1) then Ok (head ++ withdraw)
  else if decide (MInstructionID m = 2) then
    Ok (head ++ withdraw ++ be_bytes 4 (Z.of_nat (length (MAccounts m))) ++ mjoin (account_bytes <$> MAccounts m)
          ++ be_bytes 4 (Z.of_nat (length (MIxData m))) ++ MIxData m)
  else if decide (MInstructionID m = 3) then
    Ok (head ++ ids ++ mint ++ MRevertRecipient m ++ gasFee ++ Keccak256 (MRevertMsg m))
  else if decide (MInstructionID m = 4) then Ok (head ++ ids ++ mint ++ MRevertRecipient m ++ gasFee)
  else Err "unknown instruction ID".
Definition constructTSSMessage (m : TSSMessage) : res (list Z) := Keccak256 <$> tss_message m.
(** What is signed for an outbound on the cluster [chainID]. *)
Definition outbound_message (data : OutboundCreatedEvent) (amount : Z) (txType : Ux.TxType) (chainID : list Z) : res TSSMessage :=
  f ← svm_fields data;
  mode ← svm_mode data txType;
  let '(accounts, ixData, instructionID, payloadTarget) := mode in
  if returns_funds txType then
    Ok (mkTSSMessage instructionID chainID (OcSigningDeadline data) amount (SfTxID f) (SfUniversalTxID f) (SfSender f) (SfMint f)
          (SfGasFee f) zero_key [] [] (SfRecipient f) (SfMint f)
          (if decide (instructionID = 3) then default [] (decode_prefixed (OcRevertMsg data)) else []))
  else
    check (negb (bool_decide (instructionID = 1) && bool_decide (amount = 0))) "withdraw mode: amount must be > 0" ;;
    Ok (mkTSSMessage instructionID chainID (OcSigningDeadline data) amount (SfTxID f) (SfUniversalTxID f) (SfSender f) (SfMint f)
          (SfGasFee f) (if decide (payloadTarget = zero_key) then SfRecipient f else payloadTarget) accounts ixData zero_key zero_key []).

(** ** Instruction data *)
Definition anchorDiscriminator (methodName : string) : list Z := take 8 (Sum256 (ascii_bytes ("global:" +:+ methodName))).
Definition vec (bz : list Z) : list Z := le_bytes 4 (Z.of_nat (length bz)) ++ bz.
(** How every instruction of the gateway ends. *)
Definition signed_tail (gasFee deadline : Z) (signature : list Z) (recoveryID : Z) (messageHash : list Z) : list Z :=
  le_bytes 8 gasFee ++ le_bytes 8 (u64 deadline) ++ signature ++ [recoveryID] ++ messageHash.
Definition buildWithdrawAndExecuteData (instructionID : Z) (txID universalTxID : list Z) (amount : Z) (sender writableFlags ixData : list Z)
    (gasFee deadline : Z) (signature : list Z) (recoveryID : Z) (messageHash : list Z) : list Z :=
  anchorDiscriminator "finalize_universal_tx" ++ [instructionID] ++ txID ++ universalTxID ++ le_bytes 8 amount ++ sender
    ++ vec writableFlags ++ vec ixData ++ signed_tail gasFee deadline signature recoveryID messageHash.
Definition buildWithdrawAndExecuteRefData (instructionID : Z) (subTxID universalTxID : list Z) (amount : Z)
    (pushAccount ixDataHash writableFlags : list Z) (gasFee deadline : Z) (signature : list Z) (recoveryID : Z) (messageHash : list Z) : list Z :=
  discFinalizeUniversalTxRef ++ [instructionID] ++ subTxID ++ universalTxID ++ le_bytes 8 amount ++ pushAccount
    ++ ixDataHash ++ vec writableFlags ++ signed_tail gasFee deadline signature recoveryID messageHash.
Definition buildRevertData (txID universalTxID : list Z) (amount : Z) (revertRecipient revertMsg : list Z) (gasFee deadline : Z)
    (signature : list Z) (recoveryID : Z) (messageHash : list Z) : list Z :=
  anchorDiscriminator "revert_universal_tx" ++ txID ++ universalTxID ++ le_bytes 8 amount ++ revertRecipient ++ vec revertMsg
    ++ signed_tail gasFee deadline signature recoveryID messageHash.
Definition buildRescueData (txID universalTxID : list Z) (amount gasFee deadline : Z) (signature : list Z) (recoveryID : Z)
    (messageHash : list Z) : list Z :=
  anchorDiscriminator "rescue_funds" ++ txID ++ universalTxID ++ le_bytes 8 amount
    ++ signed_tail gasFee deadline signature recoveryID messageHash.
Definition buildStoreIxDataData (subTxID ixDataHash ixData : list Z) : list Z :=
  discStoreExecuteIxData ++ subTxID ++ ixDataHash ++ vec ixData.

(** ** Accounts *)
Definition readonly (k : list Z) : AccountMeta := mkAccountMeta k false false.
Definition writable (k : list Z) : AccountMeta := mkAccountMeta k true false.
Definition signer (k : list Z) : AccountMeta := mkAccountMeta k true true.
(** An optional account that is not there. *)
Definition absent : AccountMeta := readonly gatewayAddress.
(** An address whose derivation cannot fail in practice: zero when it does. *)
Definition pda_or_zero (seeds : list (list Z)) (program : list Z) : list Z :=
  match FindProgramAddress seeds program with Ok k => k | _ => zero_key end.
Definition ata (owner mint : list Z) : list Z := pda_or_zero [owner; TokenProgramID; mint] SPLAssociatedTokenAccountProgramID.
Definition buildWithdrawAndExecuteAccounts (caller configPDA vaultPDA ceaAuthorityPDA tssPDA executedTxPDA destinationProgram : list Z)
    (isNative : bool) (instructionID : Z) (recipientPubkey mintPubkey : list Z) (execAccounts : list GatewayAccountMeta)
    (storedIxDataPDA storeRefundRecipient : list Z) : list AccountMeta :=
  let withdraw := bool_decide (instructionID = 1) in
  [signer caller; readonly configPDA; writable vaultPDA; writable ceaAuthorityPDA; writable tssPDA; writable executedTxPDA;
   readonly SystemProgramID; readonly destinationProgram]
  ++ (if withdraw then writable recipientPubkey else absent)
     :: (if isNative then replicate 7 absent
         else [writable (ata vaultPDA mintPubkey); writable (ata ceaAuthorityPDA mintPubkey); readonly mintPubkey; readonly TokenProgramID;
               readonly SysVarRentPubkey; readonly SPLAssociatedTokenAccountProgramID;
               if withdraw then writable (ata recipientPubkey mintPubkey) else absent])
  ++ (if decide (destinationProgram = gatewayAddress)
      then [readonly (pda_or_zero [rateLimitConfigSeed] gatewayAddress);
            writable (pda_or_zero [tokenRateLimitSeed; if isNative then zero_key else mintPubkey] gatewayAddress)]
      else [absent; absent])
  ++ [if decide (storedIxDataPDA = zero_key) then absent else writable storedIxDataPDA;
      if decide (storeRefundRecipient = zero_key) then absent else writable storeRefundRecipient]
  ++ (if decide (instructionID = 2) then (λ a, mkAccountMeta (GaPubkey a) (GaIsWritable a) false) <$> execAccounts else []).
Definition buildRevertAccounts (configPDA vaultPDA feeVaultPDA tssPDA recipient executedTxPDA caller : list Z) (isNative : bool)
    (mintPubkey : list Z) : list AccountMeta :=
  [readonly configPDA; writable vaultPDA; writable feeVaultPDA; writable tssPDA; writable recipient; writable executedTxPDA;
   signer caller; readonly SystemProgramID]
  ++ (if isNative then replicate 4 absent
      else [writable (ata vaultPDA mintPubkey); writable (ata recipient mintPubkey); readonly mintPubkey; readonly TokenProgramID]).
Definition buildStoreIxDataAccounts (caller storedIxDataPDA : list Z) : list AccountMeta :=
  [signer caller; writable storedIxDataPDA; readonly SystemProgramID].
Definition buildCloseStoredIxDataAccounts (caller storedIxDataPDA executedSubTxPDA : list Z) : list AccountMeta :=
  [signer caller; writable storedIxDataPDA; writable caller; readonly executedSubTxPDA].
Definition buildSetComputeUnitLimitInstruction (units : Z) : SvmInstruction :=
  mkSvmInstruction ComputeBudget [] (2 :: le_bytes 4 units).
Definition buildCreateATAIdempotentInstruction (payer owner mint : list Z) : SvmInstruction :=
  mkSvmInstruction SPLAssociatedTokenAccountProgramID
    [signer payer; writable (ata owner mint); readonly owner; readonly mint; readonly SystemProgramID; readonly TokenProgramID] [1].

(** ** With the chain *)
Context {E : Type} `{EV : Env E}.
Implicit Types (n : Node E).
#[local] Abbreviation M := (M (Node E)).

(** [TssPda]: a discriminator, 20 bytes, the name of the cluster with its length, and a byte *)
Definition fetchTSSChainID (tssPDA : list Z) : M (list Z) :=
  accountData ← wrap "failed to fetch TSS PDA account" (ask (GetAccountData tssPDA));
  require (bool_decide (32 ≤ length accountData)%nat) "invalid TSS PDA account data: too short" ;;
  let chainIDLen := le_uint (take 4 (drop 28 accountData)) in
  require (bool_decide (32 + chainIDLen + 1 ≤ Z.of_nat (length accountData)))
    "invalid TSS PDA account data: too short for chain_id" ;;
  mret (take (Z.to_nat chainIDLen) (drop 32 accountData)).
Definition find_pda (msg : string) (seeds : list (list Z)) : M (list Z) :=
  wrap msg (lift_res (FindProgramAddress seeds gatewayAddress)).
Definition svm_GetOutboundSigningRequest (data : OutboundCreatedEvent) (nonce : Z) : M UnsignedSigningReq :=
  require (negb (bool_decide (OcTxID data = ""))) "txID is required" ;;
  require (negb (bool_decide (OcDestinationChain data = ""))) "destinationChain is required" ;;
  amount ← lift_res (svm_amount data);
  txType ← wrap "invalid tx type" (lift_res (parseTxType (OcTxType data)));
  tssPDA ← find_pda "failed to derive TSS PDA" [tssSeed];
  chainID ← wrap "failed to fetch chain ID from TSS PDA" (fetchTSSChainID tssPDA);
  m ← lift_res (outbound_message data amount txType chainID);
  hash ← wrap "failed to construct TSS message" (lift_res (constructTSSMessage m));
  mret (mkUnsignedSigningReq hash nonce None).

Definition loadRelayerKeypair : M (list Z) :=
  let namespace := chain_namespace svmChainID in
  require (negb (bool_decide (namespace = ""))) "empty namespace in chain ID" ;;
  key ← wrap "failed to read relayer key file" (ask (ReadKeyFile namespace));
  require (bool_decide (length key = 64%nat)) "invalid key length" ;; mret key.
Fixpoint fetch_tables (alts : list (list Z)) (tables : gmap (list Z) (list (list Z))) : M (gmap (list Z) (list (list Z))) :=
  match alts with
  | [] => mret tables
  | alt :: alts =>
      addresses ← wrap "failed to fetch ALT" (ask (GetAddressLookupTable alt));
      fetch_tables alts (<[alt := addresses]> tables)
  end.
Definition fetchAddressTables (mint : list Z) (isNative : bool) : M (gmap (list Z) (list (list Z))) :=
  fetch_tables ((if decide (protocolALT = zero_key) then [] else [protocolALT])
                ++ (if isNative then [] else option_list (tokenALTs !! mint))) ∅.
(** [NewTransaction] and its signature by the relayer, who pays. *)
Definition signed_by_relayer (what : string) (instructions : list SvmInstruction) (blockhash key : list Z)
    (tables : gmap (list Z) (list (list Z))) : M SvmTx :=
  let tx := mkSvmTx instructions blockhash (PublicKeyOf key) tables in
  match NewTransaction tx with
  | Some e => throw ("failed to create " +:+ what +:+ ": " +:+ e)
  | None => match SignTransaction tx key with Some e => throw ("failed to sign " +:+ what +:+ ": " +:+ e) | None => mret tx end
  end.
(** The tables that could not be fetched are not used. *)
Definition tables_or_none (mint : list Z) (isNative : bool) : M (gmap (list Z) (list (list Z))) :=
  r ← attempt (fetchAddressTables mint isNative); mret (match r with Ok t => t | _ => ∅ end).
Definition signature_parts (signature : list Z) : M (list Z * Z) :=
  require (bool_decide (length signature = 65%nat)) "signature must be 65 bytes [r(32)|s(32)|v(1)]" ;;
  mret (take 64 signature, default 0 (signature !! 64%nat)).
(** The instruction of the gateway for a way to settle. *)
Definition gateway_instruction (data : OutboundCreatedEvent) (f : SvmFields) (amount instructionID : Z) (execAccounts : list GatewayAccountMeta)
    (ixData signature : list Z) (recoveryID : Z) (messageHash relayer : list Z) : M SvmInstruction :=
  let isNative := native_asset (OcAssetAddr data) in
  let deadline := OcSigningDeadline data in
  configPDA ← find_pda "failed to derive config PDA" [configSeed];
  vaultPDA ← find_pda "failed to derive vault PDA" [vaultSeed];
  tssPDA ← find_pda "failed to derive TSS PDA" [tssSeed];
  executedTxPDA ← find_pda "failed to derive executed_tx PDA" [executedSubTxSeed; SfTxID f];
  feeVaultPDA ← find_pda "failed to derive fee_vault PDA" [feeVaultSeed];
  if decide (instructionID = 1 ∨ instructionID = 2) then
    let execute := bool_decide (instructionID = 2) in
    ceaAuthorityPDA ← find_pda "failed to derive cea_authority PDA" [ceaAuthoritySeed; SfSender f];
    mret (mkSvmInstruction gatewayAddress
      (buildWithdrawAndExecuteAccounts relayer configPDA vaultPDA ceaAuthorityPDA tssPDA executedTxPDA
         (if execute then SfRecipient f else SystemProgramID) isNative instructionID (SfRecipient f) (SfMint f) execAccounts zero_key zero_key)
      (buildWithdrawAndExecuteData instructionID (SfTxID f) (SfUniversalTxID f) amount (SfSender f)
         (if execute then accountsToWritableFlags execAccounts else []) (if execute then ixData else [])
         (SfGasFee f) deadline signature recoveryID messageHash))
  else
    let accounts := buildRevertAccounts configPDA vaultPDA feeVaultPDA tssPDA (SfRecipient f) executedTxPDA relayer isNative (SfMint f) in
    mret (mkSvmInstruction gatewayAddress accounts
      (if decide (instructionID = 3)
       then buildRevertData (SfTxID f) (SfUniversalTxID f) amount (SfRecipient f) (default [] (decode_prefixed (OcRevertMsg data)))
              (SfGasFee f) deadline signature recoveryID messageHash
       else buildRescueData (SfTxID f) (SfUniversalTxID f) amount (SfGasFee f) deadline signature recoveryID messageHash)).
Definition BuildOutboundTransaction (req : UnsignedSigningReq) (data : OutboundCreatedEvent) (signature : list Z) : M (SvmTx * Z) :=
  sig ← signature_parts signature;
  key ← wrap "failed to load relayer keypair" loadRelayerKeypair;
  amount ← lift_res (svm_amount data);
  txType ← wrap "invalid tx type" (lift_res (parseTxType (OcTxType data)));
  f ← lift_res (svm_fields data);
  mode ← lift_res (svm_mode data txType);
  let '(execAccounts, ixData, instructionID, _) := mode in
  let relayer := PublicKeyOf key in
  let isNative := native_asset (OcAssetAddr data) in
  ix ← gateway_instruction data f amount instructionID execAccounts ixData sig.1 sig.2 (ReqSigningHash req) relayer;
  let needsRecipientATA := negb isNative && negb (bool_decide (instructionID = 2)) in
  let instructions := buildSetComputeUnitLimitInstruction defaultComputeUnitLimit
    :: (if needsRecipientATA then [buildCreateATAIdempotentInstruction relayer (SfRecipient f) (SfMint f)] else []) ++ [ix] in
  blockhash ← wrap "failed to get recent blockhash" (ask GetRecentBlockhash);
  tables ← tables_or_none (SfMint f) isNative;
  tx ← signed_by_relayer "transaction" instructions blockhash key tables;
  mret (tx, instructionID).

(** ** The route over stored data *)
Definition storedIxDataRefundRecipientOffset : nat := 41.
Definition storedIxDataMinLen : nat := 77.
Definition BuildRefRouteTransactions (req : UnsignedSigningReq) (data : OutboundCreatedEvent) (signature : list Z) : M (SvmTx * SvmTx * list Z) :=
  sig ← signature_parts signature;
  key ← wrap "failed to load relayer keypair" loadRelayerKeypair;
  amount ← lift_res (svm_amount data);
  f ← lift_res (svm_fields data);
  payload ← lift_option (decode_prefixed (OcPayload data)) "failed to decode payload hex";
  mode ← match payload with
         | [] => throw "ref route only valid for execute mode (instruction_id=2)"
         | _ => wrap "failed to decode payload" (lift_res (svm_decodePayload payload))
         end;
  let '(execAccounts, ixData, instructionID, _) := mode in
  require (bool_decide (instructionID = 2)) "ref route only valid for execute mode (instruction_id=2)" ;;
  require (negb (bool_decide (ixData = []))) "ref route requires non-empty ix_data" ;;
  require (bool_decide (length ixData ≤ maxRefRouteIxData)%nat) "ix_data size exceeds ref-route max" ;;
  let relayer := PublicKeyOf key in
  let isNative := native_asset (OcAssetAddr data) in
  let ixDataHash := Keccak256 ixData in
  configPDA ← find_pda "failed to derive config PDA" [configSeed];
  vaultPDA ← find_pda "failed to derive vault PDA" [vaultSeed];
  tssPDA ← find_pda "failed to derive TSS PDA" [tssSeed];
  executedTxPDA ← find_pda "failed to derive executed_tx PDA" [executedSubTxSeed; SfTxID f];
  ceaAuthorityPDA ← find_pda "failed to derive cea_authority PDA" [ceaAuthoritySeed; SfSender f];
  storedIxDataPDA ← find_pda "failed to derive stored_ix_data PDA" [storedIxDataSeed; SfTxID f; ixDataHash];
  r ← rpc (GetAccountData storedIxDataPDA);
  let existing := match r with Ok d => d | _ => [] end in
  let storeRefundRecipient :=
    if decide (storedIxDataRefundRecipientOffset + 32 ≤ length existing)%nat
    then take 32 (drop storedIxDataRefundRecipientOffset existing) else relayer in
  blockhash ← wrap "failed to get recent blockhash" (ask GetRecentBlockhash);
  storeTx ← signed_by_relayer "store tx"
              [mkSvmInstruction gatewayAddress (buildStoreIxDataAccounts relayer storedIxDataPDA)
                 (buildStoreIxDataData (SfTxID f) ixDataHash ixData)] blockhash key ∅;
  let refInstruction := mkSvmInstruction gatewayAddress
    (buildWithdrawAndExecuteAccounts relayer configPDA vaultPDA ceaAuthorityPDA tssPDA executedTxPDA (SfRecipient f) isNative 2
       (SfRecipient f) (SfMint f) execAccounts storedIxDataPDA storeRefundRecipient)
    (buildWithdrawAndExecuteRefData 2 (SfTxID f) (SfUniversalTxID f) amount (SfSender f) ixDataHash (accountsToWritableFlags execAccounts)
       (SfGasFee f) (OcSigningDeadline data) sig.1 sig.2 (ReqSigningHash req)) in
  tables ← tables_or_none (SfMint f) isNative;
  refTx ← signed_by_relayer "ref-finalize tx" [buildSetComputeUnitLimitInstruction defaultComputeUnitLimit; refInstruction] blockhash key tables;
  mret (storeTx, refTx, storedIxDataPDA).
Definition storedPDAExists (storedPDA : list Z) : M bool :=
  r ← rpc (GetAccountData storedPDA); mret (match r with Ok (_ :: _) => true | _ => false end).
Definition broadcastRefRoute (req : UnsignedSigningReq) (data : OutboundCreatedEvent) (signature : list Z) : M string :=
  txs ← wrap "failed to build ref-route transactions" (BuildRefRouteTransactions req data signature);
  let '(storeTx, refTx, storedPDA) := txs in
  stored ← storedPDAExists storedPDA;
  if (stored : bool) then wrap "failed to broadcast finalize_universal_tx_with_ix_data_ref" (ask (SendSvmTransaction refTx))
  else
    wrap "failed to broadcast store_execute_ix_data" (ask (SendSvmTransaction storeTx)) ;;
    throw "store_execute_ix_data broadcast; finalize will be attempted on next broadcaster tick".
Definition broadcast_outbound (req : UnsignedSigningReq) (data : OutboundCreatedEvent) (signature : list Z) : M string :=
  built ← BuildOutboundTransaction req data signature;
  let '(tx, instructionID) := built in
  let large := match MarshalSize tx with Some k => bool_decide (maxDirectTxSize < k)%nat | None => false end in
  if bool_decide (instructionID = 2) && large then broadcastRefRoute req data signature
  else wrap "failed to broadcast transaction" (ask (SendSvmTransaction tx)).
Definition svm_BroadcastOutboundSigningRequest (req : UnsignedSigningReq) (data : OutboundCreatedEvent) (signature : list Z) :
    M (string * option error) :=
  r ← attempt (broadcast_outbound req data signature);
  mret (match r with Ok txHash => (txHash, None) | Err e | Panic e => ("", Some e) end).

(** ** The state of an outbound *)
Definition svm_GetNextNonce (signerAddress : string) (useFinalized : bool) : M Z := mret 0.
Definition svm_GetGasFeeUsed (txHash : string) : M string := mret "0".
Definition svm_IsAlreadyExecuted (txID : string) : M (bool * Z * option error) :=
  match decode_prefixed txID with
  | None => mret (false, 0, Some ("invalid txID: " +:+ txID))
  | Some txIDBytes =>
      if decide (length txIDBytes = 32%nat) then
        match FindProgramAddress [executedSubTxSeed; txIDBytes] gatewayAddress with
        | Ok executedTxPDA =>
            executed ← storedPDAExists executedTxPDA;
            b ← rpc LatestFinalizedBlockTime;
            mret (executed, match b with Ok t => t | _ => 0 end, None)
        | Err e | Panic e => mret (false, 0, Some ("failed to derive executed_tx PDA: " +:+ e))
        end
      else mret (false, 0, Some "txID must be 32 bytes")
  end.
Definition svm_VerifyBroadcastedTx (txHash : string) : M TxReceipt :=
  let not_found := mkTxReceipt false 0 0 0 in
  if base58_of_length 64 txHash then
    r ← rpc (GetTransaction txHash);
    match r with
    | Ok (Some tx) =>
        confs ← (if decide (0 < TxSlot tx) then
                   l ← rpc ChainHead;
                   mret (match l with
                         | Ok latestSlot => if decide (TxSlot tx ≤ latestSlot) then u64 (latestSlot - TxSlot tx + 1) else 0
                         | _ => 0
                         end)
                 else mret 0);
        mret (mkTxReceipt true (TxSlot tx) confs (match TxMeta tx with Some (true, _) => 0 | _ => 1 end))
    | _ => mret not_found
    end
  else mret not_found.
Definition svm_GetFundMigrationSigningRequest (data : FundMigrationData) (nonce : Z) : M UnsignedSigningReq :=
  throw "fund migration not supported for SVM".
Definition svm_BroadcastFundMigrationTx (req : UnsignedSigningReq) (data : FundMigrationData) (signature : list Z) : M (string * option error) :=
  mret ("", Some "fund migration not supported for SVM").

(** ** The rent of stored data *)
Definition storedIxDataAccountDiscriminator : list Z := take 8 (Sum256 (ascii_bytes "account:StoredIxData")).
(** Their addresses, each with its [sub_tx_id]. *)
Definition discoverOrphans (relayer : list Z) : M (list (list Z * list Z)) :=
  result ← ask (GetProgramAccounts gatewayAddress
                  [(0, storedIxDataAccountDiscriminator); (Z.of_nat storedIxDataRefundRecipientOffset, relayer)]);
  mret (omap (λ ka, a ← ka; if decide (length a.2 < storedIxDataMinLen)%nat then None else Some (a.1, take 32 (drop 9 a.2))) result).
Definition isOldEnough (addr : list Z) : M bool :=
  sigs ← ask (GetLastSignature addr);
  match sigs with
  | Some blockTime :: _ => now ← rpc Now; mret (bool_decide (reclaimMinAge ≤ now - blockTime * second))
  | _ => mret false
  end.
Definition closeOrphan (o : list Z * list Z) (key : list Z) : M unit :=
  executedSubTxPDA ← find_pda "derive executed_sub_tx PDA" [executedSubTxSeed; o.2];
  blockhash ← wrap "get blockhash" (ask GetRecentBlockhash);
  tx ← signed_by_relayer "close tx"
         [mkSvmInstruction gatewayAddress (buildCloseStoredIxDataAccounts (PublicKeyOf key) o.1 executedSubTxPDA) discCloseStoredIxData]
         blockhash key ∅;
  wrap "broadcast close tx" (ask (SendSvmTransaction tx)) ;; mret tt.
Definition reclaim_runOnce : M unit :=
  k ← attempt loadRelayerKeypair;
  match k with
  | Ok key =>
      c ← attempt (discoverOrphans (PublicKeyOf key));
      match c with
      | Ok candidates =>
          for_each (λ o,
            old ← attempt (isOldEnough o.1);
            match old with Ok true => swallow (closeOrphan o key) | _ => mret tt end) candidates
      | _ => mret tt
      end
  | _ => mret tt
  end.
End builder.
