(* ===== verification/UcLogic.v ===== *)
(** * The universal client: reasoning about questions and answers

    Most of the client's code asks the outside world and decides; few statements write
    a row.  [reads] is a weakest precondition for the code between two writes: its
    postcondition sees the log of the calls and the cached validators. *)
From S2P Require Import Prelude GoStrings UvTypes TssTypes UxTypes RegTypes World Canonical Utss UcStore UcCoord.
Import Uc.

(** Some calls include the question [c] with the answer [a]. *)
Notation "c ⟹ a ∈ t" := (Log c a ∈ t) (at level 70, a at level 69, t at level 69).
Ltac told := repeat first [apply list_elem_of_here | apply list_elem_of_further].

(** The log only grows. *)
Ltac grown := first [solve [repeat first [assumption | reflexivity | apply list_subseteq_cons]] | set_solver].
(** [binds]: decompose the results that succeeded. *)
Ltac binds := repeat match goal with
  | H : _ ≫= _ = Ok _ |- _ => apply res_bind_ok in H as (? & ? & ?)
  | H : check _ _ = Ok _ |- _ => apply check_ok in H
  | H : wrap_res _ _ = Ok _ |- _ => apply wrap_res_ok in H
  | H : from_option Ok (Err _) ?o = Ok _ |- _ => let E := fresh in destruct o eqn:E; cbn in H; [injection H as <-|discriminate]
  | H : Ok _ = Ok _ |- _ => injection H as <-
  | H : bool_decide _ = true |- _ => apply bool_decide_eq_true in H
  | H : negb (bool_decide _) = true |- _ => apply negb_true_iff, bool_decide_eq_false in H
  end.

Section reads.
Context {E : Type} `{EV : Env E, CF : ClientConfig, CR : Crypto, SO : SortSlice}.
Implicit Types (n : Node E) (t : list Logged) (v : list UV.UniversalValidator).
#[local] Abbreviation M := (M (Node E)).

(** What reading code leaves alone. *)
Definition undisturbed n n' : Prop :=
  rows n' = rows n ∧ sessions n' = sessions n ∧ ackTracking (coord n') = ackTracking (coord n).
#[export] Instance undisturbed_preorder : PreOrder undisturbed.
Proof. split; [by intros n|]. intros a b c (? & ? & ?) (? & ? & ?). by split_and!; etransitivity. Qed.

Definition reads {A} (m : M A) v t (Φ : list UV.UniversalValidator → list Logged → res A → Prop) : Prop :=
  ∀ n, allValidators (coord n) = v →
    ∃ new, undisturbed n (m n).2 ∧ trace (m n).2 = new ++ trace n ∧ Φ (allValidators (coord (m n).2)) (new ++ t) (m n).1.

Lemma reads_pure {A} (m : M A) r v t Φ : (∀ n, m n = (r, n)) → Φ v t r → reads m v t Φ.
Proof. intros Hm HΦ n Hv. exists []. rewrite Hm. cbn. by rewrite Hv. Qed.
Lemma reads_ret {A} (a : A) v t Φ : Φ v t (Ok a) → reads (mret a) v t Φ.
Proof. by apply reads_pure. Qed.
Lemma reads_throw {A} e v t Φ : Φ v t (Err e) → reads (throw e : M A) v t Φ.
Proof. by apply reads_pure. Qed.
Lemma reads_panic {A} e v t Φ : Φ v t (Panic e) → reads (panic e : M A) v t Φ.
Proof. by apply reads_pure. Qed.
Lemma reads_lift_res {A} (r : res A) v t Φ : Φ v t r → reads (lift_res r) v t Φ.
Proof. by apply reads_pure. Qed.
Lemma reads_require b e v t Φ : (b = true → Φ v t (Ok tt)) → (b = false → Φ v t (Err e)) → reads (require b e) v t Φ.
Proof. intros H1 H2. destruct b; apply (reads_pure _ _ v t Φ (λ n, eq_refl)); auto. Qed.
Lemma reads_lift_option {A} (o : option A) e v t Φ :
  (∀ a, o = Some a → Φ v t (Ok a)) → (o = None → Φ v t (Err e)) → reads (lift_option o e) v t Φ.
Proof. intros H1 H2. destruct o; apply (reads_pure _ _ v t Φ (λ n, eq_refl)); auto. Qed.
Lemma reads_deref {A} (o : option A) v t Φ :
  (∀ a, o = Some a → Φ v t (Ok a)) → (o = None → ∀ e, Φ v t (Panic e)) → reads (deref o) v t Φ.
Proof. intros H1 H2. destruct o; apply (reads_pure _ _ v t Φ (λ n, eq_refl)); auto. Qed.
Lemma reads_rpc {A} (c : Call A) v t Φ : (∀ a, Φ v (Log c a :: t) (Ok a)) → reads (rpc c) v t Φ.
Proof.
  intros H n Hv. unfold rpc. destruct (answer c (env n)) as [a e]. exists [Log c a]. subst v. split_and!; [done|done|].
  apply (H a).
Qed.
Lemma reads_bind {A B} (m : M A) (f : A → M B) v t Φ :
  reads m v t (λ v' t' r, match r with
                          | Ok a => reads (f a) v' t' Φ
                          | Err e => Φ v' t' (Err e)
                          | Panic e => Φ v' t' (Panic e)
                          end) →
  reads (m ≫= f) v t Φ.
Proof.
  intros Hm n Hv. destruct (Hm n Hv) as (new & Hu & Ht & HΦ). rewrite bind_unfold.
  destruct (m n) as [[a|e|e] n1]; cbn [fst snd] in *; [|by exists new..].
  destruct (HΦ n1 eq_refl) as (new2 & Hu2 & Ht2 & HΦ2). exists (new2 ++ new).
  rewrite <- !app_assoc, Ht2, Ht. split_and!; [by transitivity n1|done|done].
Qed.
Lemma reads_mono {A} (m : M A) v t (Φ Ψ : _ → _ → res A → Prop) :
  reads m v t Φ → (∀ v' t' r, Φ v' t' r → Ψ v' t' r) → reads m v t Ψ.
Proof. intros Hm H n Hv. destruct (Hm n Hv) as (new & ? & ? & ?). exists new. auto. Qed.
Lemma reads_gets_any {A} (f : Node E → A) v t Φ : (∀ a, Φ v t (Ok a)) → reads (gets f) v t Φ.
Proof. intros H n Hv. exists []. rewrite gets_run. cbn. by rewrite Hv. Qed.
Lemma reads_attempt {A} (m : M A) v t Φ :
  reads m v t (λ v' t' r, match r with Panic e => Φ v' t' (Panic e) | r => Φ v' t' (Ok r) end) → reads (attempt m) v t Φ.
Proof.
  intros Hm n Hv. destruct (Hm n Hv) as (new & Hu & Ht & HΦ). exists new. unfold attempt.
  by destruct (m n) as [[a|e|e] n1].
Qed.
Lemma reads_wrap {A} msg (m : M A) v t Φ : reads m v t (λ v' t' r, Φ v' t' (wrap_res msg r)) → reads (wrap msg m) v t Φ.
Proof.
  intros Hm n Hv. destruct (Hm n Hv) as (new & Hu & Ht & HΦ). exists new. rewrite wrap_run. by destruct (m n) as [r n1].
Qed.
Lemma reads_swallow (m : M unit) v t Φ :
  reads m v t (λ v' t' r, match r with Panic e => Φ v' t' (Panic e) | _ => Φ v' t' (Ok tt) end) → reads (swallow m) v t Φ.
Proof.
  intros Hm n Hv. destruct (Hm n Hv) as (new & Hu & Ht & HΦ). exists new. unfold swallow.
  by destruct (m n) as [[a|e|e] n1].
Qed.
Lemma reads_ask {A} (c : Call (res A)) v t Φ :
  (∀ a, Φ v (Log c (Ok a) :: t) (Ok a)) → (∀ r e, (∀ a, r ≠ Ok a) → Φ v (Log c r :: t) (Err e)) → reads (ask c) v t Φ.
Proof.
  intros H1 H2. apply reads_bind, reads_rpc. intros [a|e|e]; [apply reads_ret|apply reads_throw..]; auto; by apply H2.
Qed.
(** Code whose calls do not matter. *)
Lemma reads_for_each {A} (f : A → M unit) l v t (J : list UV.UniversalValidator → list Logged → Prop) Φ :
  J v t →
  (∀ x v' t', x ∈ l → J v' t' → reads (f x) v' t' (λ v'' t'' r, J v'' t'' ∧ ∀ e, r = Err e ∨ r = Panic e → Φ v'' t'' r)) →
  (∀ v' t', J v' t' → Φ v' t' (Ok tt)) → reads (for_each f l) v t Φ.
Proof.
  intros HJ Hf HΦ. revert v t HJ. induction l as [|x l IH]; intros v t HJ; [by apply reads_ret, HΦ|].
  apply reads_bind. eapply reads_mono; [by apply Hf; [left|]|]. intros v' t' [[]|e|e] [HJ' He]; [|by apply (He e); auto..].
  apply IH; [|done]. intros y v'' t'' Hy. apply Hf. by right.
Qed.
Lemma reads_snapshot v t Φ :
  Φ v t (Ok []) → (∀ now, Φ [] (Log Now now :: t) (Ok [])) → (∀ now, Φ v (Log Now now :: t) (Ok v)) →
  reads validatorsSnapshot v t Φ.
Proof.
  intros H1 H2 H3 n Hv. unfold validatorsSnapshot, set_coord. mrun.
  destruct (lastValidatorsRefreshAt (coord n)) as [at_|]; mrun.
  - unfold rpc. destruct (answer Now (env n)) as [now e]. cbn. mrun. case_decide; mrun; exists [Log Now now]; cbn.
    + split_and!; [done|done|apply H2].
    + subst v. split_and!; [done|done|apply H3].
  - exists []. subst v. split_and!; done.
Qed.

Lemma reads_run {A} (m : M A) n Φ :
  reads m (allValidators (coord n)) [] Φ →
  ∃ r n' new, m n = (r, n') ∧ undisturbed n n' ∧ trace n' = new ++ trace n ∧ Φ (allValidators (coord n')) new r.
Proof.
  intros H. destruct (H n eq_refl) as (new & Hu & Ht & HΦ). rewrite app_nil_r in HΦ.
  exists (m n).1, (m n).2, new. split_and!; [by destruct (m n)|done..].
Qed.
End reads.

(** [reading]: walk through code that asks and decides. *)
Ltac reading_step :=
  lazymatch goal with
  | |- reads (_ ≫= _) _ _ _ => apply reads_bind
  | |- reads (mbind _ _) _ _ _ => apply reads_bind
  | |- reads (mret _) _ _ _ => apply reads_ret
  | |- reads (throw _) _ _ _ => apply reads_throw
  | |- reads (panic _) _ _ _ => apply reads_panic
  | |- reads (lift_res _) _ _ _ => apply reads_lift_res
  | |- reads (require _ _) _ _ _ => apply reads_require; intros ?
  | |- reads (lift_option _ _) _ _ _ => apply reads_lift_option; [intros ? ?|intros ?]
  | |- reads (deref _) _ _ _ => apply reads_deref; [intros ? ?|intros ? ?]
  | |- reads (rpc _) _ _ _ => apply reads_rpc; intros ?
  | |- reads (ask _) _ _ _ => apply reads_ask; [intros ?|intros ? ? ?]
  | |- reads (attempt _) _ _ _ => apply reads_attempt
  | |- reads (wrap _ _) _ _ _ => apply reads_wrap
  | |- reads (swallow _) _ _ _ => apply reads_swallow
  | |- reads validatorsSnapshot _ _ _ => apply reads_snapshot; [|intros ?|intros ?]
  | |- reads (match ?x with _ => _ end) _ _ _ => destruct x eqn:?
  | |- match ?x with Ok _ => _ | Err _ => _ | Panic _ => _ end => destruct x eqn:?
  end; cbn [wrap_res].
Ltac reading := repeat reading_step.
(** What the tests on the way say. *)
Ltac facts :=
  repeat match goal with
  | H : wrap_res _ _ = Ok _ |- _ => apply wrap_res_ok in H
  | H : negb _ = true |- _ => apply negb_true_iff in H
  | H : negb _ = false |- _ => apply negb_false_iff in H
  | H : bool_decide _ = true |- _ => apply bool_decide_eq_true in H
  | H : bool_decide _ = false |- _ => apply bool_decide_eq_false in H
  | H : _ && _ = true |- _ => apply andb_true_iff in H; destruct H
  end; simplify_eq.
