(* ===== verification/UcEvmSpec.v ===== *)
(** * The universal client: what an EVM log becomes

    The gateway emits its event in the ABI encoding; the parser gets back every field, the
    vote carries them, and the chain accepts it.  Offsets and lengths that wrap around
    [uint64] crash the parser. *)
From S2P Require Import Prelude GoStrings UvTypes TssTypes UxTypes RegTypes World Canonical Utss UxKeys UxPayload.
From S2P Require Import UcStore UcChain UcEvm UcCoord UcLogic.
From Stdlib Require Import Ascii.
Import Uc.

(** ** Words *)
Lemma length_be_bytes k z : length (be_bytes k z) = k.
Proof. revert z. induction k as [|k IH]; intros z; cbn; [done|]. rewrite length_app, IH. cbn. lia. Qed.
Lemma SetBytes_snoc l b : SetBytes (l ++ [b]) = SetBytes l * 256 + b.
Proof. unfold SetBytes. by rewrite foldl_app. Qed.
Lemma SetBytes_be_bytes k z : 0 ≤ z < 256 ^ Z.of_nat k → SetBytes (be_bytes k z) = z.
Proof.
  revert z. induction k as [|k IH]; intros z Hz; cbn [be_bytes]; [unfold SetBytes; cbn in *; lia|].
  rewrite SetBytes_snoc, IH; [rewrite Z.mul_comm; symmetry; apply Z.div_mod; lia|].
  replace (Z.of_nat (S k)) with (Z.of_nat k + 1) in Hz by lia. rewrite Z.pow_add_r, Z.pow_1_r in Hz by lia.
  split; [apply Z.div_pos; lia|apply Z.div_lt_upper_bound; lia].
Qed.
Lemma word_size : 256 ^ Z.of_nat 32 = 2 ^ 256.
Proof. by vm_compute. Qed.
Lemma be_bytes_is_bytes k z : is_bytes (be_bytes k z).
Proof.
  revert z. induction k as [|k IH]; intros z; cbn; [constructor|]. apply Forall_app. split; [apply IH|].
  repeat constructor; apply Z.mod_pos_bound; lia.
Qed.

(** A sequence of 32-byte words, and what comes after. *)
Definition words (ws : list (list Z)) : Prop := Forall (λ w, length w = 32%nat) ws.
Lemma length_words ws : words ws → length (mjoin ws) = (length ws * 32)%nat.
Proof. induction 1 as [|w ws Hw _ IH]; [done|]. change (mjoin (w :: ws)) with (w ++ mjoin ws). rewrite length_app, Hw, IH. cbn. lia. Qed.
Lemma word_at ws t i w :
  words ws → ws !! i = Some w → take 32 (drop (i * 32) (mjoin ws ++ t)) = w.
Proof.
  intros Hws Hi. rewrite <- (take_drop_middle ws i w Hi), join_app. change (mjoin (w :: drop (S i) ws)) with (w ++ mjoin (drop (S i) ws)).
  assert (length (mjoin (take i ws)) = (i * 32)%nat) as Hlen.
  { rewrite length_words by by apply Forall_take. rewrite length_take. apply lookup_lt_Some in Hi. lia. }
  rewrite <- app_assoc, drop_app_ge, Hlen, Nat.sub_diag, drop_0 by lia.
  assert (length w = 32%nat) as Hw by (by eapply (proj1 (Forall_lookup _ _) Hws)).
  rewrite <- app_assoc. rewrite take_app_le, take_ge; lia || done.
Qed.
Lemma readWord_words ws t i w : words ws → ws !! i = Some w → readWord (mjoin ws ++ t) i = Some w.
Proof.
  intros Hws Hi. unfold readWord. rewrite (word_at ws t i w Hws Hi). apply decide_True.
  rewrite length_app, length_words by done. apply lookup_lt_Some in Hi. lia.
Qed.

(** ** Dynamic bytes *)
Definition in_range (z : Z) : Prop := 0 ≤ z < 2 ^ 64.
Lemma readDynamicBytes_exact a bz rest :
  Z.of_nat (length a + 32 + length bz + length rest) < 2 ^ 63 →
  readDynamicBytes (a ++ be_bytes 32 (Z.of_nat (length bz)) ++ bz ++ rest) (Z.of_nat (length a)) = Ok (Some (hex_string bz)).
Proof.
  intros Hlen. unfold readDynamicBytes. set (data := a ++ _).
  assert (length data = (length a + 32 + length bz + length rest)%nat) as Hd
    by (unfold data; rewrite !length_app, length_be_bytes; lia).
  assert (take 32 (drop (length a) data) = be_bytes 32 (Z.of_nat (length bz))) as Hw.
  { unfold data. rewrite drop_app_length, take_app_le, take_ge by (rewrite length_be_bytes; lia). done. }
  rewrite !u64_id by lia. rewrite decide_False by lia. unfold slice_from_to.
  rewrite !bool_decide_eq_true_2 by lia. cbn [andb mbind res_bind].
  replace (Z.to_nat (Z.of_nat (length a) + 32 - Z.of_nat (length a))) with 32%nat by lia.
  rewrite Nat2Z.id, Hw, SetBytes_be_bytes by (split; [lia|]; transitivity (2^63); [lia|done]).
  rewrite (u64_id (Z.of_nat (length bz))), u64_id by lia. rewrite decide_False by lia.
  rewrite !bool_decide_eq_true_2 by lia. cbn [andb mbind res_bind].
  do 4 f_equal. replace (Z.to_nat (Z.of_nat (length a) + 32)) with (length (a ++ be_bytes 32 (Z.of_nat (length bz)))) by
    (rewrite length_app, length_be_bytes; lia).
  unfold data. rewrite app_assoc, drop_app_length.
  match goal with |- take ?k _ = _ => replace k with (length bz) by lia end. by rewrite take_app_length.
Qed.

(** The exact outcome: within the data the bytes, beyond it nothing, and a crash when a
    bound wraps around. *)
Lemma readDynamicBytes_cases data off :
  in_range off → Z.of_nat (length data) < 2 ^ 63 → (32 ≤ length data)%nat →
  let len := Z.of_nat (length data) in
  let n := u64 (SetBytes (take 32 (drop (Z.to_nat off) data))) in
  readDynamicBytes data off =
    if decide (2 ^ 64 ≤ off + 32) then Panic "slice bounds out of range"
    else if decide (len < off + 32) then Ok None
    else if decide (2 ^ 64 ≤ off + 32 + n) then Panic "slice bounds out of range"
    else if decide (len < off + 32 + n) then Ok None
    else Ok (Some (hex_string (take (Z.to_nat n) (drop (Z.to_nat (off + 32)) data)))).
Proof.
  intros Hoff Hlen Hd. unfold in_range in Hoff. cbn zeta. unfold readDynamicBytes. set (n := u64 (SetBytes (take 32 _))).
  assert (0 ≤ n < 2^64) as Hn by (apply Z.mod_pos_bound; lia).
  destruct (decide (2 ^ 64 ≤ off + 32)) as [Hw|Hw].
  - assert (u64 (off + 32) = off + 32 - 2^64) as -> by (unfold u64; symmetry; apply (Z.mod_unique _ _ 1); lia).
    rewrite decide_False by lia. unfold slice_from_to. by rewrite bool_decide_eq_false_2 by lia.
  - rewrite (u64_id (off + 32)) by lia. destruct (decide (Z.of_nat (length data) < off + 32)) as [Hb|Hb]; [done|].
    unfold slice_from_to. rewrite (bool_decide_eq_true_2 (off ≤ off + 32)), (bool_decide_eq_true_2 (off + 32 ≤ _)) by lia.
    cbn [andb mbind res_bind]. replace (Z.to_nat (off + 32 - off)) with 32%nat by lia. fold n.
    destruct (decide (2 ^ 64 ≤ off + 32 + n)) as [Hw2|Hw2].
    + assert (u64 (off + 32 + n) = off + 32 + n - 2^64) as -> by (unfold u64; symmetry; apply (Z.mod_unique _ _ 1); lia).
      rewrite decide_False by lia. by rewrite bool_decide_eq_false_2 by lia.
    + rewrite (u64_id (off + 32 + n)) by lia. destruct (decide (Z.of_nat (length data) < off + 32 + n)) as [Hb2|Hb2]; [done|].
      rewrite !bool_decide_eq_true_2 by lia. cbn [andb mbind res_bind]. by replace (off + 32 + n - (off + 32)) with n by lia.
Qed.

(** ** The event of the gateway *)
Record GatewayTx := mkGatewayTx {
  gSender : list Z; gRecipient : list Z; gToken : list Z; gAmount : Z; gPayload : list Z; gRevert : list Z;
  gTxType : Z; gSignature : list Z; gFromCEA : bool }.
Definition word (z : Z) : list Z := be_bytes 32 z.
Definition address_word (a : list Z) : list Z := replicate 12 0 ++ a.
(** Dynamic bytes are padded to whole words. *)
Definition tail_of (bz : list Z) (pad : nat) : list Z := word (Z.of_nat (length bz)) ++ bz ++ replicate pad 0.
Definition head_of (g : GatewayTx) (pad : nat) : list (list Z) :=
  [address_word (gToken g); word (gAmount g); word 224; address_word (gRevert g); word (gTxType g);
   word (Z.of_nat (224 + 32 + length (gPayload g) + pad)); word (Z.b2z (gFromCEA g))].
Definition abi_data (g : GatewayTx) (pad pad' : nat) : list Z :=
  mjoin (head_of g pad) ++ tail_of (gPayload g) pad ++ tail_of (gSignature g) pad'.
Definition gateway_log (topic0 hash : list Z) (block idx : Z) (g : GatewayTx) (pad pad' : nat) : EvmLog :=
  mkEvmLog [topic0; address_word (gSender g); address_word (gRecipient g)] (abi_data g pad pad') block hash idx.
Definition gateway_ok (g : GatewayTx) (pad pad' : nat) : Prop :=
  Forall (λ a, length a = 20%nat) [gSender g; gRecipient g; gToken g; gRevert g] ∧
  0 ≤ gAmount g < 2 ^ 256 ∧ 0 ≤ gTxType g < 256 ∧
  Z.of_nat (length (gPayload g) + pad + length (gSignature g) + pad') < 2 ^ 62.

Section gateway.
Context `{CC : ChainCodecs}.

Definition observed (chain : string) (idx : Z) (g : GatewayTx) : UniversalTx :=
  mkUniversalTx chain idx (ChecksumHex (hex_string (gSender g))) (ChecksumHex (hex_string (gRecipient g)))
    (ChecksumHex (hex_string (gToken g))) (fmt_d (gAmount g)) (hex_string (gPayload g)) (hex_string (gSignature g))
    (ChecksumHex (hex_string (gRevert g))) (gTxType g) (gFromCEA g).
Definition observed_event (chain : string) (hash : list Z) (block idx : Z) (g : GatewayTx) : Event :=
  pending_event (hex_string hash +:+ ":" +:+ fmt_d idx) block EventTypeInbound (confirmation_of (gTxType g))
    (Some (universal_payload (observed chain idx g))).

Lemma address_hex_word a : length a = 20%nat → address_hex (address_word a) = ChecksumHex (hex_string a).
Proof.
  intros Ha. unfold address_hex, left_pad, address_word. rewrite length_app, length_replicate, Ha. change (20 - (12 + 20))%nat with 0%nat. change (12 + 20 - 20)%nat with 12%nat. change (replicate 0 0) with (@nil Z). rewrite app_nil_l.
  by rewrite drop_app_length' by (by rewrite length_replicate).
Qed.
Lemma address_hex_20 a : length a = 20%nat → address_hex a = ChecksumHex (hex_string a).
Proof. intros Ha. unfold address_hex, left_pad. by rewrite Ha, Nat.sub_diag. Qed.
Lemma address_hex_drop a : length a = 20%nat → address_hex (drop 12 (address_word a)) = ChecksumHex (hex_string a).
Proof.
  intros Ha. unfold address_word. rewrite drop_app_length' by (by rewrite length_replicate). by apply address_hex_20.
Qed.
Lemma words_head g pad : length (gToken g) = 20%nat → length (gRevert g) = 20%nat → words (head_of g pad).
Proof.
  intros Ht Hr. repeat constructor; unfold address_word, word; rewrite ?length_be_bytes, ?length_app, ?length_replicate; lia.
Qed.
Lemma length_tail_of bz pad : length (tail_of bz pad) = (32 + length bz + pad)%nat.
Proof. unfold tail_of, word. rewrite !length_app, length_be_bytes, length_replicate. lia. Qed.

(** What the parser finds in the data of the event. *)
Section data.
Context (g : GatewayTx) (pad pad' : nat) (Hg : gateway_ok g pad pad').
#[local] Abbreviation data := (abi_data g pad pad').
#[local] Abbreviation tail := (tail_of (gPayload g) pad ++ tail_of (gSignature g) pad').
Lemma abi_words : words (head_of g pad).
Proof. destruct Hg as (Hl & _). rewrite !Forall_cons in Hl. destruct Hl as (_ & _ & ? & ? & _). by apply words_head. Qed.
Lemma length_abi_data :
  length data = (288 + length (gPayload g) + pad + length (gSignature g) + pad')%nat.
Proof. unfold abi_data. rewrite !length_app, length_words, !length_tail_of by apply abi_words. cbn [length head_of]. lia. Qed.
Lemma abi_word i w : head_of g pad !! i = Some w → take 32 (drop (i * 32) data) = w ∧ readWord data i = Some w.
Proof. intros Hi. split; [exact (word_at _ tail _ _ abi_words Hi)|exact (readWord_words _ tail _ _ abi_words Hi)]. Qed.
Lemma abi_token : take 20 (drop 12 data) = gToken g.
Proof.
  destruct (abi_word 0 _ eq_refl) as [H0 _]. change (0 * 32)%nat with 0%nat in H0. rewrite drop_0 in H0.
  rewrite take_drop_commute. change (12 + 20)%nat with 32%nat. rewrite H0. apply drop_app_length'. by rewrite length_replicate.
Qed.
Lemma abi_payload : readDynamicBytes data 224 = Ok (Some (hex_string (gPayload g))).
Proof.
  replace data with (mjoin (head_of g pad) ++ be_bytes 32 (Z.of_nat (length (gPayload g))) ++ gPayload g
    ++ (replicate pad 0 ++ tail_of (gSignature g) pad')) by (unfold abi_data, tail_of, word; by rewrite <- !app_assoc).
  change 224 with (Z.of_nat 224). replace 224%nat with (length (mjoin (head_of g pad))) by (by rewrite length_words by apply abi_words).
  destruct Hg as (_ & _ & _ & Hsz). apply readDynamicBytes_exact.
  rewrite length_words, length_app, length_replicate, length_tail_of by apply abi_words. cbn [length head_of]. lia.
Qed.
Lemma abi_signature :
  readDynamicBytes data (Z.of_nat (224 + 32 + length (gPayload g) + pad)) = Ok (Some (hex_string (gSignature g))).
Proof.
  replace data with ((mjoin (head_of g pad) ++ tail_of (gPayload g) pad) ++ be_bytes 32 (Z.of_nat (length (gSignature g)))
    ++ gSignature g ++ replicate pad' 0) by (unfold abi_data; by rewrite <- !app_assoc).
  replace (224 + 32 + length (gPayload g) + pad)%nat with (length (mjoin (head_of g pad) ++ tail_of (gPayload g) pad))
    by (rewrite length_app, length_words, length_tail_of by apply abi_words; cbn [length head_of]; lia).
  destruct Hg as (_ & _ & _ & Hsz). apply readDynamicBytes_exact.
  rewrite length_app, length_words, length_replicate, length_tail_of by apply abi_words. cbn [length head_of]. lia.
Qed.
End data.

Lemma with_word_some data i w f p : readWord data i = Some w → with_word data i f p = f w p.
Proof. unfold with_word. by intros ->. Qed.
Lemma ok_bind {A B} (a : A) (f : A → res B) : Ok a ≫= f = f a.
Proof. done. Qed.
Lemma parseUniversalTx_abi g pad pad' ev chain idx sender recipient token amount :
  gateway_ok g pad pad' →
  parseUniversalTx ev (abi_data g pad pad') 224 (mkUniversalTx chain idx sender recipient token amount "" "" "" 0 false)
  = Ok (finalizeEvent ev (mkUniversalTx chain idx sender recipient token amount (hex_string (gPayload g))
          (hex_string (gSignature g)) (ChecksumHex (hex_string (gRevert g))) (gTxType g) (gFromCEA g))).
Proof.
  intros Hg. pose proof (length_abi_data g pad pad' Hg) as Hdl. pose proof (abi_word g pad pad' Hg) as Hword.
  destruct (Hword 3%nat _ eq_refl) as [_ H3], (Hword 4%nat _ eq_refl) as [_ H4], (Hword 5%nat _ eq_refl) as [_ H5],
    (Hword 6%nat _ eq_refl) as [_ H6].
  pose proof Hg as (Hlen & _ & Hty & Hsz). rewrite !Forall_cons in Hlen. destruct Hlen as (_ & _ & _ & Hrv & _).
  unfold parseUniversalTx, decodePayload. rewrite decide_False by lia. rewrite abi_payload by done.
  rewrite !ok_bind, (with_word_some _ _ _ _ _ H3), ok_bind, (with_word_some _ _ _ _ _ H4), ok_bind, (with_word_some _ _ _ _ _ H5).
  unfold decodeSignatureData at 1. unfold word.
  rewrite !SetBytes_be_bytes by (rewrite word_size; destruct (gFromCEA g); cbn [Z.b2z]; lia).
  rewrite (u64_id (Z.of_nat _)) by lia.
  rewrite (bool_decide_eq_true_2 (32 * 7 ≤ _)), (bool_decide_eq_true_2 (_ < Z.of_nat (length _))) by lia. cbn [andb].
  rewrite abi_signature, !ok_bind, (with_word_some _ _ _ _ _ H6), ok_bind by done.
  rewrite address_hex_drop by done. unfold word.
  rewrite SetBytes_be_bytes by (rewrite word_size; destruct (gFromCEA g); cbn [Z.b2z]; lia).
  rewrite !u64_id by (destruct (gFromCEA g); cbn [Z.b2z]; lia). by destruct (gFromCEA g).
Qed.
(** The parser reads the gateway's event: for every event in the ABI encoding of the
    contract, whatever the padding of its dynamic fields, parsing its log gives the row
    with each field of the event, in the spelling the chain expects. *)
Lemma gateway_event_parsed topic0 hash block idx g pad pad' chain :
  gateway_ok g pad pad' →
  evm_ParseEvent (gateway_log topic0 hash block idx g pad pad') EventTypeSendFunds chain
  = Ok (Some (observed_event chain hash block idx g)).
Proof.
  intros Hg. pose proof (length_abi_data g pad pad' Hg) as Hdl.
  destruct (abi_word g pad pad' Hg 1%nat _ eq_refl) as [H1 _], (abi_word g pad pad' Hg 2%nat _ eq_refl) as [H2 _].
  pose proof Hg as (Hlen & Ham & _). rewrite !Forall_cons in Hlen. destruct Hlen as (Hs & Hrc & Ht & _).
  unfold evm_ParseEvent, gateway_log. cbn [LgTopics]. rewrite decide_True by done. unfold parseSendFundsEvent.
  cbn [LgTopics length]. rewrite decide_False by lia. unfold parseUniversalTxEvent, topic.
  cbn [LgData LgTopics LgTxHash LgIndex LgBlockNumber lookup list_lookup default]. rewrite decide_False by lia.
  rewrite abi_token by done. change (1 * 32)%nat with 32%nat in H1. change (2 * 32)%nat with 64%nat in H2. rewrite H1, H2.
  unfold word. rewrite !SetBytes_be_bytes by (rewrite word_size; lia). rewrite u64_id by lia.
  unfold id. rewrite !address_hex_word, address_hex_20 by done. cbn [upd].
  rewrite parseUniversalTx_abi by done. reflexivity.
Qed.

(** *** Crashes *)
(** The length that is read at [off], and a bound that wraps around. *)
Definition length_at (data : list Z) (off : Z) : Z := u64 (SetBytes (take 32 (drop (Z.to_nat off) data))).
Definition wraps (data : list Z) (off : Z) : Prop :=
  2 ^ 64 ≤ off + 32 ∨ off + 32 ≤ Z.of_nat (length data) ∧ 2 ^ 64 ≤ off + 32 + length_at data off.
Definition panics {A} (r : res A) : Prop := ∃ e, r = Panic e.
Lemma readDynamicBytes_panics data off :
  in_range off → Z.of_nat (length data) < 2 ^ 63 → (32 ≤ length data)%nat → panics (readDynamicBytes data off) ↔ wraps data off.
Proof.
  intros Ho Hl Hd. rewrite (readDynamicBytes_cases data off Ho Hl Hd). unfold panics, wraps. fold (length_at data off).
  unfold in_range in Ho. assert (0 ≤ length_at data off < 2^64) by (apply Z.mod_pos_bound; lia).
  repeat case_decide; split; intros HH; try (by eauto); try (destruct HH as [? HH]; discriminate); try lia.
Qed.
Lemma panics_bind {A B} (r : res A) (f : A → res B) : panics (r ≫= f) ↔ panics r ∨ ∃ a, r = Ok a ∧ panics (f a).
Proof. unfold panics. destruct r; cbn; naive_solver. Qed.
Definition word_value (data : list Z) (i : nat) : Z := u64 (SetBytes (take 32 (drop (i * 32) data))).
Lemma panics_with_word data i f p :
  panics (with_word data i f p) ↔ (i * 32 + 32 ≤ length data)%nat ∧ panics (f (take 32 (drop (i * 32) data)) p).
Proof. unfold with_word, readWord. case_decide; [tauto|]. split; [by intros [? ?]|tauto]. Qed.
Lemma not_panics_ok {A} (a : A) : panics (Ok a) ↔ False.
Proof. split; [by intros [? ?]|done]. Qed.

Lemma panics_decodePayload data off p :
  in_range off → Z.of_nat (length data) < 2 ^ 63 → (32 ≤ length data)%nat →
  panics (decodePayload data off p) ↔ 160 ≤ off ∧ wraps data off.
Proof.
  intros Ho Hl Hd. unfold decodePayload. case_decide as Hlt; [rewrite not_panics_ok; lia|].
  rewrite panics_bind, (readDynamicBytes_panics data off Ho Hl Hd). split; [|intros [_ H]; auto].
  intros [H|(a & _ & H)]; [split; [lia|done]|by apply not_panics_ok in H].
Qed.
Lemma panics_decodeSignatureData data w :
  Z.of_nat (length data) < 2 ^ 63 → (32 ≤ length data)%nat → let off := u64 (SetBytes w) in
  panics (decodeSignatureData data w (32 * 7)) ↔ 224 ≤ off < Z.of_nat (length data) ∧ wraps data off.
Proof.
  intros Hl Hd off. unfold decodeSignatureData. fold off.
  destruct (_ && _) eqn:Hb; [apply andb_true_iff in Hb as [H1 H2]; facts|].
  - rewrite panics_bind, readDynamicBytes_panics by (done || apply Z.mod_pos_bound; lia).
    split; [|intros [_ H]; auto]. intros [H|(a & _ & H)]; [split; [lia|done]|by apply not_panics_ok in H].
  - rewrite not_panics_ok. split; [done|]. intros [[H1 H2] _]. apply andb_false_iff in Hb as [Hb|Hb]; facts; lia.
Qed.

Lemma with_word_pure data i g p :
  with_word data i (λ w p, Ok (g w p)) p = Ok (match readWord data i with Some w => g w p | None => p end).
Proof. unfold with_word. by destruct (readWord data i). Qed.
Lemma readDynamicBytes_total data off : (∃ r, readDynamicBytes data off = Ok r) ∨ panics (readDynamicBytes data off).
Proof.
  unfold readDynamicBytes, slice_from_to, panics. case_decide; [eauto|].
  repeat (match goal with |- context [if ?b then _ else _] => destruct b end; cbn [mbind res_bind]); eauto.
Qed.
Lemma decodePayload_total data off p : (∃ a, decodePayload data off p = Ok a) ∨ panics (decodePayload data off p).
Proof.
  unfold decodePayload. case_decide; [eauto|].
  destruct (readDynamicBytes_total data off) as [[r ->]|[e ->]]; cbn; [eauto|right; by exists e].
Qed.
(** After the payload only the signature can crash. *)
Lemma panics_rest ev data (a : UniversalTx) :
  Z.of_nat (length data) < 2 ^ 63 → (160 ≤ length data)%nat →
  panics (p ← with_word data 3 (λ w p, Ok (p <| UtRevertFundRecipient := address_hex (drop 12 w) |>)) a;
          p ← with_word data 4 (λ w p, Ok (p <| UtTxType := u64 (SetBytes w) |>)) p;
          p ← with_word data 5 (λ w p, s ← decodeSignatureData data w (32 * 7); Ok (p <| UtVerificationData := s |>)) p;
          p ← with_word data 6 (λ w p, Ok (p <| UtFromCEA := negb (bool_decide (u64 (SetBytes w) = 0)) |>)) p;
          Ok (finalizeEvent ev p)) ↔
  (192 ≤ length data)%nat ∧ 224 ≤ word_value data 5 < Z.of_nat (length data) ∧ wraps data (word_value data 5).
Proof.
  intros Hl Hd. rewrite (with_word_pure data 3 (λ w p, p <| UtRevertFundRecipient := address_hex (drop 12 w) |>)), ok_bind.
  rewrite (with_word_pure data 4 (λ w p, p <| UtTxType := u64 (SetBytes w) |>)), ok_bind.
  rewrite panics_bind, panics_with_word, panics_bind, panics_decodeSignatureData by lia.
  change (u64 (SetBytes (take 32 (drop (5 * 32) data)))) with (word_value data 5). split.
  - intros [(Hlen & [H|(s & _ & H)])|(a' & _ & H)]; [split; [lia|done]|by apply not_panics_ok in H|].
    rewrite (with_word_pure data 6 (λ w p, p <| UtFromCEA := negb (bool_decide (u64 (SetBytes w) = 0)) |>)), ok_bind in H.
    by apply not_panics_ok in H.
  - intros [Hlen H]. left. split; [lia|by left].
Qed.

(** C33. When the parser crashes.  On a log with its three topics, parsing panics exactly
    when the offset of the payload or of the signature, or the length found there, takes
    a bound around [2^64]; then no test catches it.  Everything else is stored. *)
Theorem gateway_parser_crashes log chain :
  (3 ≤ length (LgTopics log))%nat → Z.of_nat (length (LgData log)) < 2 ^ 63 →
  panics (evm_ParseEvent log EventTypeSendFunds chain) ↔
    let data := LgData log in
    (160 ≤ length data)%nat ∧
    (160 ≤ word_value data 2 ∧ wraps data (word_value data 2)
     ∨ (192 ≤ length data)%nat ∧ 224 ≤ word_value data 5 < Z.of_nat (length data) ∧ wraps data (word_value data 5)).
Proof.
  intros Ht Hl. cbn zeta. unfold evm_ParseEvent. destruct (LgTopics log) as [|t0 ts] eqn:Htop; [cbn in Ht; lia|].
  rewrite decide_True by done. unfold parseSendFundsEvent. rewrite Htop, decide_False by lia.
  set (data := LgData log) in *. 
  assert (∀ (r : res Event), panics (Some <$> r) ↔ panics r) as Hsome by (intros [?|?|?]; unfold panics; cbn; naive_solver).
  rewrite Hsome. unfold parseUniversalTxEvent. fold data. case_decide as Hlen; [rewrite not_panics_ok; lia|].
  set (p := upd _ _ _). clearbody p. unfold parseUniversalTx.
  change (u64 (SetBytes (take 32 (drop 64 data)))) with (word_value data 2). rewrite panics_bind.
  assert (in_range (word_value data 2)) as Hr by (apply Z.mod_pos_bound; lia).
  rewrite panics_decodePayload by (done || lia). split.
  - intros [[H1 H2]|(a & _ & H)]; [split; [lia|by left]|]. apply panics_rest in H; [|lia..]. split; [lia|by right].
  - intros [_ [H|H]]; [by left|].
    destruct (decodePayload_total data (word_value data 2) p) as [[a Ha]|Hp].
    + right. exists a. split; [done|]. apply panics_rest; [lia..|done].
    + left. by apply panics_decodePayload in Hp; [|done|lia..].
Qed.
End gateway.

(** ** The vote *)
(** Numbers and hexadecimal strings are not blank and have no colon. *)
Definition plain (c : ascii) : bool := solid c && negb (bool_decide (c = ":"%char)).
Lemma plain_digit n : plain (pretty_N_char n) = true.
Proof. unfold pretty_N_char. repeat (match goal with |- context [match ?x with _ => _ end] => destruct x end; try done). Qed.
Lemma pretty_N_go_plain x s :
  Forall (λ c, plain c = true) (to_bytes s) →
  Forall (λ c, plain c = true) (to_bytes (pretty_N_go x s)) ∧ (x ≠ 0%N → to_bytes (pretty_N_go x s) ≠ []).
Proof.
  revert s. induction (N.lt_wf_0 x) as [x _ IH]. intros s Hs. destruct (decide (x = 0%N)) as [->|Hx].
  { rewrite pretty_N_go_0. by split. }
  rewrite pretty_N_go_step by lia. assert (Forall (λ c, plain c = true) (to_bytes (String (pretty_N_char (x `mod` 10)) s))) as Hs'.
  { constructor; [apply plain_digit|done]. }
  destruct (IH (x `div` 10)%N ltac:(apply N.div_lt; lia) _ Hs') as [H1 H2]. split; [done|]. intros _.
  destruct (decide ((x `div` 10)%N = 0%N)) as [->|Hd]; [by rewrite pretty_N_go_0|by apply H2].
Qed.
Lemma fmt_d_plain z : 0 ≤ z → Forall (λ c, plain c = true) (to_bytes (fmt_d z)) ∧ to_bytes (fmt_d z) ≠ [].
Proof.
  intros Hz. unfold fmt_d, pretty, pretty_Z. destruct z as [|p|p]; [split; [by repeat constructor|done]| |lia].
  unfold pretty, pretty_positive, pretty, pretty_N. rewrite decide_False by done.
  destruct (pretty_N_go_plain (N.pos p) "") as [H1 H2]; [constructor|]. split; [done|by apply H2].
Qed.
Lemma fmt_d_nonempty z : fmt_d z ≠ "".
Proof.
  destruct (decide (0 ≤ z)) as [Hz|Hz]; [|by destruct z; try lia].
  intros He%(f_equal to_bytes). by destruct (fmt_d_plain z Hz).
Qed.
Lemma TrimSpace_plain s : Forall (λ c, plain c = true) (to_bytes s) → to_bytes s ≠ [] → TrimSpace s = s.
Proof.
  intros Hs Hne. destruct (to_bytes s) as [|a l] eqn:He; [done|]. destruct (last (a :: l)) as [b|] eqn:Hl; [|by apply last_None in Hl].
  rewrite Forall_forall in Hs. assert (b ∈ a :: l) as Hb by (apply last_Some in Hl as [l' ->]; apply elem_of_app; right; left).
  eapply TrimSpace_solid; [done|done|..]; [specialize (Hs a (list_elem_of_here _ _))|specialize (Hs b Hb)]; unfold plain in Hs; by apply andb_true_iff in Hs as [? _].
Qed.
Lemma plain_no_colon (l : bytes) : Forall (λ c, plain c = true) l → ":"%char ∉ l.
Proof. intros H Hin. rewrite Forall_forall in H. by specialize (H _ Hin). Qed.
Lemma hex_plain bz : is_bytes bz → Forall (λ c, plain c = true) (to_bytes (hex_string bz)) ∧ to_bytes (hex_string bz) ≠ [].
Proof.
  intros Hb. unfold hex_string. rewrite to_bytes_app, to_of_bytes. split; [|done]. apply Forall_app. split; [by repeat constructor|].
  apply Forall_forall. intros c Hc. destruct (hex_decode_elem _ _ c (hex_encode_decode bz Hb) Hc) as [x Hx].
  assert (match hexval c with Some _ => plain c | None => true end = true) as Hp; [|by rewrite Hx in Hp].
  clear. revert c. apply (ascii_forall (λ c, match hexval c with Some _ => plain c | None => true end)). by vm_compute.
Qed.
Lemma before_colon a b : ":"%char ∉ to_bytes a → chain_namespace (a +:+ ":" +:+ b) = a.
Proof.
  intros Ha. unfold chain_namespace. rewrite !to_bytes_app.
  assert (∀ l r, ":"%char ∉ l → split_colon (l ++ ":"%char :: r) = Some (l, r)) as Hsp.
  { clear. induction l as [|c l IH]; intros r Hl; [done|]. cbn. apply not_elem_of_cons in Hl as [Hc Hl].
    rewrite decide_False by congruence. by rewrite IH. }
  change (to_bytes ":" ++ to_bytes b) with (":"%char :: to_bytes b). rewrite Hsp by done. apply of_to_bytes.
Qed.

Section vote.
Context `{CC : ChainCodecs, CL : !ChainCodecsLaws}.
(** [IsHexAddress]: [0x] and forty hexadecimal digits. *)
Context (Haddress : ∀ a, length a = 20%nat → is_bytes a → IsHexAddress (hex_string a) = true).

Lemma tx_hash_hex_event hash idx : is_bytes hash → tx_hash_hex (hex_string hash +:+ ":" +:+ fmt_d idx) = hex_string hash.
Proof.
  intros Hh. unfold tx_hash_hex, getTxHashFromEventID.
  rewrite before_colon by (apply plain_no_colon, hex_plain, Hh). unfold base58ToHex. rewrite decide_False by discriminate.
  unfold hex_string. cbn. by destruct (of_bytes (hex_encode hash)).
Qed.
Lemma not_blank_plain s : Forall (λ c, plain c = true) (to_bytes s) → to_bytes s ≠ [] → blank s = false.
Proof.
  intros Hs Hne. unfold blank. rewrite (TrimSpace_plain s Hs Hne). apply bool_decide_eq_false. by intros ->.
Qed.
Lemma not_blank_address a : length a = 20%nat → is_bytes a → blank (ChecksumHex (hex_string a)) = false.
Proof.
  intros Hl Hb. unfold blank. rewrite checksum_trimmed by auto. apply bool_decide_eq_false. apply checksum_nonempty. auto.
Qed.

(** The inbound that an event of the gateway stands for. *)
Definition gateway_inbound (chain : string) (hash : list Z) (idx : Z) (g : GatewayTx) : Ux.Inbound :=
  Ux.mkInbound chain (hex_string hash) (ChecksumHex (hex_string (gSender g))) (ChecksumHex (hex_string (gRecipient g)))
    (fmt_d (gAmount g)) (ChecksumHex (hex_string (gToken g))) (fmt_d idx) (SolidityTxTypeToProto (gTxType g)) None
    (if decide (gSignature g = []) then hex_string hash else hex_string (gSignature g))
    (Some (Ux.mkRevertInstructions (ChecksumHex (hex_string (gRevert g))))) (gFromCEA g) (hex_string (gPayload g)).
Lemma inbound_tx_type_spec z : 0 ≤ z ≤ 3 → inbound_tx_type z = SolidityTxTypeToProto z.
Proof. intros Hz. unfold inbound_tx_type, SolidityTxTypeToProto. repeat case_decide; done || lia. Qed.
Lemma hex_string_0x bz : hex_string bz = "0x" ↔ bz = [].
Proof. split; [|by intros ->]. destruct bz as [|z bz]; [done|]. unfold hex_string. discriminate. Qed.
Lemma constructInbound_observed chain hash block idx g :
  is_bytes hash → 0 ≤ gTxType g ≤ 3 → length (gRevert g) = 20%nat → is_bytes (gRevert g) →
  constructInbound (observed_event chain hash block idx g) = Ok (gateway_inbound chain hash idx g).
Proof.
  intros Hh Hty Hl Hb. unfold constructInbound, observed_event, pending_event, universal_payload, observed.
  cbn [EventID EventData AsUniversalTx]. f_equal. unfold inbound_of, gateway_inbound. rewrite tx_hash_hex_event by done.
  cbn [UtSourceChain UtSender UtRecipient UtAmount UtToken UtLogIndex UtTxType UtVerificationData UtRevertFundRecipient UtFromCEA UtRawPayload].
  rewrite inbound_tx_type_spec by done. rewrite (decide_False (P:=ChecksumHex _ = "")) by (apply checksum_nonempty; auto). f_equal.
  rewrite (bool_decide_eq_false_2 (hex_string _ = "")) by discriminate. cbn [orb].
  destruct (decide (gSignature g = [])) as [He|He]; [by rewrite He|].
  by rewrite bool_decide_eq_false_2 by (by rewrite hex_string_0x).
Qed.
Lemma gateway_inbound_valid chain hash idx g :
  has_colon (TrimSpace chain) = true → is_bytes hash → 0 ≤ idx → length (gSender g) = 20%nat → is_bytes (gSender g) →
  0 ≤ gTxType g ≤ 3 → Inbound_ValidateBasic (gateway_inbound chain hash idx g) = Ok tt.
Proof.
  intros Hc Hh Hi Hl Hb Hty. destruct (hex_plain hash Hh) as [Hh1 Hh2], (fmt_d_plain idx Hi) as [Hi1 Hi2].
  unfold Inbound_ValidateBasic, gateway_inbound. cbn [Ux.SourceChain Ux.TxHash Ux.Sender Ux.LogIndex Ux.InTxType].
  rewrite Hc, (not_blank_plain _ Hh1 Hh2), (not_blank_plain _ Hi1 Hi2), not_blank_address by done.
  rewrite (bool_decide_eq_false_2 (TrimSpace chain = "")) by (by intros Hn; rewrite Hn in Hc). cbn [negb check mbind res_bind].
  assert (gTxType g = 0 ∨ gTxType g = 1 ∨ gTxType g = 2 ∨ gTxType g = 3) as [-> | [-> | [-> | ->]]] by lia; done.
Qed.

(** C13. From the gateway to the vote.  The log of an event of one of the four kinds that
    the chain executes is parsed, and the vote that the processor casts for its row is the
    inbound the event stands for, kind by kind as the chain itself reads it, with the
    transaction as proof when there is no signature; the message passes the chain's
    validation. *)
Theorem gateway_deposit_voted topic0 chain hash block idx g pad pad' :
  gateway_ok g pad pad' → Forall is_bytes [hash; gSender g; gRevert g] → has_colon (TrimSpace chain) = true → 0 ≤ idx →
  gTxType g ≤ 3 →
  ∃ ev, evm_ParseEvent (gateway_log topic0 hash block idx g pad pad') EventTypeSendFunds chain = Ok (Some ev) ∧
    constructInbound ev = Ok (gateway_inbound chain hash idx g) ∧
    Inbound_ValidateBasic (gateway_inbound chain hash idx g) = Ok tt.
Proof.
  intros Hg Hb Hc Hi Hty. exists (observed_event chain hash block idx g). rewrite !Forall_cons in Hb. destruct Hb as (Hh & Hs & Hr & _).
  split; [by apply gateway_event_parsed|]. destruct Hg as (Hl & _ & Ht & _). rewrite !Forall_cons in Hl. destruct Hl as (Hls & _ & _ & Hlr & _).
  split; [apply constructInbound_observed|apply gateway_inbound_valid]; (done || lia).
Qed.

(** *** One transaction per log *)
Lemma lower_hex_encode bz : is_bytes bz → lower <$> hex_encode bz = hex_encode bz.
Proof. intros Hb. apply hex_decode_encode. by apply hex_encode_decode. Qed.
Lemma length_hex_encode bz : length (hex_encode bz) = (2 * length bz)%nat.
Proof. induction bz as [|z bz IH]; [done|]. change (hex_encode (z :: bz)) with (hexdigit (z / 16) :: hexdigit (z mod 16) :: hex_encode bz). cbn [length]. rewrite IH. lia. Qed.
Lemma canonical_hash chain hash :
  CAIP2Namespace chain = namespaceEVM → is_bytes hash → length hash = 32%nat →
  LenientCanonicalizeTxHash chain (hex_string hash) = hex_string hash.
Proof.
  intros Hns Hb Hl. unfold LenientCanonicalizeTxHash, CanonicalizeTxHashByNamespace. destruct (hex_plain hash Hb) as [H1 H2].
  rewrite (TrimSpace_plain _ H1 H2), decide_False by discriminate. rewrite decide_True by done. unfold CanonicalizeEVMHash.
  rewrite (TrimSpace_plain _ H1 H2). assert (strip0x (hex_string hash) = (of_bytes (hex_encode hash), true)) as ->.
  { unfold strip0x, hex_string. by rewrite to_bytes_app, to_of_bytes. }
  rewrite to_of_bytes, length_hex_encode, Hl.
  assert (isHexString (of_bytes (hex_encode hash)) = true) as ->.
  { apply isHexString_spec. rewrite to_of_bytes. split; [|exists hash; by apply hex_encode_decode].
    intros He%(f_equal (length ∘ to_bytes)). cbn in He. rewrite to_of_bytes, length_hex_encode, Hl in He. discriminate. }
  cbn. unfold with0x, hex_string, ToLower. by rewrite to_of_bytes, lower_hex_encode.
Qed.
Lemma hex_string_inj a b : is_bytes a → is_bytes b → hex_string a = hex_string b → a = b.
Proof.
  intros Ha Hb He%(f_equal to_bytes). unfold hex_string in He. rewrite !to_bytes_app, !to_of_bytes in He. apply app_inv_head in He.
  apply (f_equal hex_decode) in He. rewrite !hex_encode_decode in He by done. congruence.
Qed.
Section identity.
Context `{SH : Sha256, SL : !Sha256Laws}.
(** A deposit is one universal transaction: the keys that two votes of the watcher of
    an EVM chain lead to are equal exactly when they are for the same log, whatever else
    the events say. *)
Theorem deposit_key_is_its_log chain hash hash' idx idx' g g' :
  CAIP2Namespace (TrimSpace chain) = namespaceEVM → Forall is_bytes [hash; hash'] →
  length hash = 32%nat → length hash' = 32%nat → 0 ≤ idx → 0 ≤ idx' →
  GetInboundUniversalTxKey (gateway_inbound chain hash idx g) = GetInboundUniversalTxKey (gateway_inbound chain hash' idx' g')
  ↔ hash = hash' ∧ idx = idx'.
Proof.
  intros Hns Hb Hl Hl' Hi Hi'. rewrite !Forall_cons in Hb. destruct Hb as (Hb & Hb' & _).
  unfold GetInboundUniversalTxKey, gateway_inbound. cbn [Ux.SourceChain Ux.TxHash Ux.LogIndex]. rewrite !canonical_hash by done.
  destruct (fmt_d_plain idx Hi) as [H1 H2], (fmt_d_plain idx' Hi') as [H1' H2']. rewrite (TrimSpace_plain _ H1 H2), (TrimSpace_plain _ H1' H2').
  split; [|by intros [-> ->]]. intros He%sha256_hex_inj%(f_equal to_bytes). rewrite !to_bytes_app in He.
  apply app_inv_head, app_inv_head, no_colon_split in He as [Hh Hj]; [|apply plain_no_colon, hex_plain; done..].
  apply to_bytes_inj in Hh, Hj. split; [by apply hex_string_inj|]. by apply (inj pretty) in Hj.
Qed.
End identity.
End vote.
