(* ===== verification/UcWatch.v ===== *)
(** * The universal client: what the watcher of a chain promises

    A watcher stores what it sees, confirms it, votes on it and forgets it.  [Observer]
    says what it means, on a kind of chain, that a row was seen, confirmed or failed;
    the processor, the cleaner and the oracle are proved against this interface once.
    The invariant: every row comes from something that was seen, its status from an
    answer of the chain, and every vote from a confirmed row. *)
From S2P Require Import Prelude GoStrings UvTypes TssTypes UxTypes RegTypes World Canonical Utss UxPayload.
From S2P Require Import UcStore UcChain UcCoord UcLogic.
Import Uc.

(** The log [t] shows that the row [ev], as it was parsed, was seen; that it is confirmed
    with the payload [d]; that its transaction failed. *)
Class Observer : Type := {
  seen : list Logged → Event → Prop;
  confirmed : list Logged → Event → option Payload → Prop;
  failed : list Logged → Event → Prop;
}.
Class ObserverLaws `{Observer} : Prop := {
  seen_mono t t' ev : t ⊆ t' → seen t ev → seen t' ev;
  confirmed_mono t t' ev d : t ⊆ t' → confirmed t ev d → confirmed t' ev d;
  failed_mono t t' ev : t ⊆ t' → failed t ev → failed t' ev;
}.
Create HintDb watch.
#[export] Hint Resolve seen_mono confirmed_mono failed_mono : watch.

(** ** What a log supports *)
Section claims.
Context `{OB : Observer, OL : !ObserverLaws, CC : ChainCodecs}.

(** The columns that the parser writes and nobody changes. *)
Definition same_sighting (ev ev0 : Event) : Prop :=
  EventID ev = EventID ev0 ∧ EvBlockHeight ev = EvBlockHeight ev0 ∧ EvType ev = EvType ev0 ∧ EvConfirmation ev = EvConfirmation ev0.
(** A vote for the row was accepted; its hash is on the row. *)
Definition voted (t : list Logged) (ev : Event) : Prop :=
  EvType ev = EventTypeInbound ∧ (∃ ib, constructInbound ev = Ok ib ∧ VoteInbound ib ⟹ Ok (VoteTxHash ev) ∈ t) ∨
  EvType ev = EventTypeOutbound ∧ ∃ o, parseOutboundEventData ev = Ok o ∧
    VoteOutbound (ObsTxID o) (ObsUniversalTxID o) (buildOutboundObservation ev o) ⟹ Ok (VoteTxHash ev) ∈ t.
Definition row_ok (t : list Logged) (ev : Event) : Prop :=
  ∃ ev0, seen t ev0 ∧ same_sighting ev ev0 ∧
    match EvStatus ev with
    | StatusPending => EventData ev = EventData ev0
    | StatusConfirmed => confirmed t ev0 (EventData ev)
    | StatusCompleted => confirmed t ev0 (EventData ev) ∧ voted t ev
    | StatusReverted => failed t ev0
    | _ => False
    end.
Definition inbound_vote_ok (t : list Logged) (ib : Ux.Inbound) : Prop :=
  ∃ ev0 d ev, seen t ev0 ∧ EvType ev0 = EventTypeInbound ∧ confirmed t ev0 d ∧
    same_sighting ev ev0 ∧ EventData ev = d ∧ constructInbound ev = Ok ib.
Definition outbound_vote_ok (t : list Logged) (txID utxID : string) (obs : Ux.OutboundObservation) : Prop :=
  ∃ ev0 d ev o, seen t ev0 ∧ EvType ev0 = EventTypeOutbound ∧ confirmed t ev0 d ∧
    same_sighting ev ev0 ∧ EventData ev = d ∧ parseOutboundEventData ev = Ok o ∧
    txID = ObsTxID o ∧ utxID = ObsUniversalTxID o ∧ obs = buildOutboundObservation ev o.
Definition call_ok {A} (t : list Logged) (c : Call A) : Prop :=
  match c with
  | VoteInbound ib => inbound_vote_ok t ib
  | VoteOutbound txID utxID obs => outbound_vote_ok t txID utxID obs
  | _ => True
  end.
Definition votes_ok (t : list Logged) : Prop := ∀ l, l ∈ t → call_ok t (asked l).

Lemma voted_mono t t' ev : t ⊆ t' → voted t ev → voted t' ev.
Proof. intros Ht [(H & ib & ? & ?)|(H & o & ? & ?)]; [left|right]; (split; [done|]); eauto. Qed.
Lemma row_ok_mono t t' ev : t ⊆ t' → row_ok t ev → row_ok t' ev.
Proof.
  intros Ht (ev0 & Hs & Hsame & H). exists ev0. split_and!; [by eapply seen_mono|done|].
  destruct (EvStatus ev); eauto with watch. destruct H as [H Hv]. eauto using voted_mono with watch.
Qed.
Lemma call_ok_mono {A} t t' (c : Call A) : t ⊆ t' → call_ok t c → call_ok t' c.
Proof.
  intros Ht. destruct c; try done; cbn.
  - intros (ev0 & d & ev & o & ? & ? & ? & ?). exists ev0, d, ev, o. split_and!; eauto with watch; tauto.
  - intros (ev0 & d & ev & ? & ? & ? & ?). exists ev0, d, ev. split_and!; eauto with watch; tauto.
Qed.
End claims.

Section watch.
Context {E : Type} `{EV : Env E, WC : WatcherConfig, SO : SortSlice, SL : !SortSliceLaws, CC : ChainCodecs}.
Context `{OB : Observer, OL : !ObserverLaws}.
Implicit Types (n : Node E) (ev : Event).

Definition watched n : Prop :=
  (∀ id ev, rows n !! id = Some ev → EventID ev = id ∧ row_ok (trace n) ev) ∧ votes_ok (trace n).

(** ** Asking *)
(** [I] survives the question [c]. *)
Definition asks {A} (I : Node E → Prop) (c : Call A) : Prop :=
  ∀ n a e, I n → I (n <| env := e |> <| trace ::= cons (Log c a) |>).
Definition told_in {A} (c : Call A) (a : A) n : Prop := c ⟹ a ∈ trace n.
Lemma keeps_rpc {A} I (c : Call A) : asks I c → keeps I (rpc c).
Proof. intros Hc n Hn. unfold rpc. destruct (answer c (env n)) as [a e]. by apply Hc. Qed.
Lemma keeps_rpc_bind {A B} I (c : Call A) (f : A → M (Node E) B) :
  asks I c → (∀ a, keeps (λ n, I n ∧ told_in c a n) (f a)) → keeps I (rpc c ≫= f).
Proof.
  intros Hc Hf n Hn. rewrite bind_unfold. unfold rpc. destruct (answer c (env n)) as [a e].
  apply (Hf a). split; [by apply Hc|]. unfold told_in. cbn. left.
Qed.
Lemma keeps_ask_bind {A B} I (c : Call (res A)) (f : A → M (Node E) B) :
  asks I c → (∀ a, keeps (λ n, I n ∧ told_in c (Ok a) n) (f a)) → keeps I (ask c ≫= f).
Proof.
  intros Hc Hf n Hn. unfold ask. rewrite !bind_unfold. unfold rpc. destruct (answer c (env n)) as [[a|e'|e'] e]; cbn.
  - apply (Hf a). split; [by apply Hc|]. unfold told_in. cbn. left.
  - by apply Hc.
  - by apply Hc.
Qed.
(** A fact that stays true. *)
Lemma keeps_and {A} (I F : Node E → Prop) (m : M (Node E) A) : keeps I m → keeps F m → keeps (λ n, I n ∧ F n) m.
Proof. intros H1 H2 n [Hn Hf]. split; [by apply H1|by apply H2]. Qed.
Lemma asks_and {A} I F (c : Call A) : asks I c → asks F c → asks (λ n, I n ∧ F n) c.
Proof. intros H1 H2 n a e [Hn Hf]. split; [by apply H1|by apply H2]. Qed.
Lemma asks_told {A B} (c : Call A) (c' : Call B) b : asks (told_in c' b) c.
Proof. intros n a e Hn. unfold told_in in *. cbn. by right. Qed.
Lemma asks_rows {A} (F : gmap string Event → Prop) (c : Call A) : asks (λ n, F (rows n)) c.
Proof. by intros n a e Hn. Qed.

Lemma watched_grow n e (l : Logged) :
  watched n → call_ok (trace n) (asked l) → watched (n <| env := e |> <| trace ::= cons l |>).
Proof.
  intros [Hr Hv] Hl. assert (trace n ⊆ l :: trace n) as Hsub by set_solver. split; cbn.
  - intros id ev Hid. destruct (Hr id ev Hid) as [? ?]. split; [done|by eapply row_ok_mono].
  - intros l' [->|Hin]%elem_of_cons; eapply call_ok_mono; eauto.
Qed.
(** A call that is not a vote on something seen. *)
Definition not_vote {A} (c : Call A) : Prop := match c with VoteInbound _ | VoteOutbound _ _ _ => False | _ => True end.
Lemma watched_asks {A} (c : Call A) : not_vote c → asks watched c.
Proof. intros Hc n a e Hn. apply (watched_grow n e (Log c a)); [done|]. by destruct c. Qed.

(** ** Writing rows *)
Lemma watched_insert n id ev :
  watched n → EventID ev = id → row_ok (trace n) ev → watched (n <| rows ::= insert id ev |>).
Proof.
  intros [Hr Hv] Hid Hok. split; [|done]. cbn -[insert]. intros k e [[<- <-]|[_ He]]%lookup_insert_Some; [done|by apply Hr].
Qed.
Lemma watched_store ev : keeps (λ n, watched n ∧ seen (trace n) ev ∧ EvStatus ev = StatusPending) (store_event ev).
Proof.
  unfold store_event. apply keeps_rpc_bind.
  { intros n a e (Hn & Hs & Hst). split_and!; [by apply watched_asks|cbn; eapply seen_mono; [|done]; set_solver|done]. }
  intros now n [(Hn & Hs & Hst) Hin]. unfold InsertEventIfNotExists, get_rows, set_rows. mrun.
  destruct (rows n !! _) eqn:Hid; mrun; [done|]. split; [|done]. split_and!; [|done|done].
  apply watched_insert; [done|done|]. exists ev. cbn. by rewrite Hst.
Qed.

(** What does not depend on the rows. *)
Definition rowless (I : Node E → Prop) : Prop := ∀ n g, I n → I (n <| rows ::= g |>).
Lemma rowless_trace (F : list Logged → Prop) : rowless (λ n, F (trace n)).
Proof. by intros n g Hn. Qed.
Lemma keeps_set_rows I g : rowless I → keeps I (set_rows g).
Proof. intros H. apply keeps_modify. intros n. by apply H. Qed.
Lemma keeps_store I ev : rowless I → asks I Now → keeps I (store_event ev).
Proof.
  intros Hr Ha. unfold store_event, InsertEventIfNotExists, get_rows. pose proof (λ g, keeps_set_rows I g Hr).
  pose proof (keeps_rpc I Now Ha). keep.
Qed.
Lemma keeps_swap I id old new f : rowless I → asks I Now → keeps I (swap_status id old new f).
Proof.
  intros Hr Ha. unfold swap_status, get_rows. pose proof (λ g, keeps_set_rows I g Hr). pose proof (keeps_rpc I Now Ha). keep.
Qed.

(** *** A row of a query, while the query is worked off

    Other rows may change, and this one may leave the status [st] of the query. *)
Definition fresh_in (st : EventStatus) ev n : Prop :=
  EvStatus ev = st ∧ row_ok (trace n) ev ∧
  ∀ ev', rows n !! EventID ev = Some ev' → EvStatus ev' = st → ev' = ev.
Lemma asks_fresh {A} st ev (c : Call A) : asks (fresh_in st ev) c.
Proof. intros n a e (Hs & Hok & Hc). split_and!; [done| |done]. cbn. eapply row_ok_mono; [|done]. set_solver. Qed.
Lemma fresh_swap st new id f ev : st ≠ new → keeps (fresh_in st ev) (swap_status id st new f).
Proof.
  intros Hne. unfold swap_status. apply keeps_bind; [apply keeps_rpc, asks_fresh|intros now n (Hs & Hok & Hc)].
  unfold get_rows, set_rows. mrun. destruct (rows n !! id) as [e|] eqn:He; mrun; [|done]. case_decide as Hst; mrun; [|done].
  split_and!; [done|done|]. cbn -[insert]. intros ev' [[_ <-]|[_ He']]%lookup_insert_Some; [done|by apply Hc].
Qed.
Lemma watched_swap ev old new f (F : Node E → Prop) :
  (∀ n now, watched n → F n → row_ok (trace n) ev → row_ok (trace n) (set_status new (f ev) <| EvUpdatedAt := now |>)) →
  (∀ e, EventID (f e) = EventID e) → asks F Now → old ≠ new →
  ∀ n, watched n → fresh_in old ev n → F n → watched (swap_status (EventID ev) old new f n).2.
Proof.
  intros Hok Hid HF Hne n Hn Hfr Hf. unfold swap_status. rewrite bind_unfold. unfold rpc. destruct (answer Now (env n)) as [now e].
  set (n1 := n <| env := e |> <| trace ::= _ |>). assert (watched n1) as Hn1 by (by apply watched_asks).
  assert (fresh_in old ev n1) as (Hs1 & Hok1 & Hc1) by (by apply asks_fresh). assert (F n1) as Hf1 by (by apply HF). clearbody n1.
  unfold get_rows, set_rows. mrun. destruct (rows n1 !! EventID ev) as [e'|] eqn:He; mrun; [|done]. case_decide as Hst; mrun; [|done].
  rewrite (Hc1 e' eq_refl Hst). apply watched_insert; [done|exact (Hid ev)|by apply Hok].
Qed.

(** *** Working off a query *)
Lemma elem_of_by_status st k m ev : ev ∈ by_status st k m → EvStatus ev = st ∧ ∃ id, m !! id = Some ev.
Proof.
  unfold by_status. intros Hin%elem_of_take. destruct Hin as (i & Hi%list_elem_of_lookup_2 & _).
  rewrite sort_Slice_perm in Hi. apply list_elem_of_In, filter_In in Hi as [Hin Hst]. facts.
  split; [done|]. by apply list_elem_of_In, elem_of_walk_values in Hin.
Qed.
Lemma watched_query st k (f : Event → M (Node E) unit) (F : Node E → Prop) :
  (∀ x n, watched n → fresh_in st x n → F n → watched (f x n).2) → (∀ x y, keeps (fresh_in st y) (f x)) →
  (∀ x, keeps F (f x)) →
  ∀ n, watched n → F n → watched ((evs ← get_rows (by_status st k); for_each f evs) n).2.
Proof.
  intros Hw Hfr HF n Hn Hfn. rewrite bind_unfold. unfold get_rows. rewrite gets_run. set (evs := by_status st k (rows n)).
  assert (∀ x, x ∈ evs → fresh_in st x n) as Hall.
  { intros x [Hs (id & Hid)]%elem_of_by_status. destruct (proj1 Hn _ _ Hid) as [Hk Hok]. split_and!; [done|done|].
    intros ev' He' _. rewrite Hk in He'. congruence. }
  clearbody evs. cut (watched (for_each f evs n).2 ∧ F (for_each f evs n).2 ∧ ∀ x, x ∈ evs → fresh_in st x (for_each f evs n).2); [tauto|].
  apply (keeps_for_each_in (λ n, watched n ∧ F n ∧ ∀ x, x ∈ evs → fresh_in st x n)); [|done].
  intros x Hx n' (Hn' & Hf' & Hfr'). split_and!; [apply Hw; auto|by apply HF|]. intros y Hy. by apply Hfr, Hfr'.
Qed.

(** ** The processor *)
Lemma row_ok_completed n ev h now :
  EvStatus ev = StatusConfirmed → row_ok (trace n) ev → voted (trace n) (ev <| VoteTxHash := h |>) →
  row_ok (trace n) (set_status StatusCompleted (ev <| VoteTxHash := h |>) <| EvUpdatedAt := now |>).
Proof.
  intros Hst (ev0 & Hs & Hsame & H) Hv. rewrite Hst in H. exists ev0. cbn. split_and!; [done|done|done|exact Hv].
Qed.
(** A vote for a confirmed row, then COMPLETED if it was accepted. *)
Lemma watched_vote {A} (c : Call (res string)) msg ev (m : M (Node E) A) (k : string → M (Node E) A) :
  (∀ n, fresh_in StatusConfirmed ev n → call_ok (trace n) c) →
  (∀ t h, c ⟹ Ok h ∈ t → voted t (ev <| VoteTxHash := h |>)) →
  (∀ h n, (k h n).2 = (UpdateStatusAndVoteTxHash (EventID ev) StatusConfirmed StatusCompleted h n).2) →
  m = (ask c ≫= k) ∨ m = (wrap msg (ask c) ≫= k) →
  keeps (λ n, watched n ∧ fresh_in StatusConfirmed ev n) m.
Proof.
  intros Hc Hv Hk Hm. apply (keeps_mono (λ n, watched n ∧ fresh_in StatusConfirmed ev n) _); [done|done|].
  intros n [Hn Hfr]. set (P := λ n' : Node E, watched n' ∧ fresh_in StatusConfirmed ev n').
  assert (∃ a e, let n1 := n <| env := e |> <| trace ::= cons (Log c a) |> in
    match a with Ok h => (m n).2 = (k h n1).2 | _ => (m n).2 = n1 end) as (a & e & Hrun).
  { exists (answer c (env n)).1, (answer c (env n)).2. destruct Hm as [->| ->]; unfold ask, rpc; rewrite !bind_unfold;
      rewrite ?wrap_run, ?bind_unfold; by destruct (answer c (env n)) as [[h|e|e] e']. }
  cbn zeta in Hrun. set (n1 := n <| env := e |> <| trace ::= _ |>) in Hrun.
  assert (P n1) as [Hn1 Hfr1] by (split; [apply watched_grow; [done|by apply (Hc n)]|by apply asks_fresh]).
  destruct a as [h|e'|e']; rewrite Hrun; [|done..]. rewrite Hk.
  assert (told_in c (Ok h) n1) as Ht by (unfold told_in; cbn; left). clearbody n1. unfold UpdateStatusAndVoteTxHash. split.
  - apply (watched_swap ev _ _ _ (told_in c (Ok h))); [|done|apply asks_told|done|done|done|done].
    intros n2 now _ Ht2 Hok. apply row_ok_completed; [apply Hfr1|done|]. by apply Hv.
  - by apply fresh_swap.
Qed.
Lemma watched_processInbound ev :
  EvType ev = EventTypeInbound → keeps (λ n, watched n ∧ fresh_in StatusConfirmed ev n) (processInboundEvent ev).
Proof.
  intros Hty. unfold processInboundEvent. destruct (constructInbound ev) as [ib|e|e] eqn:Hib; [|by intros n Hn..].
  eapply (watched_vote (VoteInbound ib) ""); [| | |by left].
  - intros n (Hst & (ev0 & Hs & Hsame & Hc) & _). rewrite Hst in Hc. exists ev0, (EventData ev), ev.
    split_and!; (done || (destruct Hsame as (_ & _ & Ht & _); congruence)).
  - intros t h Ht. left. split; [done|]. by exists ib.
  - intros h n. apply then_ret_state.
Qed.
Lemma watched_processOutbound ev :
  EvType ev = EventTypeOutbound → keeps (λ n, watched n ∧ fresh_in StatusConfirmed ev n) (processOutboundEvent ev).
Proof.
  intros Hty. unfold processOutboundEvent. destruct (parseOutboundEventData ev) as [o|e|e] eqn:Ho; [|by intros n Hn..].
  eapply (watched_vote (VoteOutbound (ObsTxID o) (ObsUniversalTxID o) (buildOutboundObservation ev o))); [| | |by right].
  - intros n (Hst & (ev0 & Hs & Hsame & Hc) & _). rewrite Hst in Hc. exists ev0, (EventData ev), ev, o.
    split_and!; (done || (destruct Hsame as (_ & _ & Ht & _); congruence)).
  - intros t h Ht. right. split; [done|]. by exists o.
  - intros h n. apply then_ret_state.
Qed.
Lemma fresh_ask {A} st ev (c : Call (res A)) : keeps (fresh_in st ev) (ask c).
Proof. unfold ask. apply keeps_bind; [apply keeps_rpc, asks_fresh|intros [|?|?]; keep]. Qed.
Lemma fresh_process x ev : keeps (fresh_in StatusConfirmed ev) (process_event x).
Proof.
  assert (∀ id h, keeps (fresh_in StatusConfirmed ev) (UpdateStatusAndVoteTxHash id StatusConfirmed StatusCompleted h)) as Hu
    by (intros id h; by apply fresh_swap).
  pose proof (@fresh_ask). unfold process_event, processInboundEvent, processOutboundEvent. keep.
Qed.
Lemma watched_processor : keeps watched ep_processConfirmedEvents.
Proof.
  intros n Hn. apply (watched_query _ _ _ (λ _, True)); [|intros x y; apply fresh_process|done|done|done]. intros x n' Hn' Hfr _.
  unfold process_event. destruct (EvType x) eqn:Hty; try done.
  - destruct inboundEnabled; [|done]. rewrite swallow_state. by apply (watched_processInbound x).
  - destruct outboundEnabled; [|done]. rewrite swallow_state. by apply (watched_processOutbound x).
Qed.

(** ** The cleaner and the oracle *)
Lemma watched_cleaner : keeps watched performCleanup.
Proof.
  unfold performCleanup. apply keeps_bind; [by apply keeps_rpc, watched_asks|intros now].
  apply keeps_bind; [|intros _; apply keeps_ret]. intros n [Hr Hv]. unfold DeleteTerminalEvents, delete_where, get_rows, set_rows. mrun.
  split; [|done]. cbn. intros id ev [Hid _]%map_lookup_filter_Some. by apply Hr.
Qed.
Lemma watched_oracle : keeps watched fetchAndVoteChainMeta.
Proof. unfold fetchAndVoteChainMeta. keep; by apply keeps_rpc, watched_asks. Qed.
Lemma watched_height h : keeps watched (UpdateChainHeight h).
Proof. unfold UpdateChainHeight. keep. apply keeps_modify. by intros n. Qed.
Lemma watched_start : keeps watched getStartBlock.
Proof.
  unfold getStartBlock, getStartBlockFromConfig, GetChainHeight, ask. keep; by apply keeps_rpc, watched_asks.
Qed.
End watch.

(** ** Growth *)
Section growth.
Context {E : Type} `{EV : Env E}.
Implicit Types (n : Node E) (ev : Event).
(** Rows are added and changed, the log grows. *)
Definition grown_node n n' : Prop := trace n ⊆ trace n' ∧ ∀ id, is_Some (rows n !! id) → is_Some (rows n' !! id).
#[export] Instance grown_node_preorder : PreOrder grown_node.
Proof. split; [by intros n|]. intros a b c [H1 H2] [H3 H4]. split; [by etransitivity|auto]. Qed.
Lemma grown_asks {A} n0 (c : Call A) : asks (grown_node n0) c.
Proof. intros n a e [Ht Hr]. split; [|done]. cbn. set_solver. Qed.
Lemma grown_insert n0 id ev : keeps (grown_node n0) (set_rows (insert id ev)).
Proof.
  apply keeps_modify. intros n [Ht Hr]. split; [done|]. cbn -[insert]. intros k Hk.
  destruct (decide (k = id)) as [->|Hne]; [by rewrite lookup_insert_eq|rewrite lookup_insert_ne; auto].
Qed.
Lemma grown_height n0 h : keeps (grown_node n0) (UpdateChainHeight h).
Proof. unfold UpdateChainHeight. keep. apply keeps_modify. by intros n. Qed.
#[local] Hint Resolve grown_insert grown_height : keeper.
#[local] Hint Extern 1 (keeps (grown_node _) (rpc _)) => apply keeps_rpc, grown_asks : keeper.
Lemma grown_store n0 ev : keeps (grown_node n0) (store_event ev).
Proof. unfold store_event, InsertEventIfNotExists, get_rows. keep. Qed.
Lemma grown_swap n0 id old new f : keeps (grown_node n0) (swap_status id old new f).
Proof. unfold swap_status, get_rows. keep. Qed.
Lemma grown_answer {A} n0 (c : Call (res A)) : keeps (grown_node n0) (ask c).
Proof. unfold ask. keep. Qed.
#[local] Hint Resolve grown_store grown_swap grown_answer : keeper.
Lemma store_event_ok ev n : ∃ b n', store_event ev n = (Ok b, n').
Proof.
  unfold store_event. rewrite bind_unfold. unfold rpc. destruct (answer Now (env n)) as [now e].
  unfold InsertEventIfNotExists, get_rows, set_rows. rewrite bind_unfold, gets_run. case_match; eexists _, _; reflexivity.
Qed.
End growth.
