(* ===== verification/UcEvmWatch.v ===== *)
(** * The universal client: the votes of the watcher of an EVM chain

    The listener, the confirmer, the processor, the cleaner and the oracle work on the
    database of the chain in any order, with crashes and restarts.  Whatever the RPC
    endpoints answer, a vote on an inbound or an outbound is for a log they returned,
    after a receipt they returned; and no block is left out. *)
From S2P Require Import Prelude GoStrings UvTypes TssTypes UxTypes RegTypes World Canonical Utss UxPayload.
From S2P Require Import UcStore UcChain UcEvm UcCoord UcLogic UcEvmSpec UcWatch.
Import Uc.

Section evm_watch.
Context {E : Type} `{EV : Env E, WC : WatcherConfig, SO : SortSlice, SL : !SortSliceLaws, CC : ChainCodecs}.
Implicit Types (n : Node E) (ev : Event).

(** ** What was seen and confirmed *)
Definition event_hash ev : list Z := evm_HexToHash (getTxHashFromEventID (EventID ev)).
(** The log is in an answer to a filter on the gateway, the vault and the topics that are
    listened to. *)
Definition fetched (t : list Logged) (log : EvmLog) : Prop :=
  ∃ from to logs, FilterLogs from to [ChecksumHex watchedGateway; ChecksumHex watchedVault] eventTopics ⟹ Ok logs ∈ t ∧ log ∈ logs.
Definition parses (log : EvmLog) ev : Prop :=
  ∃ t0 name, head (LgTopics log) = Some t0 ∧ topicToEventType t0 = Some name ∧
    evm_ParseEvent log name watchedChain = Ok (Some ev).
(** A successful receipt, deep enough below the head of the chain, in [uint64]. *)
Definition deep (t : list Logged) ev (receipt : EvmReceipt) : Prop :=
  GetTransactionReceipt (event_hash ev) ⟹ Ok receipt ∈ t ∧ RcStatus receipt = 1 ∧
  ∃ head, ChainHead ⟹ Ok head ∈ t ∧
    evm_getRequiredConfirmations (EvConfirmation ev) ≤ u64 (head - RcBlockNumber receipt + 1).
#[local] Instance evm_observer : Observer := {|
  seen := λ t ev, ∃ log, fetched t log ∧ parses log ev;
  confirmed := λ t ev d, ∃ receipt, deep t ev receipt ∧
    if decide (EvType ev = EventTypeOutbound) then
      ∃ price d0, GetTransactionGasPrice (event_hash ev) ⟹ Ok price ∈ t ∧ EventData ev = Some d0 ∧
        d = Some (with_gas_fee (fmt_d (RcGasUsed receipt * price)) d0)
    else d = EventData ev;
  failed := λ t ev, ∃ receipt, GetTransactionReceipt (event_hash ev) ⟹ Ok receipt ∈ t ∧ RcStatus receipt ≠ 1;
|}.
#[local] Instance evm_observer_laws : ObserverLaws.
Proof.
  split; cbn.
  - intros t t' ev Ht (log & (from & to & logs & Hf & Hl) & Hp). exists log. split; [|done]. exists from, to, logs. auto.
  - intros t t' ev d Ht (r & (H1 & H2 & h & H3 & H4) & Hd). exists r. split; [split_and!; eauto|].
    case_decide; [|done]. destruct Hd as (p & d0 & ? & ?). exists p, d0. auto.
  - intros t t' ev Ht (r & H1 & H2). exists r. auto.
Qed.

(** A parsed row is PENDING, and an outbound is what its topics say. *)
Lemma parseUniversalTx_row ev data off p ev' :
  parseUniversalTx ev data off p = Ok ev' → EvStatus ev' = EvStatus ev ∧ EvType ev' = EvType ev.
Proof.
  unfold parseUniversalTx. intros H. repeat (apply res_bind_ok in H as (? & _ & H)). by injection H as <-.
Qed.
Lemma parses_outbound log ev :
  parses log ev → EvType ev = EventTypeOutbound →
  ev = pending_event (evm_event_id log) (LgBlockNumber log) EventTypeOutbound ConfirmationStandard
         (Some (observed_payload (mkOutboundEvent (hex_string (topic log 1)) (hex_string (topic log 2)) ""))).
Proof.
  intros (t0 & name & _ & _ & Hp) Hty. revert Hp. unfold evm_ParseEvent. destruct (LgTopics log) as [|t ts]; [done|].
  case_decide; [|destruct (observation_name name); [|done]].
  - unfold parseSendFundsEvent. case_decide; [done|]. destruct (parseUniversalTxEvent _ _ _) as [e|e|e] eqn:Hu; try done. cbn.
    intros [= <-]. unfold parseUniversalTxEvent in Hu. case_decide; [by injection Hu as <-|].
    apply parseUniversalTx_row in Hu as [_ Hu]. by rewrite Hu in Hty.
  - unfold parseOutboundObservationEvent. case_decide; [done|]. by intros [= <-].
Qed.
Lemma parses_pending log ev : parses log ev → EvStatus ev = StatusPending.
Proof.
  intros (t0 & name & _ & _ & Hp). revert Hp. unfold evm_ParseEvent. destruct (LgTopics log) as [|t ts]; [done|].
  case_decide; [|destruct (observation_name name); [|done]].
  - unfold parseSendFundsEvent. case_decide; [done|]. destruct (parseUniversalTxEvent _ _ _) as [e|e|e] eqn:Hu; try done. cbn.
    intros [= <-]. unfold parseUniversalTxEvent in Hu. case_decide; [by injection Hu as <-|].
    by apply parseUniversalTx_row in Hu as [Hu _].
  - unfold parseOutboundObservationEvent. case_decide; [done|]. by intros [= <-].
Qed.

(** ** The listener *)
Lemma keeps_fetched {A} log (c : Call A) : asks (E:=E) (λ n, fetched (trace n) log) c.
Proof. intros n a e (from & to & logs & Hf & Hl). exists from, to, logs. cbn. split; [by right|done]. Qed.
Lemma watched_process_log log : keeps (λ n, watched n ∧ fetched (trace n) log) (process_log log).
Proof.
  intros n [Hn Hf]. unfold process_log. destruct (LgTopics log) as [|t0 ts] eqn:Ht; [done|].
  destruct (topicToEventType t0) as [name|] eqn:Hty; [|done]. rewrite bind_unfold, lift_res_run.
  destruct (evm_ParseEvent log name watchedChain) as [[ev|]|e|e] eqn:Hp; try done. rewrite then_ret_state.
  assert (parses log ev) as Hpa by (exists t0, name; by rewrite Ht).
  split; [|apply (keeps_store (λ n, fetched (trace n) log)); [apply (rowless_trace (λ t, fetched t log))|apply keeps_fetched|done]].
  apply (watched_store ev). split_and!; [done|by exists log|by eapply parses_pending].
Qed.
Lemma watched_chunk from to : keeps watched (processBlockChunk from to).
Proof.
  unfold processBlockChunk. intros n Hn. rewrite bind_unfold, wrap_run.
  destruct (answer (FilterLogs (i64 from) (i64 to) [ChecksumHex watchedGateway; ChecksumHex watchedVault] eventTopics) (env n))
    as [a e] eqn:Ha. unfold ask, rpc. rewrite bind_unfold, Ha. set (n1 := n <| env := e |> <| trace ::= _ |>).
  assert (watched n1) as Hn1 by (by apply watched_asks). destruct a as [logs|e'|e']; [|exact Hn1..]. cbn.
  assert (∀ log, log ∈ logs → fetched (trace n1) log) as Hl.
  { intros log Hlog. exists (i64 from), (i64 to), logs.
    split; [cbn; left|done]. } clearbody n1.
  apply (keeps_for_each_in (λ n, watched n ∧ ∀ log, log ∈ logs → fetched (trace n) log)); [|done].
  intros log Hlog n' [Hn' Hl']. split; [by apply watched_process_log; auto|]. intros log' Hlog'.
  unfold process_log. destruct (LgTopics log); [by apply Hl'|]. destruct (topicToEventType _); [|by apply Hl'].
  rewrite bind_unfold, lift_res_run. destruct (evm_ParseEvent _ _ _) as [[ev|]|?|?]; try (by apply Hl'). rewrite then_ret_state.
  apply (keeps_store (λ n, fetched (trace n) log')); [apply (rowless_trace (λ t, fetched t log'))|apply keeps_fetched|by apply Hl'].
Qed.
Lemma watched_range fuel from to : keeps watched (processBlockRange fuel from to).
Proof.
  revert from. induction fuel as [|fuel IH]; intros from; cbn [processBlockRange]; case_decide; [keep..|keep|keep].
  all: eauto using watched_chunk with keeper.
Qed.
Lemma watched_listen cur : keeps watched (listen_tick cur).
Proof.
  unfold listen_tick, processNewBlocks, ask. pose proof watched_range. pose proof (watched_height (E:=E)).
  keep; by apply keeps_rpc, watched_asks.
Qed.

(** ** The confirmer *)
Lemma required_same ev ev0 : same_sighting ev ev0 → evm_getRequiredConfirmations (EvConfirmation ev) = evm_getRequiredConfirmations (EvConfirmation ev0).
Proof. by intros (_ & _ & _ & ->). Qed.
(** A pending row with a deep receipt may become CONFIRMED. *)
Lemma row_ok_confirmed t ev receipt d now :
  EvStatus ev = StatusPending → row_ok t ev → deep t ev receipt →
  (if decide (EvType ev = EventTypeOutbound) then
     ∃ price d0, GetTransactionGasPrice (event_hash ev) ⟹ Ok price ∈ t ∧ EventData ev = Some d0 ∧
       d = Some (with_gas_fee (fmt_d (RcGasUsed receipt * price)) d0)
   else d = EventData ev) →
  row_ok t (set_status StatusConfirmed (ev <| EventData := d |>) <| EvUpdatedAt := now |>).
Proof.
  intros Hst (ev0 & Hs & Hsame & H) Hd Hdata. rewrite Hst in H. exists ev0. cbn -[seen confirmed]. split_and!; [done|done|].
  destruct Hsame as (Hid & Hh & Hty & Hct). exists receipt. unfold deep, event_hash in *. by rewrite <- Hid, <- Hct, <- Hty, <- H.
Qed.
Lemma row_ok_reverted t ev receipt now :
  EvStatus ev = StatusPending → row_ok t ev → GetTransactionReceipt (event_hash ev) ⟹ Ok receipt ∈ t → RcStatus receipt ≠ 1 →
  row_ok t (set_status StatusReverted ev <| EvUpdatedAt := now |>).
Proof.
  intros Hst (ev0 & Hs & Hsame & H) Hr Hne. exists ev0. cbn -[seen failed]. split_and!; [done|done|].
  exists receipt. unfold event_hash in *. by rewrite <- (proj1 Hsame).
Qed.
Lemma fresh_pending_swap id new f ev : StatusPending ≠ new → keeps (W:=Node E) (fresh_in StatusPending ev) (swap_status id StatusPending new f).
Proof. by apply fresh_swap. Qed.
Lemma fresh_confirm_event latest x ev : keeps (fresh_in StatusPending ev) (evm_confirm_event latest x).
Proof.
  pose proof (λ id f, fresh_pending_swap id StatusConfirmed f ev ltac:(done)).
  pose proof (λ id f, fresh_pending_swap id StatusReverted f ev ltac:(done)).
  unfold evm_confirm_event, evm_confirm, UpdateEventStatus, UpdateStatusAndEventData.
  keep; try (apply keeps_rpc, asks_fresh).
Qed.
Lemma asks_deep {A} ev receipt (c : Call A) : asks (E:=E) (λ n, deep (trace n) ev receipt) c.
Proof. intros n a e (H1 & H2 & h & H3 & H4). split_and!; [cbn; by right|done|]. exists h. split; [cbn; by right|done]. Qed.
Lemma watched_confirm ev receipt n :
  watched n → fresh_in StatusPending ev n → deep (trace n) ev receipt → watched (evm_confirm ev (event_hash ev) receipt n).2.
Proof.
  intros Hn Hfr Hd. unfold evm_confirm. destruct (decide (EvType ev = EventTypeOutbound)) as [Hty|Hty].
  - rewrite Hty, bind_unfold. unfold rpc. destruct (answer (GetTransactionGasPrice (event_hash ev)) (env n)) as [a e].
    set (n1 := n <| env := e |> <| trace ::= _ |>). assert (watched n1) as Hn1 by (by apply watched_asks).
    assert (fresh_in StatusPending ev n1) as Hfr1 by (by apply asks_fresh). assert (deep (trace n1) ev receipt) as Hd1 by (by apply (asks_deep ev receipt)).
    assert (told_in (GetTransactionGasPrice (event_hash ev)) a n1) as Ht by (unfold told_in; cbn; left). clearbody n1.
    destruct a as [price|e'|e']; [|done..]. destruct (EventData ev) as [d0|] eqn:Hd0; [|done]. rewrite then_ret_state.
    apply (watched_swap ev _ _ _ (λ n, deep (trace n) ev receipt ∧ told_in (GetTransactionGasPrice (event_hash ev)) (Ok price) n));
      [|done|apply asks_and; [apply asks_deep|apply asks_told]|done..].
    intros n2 now _ [Hd2 Ht2] Hok. apply (row_ok_confirmed _ _ receipt); [apply Hfr|done|done|]. rewrite decide_True by done. by exists price, d0.
  - assert (watched (swap_status (EventID ev) StatusPending StatusConfirmed (λ ev, ev) n).2) as Hw.
    { apply (watched_swap ev _ _ _ (λ n, deep (trace n) ev receipt)); [|done|apply asks_deep|done..].
      intros n2 now _ Hd2 Hok. replace ev with (ev <| EventData := EventData ev |>) at 1 by (by destruct ev).
      apply (row_ok_confirmed _ _ receipt); [apply Hfr|done|done|]. by rewrite decide_False. }
    destruct (EvType ev); try congruence; unfold UpdateEventStatus; by rewrite then_ret_state.
Qed.
Lemma watched_confirm_event latest ev n :
  watched n → fresh_in StatusPending ev n → ChainHead ⟹ Ok latest ∈ trace n → watched (evm_confirm_event latest ev n).2.
Proof.
  intros Hn Hfr Hh. unfold evm_confirm_event. destruct (_ || _); [done|]. fold (event_hash ev). rewrite bind_unfold. unfold rpc.
  destruct (answer (GetTransactionReceipt (event_hash ev)) (env n)) as [a e].
  set (n1 := n <| env := e |> <| trace ::= _ |>). assert (watched n1) as Hn1 by (by apply watched_asks).
  assert (fresh_in StatusPending ev n1) as Hfr1 by (by apply asks_fresh).
  assert (ChainHead ⟹ Ok latest ∈ trace n1) as Hh1 by (cbn; by right).
  assert (told_in (GetTransactionReceipt (event_hash ev)) a n1) as Ht by (unfold told_in; cbn; left). clearbody n1.
  destruct a as [receipt|e'|e']; [|done..]. case_decide as Hst; [case_decide as Hdeep; [|done]|].
  - apply watched_confirm; [done..|]. split_and!; [done|done|by exists latest].
  - unfold UpdateEventStatus. rewrite then_ret_state.
    apply (watched_swap ev _ _ _ (told_in (GetTransactionReceipt (event_hash ev)) (Ok receipt))); [|done|apply asks_told|done..].
    intros n2 now _ Ht2 Hok. by eapply row_ok_reverted; [apply Hfr| | |].
Qed.
Lemma told_confirm_event {A} (c : Call A) a latest x : keeps (told_in c a) (evm_confirm_event latest x).
Proof.
  assert (∀ id old new f, keeps (told_in (E:=E) c a) (swap_status id old new f)) as Hs.
  { intros id old new f. apply keeps_swap; [apply (rowless_trace (λ t, c ⟹ a ∈ t))|apply asks_told]. }
  unfold evm_confirm_event, evm_confirm, UpdateEventStatus, UpdateStatusAndEventData. keep; try (apply keeps_rpc, asks_told).
Qed.
Lemma watched_confirmer : keeps watched evm_processPendingEvents.
Proof.
  intros n Hn. unfold evm_processPendingEvents. rewrite bind_unfold, wrap_run. unfold ask, rpc. rewrite bind_unfold.
  destruct (answer ChainHead (env n)) as [[latest|e'|e'] e]; cbn [wrap_res]; [|by apply (watched_asks (ChainHead))..].
  set (n1 := n <| env := e |> <| trace ::= _ |>). assert (watched n1) as Hn1 by (by apply watched_asks).
  assert (ChainHead ⟹ Ok latest ∈ trace n1) as Hh1 by (cbn; left). clearbody n1.
  refine (watched_query _ _ _ (told_in ChainHead (Ok latest)) _ _ _ n1 Hn1 Hh1).
  - intros x n' Hn' Hfr Ht. by apply watched_confirm_event.
  - intros x y. apply fresh_confirm_event.
  - intros x. apply told_confirm_event.
Qed.

(** ** Runs *)
(** The block to go on from, [None] when the listener does not run, and the node. *)
Inductive evm_tick : option Z * Node E → option Z * Node E → Prop :=
| evm_listened cur n next n' : listen_tick cur n = (Ok next, n') → evm_tick (Some cur, n) (Some next, n')
| evm_crashed cur n e n' : listen_tick cur n = (Panic e, n') → evm_tick (Some cur, n) (None, n')
| evm_confirms c n : evm_tick (c, n) (c, (evm_processPendingEvents n).2)
| evm_processes c n : evm_tick (c, n) (c, (ep_processConfirmedEvents n).2)
| evm_cleans c n : evm_tick (c, n) (c, (performCleanup n).2)
| evm_prices c n : evm_tick (c, n) (c, (fetchAndVoteChainMeta n).2).
Inductive evm_step : option Z * Node E → option Z * Node E → Prop :=
| evm_started c n c' n' : listen_start n = (Ok c', n') → evm_step (c, n) (c', n')
| evm_ticked s s' : evm_tick s s' → evm_step s s'.
Lemma watched_tick s s' : evm_tick s s' → watched s.2 → watched s'.2.
Proof.
  destruct 1 as [cur n next n' Hr|cur n e n' Hr|c n|c n|c n|c n]; cbn [snd]; intros Hn.
  - apply (f_equal snd) in Hr. cbn in Hr. subst n'. by apply watched_listen.
  - apply (f_equal snd) in Hr. cbn in Hr. subst n'. by apply watched_listen.
  - by apply watched_confirmer.
  - by apply watched_processor.
  - by apply watched_cleaner.
  - by apply watched_oracle.
Qed.
Lemma watched_listen_start : keeps watched listen_start.
Proof. pose proof (watched_start (E:=E)). unfold listen_start. keep. Qed.
Lemma watched_step s s' : evm_step s s' → watched s.2 → watched s'.2.
Proof.
  destruct 1 as [c n c' n' Hr|s s' Ht]; [|by apply watched_tick]. cbn. intros Hn.
  apply (f_equal snd) in Hr. cbn in Hr. subst n'. by apply watched_listen_start.
Qed.
Definition fresh_watcher n : Prop := rows n = ∅ ∧ trace n = [].
Lemma fresh_watched n : fresh_watcher n → watched n.
Proof. intros [Hr Ht]. split; rewrite ?Hr, ?Ht; [done|by intros l ?%not_elem_of_nil]. Qed.
Lemma watched_run s s' : rtc evm_step s s' → watched s.2 → watched s'.2.
Proof. induction 1; eauto using watched_step. Qed.

(** C11. A watcher of an EVM chain votes only on what it saw.  Whatever the RPC endpoints
    answer and however its parts interleave, crash and restart, every inbound it votes for
    is the one its parser reads in a log that a filter returned, and every outbound it
    votes as executed is named by the topics of such a log, with the fee of the
    transaction; each after a successful receipt of the log's transaction, below the head
    of the chain by the confirmations that its kind requires (in 64 bits).  A row is
    COMPLETED only by a vote that was accepted. *)
Theorem evm_votes_follow_logs c n c' n' :
  fresh_watcher n → rtc evm_step (c, n) (c', n') →
  (∀ ib a, VoteInbound ib ⟹ a ∈ trace n' →
    ∃ log ev receipt, fetched (trace n') log ∧ parses log ev ∧ deep (trace n') ev receipt ∧ constructInbound ev = Ok ib) ∧
  (∀ txID utxID obs a, VoteOutbound txID utxID obs ⟹ a ∈ trace n' →
    ∃ log ev receipt price, fetched (trace n') log ∧ parses log ev ∧ deep (trace n') ev receipt ∧
      GetTransactionGasPrice (event_hash ev) ⟹ Ok price ∈ trace n' ∧
      txID = hex_string (topic log 1) ∧ utxID = hex_string (topic log 2) ∧
      obs = Ux.mkOutboundObservation true (LgBlockNumber log) (tx_hash_hex (evm_event_id log)) ""
              (fmt_d (RcGasUsed receipt * price))) ∧
  (∀ id ev, rows n' !! id = Some ev → EvStatus ev = StatusCompleted → voted (trace n') ev).
Proof.
  intros Hf Hrun. apply fresh_watched in Hf. apply (watched_run _ _ Hrun) in Hf as [Hr Hv]. cbn [snd] in *. split_and!.
  - intros ib a Ha. destruct (Hv _ Ha) as (ev0 & d & ev & (log & Hfe & Hp) & Hty & (receipt & Hd & Hdata) & Hsame & Hed & Hib).
    rewrite decide_False in Hdata by congruence. exists log, ev0, receipt. split_and!; [done..|].
    rewrite <- Hib. unfold constructInbound. by rewrite Hed, Hdata, (proj1 Hsame).
  - intros txID utxID obs a Ha.
    destruct (Hv _ Ha) as (ev0 & d & ev & o & (log & Hfe & Hp) & Hty & (receipt & Hd & Hdata) & Hsame & Hed & Ho & -> & -> & ->).
    rewrite decide_True in Hdata by done. destruct Hdata as (price & d0 & Hpr & Hd0 & ->).
    exists log, ev0, receipt, price. pose proof (parses_outbound _ _ Hp Hty) as He0. rewrite He0 in Hd0. injection Hd0 as <-.
    assert (o = mkOutboundEvent (hex_string (topic log 1)) (hex_string (topic log 2)) (fmt_d (RcGasUsed receipt * price))) as ->.
    { unfold parseOutboundEventData in Ho. rewrite Hed in Ho. apply res_bind_ok in Ho as (_ & _ & Ho).
      apply res_bind_ok in Ho as (_ & _ & Ho). by injection Ho as <-. }
    destruct Hsame as (Hid & Hh & _). unfold buildOutboundObservation. rewrite Hid, Hh.
    cbn [ObsTxID ObsUniversalTxID ObsGasFeeUsed]. rewrite decide_False by apply fmt_d_nonempty. by rewrite He0 in *.
  - intros id ev Hid Hst. destruct (Hr _ _ Hid) as [_ (ev0 & _ & _ & H)]. rewrite Hst in H. apply H.
Qed.

(** ** A head that lags *)
Lemma swap_status_run id old new f n ev :
  rows n !! id = Some ev → EvStatus ev = old →
  ∃ now, rows (swap_status id old new f n).2 !! id = Some (set_status new (f ev) <| EvUpdatedAt := now |>).
Proof.
  intros Hid Hst. unfold swap_status. rewrite bind_unfold. unfold rpc. destruct (answer Now (env n)) as [now e]. exists now.
  unfold get_rows, set_rows. mrun. cbn -[insert]. rewrite Hid. mrun. cbn -[insert]. rewrite decide_True by done. mrun. cbn -[insert].
  by rewrite lookup_insert_eq.
Qed.
(** A head that lags behind confirms at once.  When the head of the chain that the
    confirmer read is two or more blocks below the block of the receipt (the endpoints
    take turns, and one may lag), the depth wraps around and the row is CONFIRMED, however
    many confirmations its kind requires. *)
Theorem evm_lagging_head_confirms n ev head block gas :
  rows n !! EventID ev = Some ev → EvStatus ev = StatusPending → EvType ev = EventTypeInbound → EvBlockHeight ev ≠ 0 →
  getTxHashFromEventID (EventID ev) ≠ "" →
  (answer (GetTransactionReceipt (event_hash ev)) (env n)).1 = Ok (mkEvmReceipt 1 block gas) →
  0 ≤ head → head + 1 < block < 2 ^ 63 → evm_getRequiredConfirmations (EvConfirmation ev) ≤ 2 ^ 63 →
  ∃ ev', rows (evm_confirm_event head ev n).2 !! EventID ev = Some ev' ∧ EvStatus ev' = StatusConfirmed.
Proof.
  intros Hid Hst Hty Hbh Hhash Ha Hh Hb Hreq. unfold evm_confirm_event. rewrite !bool_decide_eq_false_2 by done. cbn [orb].
  fold (event_hash ev). rewrite bind_unfold. unfold rpc. destruct (answer (GetTransactionReceipt (event_hash ev)) (env n)) as [a e].
  cbn in Ha. subst a. rewrite decide_True by done. cbn [RcBlockNumber].
  assert (u64 (head - block + 1) = head - block + 1 + 2^64) as -> by (unfold u64; symmetry; apply (Z.mod_unique _ _ (-1)); lia).
  rewrite decide_True by lia. unfold evm_confirm. rewrite Hty. unfold UpdateEventStatus. rewrite then_ret_state.
  match goal with |- context [swap_status _ _ _ ?f ?n1] =>
    destruct (swap_status_run (EventID ev) StatusPending StatusConfirmed f n1 ev Hid Hst) as [now Hrow] end.
  eexists. split; [exact Hrow|done].
Qed.
End evm_watch.
