(* ===== verification/UcEvmScan.v ===== *)
(** * The universal client: no block of an EVM chain is left out

    The listener goes through the blocks in chunks, remembers in the database how far it
    came, and goes on from there after a restart.  Every block from the first one on is in
    a chunk whose logs were all stored; a stored log stays in the database until its vote
    was accepted or its transaction failed. *)
From S2P Require Import Prelude GoStrings UvTypes TssTypes UxTypes RegTypes World Canonical Utss UxPayload.
From S2P Require Import UcStore UcChain UcEvm UcCoord UcLogic UcEvmSpec UcWatch UcEvmWatch.
Import Uc.

#[local] Existing Instance evm_observer.
#[local] Existing Instance evm_observer_laws.

Section scan.
Context {E : Type} `{EV : Env E, WC : WatcherConfig, SO : SortSlice, SL : !SortSliceLaws, CC : ChainCodecs}.
Implicit Types (n : Node E) (ev : Event).

(** ** What stays known *)
(** A row with the identifier of [ev] was done with. *)
Definition done_with (t : list Logged) ev : Prop :=
  ∃ ev' ev0, EventID ev' = EventID ev ∧ same_sighting ev' ev0 ∧ (voted t ev' ∨ failed t ev0).
Definition tracked n ev : Prop := is_Some (rows n !! EventID ev) ∨ done_with (trace n) ev.
Definition scanned n (b : Z) : Prop :=
  ∃ from to logs, FilterLogs from to [ChecksumHex watchedGateway; ChecksumHex watchedVault] eventTopics ⟹ Ok logs ∈ trace n ∧
    from ≤ b ≤ to ∧ ∀ log ev, log ∈ logs → parses log ev → tracked n ev.

Lemma done_with_mono t t' ev : t ⊆ t' → done_with t ev → done_with t' ev.
Proof.
  intros Ht (ev' & ev0 & H1 & H2 & [H|H]); exists ev', ev0; split_and!; eauto using voted_mono with watch.
  right. by eapply failed_mono.
Qed.
Lemma tracked_mono n n' ev : grown_node n n' → tracked n ev → tracked n' ev.
Proof. intros [Ht Hr] [H|H]; [left; auto|right; by eapply done_with_mono]. Qed.
Lemma scanned_mono n n' b : trace n ⊆ trace n' → (∀ ev, tracked n ev → tracked n' ev) → scanned n b → scanned n' b.
Proof. intros Ht Htr (from & to & logs & H1 & H2 & H3). exists from, to, logs. split_and!; [auto|lia|lia|eauto]. Qed.

#[local] Hint Resolve grown_height grown_store grown_swap grown_answer : keeper.
#[local] Hint Extern 1 (keeps (grown_node _) (rpc _)) => apply keeps_rpc, grown_asks : keeper.
Lemma grown_process_log n0 log : keeps (grown_node n0) (process_log log).
Proof. unfold process_log. keep. Qed.
#[local] Hint Resolve grown_process_log : keeper.
Lemma grown_chunk n0 from to : keeps (grown_node n0) (processBlockChunk from to).
Proof. unfold processBlockChunk. keep. Qed.
#[local] Hint Resolve grown_chunk : keeper.
Lemma grown_range n0 fuel from to : keeps (grown_node n0) (processBlockRange fuel from to).
Proof. revert from. induction fuel as [|fuel IH]; intros from; cbn [processBlockRange]; keep. Qed.
#[local] Hint Resolve grown_range : keeper.
Lemma grown_listen n0 cur : keeps (grown_node n0) (listen_tick cur).
Proof. unfold listen_tick, processNewBlocks. keep. Qed.
Lemma grown_start n0 : keeps (grown_node n0) listen_start.
Proof. unfold listen_start, getStartBlock, getStartBlockFromConfig, GetChainHeight. keep. Qed.
Lemma grown_confirm_event n0 latest ev : keeps (grown_node n0) (evm_confirm_event latest ev).
Proof. unfold evm_confirm_event, evm_confirm, UpdateEventStatus, UpdateStatusAndEventData. keep. Qed.
#[local] Hint Resolve grown_confirm_event : keeper.
Lemma grown_confirmer n0 : keeps (grown_node n0) evm_processPendingEvents.
Proof. unfold evm_processPendingEvents, GetPendingEvents, get_rows. keep. Qed.
Lemma grown_process n0 ev : keeps (grown_node n0) (process_event ev).
Proof. unfold process_event, processInboundEvent, processOutboundEvent, UpdateStatusAndVoteTxHash. keep. Qed.
#[local] Hint Resolve grown_process : keeper.
Lemma grown_processor n0 : keeps (grown_node n0) ep_processConfirmedEvents.
Proof. unfold ep_processConfirmedEvents, GetConfirmedEvents, get_rows. keep. Qed.
Lemma grown_oracle n0 : keeps (grown_node n0) fetchAndVoteChainMeta.
Proof. unfold fetchAndVoteChainMeta. keep. Qed.
(** The cleaner removes what is done with. *)
Lemma cleaner_tracks n ev : watched n → tracked n ev → tracked (performCleanup n).2 ev.
Proof.
  intros Hn Htr. unfold performCleanup. rewrite bind_unfold. unfold rpc. destruct (answer Now (env n)) as [now e].
  set (n1 := n <| env := e |> <| trace ::= _ |>). assert (watched n1) as [Hr _] by (by apply watched_asks).
  assert (tracked n1 ev) as Ht by (eapply tracked_mono; [|done]; apply (grown_asks n Now); done). clearbody n1.
  rewrite then_ret_state. unfold DeleteTerminalEvents, delete_where, get_rows, set_rows. mrun.
  destruct Ht as [[ev' Hev]|Ht]; [|right; exact Ht].
  destruct (terminal_status (EvStatus ev') && bool_decide (EvUpdatedAt ev' < now - retentionPeriod)) eqn:Hdel.
  - right. apply andb_true_iff in Hdel as [Hterm _]. destruct (Hr _ _ Hev) as [Hid (ev0 & Hs & Hsame & H)].
    exists ev', ev0. split_and!; [done|done|]. cbn [trace]. destruct (EvStatus ev'); try done; [left; apply H|right; exact H].
  - left. exists ev'. cbn. by apply map_lookup_filter_Some.
Qed.

(** ** The listener *)
Lemma process_log_stores log n n' ev :
  process_log log n = (Ok tt, n') → parses log ev → is_Some (rows n' !! EventID ev).
Proof.
  intros Hrun (t0 & name & Ht & Hty & Hp). unfold process_log in Hrun. destruct (LgTopics log) as [|t ts] eqn:Htop; [done|].
  injection Ht as ->. rewrite Hty, bind_unfold, lift_res_run, Hp in Hrun. apply (f_equal snd) in Hrun.
  rewrite then_ret_state in Hrun. cbn in Hrun. subst n'. unfold store_event. rewrite bind_unfold. unfold rpc.
  destruct (answer Now (env n)) as [now e]. unfold InsertEventIfNotExists, get_rows, set_rows. mrun. cbn.
  destruct (rows n !! EventID ev) eqn:He; mrun; cbn -[insert]; [by rewrite He|by rewrite lookup_insert_eq].
Qed.
Lemma logs_stored logs n n' :
  for_each process_log logs n = (Ok tt, n') → ∀ log ev, log ∈ logs → parses log ev → is_Some (rows n' !! EventID ev).
Proof.
  revert n. induction logs as [|l logs IH]; intros n Hrun log ev Hin Hp; [by apply not_elem_of_nil in Hin|].
  rewrite for_each_cons_run in Hrun. apply bind_ok in Hrun as ([] & n1 & H1 & H2).
  apply elem_of_cons in Hin as [->|Hin]; [|by eapply IH].
  eapply process_log_stores in H1; [|done]. assert (grown_node n1 n') as [_ Hg].
  { replace n' with (for_each process_log logs n1).2 by (by rewrite H2). apply (keeps_for_each (grown_node n1)); [|done].
    intros x. apply grown_process_log. } by apply Hg.
Qed.
Lemma chunk_scans from to n n' :
  0 ≤ from → to < 2 ^ 63 → processBlockChunk from to n = (Ok tt, n') → ∀ b, from ≤ b ≤ to → scanned n' b.
Proof.
  intros Hf Ht Hrun b Hb. unfold processBlockChunk in Hrun. apply bind_ok in Hrun as (logs & n1 & H1 & H2).
  rewrite !i64_id in H1 by lia. exists from, to, logs. split_and!; [|lia..|].
  - rewrite wrap_run in H1. unfold ask in H1. rewrite bind_unfold in H1. unfold rpc in H1.
    destruct (answer _ (env n)) as [[l|e|e] e'] in H1; try done. injection H1 as -> <-.
    assert (grown_node (n <| env := e' |> <| trace ::= cons (Log (FilterLogs from to [ChecksumHex watchedGateway; ChecksumHex watchedVault] eventTopics) (Ok logs)) |>) n') as [Hg _].
    { match type of H2 with _ ?m = _ => replace n' with (for_each process_log logs m).2 by (by rewrite H2) end.
      apply (keeps_for_each (grown_node _)); [intros x; apply grown_process_log|reflexivity]. }
    apply Hg. cbn. left.
  - intros log ev Hlog Hp. left. by eapply logs_stored.
Qed.
Lemma range_scans fuel from to n n' :
  0 ≤ from → to + 9000 < 2 ^ 63 → processBlockRange fuel from to n = (Ok tt, n') → ∀ b, from ≤ b ≤ to → scanned n' b.
Proof.
  revert from n. induction fuel as [|fuel IH]; intros from n Hf Ht Hrun b Hb; cbn [processBlockRange] in Hrun;
    rewrite decide_True in Hrun by lia; [done|].
  rewrite (u64_id (from + maxBlockRange - 1)) in Hrun by (unfold maxBlockRange; lia).
  set (mid := if decide (to < from + maxBlockRange - 1) then to else from + maxBlockRange - 1) in Hrun.
  assert (from ≤ mid ≤ to) as Hmid by (unfold mid, maxBlockRange; case_decide; lia). rewrite u64_id in Hrun by lia.
  apply bind_ok in Hrun as ([] & n1 & H1 & H2). rewrite wrap_run in H1. destruct (processBlockChunk from mid n) as [[[]|e|e] n2] eqn:Hc; try done.
  injection H1 as <-. destruct (decide (b ≤ mid)) as [Hle|Hgt]; [|apply (IH (mid + 1) n2); [lia|lia|done|lia]].
  assert (grown_node n2 n') as Hg by (replace n' with (processBlockRange fuel (mid + 1) to n2).2 by (by rewrite H2); by apply grown_range).
  eapply scanned_mono; [apply Hg|intros ev; by apply tracked_mono|]. eapply chunk_scans; [| |done|]; lia.
Qed.

(** *** A tick *)
Definition heads_ok : Prop := ∀ (e : E) h, (answer ChainHead e).1 = Ok h → 0 ≤ h < 2 ^ 62.
Definition start_ok : Prop := ∀ z, eventStartFrom = Some z → z < 2 ^ 62.
Lemma height_range h fuel from to : keeps (λ n, dbHeight n = h) (processBlockRange fuel from to).
Proof.
  assert (∀ n id ev, dbHeight n = h → dbHeight (n <| rows ::= insert id ev |>) = h) as Hi by done.
  assert (∀ ev, keeps (λ n, dbHeight n = h) (store_event ev)) as Hst.
  { intros ev. apply keeps_store; [by intros ? ? ?|by intros ? ? ? ?]. }
  assert (∀ log, keeps (λ n, dbHeight n = h) (process_log log)) as Hl by (intros log; unfold process_log; keep).
  assert (∀ A (c : Call A), keeps (λ n, dbHeight n = h) (rpc c)) as Hr by (intros A c; apply keeps_rpc; by intros ? ? ? ?).
  assert (∀ from to, keeps (λ n, dbHeight n = h) (processBlockChunk from to)) as Hc by (intros f t; unfold processBlockChunk, ask; keep).
  revert from. induction fuel as [|fuel IH]; intros from; cbn [processBlockRange]; keep.
Qed.
Lemma ask_head n r n' :
  heads_ok → ask ChainHead n = (r, n') →
  grown_node n n' ∧ dbHeight n' = dbHeight n ∧ ∀ h, r = Ok h → 0 ≤ h < 2 ^ 62.
Proof.
  intros Hh. unfold ask. rewrite bind_unfold. unfold rpc. specialize (Hh (env n)). destruct (answer ChainHead (env n)) as [a e]. cbn in Hh.
  destruct a as [h|e'|e']; cbn; intros [= <- <-]; split_and!; try done; try (split; [cbn; set_solver|done]).
  all: intros h' [= <-]; by apply Hh.
Qed.
Lemma listen_cases cur n next n' :
  heads_ok → 0 ≤ cur → listen_tick cur n = (Ok next, n') →
  grown_node n n' ∧
  (next = cur ∧ dbHeight n' = dbHeight n ∨
   ∃ latest, cur < latest < 2 ^ 62 ∧ next = latest + 1 ∧ dbHeight n' = dbHeight n `max` latest ∧
     ∀ b, cur ≤ b ≤ latest → scanned n' b).
Proof.
  intros Hh Hcur Hrun. split.
  { replace n' with (listen_tick cur n).2 by (by rewrite Hrun). by apply (grown_listen n). }
  unfold listen_tick in Hrun. rewrite bind_unfold in Hrun. unfold attempt, processNewBlocks in Hrun.
  rewrite bind_unfold, wrap_run in Hrun. destruct (ask ChainHead n) as [r n1] eqn:Ha.
  destruct (ask_head n r n1 Hh Ha) as (Hg1 & Hd1 & Hr). destruct r as [latest|e|e]; cbn [wrap_res] in Hrun;
    [|injection Hrun as <- <-; by left|done]. specialize (Hr latest eq_refl).
  case_decide as Hnew; [injection Hrun as <- <-; by left|]. rewrite bind_unfold, wrap_run in Hrun.
  pose proof (height_range (dbHeight n) (chunks cur latest) cur latest n1 Hd1) as Hd2.
  destruct (processBlockRange (chunks cur latest) cur latest n1) as [[[]|e|e] n2] eqn:Hrg; cbn [wrap_res snd] in Hrun, Hd2;
    [|injection Hrun as <- <-; left; done|done].
  right. exists latest. unfold UpdateChainHeight in Hrun.
  rewrite !bind_unfold, gets_run in Hrun. rewrite u64_id in Hrun by lia.
  assert (∀ b, cur ≤ b ≤ latest → scanned n2 b) as Hsc by (eapply range_scans; [| |done]; lia).
  case_decide; cbn in Hrun; injection Hrun as <- <-; (split_and!; [lia|lia|done|cbn; lia|done]).
Qed.

(** ** Runs *)
(** The first block that counts, the block to go on from, and the node. *)
Definition scan_state : Type := Z * option Z * Node E.
Inductive scan_step : scan_state → scan_state → Prop :=
| scan_starts s c n c' n' :
    listen_start n = (Ok c', n') → scan_step (s, c, n) (if decide (dbHeight n = 0) then default s c' else s, c', n')
| scan_ticks s c n c' n' : evm_tick (c, n) (c', n') → scan_step (s, c, n) (s, c', n').
Definition scan_inv (st : scan_state) : Prop :=
  let '(s, c, n) := st in
  watched n ∧ 0 ≤ dbHeight n < 2 ^ 62 ∧ (0 < dbHeight n → ∀ b, s ≤ b ≤ dbHeight n → scanned n b) ∧
  ∀ cur, c = Some cur → 0 ≤ cur ≤ 2 ^ 62 ∧ ∀ b, s ≤ b < cur → scanned n b.
Lemma height_crash cur n e n' : listen_tick cur n = (Panic e, n') → dbHeight n' = dbHeight n.
Proof.
  unfold listen_tick, attempt, processNewBlocks, ask. rewrite !bind_unfold, wrap_run, bind_unfold. unfold rpc.
  destruct (answer ChainHead (env n)) as [[latest|e'|e'] e1]; cbn [wrap_res]; try done.
  set (n1 := n <| env := e1 |> <| trace ::= _ |>). assert (dbHeight n1 = dbHeight n) as Hd by done. clearbody n1. rewrite ret_run. cbn [wrap_res].
  case_decide; [done|]. rewrite bind_unfold, wrap_run.
  pose proof (height_range (dbHeight n) (chunks cur latest) cur latest n1 Hd) as Hd2.
  destruct (processBlockRange (chunks cur latest) cur latest n1) as [[[]|e'|e'] n2]; cbn [wrap_res snd] in *; try done.
  - unfold UpdateChainHeight. rewrite !bind_unfold, gets_run. by case_decide.
  - by intros [= _ <-].
Qed.
Lemma height_other n :
  dbHeight (evm_processPendingEvents n).2 = dbHeight n ∧ dbHeight (ep_processConfirmedEvents n).2 = dbHeight n ∧
  dbHeight (performCleanup n).2 = dbHeight n ∧ dbHeight (fetchAndVoteChainMeta n).2 = dbHeight n ∧
  dbHeight (listen_start n).2 = dbHeight n.
Proof.
  set (h := dbHeight n). assert (dbHeight n = h) as Hn by done. clearbody h. revert n Hn.
  assert (∀ A (c : Call A), keeps (λ n, dbHeight n = h) (rpc c)) as Hr by (intros A c; apply keeps_rpc; by intros ? ? ? ?).
  assert (∀ A (c : Call (res A)), keeps (λ n, dbHeight n = h) (ask c)) as Hask by (intros A c; unfold ask; keep).
  assert (∀ id old new f, keeps (λ n, dbHeight n = h) (swap_status id old new f)) as Hs.
  { intros. apply keeps_swap; [by intros ? ? ?|by intros ? ? ? ?]. }
  assert (∀ g, keeps (λ n : Node E, dbHeight n = h) (set_rows g)) as Hg by (intros g; apply keeps_modify; by intros).
  assert (∀ latest ev, keeps (λ n, dbHeight n = h) (evm_confirm_event latest ev)) as Hc.
  { intros. unfold evm_confirm_event, evm_confirm, UpdateEventStatus, UpdateStatusAndEventData. keep. }
  assert (∀ ev, keeps (λ n, dbHeight n = h) (process_event ev)) as Hp.
  { intros. unfold process_event, processInboundEvent, processOutboundEvent, UpdateStatusAndVoteTxHash. keep. }
  intros n Hn. split_and!.
  - revert n Hn. change (keeps (λ n : Node E, dbHeight n = h) evm_processPendingEvents). unfold evm_processPendingEvents, GetPendingEvents, get_rows. keep.
  - revert n Hn. change (keeps (λ n : Node E, dbHeight n = h) ep_processConfirmedEvents). unfold ep_processConfirmedEvents, GetConfirmedEvents, get_rows. keep.
  - revert n Hn. change (keeps (λ n : Node E, dbHeight n = h) performCleanup). unfold performCleanup, DeleteTerminalEvents, delete_where, get_rows. keep.
  - revert n Hn. change (keeps (λ n : Node E, dbHeight n = h) fetchAndVoteChainMeta). unfold fetchAndVoteChainMeta. keep.
  - revert n Hn. change (keeps (λ n : Node E, dbHeight n = h) listen_start). unfold listen_start, getStartBlock, getStartBlockFromConfig, GetChainHeight. keep.
Qed.
(** What was scanned stays scanned. *)
Lemma scan_inv_still s c n n' :
  watched n' → trace n ⊆ trace n' → (∀ ev, tracked n ev → tracked n' ev) → dbHeight n' = dbHeight n →
  scan_inv (s, c, n) → scan_inv (s, c, n').
Proof.
  intros Hw Ht Htr Hd (_ & Hh & Hdb & Hcur). unfold scan_inv. rewrite Hd. split_and!; [done|lia|lia| |].
  - intros Hp b Hb. eapply scanned_mono; eauto.
  - intros cur Hc. destruct (Hcur cur Hc) as [H1 H2]. split; [done|]. intros b Hb. eapply scanned_mono; eauto.
Qed.
Lemma scan_inv_grown s c n n' :
  watched n' → grown_node n n' → dbHeight n' = dbHeight n → scan_inv (s, c, n) → scan_inv (s, c, n').
Proof. intros Hw Hg. apply scan_inv_still; [done|apply Hg|]. intros ev. by apply tracked_mono. Qed.
Lemma trace_cleaner n : trace n ⊆ trace (performCleanup n).2.
Proof.
  unfold performCleanup. rewrite bind_unfold. unfold rpc. destruct (answer Now (env n)) as [now e]. rewrite then_ret_state.
  unfold DeleteTerminalEvents, delete_where, get_rows, set_rows. mrun. cbn. set_solver.
Qed.
Lemma scan_tick s c n c' n' : heads_ok → evm_tick (c, n) (c', n') → scan_inv (s, c, n) → scan_inv (s, c', n').
Proof.
  intros Hh Ht Hinv. pose proof Hinv as (Hw & Hd & Hdb & Hcur). pose proof (watched_tick _ _ Ht Hw) as Hw'. cbn in Hw'.
  inversion Ht as [cur n0 next n1 Hr|cur n0 e n1 Hr|c0 n0|c0 n0|c0 n0|c0 n0]; subst.
  - destruct (Hcur cur eq_refl) as [Hc1 Hc2]. destruct (listen_cases _ _ _ _ Hh (proj1 Hc1) Hr) as [Hg [[-> Hd']|(latest & Hl & -> & Hd' & Hsc)]].
    { by eapply scan_inv_grown. }
    assert (∀ b, s ≤ b ≤ latest → scanned n' b) as Hall.
    { intros b Hb. destruct (decide (cur ≤ b)); [apply Hsc; lia|].
      eapply scanned_mono; [apply Hg|intros ev; by apply tracked_mono|]. apply Hc2. lia. }
    split_and!; [done|lia|lia| |].
    + intros Hp b Hb. destruct (decide (b ≤ latest)); [apply Hall; lia|].
      eapply scanned_mono; [apply Hg|intros ev; by apply tracked_mono|]. apply Hdb; lia.
    + intros ? [= <-]. split; [lia|]. intros b Hb. apply Hall. lia.
  - eapply (scan_inv_grown s None n); [done| |by eapply height_crash|].
    + replace n' with (listen_tick cur n).2 by (by rewrite Hr). by apply (grown_listen n).
    + split_and!; [done|lia|lia|done|done].
  - eapply scan_inv_grown; [done|by apply (grown_confirmer n)|apply height_other|done].
  - eapply scan_inv_grown; [done|by apply (grown_processor n)|apply height_other|done].
  - eapply scan_inv_still; [done|apply trace_cleaner|intros ev; by apply cleaner_tracks|apply height_other|done].
  - eapply scan_inv_grown; [done|by apply (grown_oracle n)|apply height_other|done].
Qed.
Lemma start_block n c' n' :
  heads_ok → start_ok → 0 ≤ dbHeight n < 2 ^ 62 → listen_start n = (Ok c', n') →
  ∀ cur, c' = Some cur → 0 ≤ cur < 2 ^ 62 ∧ (dbHeight n ≠ 0 → cur = dbHeight n).
Proof.
  intros Hh Hs Hd Hrun cur ->. unfold listen_start in Hrun. rewrite bind_unfold, attempt_run in Hrun.
  destruct (getStartBlock n) as [r n1] eqn:Hg. destruct r as [from|e|e]; [|done|done].
  injection Hrun as Hfrom _. case_decide; [done|]. injection Hfrom as ->. unfold getStartBlock, GetChainHeight in Hg.
  rewrite bind_unfold, gets_run in Hg. case_decide as H0; [|injection Hg as <- _; lia].
  split; [|lia]. unfold getStartBlockFromConfig in Hg. destruct eventStartFrom as [z|] eqn:Hz; [|by apply ask_head in Hg as (_ & _ & Hg); [apply Hg|]].
  case_decide; [injection Hg as <- _; split; [done|by apply Hs]|]. case_decide.
  - rewrite bind_unfold in Hg. unfold rpc in Hg. specialize (Hh (env n)). destruct (answer ChainHead (env n)) as [[h|e|e] e']; injection Hg as <- _; [by apply Hh|lia..].
  - by apply ask_head in Hg as (_ & _ & Hg); [apply Hg|].
Qed.

(** A configured first block is where the scan starts, however often it starts again. *)
Lemma configured_start z st st' :
  eventStartFrom = Some z → 0 ≤ z → rtc scan_step st st' →
  (dbHeight st.2 = 0 ∧ st.1.2 = None ∨ st.1.1 = z) → dbHeight st'.2 = 0 ∧ st'.1.2 = None ∨ st'.1.1 = z.
Proof.
  intros Hz Hpos. induction 1 as [|x y w Hxy _ IH]; [done|]. intros Hx. apply IH. clear IH w.
  destruct Hxy as [s c n c' n' Hst|s c n c' n' Ht]; cbn in Hx |- *; destruct Hx as [[Hd ->]| ->]; try by right.
  - rewrite decide_True by done. pose proof (proj2 (proj2 (proj2 (proj2 (height_other n))))) as Hd'. rewrite Hst in Hd'. cbn in Hd'.
    unfold listen_start, getStartBlock, GetChainHeight, getStartBlockFromConfig in Hst. rewrite bind_unfold, attempt_run, bind_unfold, gets_run, Hz in Hst.
    rewrite decide_True, decide_True in Hst by done. cbn in Hst. case_decide; injection Hst as <- <-; [by left|by right].
  - right. case_decide; [|done]. unfold listen_start, getStartBlock, GetChainHeight, getStartBlockFromConfig in Hst. rewrite bind_unfold, attempt_run, bind_unfold, gets_run, Hz in Hst.
    rewrite decide_True, decide_True in Hst by done. cbn in Hst. by case_decide; injection Hst as <- <-.
  - left. destruct (height_other n) as (H1 & H2 & H3 & H4 & _). inversion Ht; subst; (split; [congruence|done]).
Qed.
(** C12. No block is left out.  Start from an empty database; let the listener, confirmer,
    processor, cleaner and oracle work in any order, crash and restart, while the heights
    that the endpoints answer and the configured first block are below 2^62.  Then each
    block from the one where the listener last started with no height saved, up to the one
    it goes on from, is in a range that a filter on the gateway and the vault answered, and
    each log of that answer that the parser reads has a row, or had one that was voted on
    or whose transaction failed.  If a first block is configured, it is that start; without
    one, a listener that stops before its first height is saved starts again at the head of
    the chain, and what lies between is not scanned. *)
Theorem evm_no_block_left_out s0 n s cur n' :
  heads_ok → start_ok → fresh_watcher n → dbHeight n = 0 → rtc scan_step (s0, None, n) (s, Some cur, n') →
  (∀ b, s ≤ b < cur → scanned n' b) ∧ (∀ z, eventStartFrom = Some z → 0 ≤ z → s = z).
Proof.
  intros Hh Hs Hf Hd Hrun. split; [|intros z Hz Hpos; by destruct (configured_start z _ _ Hz Hpos Hrun (or_introl (conj Hd eq_refl))) as [[_ ?]|]].
  assert (scan_inv (s0, None, n)) as H0.
  { split_and!; [by apply fresh_watched|lia..|done]. }
  assert (∀ st st', rtc scan_step st st' → scan_inv st → scan_inv st') as Hall.
  { intros st st'. induction 1 as [|x y z Hxy _ IH]; [done|]. intros Hx. apply IH. clear IH z.
    destruct Hxy as [s1 c n1 c' n2 Hst|s1 c n1 c' n2 Ht]; [|by eapply scan_tick].
    pose proof Hx as (Hw & Hdb & Hsc & _). pose proof (watched_listen_start n1 Hw) as Hw'. pose proof (proj2 (proj2 (proj2 (proj2 (height_other n1))))) as Hd'.
    assert (grown_node n1 (listen_start n1).2) as Hg by (by apply (grown_start n1)). rewrite Hst in Hw', Hd', Hg. cbn [snd] in Hw', Hd', Hg.
    pose proof (start_block n1 c' n2 Hh Hs Hdb Hst) as Hcur.
    split_and!; [done|lia|lia| |].
    - intros Hp b Hb. rewrite decide_False in Hb by lia. rewrite Hd' in *.
      eapply scanned_mono; [apply Hg|intros ev; by apply tracked_mono|]. by apply Hsc.
    - intros cu ->. destruct (Hcur cu eq_refl) as [H1 H2]. split; [lia|]. intros b Hb. case_decide as Hz; [cbn in Hb; lia|].
      eapply scanned_mono; [apply Hg|intros ev; by apply tracked_mono|]. apply Hsc; [lia|]. rewrite H2 in Hb by done. lia. }
  destruct (Hall _ _ Hrun H0) as (_ & _ & _ & Hc). by apply Hc.
Qed.

(** ** The loop over the chunks ends *)
Lemma logs_panic logs n e n' :
  for_each process_log logs n = (Panic e, n') → ∃ log name, log ∈ logs ∧ evm_ParseEvent log name watchedChain = Panic e.
Proof.
  revert n. induction logs as [|l logs IH]; intros n; [done|]. rewrite for_each_cons_run, bind_unfold.
  destruct (process_log l n) as [[[]|e'|e'] n1] eqn:Hl; [intros H|done|intros [= -> _]].
  - destruct (IH _ H) as (log & name & Hin & Hp). exists log, name. split; [by right|done].
  - unfold process_log in Hl. destruct (LgTopics l); [done|]. destruct (topicToEventType _) as [name|]; [|done].
    rewrite bind_unfold, lift_res_run in Hl. destruct (evm_ParseEvent l name watchedChain) as [[ev|]|e'|e'] eqn:Hp; [|done|done|].
    + destruct (store_event_ok ev n) as (b & n2 & Hst). by rewrite bind_unfold, Hst in Hl.
    + injection Hl as -> _. exists l, name. split; [left|done].
Qed.
Lemma chunk_panics from to n e n' :
  processBlockChunk from to n = (Panic e, n') → ∃ log name, fetched (trace n') log ∧ evm_ParseEvent log name watchedChain = Panic e.
Proof.
  unfold processBlockChunk. rewrite bind_unfold, wrap_run. unfold ask. rewrite bind_unfold. unfold rpc.
  destruct (answer _ (env n)) as [[logs|e'|e'] e1]; [|done..]. rewrite ret_run. cbn [wrap_res].
  set (n1 := n <| env := e1 |> <| trace ::= _ |>). intros Hrun. destruct (logs_panic _ _ _ _ Hrun) as (log & name & Hin & Hp).
  exists log, name. split; [|done]. assert (grown_node n1 n') as [Hg _].
  { replace n' with (for_each process_log logs n1).2 by (by rewrite Hrun). apply (keeps_for_each (grown_node n1)); [|done].
    intros x. apply grown_process_log. }
  eexists _, _, _. split; [apply Hg; cbn; left|done].
Qed.
Lemma range_panics fuel from to n e n' :
  0 ≤ from → to + 9000 < 2 ^ 63 → to - from < 9000 * Z.of_nat fuel → processBlockRange fuel from to n = (Panic e, n') →
  ∃ log name, fetched (trace n') log ∧ evm_ParseEvent log name watchedChain = Panic e.
Proof.
  revert from n. induction fuel as [|fuel IH]; intros from n Hf Ht Hfuel; cbn [processBlockRange];
    (case_decide as Hle; [|done]); [lia|].
  rewrite (u64_id (from + maxBlockRange - 1)) by (unfold maxBlockRange; lia).
  set (mid := if decide (to < from + maxBlockRange - 1) then to else from + maxBlockRange - 1).
  assert (from ≤ mid ≤ to ∧ (mid < to → mid = from + 8999)) as [Hmid Hm] by (unfold mid, maxBlockRange; case_decide; lia).
  rewrite u64_id by lia. rewrite bind_unfold, wrap_run. destruct (processBlockChunk from mid n) as [[[]|e'|e'] n2] eqn:Hc; cbn [wrap_res]; [|done|].
  - intros Hrun. apply (IH (mid + 1) n2); [lia|lia|destruct (decide (mid < to)); lia|done].
  - intros [= -> ->]. by eapply chunk_panics.
Qed.
(** A tick of the listener ends: its loop over the chunks of blocks always has enough
    rounds, so the only thing that can stop a tick short is a log on which the parser
    crashes. *)
Theorem evm_listener_stops_only_on_logs cur n e n' :
  heads_ok → 0 ≤ cur → listen_tick cur n = (Panic e, n') →
  ∃ log name, fetched (trace n') log ∧ evm_ParseEvent log name watchedChain = Panic e.
Proof.
  intros Hh Hcur. unfold listen_tick, attempt, processNewBlocks. rewrite !bind_unfold, wrap_run.
  destruct (ask ChainHead n) as [r n1] eqn:Ha. destruct (ask_head n r n1 Hh Ha) as (_ & _ & Hr).
  destruct r as [latest|e'|e']; cbn [wrap_res]; [|done|].
  2: { revert Ha. unfold ask. rewrite bind_unfold. unfold rpc. by destruct (answer ChainHead (env n)) as [[]]. }
  specialize (Hr latest eq_refl). case_decide; [done|]. rewrite bind_unfold, wrap_run.
  destruct (processBlockRange (chunks cur latest) cur latest n1) as [[[]|e'|e'] n2] eqn:Hrg; cbn [wrap_res]; [|done|].
  - unfold UpdateChainHeight. rewrite !bind_unfold, gets_run. by case_decide.
  - intros [= -> ->]. eapply range_panics in Hrg; [done|lia|lia|]. unfold chunks, maxBlockRange.
    pose proof (Z.div_mod (latest - cur) 9000). pose proof (Z.mod_pos_bound (latest - cur) 9000). lia.
Qed.
End scan.
