(* ===== verification/UcSvmWatch.v ===== *)
(** * The universal client: the votes of the watcher of Solana

    The interface of UcWatch.v, for log lines of transactions.  A vote follows a line of a
    transaction that succeeded; the pages of signatures reach back far enough; but a
    transaction that could not be fetched is not looked at again. *)
From S2P Require Import Prelude GoStrings UvTypes TssTypes UxTypes RegTypes World Canonical Utss UxPayload.
From S2P Require Import UcStore UcChain UcEvm UcSvm UcCoord UcLogic UcEvmSpec UcWatch.
Import Uc.

Section svm_watch.
Context {E : Type} `{EV : Env E, WC : WatcherConfig, SO : SortSlice, SL : !SortSliceLaws, CC : ChainCodecs, B58 : Base58Encode}.
Implicit Types (n : Node E) (ev : Event) (sig : SvmSignature).

(** ** What was seen and confirmed *)
(** The signature is in a page of the gateway's. *)
Definition listed (t : list Logged) sig : Prop :=
  ∃ before batch, GetSignaturesForAddress watchedGateway before ⟹ Ok batch ∈ t ∧ sig ∈ batch.
Definition line_of (t : list Logged) sig (i : nat) (line : string) : Prop :=
  ∃ slot err logs, GetTransaction (SigString sig) ⟹ Ok (Some (mkSvmTransaction slot (Some (err, logs)))) ∈ t ∧ logs !! i = Some line.
Definition line_parses sig (i : nat) (line : string) ev : Prop :=
  ∃ name, determineEventType line = Some name ∧
    svm_ParseEvent line (SigString sig) (SigSlot sig) (Z.of_nat i) name watchedChain = Some ev.
Definition event_slot ev (tx : SvmTransaction) : Z := if decide (TxSlot tx = 0) then EvBlockHeight ev else TxSlot tx.
Definition fetched_meta (t : list Logged) ev (failed : bool) (tx : SvmTransaction) : Prop :=
  GetTransaction (getTxHashFromEventID (EventID ev)) ⟹ Ok (Some tx) ∈ t ∧ ∃ logs, TxMeta tx = Some (failed, logs).
Definition svm_deep (t : list Logged) ev : Prop :=
  ∃ tx head, fetched_meta t ev false tx ∧ ChainHead ⟹ Ok head ∈ t ∧
    svm_getRequiredConfirmations (EvConfirmation ev) ≤ u64 (head - event_slot ev tx + 1).
#[local] Instance svm_observer : Observer := {|
  seen := λ t ev, ∃ sig i line, listed t sig ∧ line_of t sig i line ∧ line_parses sig i line ev;
  confirmed := λ t ev d, svm_deep t ev ∧ d = EventData ev;
  failed := λ t ev, ∃ tx, fetched_meta t ev true tx;
|}.
#[local] Instance svm_observer_laws : ObserverLaws.
Proof.
  split; cbn.
  - intros t t' ev Ht (sig & i & line & (b & ba & H1 & H2) & (sl & er & lo & H3 & H4) & Hp). exists sig, i, line.
    split_and!; [exists b, ba; auto|exists sl, er, lo; auto|done].
  - intros t t' ev d Ht ((tx & h & (H1 & H2) & H3 & H4) & Hd). split; [|done]. exists tx, h. split_and!; [split; auto|auto|done].
  - intros t t' ev Ht (tx & H1 & H2). exists tx. split; auto.
Qed.
Lemma line_parses_pending sig i line ev : line_parses sig i line ev → EvStatus ev = StatusPending.
Proof.
  intros (name & _ & Hp). revert Hp. unfold svm_ParseEvent, svm_parseSendFundsEvent, svm_parseOutboundObservationEvent.
  destruct (decode_line line) as [bz|]; cbn; [|by repeat case_decide]. repeat case_decide; try done; intros [= <-]; [|done].
  unfold svm_parseUniversalTxEvent. by destruct (decodeUniversalTxEvent bz).
Qed.

(** ** The listener *)
Definition sighted sig i line n : Prop := listed (trace n) sig ∧ line_of (trace n) sig i line.
Lemma sighted_asks {A} sig i line (c : Call A) : asks (E:=E) (sighted sig i line) c.
Proof.
  intros n a e [(b & ba & H1 & H2) (sl & er & lo & H3 & H4)].
  split; [exists b, ba; split; [cbn; by right|done]|exists sl, er, lo; split; [cbn; by right|done]].
Qed.
Lemma sighted_rowless sig i line : rowless (E:=E) (sighted sig i line).
Proof. by intros n g Hn. Qed.
Lemma watched_line sig i line : keeps (λ n, watched n ∧ sighted sig i line n) (svm_process_log (SigString sig) (SigSlot sig) i line).
Proof.
  intros n [Hn Hs]. unfold svm_process_log. destruct (determineEventType line) as [name|] eqn:Hty; [|done]. cbn [mbind option_bind].
  destruct (svm_ParseEvent _ _ _ _ _ _) as [ev|] eqn:Hp; [|done]. rewrite then_ret_state.
  assert (line_parses sig i line ev) as Hlp by (by exists name). split.
  - apply (watched_store ev). destruct Hs as [H1 H2]. split_and!; [done|by exists sig, i, line|by eapply line_parses_pending].
  - by apply (keeps_store (sighted sig i line)); [apply sighted_rowless|apply sighted_asks|].
Qed.
Lemma keeps_line I signature slot i line : rowless I → asks I Now → keeps (W:=Node E) I (svm_process_log signature slot i line).
Proof. intros Hr Ha. pose proof (λ ev, keeps_store I ev Hr Ha). unfold svm_process_log. keep. Qed.
Lemma listed_asks {A} sig (c : Call A) : asks (E:=E) (λ n, listed (trace n) sig) c.
Proof. intros n a e (b & ba & H1 & H2). exists b, ba. split; [cbn; by right|done]. Qed.
Lemma watched_signature from to sig :
  keeps (λ n, watched n ∧ listed (trace n) sig) (process_signature from to sig).
Proof.
  intros n [Hn Hl]. unfold process_signature. destruct (_ || _); [done|]. rewrite bind_unfold. unfold rpc.
  destruct (answer (GetTransaction (SigString sig)) (env n)) as [a e]. set (n1 := n <| env := e |> <| trace ::= _ |>).
  assert (watched n1) as Hn1 by (by apply watched_asks). assert (listed (trace n1) sig) as Hl1 by (by apply (listed_asks sig (GetTransaction (SigString sig)) n a e)).
  assert (told_in (GetTransaction (SigString sig)) a n1) as Ht by (unfold told_in; cbn; left). clearbody n1.
  destruct a as [[[slot [[err logs]|]]|]|e'|e']; try done.
  apply (keeps_for_each_in (λ n, (watched n ∧ listed (trace n) sig) ∧ told_in (GetTransaction (SigString sig)) (Ok (Some (mkSvmTransaction slot (Some (err, logs))))) n));
    [|done].
  intros [i line] Hin n2 [[Hn2 Hl2] Ht2]. cbn [fst snd]. apply elem_of_lookup_imap in Hin as (k & y & [= <- <-] & Hk).
  assert (sighted sig i line n2) as Hs by (split; [done|by exists slot, err, logs]). split; [split|].
  - by apply (watched_line sig i line).
  - apply (keeps_line (λ n, listed (trace n) sig)); [by intros ? ? ?|apply listed_asks|done].
  - apply (keeps_line (told_in _ _)); [by intros ? ? ?|apply asks_told|done].
Qed.
Lemma listed_signature from to sig sig' : keeps (λ n : Node E, listed (trace n) sig') (process_signature from to sig).
Proof.
  pose proof (λ s sl i l, keeps_line (λ n, listed (trace n) sig') s sl i l ltac:(by intros ? ? ?) (listed_asks sig' Now)).
  unfold process_signature. keep; try (apply keeps_rpc, listed_asks).
Qed.
Lemma watched_pages fuel before from to : keeps watched (slot_pages fuel watchedGateway before from to).
Proof.
  revert before. induction fuel as [|fuel IH]; intros before; cbn [slot_pages]; [keep|].
  intros n Hn. rewrite bind_unfold, wrap_run. unfold ask. rewrite bind_unfold. unfold rpc.
  destruct (answer (GetSignaturesForAddress watchedGateway before) (env n)) as [a e]. set (n1 := n <| env := e |> <| trace ::= _ |>).
  assert (watched n1) as Hn1 by (by apply watched_asks). destruct a as [batch|e'|e']; try exact Hn1. rewrite ret_run. cbn [wrap_res].
  assert (∀ sig, sig ∈ batch → listed (trace n1) sig) as Hl by (intros sig Hs; exists before, batch; split; [cbn; left|done]). clearbody n1.
  destruct batch as [|s rest]; [done|]. set (batch := s :: rest) in *. rewrite bind_unfold.
  assert (watched (processSignatureBatch batch from to n1).2) as Hb.
  { apply (keeps_for_each_in (λ n, watched n ∧ ∀ sig, sig ∈ batch → listed (trace n) sig)); [|done].
    intros sig Hs n2 [Hn2 Hl2]. split; [apply watched_signature; auto|]. intros sig' Hs'. apply listed_signature. auto. }
  destruct (processSignatureBatch batch from to n1) as [[[]|e'|e'] n2]; [|done..]. case_decide; [done|by apply IH].
Qed.
Lemma watched_svm_listen fuel cur : keeps watched (svm_listen_tick fuel cur).
Proof.
  unfold svm_listen_tick, processNewSlots, processSlotRange, ask. pose proof watched_pages. pose proof (watched_height (E:=E)).
  keep; by apply keeps_rpc, watched_asks.
Qed.

(** ** The confirmer *)
Lemma row_ok_status t ev new now :
  EvStatus ev = StatusPending → row_ok t ev →
  match new with StatusConfirmed => svm_deep t ev | StatusReverted => ∃ tx, fetched_meta t ev true tx | _ => False end →
  row_ok t (set_status new ev <| EvUpdatedAt := now |>).
Proof.
  intros Hst (ev0 & Hs & Hsame & H) Hnew. rewrite Hst in H. exists ev0. cbn -[seen confirmed failed]. split_and!; [done|done|].
  destruct Hsame as (Hid & Hh & Hty & Hct). destruct new; try done.
  - split; [|done]. unfold svm_deep, fetched_meta, event_slot in *. by rewrite <- Hid, <- Hct, <- Hh.
  - unfold fetched_meta in *. cbn. unfold fetched_meta. by rewrite <- Hid.
Qed.
Lemma fresh_svm_confirm latest x ev : keeps (W:=Node E) (fresh_in StatusPending ev) (svm_confirm_event latest x).
Proof.
  pose proof (λ id f, fresh_swap (E:=E) StatusPending StatusConfirmed id f ev ltac:(done)).
  pose proof (λ id f, fresh_swap (E:=E) StatusPending StatusReverted id f ev ltac:(done)).
  unfold svm_confirm_event, UpdateEventStatus. keep; try (apply keeps_rpc, asks_fresh).
Qed.
Lemma told_svm_confirm {A} (c : Call A) a latest x : keeps (W:=Node E) (told_in c a) (svm_confirm_event latest x).
Proof.
  assert (∀ id old new f, keeps (told_in (E:=E) c a) (swap_status id old new f)) as Hs.
  { intros id old new f. apply keeps_swap; [apply (rowless_trace (λ t, c ⟹ a ∈ t))|apply asks_told]. }
  unfold svm_confirm_event, UpdateEventStatus. keep; try (apply keeps_rpc, asks_told).
Qed.
Lemma watched_svm_confirm latest ev n :
  watched n → fresh_in StatusPending ev n → told_in ChainHead (Ok latest) n → watched (svm_confirm_event latest ev n).2.
Proof.
  intros Hn Hfr Hh. unfold svm_confirm_event. destruct (_ || _); [done|]. rewrite bind_unfold. unfold rpc.
  set (c := GetTransaction (getTxHashFromEventID (EventID ev))). destruct (answer c (env n)) as [a e].
  set (n1 := n <| env := e |> <| trace ::= _ |>). assert (watched n1) as Hn1 by (by apply watched_asks).
  assert (fresh_in StatusPending ev n1) as Hfr1 by (by apply asks_fresh).
  assert (told_in ChainHead (Ok latest) n1) as Hh1 by (by apply (asks_told c ChainHead (Ok latest))).
  assert (told_in c a n1) as Ht by (unfold told_in; cbn; left). clearbody n1.
  destruct a as [[tx|]|e'|e']; try done. rewrite bind_unfold, deref_run. cbv beta iota delta [deref_res]. destruct (TxMeta tx) as [[[] logs]|] eqn:Hm; [| |done].
  - unfold UpdateEventStatus. rewrite then_ret_state.
    apply (watched_swap ev _ _ _ (told_in c (Ok (Some tx)))); [|done|apply asks_told|done..].
    intros n2 now _ Ht2 Hok. apply row_ok_status; [apply Hfr|done|]. exists tx. split; [done|by exists logs].
  - case_decide as Hd; [|done]. unfold UpdateEventStatus. rewrite then_ret_state.
    apply (watched_swap ev _ _ _ (λ n, told_in c (Ok (Some tx)) n ∧ told_in ChainHead (Ok latest) n));
      [|done|apply asks_and; apply asks_told|done..].
    intros n2 now _ [Ht2 Hh2] Hok. apply row_ok_status; [apply Hfr|done|]. exists tx, latest. split_and!; [split; [done|by exists logs]|done|done].
Qed.
Lemma watched_svm_confirmer : keeps watched svm_processPendingEvents.
Proof.
  intros n Hn. unfold svm_processPendingEvents. rewrite bind_unfold, wrap_run. unfold ask, rpc. rewrite bind_unfold.
  destruct (answer ChainHead (env n)) as [[latest|e'|e'] e]; [|by apply (watched_asks ChainHead)..].
  set (n1 := n <| env := e |> <| trace ::= _ |>). assert (watched n1) as Hn1 by (by apply watched_asks).
  assert (told_in ChainHead (Ok latest) n1) as Hh1 by (unfold told_in; cbn; left). clearbody n1.
  refine (watched_query _ _ _ (told_in ChainHead (Ok latest)) _ _ _ n1 Hn1 Hh1).
  - intros x n' Hn' Hfr Ht. by apply watched_svm_confirm.
  - intros x y. apply fresh_svm_confirm.
  - intros x. apply told_svm_confirm.
Qed.

(** ** Runs *)
Inductive svm_step : Node E → Node E → Prop :=
| svm_listened fuel cur n : svm_step n (svm_listen_tick fuel cur n).2
| svm_started n : svm_step n (getStartBlock n).2
| svm_confirms n : svm_step n (svm_processPendingEvents n).2
| svm_processes n : svm_step n (ep_processConfirmedEvents n).2
| svm_cleans n : svm_step n (performCleanup n).2
| svm_prices n : svm_step n (fetchAndVoteChainMeta n).2.
Lemma watched_svm_step n n' : svm_step n n' → watched n → watched n'.
Proof.
  destruct 1; intros Hn; [by apply watched_svm_listen|by apply watched_start|by apply watched_svm_confirmer|by apply watched_processor
    |by apply watched_cleaner|by apply watched_oracle].
Qed.
(** C14. A watcher of Solana votes only on what it saw.  From an empty database, whatever
    the endpoints answer and however listeners (with any cursor and any number of pages),
    confirmer, processor, cleaner and oracle interleave: every vote is for a row that the
    parser read in a log line of a transaction of the gateway, and the transaction of the
    row was fetched without an error, deep enough below the head (in 64 bits). *)
Theorem svm_votes_follow_lines n n' :
  rows n = ∅ → trace n = [] → rtc svm_step n n' →
  (∀ ib a, VoteInbound ib ⟹ a ∈ trace n' →
    ∃ sig i line ev, listed (trace n') sig ∧ line_of (trace n') sig i line ∧ line_parses sig i line ev ∧
      svm_deep (trace n') ev ∧ EvType ev = EventTypeInbound ∧ constructInbound ev = Ok ib) ∧
  (∀ txID utxID obs a, VoteOutbound txID utxID obs ⟹ a ∈ trace n' →
    ∃ sig i line ev o, listed (trace n') sig ∧ line_of (trace n') sig i line ∧ line_parses sig i line ev ∧
      svm_deep (trace n') ev ∧ EvType ev = EventTypeOutbound ∧ parseOutboundEventData ev = Ok o ∧
      txID = ObsTxID o ∧ utxID = ObsUniversalTxID o ∧ obs = buildOutboundObservation ev o).
Proof.
  intros Hr Ht Hrun. assert (watched n) as Hn by (split; rewrite ?Hr, ?Ht; [done|by intros l ?%not_elem_of_nil]).
  assert (watched n') as [_ Hv] by (clear Hr Ht; induction Hrun; eauto using watched_svm_step). split.
  - intros ib a Ha. destruct (Hv _ Ha) as (ev0 & d & ev & (sig & i & line & H1 & H2 & H3) & Hty & [Hd ->] & Hsame & Hed & Hib).
    exists sig, i, line, ev0. split_and!; [done..|]. rewrite <- Hib. unfold constructInbound. by rewrite Hed, (proj1 Hsame).
  - intros txID utxID obs a Ha.
    destruct (Hv _ Ha) as (ev0 & d & ev & o & (sig & i & line & H1 & H2 & H3) & Hty & [Hd ->] & Hsame & Hed & Ho & -> & -> & ->).
    exists sig, i, line, ev0, o. destruct Hsame as (Hid & Hh & _). split_and!; try done.
    + rewrite <- Ho. unfold parseOutboundEventData. by rewrite Hed.
    + unfold buildOutboundObservation. by rewrite Hid, Hh.
Qed.
End svm_watch.
