(* ===== verification/UcSvmScan.v ===== *)
(** * The universal client: paging through Solana

    [getSignaturesForAddress] lists the transactions of the gateway, up to a thousand at a
    time, from before a given one: the newest first, but in no order within a page.  With an endpoint that answers so,
    a tick of the listener asks for every transaction in its range of slots; what cannot
    be fetched then is lost. *)
From S2P Require Import Prelude GoStrings UvTypes TssTypes UxTypes RegTypes World Canonical Utss UxPayload.
From S2P Require Import UcStore UcChain UcEvm UcSvm UcCoord UcLogic UcEvmSpec UcWatch UcSvmWatch.
Import Uc.

(** What comes after a signature in a list. *)
Fixpoint after (s : string) (l : list SvmSignature) : list SvmSignature :=
  match l with
  | [] => []
  | x :: l' => if decide (SigString x = s) then l' else after s l'
  end.
Lemma after_split l1 x l2 : SigString x ∉ SigString <$> l1 → after (SigString x) (l1 ++ x :: l2) = l2.
Proof.
  induction l1 as [|y l1 IH]; cbn; intros Hx; [by rewrite decide_True|].
  apply not_elem_of_cons in Hx as [Hne Hx]. rewrite decide_False by congruence. by apply IH.
Qed.
Lemma oldest_in s batch : oldest_signature s batch ∈ (s :: batch) ∧ ∀ x, x ∈ s :: batch → SigSlot (oldest_signature s batch) ≤ SigSlot x.
Proof.
  unfold oldest_signature. revert s. induction batch as [|y batch IH]; intros s; cbn [foldl].
  { split; [left|]. intros x Hx. apply list_elem_of_singleton in Hx as ->. lia. }
  case_decide as Hlt; destruct (IH (if decide (SigSlot y < SigSlot s) then y else s)) as [H1 H2].
  - rewrite decide_True in H1, H2 by done. split; [set_solver|]. intros x [->|Hx]%elem_of_cons.
    + specialize (H2 y (list_elem_of_here _ _)). lia.
    + apply H2. set_solver.
  - rewrite decide_False in H1, H2 by done. split; [set_solver|]. intros x [->|[->|Hx]%elem_of_cons]%elem_of_cons.
    + apply H2. left.
    + specialize (H2 s (list_elem_of_here _ _)). lia.
    + apply H2. by right.
Qed.

Section paging.
Context {E : Type} `{EV : Env E, WC : WatcherConfig, SO : SortSlice, CC : ChainCodecs, B58 : Base58Encode}.
Implicit Types (n : Node E) (ev : Event) (sig : SvmSignature).

(** ** One transaction *)
(** It was asked for, and every line of the answer that the parser reads has a row. *)
Definition visited n sig : Prop :=
  ∃ a, GetTransaction (SigString sig) ⟹ a ∈ trace n ∧
    ∀ slot err logs i line ev, a = Ok (Some (mkSvmTransaction slot (Some (err, logs)))) → logs !! i = Some line →
      line_parses sig i line ev → is_Some (rows n !! EventID ev).
Lemma visited_mono n n' sig : grown_node n n' → visited n sig → visited n' sig.
Proof. intros [Ht Hr] (a & H1 & H2). exists a. split; [auto|]. intros. eapply Hr, H2; eauto. Qed.

Lemma for_each_total {A} (f : A → M (Node E) unit) l :
  (∀ x n, ∃ n', f x n = (Ok tt, n')) → ∀ n, ∃ n', for_each f l n = (Ok tt, n').
Proof.
  intros Hf. induction l as [|x l IH]; intros n; [by exists n|]. destruct (Hf x n) as (n1 & H1), (IH n1) as (n2 & H2).
  exists n2. by rewrite for_each_cons_run, bind_unfold, H1.
Qed.
Lemma line_total signature slot i line n : ∃ n', svm_process_log signature slot i line n = (Ok tt, n').
Proof.
  unfold svm_process_log. destruct (_ ≫= _) as [ev|]; [|by exists n]. destruct (store_event_ok ev n) as (b & n' & Hst).
  exists n'. by rewrite bind_unfold, Hst.
Qed.
#[local] Hint Resolve grown_store : keeper.
#[local] Hint Extern 1 (keeps (grown_node _) (rpc _)) => apply keeps_rpc, grown_asks : keeper.
Lemma grown_line n0 signature slot i line : keeps (grown_node n0) (svm_process_log signature slot i line).
Proof. unfold svm_process_log. keep. Qed.
#[local] Hint Resolve grown_line : keeper.
Lemma grown_signature n0 from to sig : keeps (grown_node n0) (process_signature from to sig).
Proof. unfold process_signature. keep. Qed.
Lemma line_stores sig i line ev n :
  line_parses sig i line ev → is_Some (rows (svm_process_log (SigString sig) (SigSlot sig) i line n).2 !! EventID ev).
Proof.
  intros (name & Hty & Hp). unfold svm_process_log. rewrite Hty. cbn [mbind option_bind]. rewrite Hp, then_ret_state.
  unfold store_event. rewrite bind_unfold. unfold rpc. destruct (answer Now (env n)) as [now e].
  unfold InsertEventIfNotExists, get_rows, set_rows. mrun. cbn.
  destruct (rows n !! EventID ev) eqn:He; mrun; cbn -[insert]; [by rewrite He|by rewrite lookup_insert_eq].
Qed.
Lemma lines_stored sig (lines : list (nat * string)) n :
  ∀ i line ev, (i, line) ∈ lines → line_parses sig i line ev →
    is_Some (rows (for_each (λ p, svm_process_log (SigString sig) (SigSlot sig) p.1 p.2) lines n).2 !! EventID ev).
Proof.
  revert n. induction lines as [|[j l] lines IH]; intros n i line ev Hin Hp; [by apply not_elem_of_nil in Hin|].
  rewrite for_each_cons_run, bind_unfold. cbn [fst snd]. pose proof (line_stores sig j l ev n) as Hst.
  destruct (line_total (SigString sig) (SigSlot sig) j l n) as (n1 & H1). rewrite H1 in Hst |- *. cbn [snd] in Hst.
  apply elem_of_cons in Hin as [[= -> ->]|Hin]; [|by apply (IH n1 i line ev)].
  assert (grown_node n1 (for_each (λ p, svm_process_log (SigString sig) (SigSlot sig) p.1 p.2) lines n1).2) as [_ Hg].
  { apply (keeps_for_each (grown_node n1)); [|done]. intros x. apply grown_line. }
  by apply Hg, Hst.
Qed.
Lemma signature_visits from to sig n :
  ∃ n', process_signature from to sig n = (Ok tt, n') ∧ grown_node n n' ∧ (from ≤ SigSlot sig ≤ to → visited n' sig).
Proof.
  assert (grown_node n (process_signature from to sig n).2) as Hg by (by apply (grown_signature n)). revert Hg.
  unfold process_signature. destruct (_ || _) eqn:Hout.
  { intros _. exists n. split_and!; [done|done|]. intros Hr. apply orb_true_iff in Hout as [H|H]; apply bool_decide_eq_true in H; lia. }
  rewrite bind_unfold. unfold rpc. destruct (answer (GetTransaction (SigString sig)) (env n)) as [a e].
  set (n1 := n <| env := e |> <| trace ::= _ |>). assert (GetTransaction (SigString sig) ⟹ a ∈ trace n1) as Ht by (cbn; left). clearbody n1.
  destruct a as [[[slot [[err logs]|]]|]|e'|e']; cbn [snd]; intros Hg;
    try (exists n1; split_and!; [done|done|intros _; by eexists]).
  set (f := λ p : nat * string, svm_process_log (SigString sig) (SigSlot sig) p.1 p.2) in *.
  destruct (for_each_total f (imap pair logs) ltac:(intros x n2; apply line_total) n1) as (n2 & H2).
  rewrite H2 in Hg |- *. exists n2. split_and!; [done|done|]. intros _. eexists. split.
  - assert (grown_node n1 n2) as [Hg2 _]; [|by apply Hg2]. replace n2 with (for_each f (imap pair logs) n1).2 by (by rewrite H2).
    apply (keeps_for_each (grown_node n1)); [|done]. intros x. apply grown_line.
  - intros slot' err' logs' i line ev [= <- <- <-] Hi Hp. pose proof (lines_stored sig (imap pair logs) n1 i line ev) as Hs.
    fold f in Hs. rewrite H2 in Hs. apply Hs; [|done]. apply elem_of_lookup_imap. by exists i, line.
Qed.
Lemma batch_visits batch from to n :
  ∃ n', processSignatureBatch batch from to n = (Ok tt, n') ∧ grown_node n n' ∧
    ∀ sig, sig ∈ batch → from ≤ SigSlot sig ≤ to → visited n' sig.
Proof.
  unfold processSignatureBatch. revert n. induction batch as [|s batch IH]; intros n.
  { exists n. split_and!; [done|done|]. by intros sig ?%not_elem_of_nil. }
  destruct (signature_visits from to s n) as (n1 & H1 & Hg1 & Hv1), (IH n1) as (n2 & H2 & Hg2 & Hv2).
  exists n2. split_and!; [by rewrite for_each_cons_run, bind_unfold, H1|by etransitivity|].
  intros sig [->|Hin]%elem_of_cons Hr; [|by apply Hv2]. eapply visited_mono; [done|by apply Hv1].
Qed.

(** ** Pages *)
(** The gateway's transactions, the newest slot first, and [getSignaturesForAddress] on
    them: a page holds the next thousand after [before], in any order. *)
Definition history_ok (history : list SvmSignature) : Prop :=
  NoDup (SigString <$> history) ∧ ("" ∉ SigString <$> history) ∧ StronglySorted (λ a b : SvmSignature, SigSlot b ≤ SigSlot a) history.
Definition pages (history : list SvmSignature) : Prop :=
  ∀ (e : E) before, ∃ page, (answer (GetSignaturesForAddress watchedGateway before) e).1 = Ok page ∧
    page ≡ₚ take 1000 (if decide (before = "") then history else after before history).
Lemma pages_reach history from to fuel pre rem before n :
  history_ok history → pages history → history = pre ++ rem → (length rem < fuel)%nat →
  (if decide (before = "") then history else after before history) = rem →
  ∃ n', slot_pages fuel watchedGateway before from to n = (Ok tt, n') ∧ grown_node n n' ∧
    ∀ sig, sig ∈ rem → from ≤ SigSlot sig ≤ to → visited n' sig.
Proof.
  intros Hok Hpages. revert pre rem before n. induction fuel as [|fuel IH]; intros pre rem before n Hhist Hfuel Hrem; [lia|].
  cbn [slot_pages]. rewrite bind_unfold, wrap_run. unfold ask. rewrite bind_unfold. unfold rpc.
  destruct (Hpages (env n) before) as (page & Ha & Hpage). rewrite Hrem in Hpage. destruct (answer (GetSignaturesForAddress watchedGateway before) (env n)) as [a e].
  cbn in Ha. subst a. set (n1 := n <| env := e |> <| trace ::= _ |>). assert (grown_node n n1) as Hg1 by (by apply (grown_asks n (GetSignaturesForAddress watchedGateway before))).
  clearbody n1. rewrite ret_run. cbn [wrap_res]. destruct page as [|s batch].
  { apply Permutation_nil_l in Hpage. destruct rem; [|done]. exists n1. split_and!; [done|done|]. by intros sig ?%not_elem_of_nil. }
  destruct (oldest_in s batch) as [Hm Hmin]. set (m := oldest_signature s batch) in *. set (b := s :: batch) in *.
  destruct (batch_visits b from to n1) as (n2 & H2 & Hg2 & Hv2). rewrite bind_unfold, H2.
  rewrite Hpage in Hm. apply list_elem_of_split in Hm as (b1 & b2 & Hb). pose proof (take_drop 1000 rem) as Htd. rewrite Hb, <- app_assoc in Htd. cbn [app] in Htd.
  set (rem' := b2 ++ drop 1000 rem) in *. assert (grown_node n n2) as Hg by (by etransitivity).
  destruct Hok as (Hnd & Hne & Hsort).
  assert (∀ x, x ∈ rem' → SigSlot x ≤ SigSlot m) as Hold.
  { intros x Hx. rewrite Hhist, <- Htd in Hsort. apply StronglySorted_app_1_r, StronglySorted_app_1_r in Hsort.
    apply StronglySorted_cons in Hsort as [Hall _]. rewrite Forall_forall in Hall. by apply Hall. }
  assert (∀ x, x ∈ rem → x ∈ b ∨ x ∈ rem') as Hin.
  { intros x Hx. rewrite <- Htd in Hx. rewrite Hpage, Hb. set_solver. }
  destruct (decide (SigSlot m < from)) as [Hstop|Hstop].
  { exists n2. split_and!; [done|done|]. intros sig Hs Hr. destruct (Hin sig Hs) as [Hx|Hx]; [by apply Hv2|]. specialize (Hold sig Hx). lia. }
  destruct (IH (pre ++ b1 ++ [m]) rem' (SigString m) n2) as (n3 & H3 & Hg3 & Hv3).
  - rewrite Hhist, <- Htd, <- !app_assoc. done.
  - assert (length rem = (length b1 + S (length rem'))%nat) by (rewrite <- Htd, length_app; done). lia.
  - rewrite decide_False.
    + rewrite Hhist, <- Htd, app_assoc. apply after_split. rewrite Hhist, <- Htd, app_assoc, fmap_app, fmap_cons in Hnd.
      apply NoDup_app in Hnd as (_ & Hdis & _). intros Hx. apply (Hdis _ Hx). left.
    + intros He. apply Hne. rewrite Hhist, <- Htd, !fmap_app, fmap_cons, He. set_solver.
  - exists n3. split_and!; [done|by etransitivity|]. intros sig Hs Hr. destruct (Hin sig Hs) as [Hx|Hx]; [|by apply Hv3].
    eapply visited_mono; [done|by apply Hv2].
Qed.
(** C15. A tick of the Solana listener reaches back to its last slot.  Let the endpoint page
    through the gateway's transactions as documented, a thousand at a time after the cursor,
    the newest slots first from page to page but in any order within a page.  With one page
    of fuel more than there are transactions the tick ends, every transaction of the gateway
    from the slot it went on from to the head was asked for, and where the answer was the
    transaction, each of its lines that the parser reads has a row. *)
Theorem svm_pages_reach_back history fuel cur head n :
  history_ok history → pages history → (length history < fuel)%nat → base58_of_length 32 watchedGateway = true →
  (answer ChainHead (env n)).1 = Ok head → cur < head → 0 ≤ cur → head < 2 ^ 63 →
  ∃ n', svm_listen_tick fuel cur n = (Ok (head + 1), n') ∧
    ∀ sig, sig ∈ history → cur ≤ SigSlot sig ≤ head → visited n' sig.
Proof.
  intros Hok Hpages Hfuel Hgw Hhead Hlt Hcur Hmax. unfold svm_listen_tick, processNewSlots.
  rewrite bind_unfold, attempt_run, bind_unfold, wrap_run. unfold ask. rewrite bind_unfold. unfold rpc.
  destruct (answer ChainHead (env n)) as [a e]. cbn in Hhead. subst a. set (n1 := n <| env := e |> <| trace ::= _ |>). clearbody n1.
  rewrite ret_run. cbn [wrap_res]. rewrite decide_False by lia. rewrite bind_unfold, wrap_run. unfold processSlotRange.
  rewrite Hgw, bind_unfold. change (require true "invalid gateway address" n1) with (Ok tt, n1).
  destruct (pages_reach history cur head fuel [] history "" n1 Hok Hpages eq_refl Hfuel eq_refl) as (n2 & -> & Hg & Hv). cbn [wrap_res].
  rewrite bind_unfold. assert (∃ n3, UpdateChainHeight head n2 = (Ok tt, n3) ∧ grown_node n2 n3) as (n3 & -> & Hg3).
  { unfold UpdateChainHeight. rewrite bind_unfold, gets_run. case_decide; eexists; (split; [reflexivity|]); done. }
  rewrite u64_id by lia. exists n3. split; [done|]. intros sig Hs Hr. eapply visited_mono; [done|by apply Hv].
Qed.
(** ** What is lost *)
Definition fetches_fail : Prop := ∀ (e : E) signature, ∃ msg, (answer (GetTransaction signature) e).1 = Err msg.
Definition same_rows n n' : Prop := rows n' = rows n ∧ dbHeight n' = dbHeight n.
Lemma same_rows_ask {A} n0 (c : Call (res A)) : keeps (same_rows n0) (ask c).
Proof. apply keeps_bind; [apply keeps_rpc; by intros n a e H|]. intros []; keep. Qed.
#[local] Hint Resolve same_rows_ask : keeper.
Lemma lost_signature n0 from to sig : fetches_fail → keeps (same_rows n0) (process_signature from to sig).
Proof.
  intros Hf n Hn. unfold process_signature. destruct (_ || _); [done|]. rewrite bind_unfold. unfold rpc.
  destruct (Hf (env n) (SigString sig)) as (msg & Hm). destruct (answer (GetTransaction (SigString sig)) (env n)) as [a e].
  cbn in Hm. by subst a.
Qed.
Lemma lost_pages n0 fuel gateway before from to : fetches_fail → keeps (same_rows n0) (slot_pages fuel gateway before from to).
Proof.
  intros Hf. revert before. induction fuel as [|fuel IH]; intros before; [by intros n|]. cbn [slot_pages].
  apply keeps_bind; [keep|]. intros [|s batch]; [keep|]. apply keeps_bind; [apply keeps_for_each; intros sig; by apply lost_signature|].
  intros []. case_decide; [keep|apply IH].
Qed.
(** C34. What a tick could not fetch is lost.  When every request for a transaction fails,
    the tick of the Solana listener stores nothing, and still counts its whole range of
    slots as done: it goes on from after the head, and the head is what it restarts
    from. *)
Theorem svm_failed_fetch_is_lost history fuel cur head n :
  history_ok history → pages history → (length history < fuel)%nat → base58_of_length 32 watchedGateway = true →
  (answer ChainHead (env n)).1 = Ok head → cur < head → 0 ≤ cur → head < 2 ^ 63 → fetches_fail →
  ∃ n', svm_listen_tick fuel cur n = (Ok (head + 1), n') ∧ rows n' = rows n ∧ head ≤ dbHeight n'.
Proof.
  intros Hok Hpages Hfuel Hgw Hhead Hlt Hcur Hmax Hfail. unfold svm_listen_tick, processNewSlots.
  rewrite bind_unfold, attempt_run, bind_unfold, wrap_run. unfold ask. rewrite bind_unfold. unfold rpc.
  destruct (answer ChainHead (env n)) as [a e]. cbn in Hhead. subst a. set (n1 := n <| env := e |> <| trace ::= _ |>).
  assert (rows n1 = rows n) as Hn1 by done. clearbody n1.
  rewrite ret_run. cbn [wrap_res]. rewrite decide_False by lia. rewrite bind_unfold, wrap_run. unfold processSlotRange.
  rewrite Hgw, bind_unfold. change (require true "invalid gateway address" n1) with (Ok tt, n1).
  pose proof (lost_pages n1 fuel watchedGateway "" cur head Hfail n1 (conj eq_refl eq_refl)) as Hsame.
  destruct (pages_reach history cur head fuel [] history "" n1 Hok Hpages eq_refl Hfuel eq_refl) as (n2 & Hp & _ & _). rewrite Hp in Hsame |- *.
  destruct Hsame as [Hr _]. cbn [snd wrap_res] in Hr |- *. unfold UpdateChainHeight. rewrite !bind_unfold, gets_run. rewrite u64_id by lia.
  case_decide as Hd; eexists; (split; [reflexivity|]); (split; [|cbn; lia]); cbn; congruence.
Qed.
End paging.
