(* ===== verification/UcEvmTxSpec.v ===== *)
(** * The universal client: what is signed is what is sent, on an EVM chain

    The transaction assembled around a signature is the one whose hash was signed; that
    hash stands for one call of the vault; a fund migration moves all that the retired key
    holds. *)
From S2P Require Import Prelude GoStrings UvTypes TssTypes UxTypes RegTypes World Canonical Utss UxPayload UxMsg.
From S2P Require Import UcStore UcChain UcEvm UcCoord UcEvmTx UcLogic.
Import Uc.

(** Documented behaviour: values of one list of types have one encoding, and the digests
    have no collisions. *)
Inductive AbiType := TBytes32 | TAddress | TUint256 | TBytes | TRevertInstructions.
Definition abi_type (v : AbiValue) : AbiType :=
  match v with
  | AbiBytes32 _ => TBytes32 | AbiAddress _ => TAddress | AbiUint256 _ => TUint256 | AbiBytes _ => TBytes
  | AbiRevertInstructions _ _ => TRevertInstructions
  end.
Definition abi_ok (v : AbiValue) : Prop :=
  match v with
  | AbiBytes32 bz => length bz = 32%nat
  | AbiAddress bz | AbiRevertInstructions bz _ => length bz = 20%nat
  | AbiUint256 z => 0 ≤ z < 2 ^ 256
  | AbiBytes _ => True
  end.
Definition tx_ok (tx : LegacyTx) : Prop :=
  0 ≤ EtNonce tx < 2 ^ 64 ∧ 0 ≤ EtValue tx ∧ 0 ≤ EtGas tx < 2 ^ 64 ∧ 0 ≤ EtGasPrice tx.
Class EvmTxLaws `{Crypto, EvmTxLib} : Prop := {
  abi_Pack_inj vs vs' bz :
    abi_type <$> vs = abi_type <$> vs' → Forall abi_ok vs → Forall abi_ok vs' →
    abi_Pack vs = Ok bz → abi_Pack vs' = Ok bz → vs = vs';
  signer_Hash_inj chain tx tx' : tx_ok tx → tx_ok tx' → signer_Hash chain tx = signer_Hash chain tx' → tx = tx';
  Keccak256_length bz : length (Keccak256 bz) = 32%nat;
  selectors_differ : NoDup (funcSelector <$> ["finalizeUniversalTx"; "revertUniversalTx"; "rescueFunds"]);
}.

Section spec.
Context `{CC : ChainCodecs, CR : Crypto, TL : EvmTxLib, BC : EvmBuilderConfig}.

(** ** What an outbound stands for *)
Inductive VaultCall :=
| Finalize (txID universalTxID pushAccount recipient token : list Z) (amount : Z) (payload : list Z)
| Revert (txID universalTxID token : list Z) (amount : Z) (recipient msg : list Z)
| Rescue (txID universalTxID token : list Z) (amount : Z) (recipient msg : list Z).
Definition intent (data : OutboundCreatedEvent) : option VaultCall :=
  txID ← decode_prefixed (OcTxID data); universalTxID ← decode_prefixed (OcUniversalTxId data);
  amount ← big_SetString (OcAmount data);
  let txID := replicate (32 - length txID) 0 ++ txID in
  let token := HexToAddress (OcAssetAddr data) in
  let recipient := HexToAddress (OcRecipient data) in
  let msg := default [] (decode_prefixed (OcRevertMsg data)) in
  match parseTxType (OcTxType data) with
  | Ok Ux.INBOUND_REVERT => Some (Revert txID universalTxID token amount recipient msg)
  | Ok Ux.RESCUE_FUNDS => Some (Rescue txID universalTxID token amount recipient msg)
  | Ok _ => Some (Finalize txID universalTxID (HexToAddress (OcSender data)) recipient token amount
                    (default [] (decode_prefixed (OcPayload data))))
  | _ => None
  end.
Definition call_of (c : VaultCall) : list Z * list AbiValue :=
  match c with
  | Finalize a b p r t z d =>
      (funcSelector "finalizeUniversalTx", [AbiBytes32 a; AbiBytes32 b; AbiAddress p; AbiAddress r; AbiAddress t; AbiUint256 z; AbiBytes d])
  | Revert a b t z r m => (funcSelector "revertUniversalTx", [AbiBytes32 a; AbiBytes32 b; AbiAddress t; AbiUint256 z; AbiRevertInstructions r m])
  | Rescue a b t z r m => (funcSelector "rescueFunds", [AbiBytes32 a; AbiBytes32 b; AbiAddress t; AbiUint256 z; AbiRevertInstructions r m])
  end.
Definition call_amount (c : VaultCall) : Z := match c with Finalize _ _ _ _ _ z _ | Revert _ _ _ z _ _ | Rescue _ _ _ z _ _ => z end.

Lemma length_address s : length (HexToAddress s) = 20%nat.
Proof. unfold HexToAddress, left_pad. rewrite length_app, length_replicate, length_drop. lia. Qed.
Lemma abi_ok_all vs : foldr (λ v P, abi_ok v ∧ P) True vs → Forall abi_ok vs.
Proof. induction vs as [|v vs IH]; [done|]. intros [H1 H2]. by constructor; [|apply IH]. Qed.
Lemma function_of t :
  (determineFunctionName t = "finalizeUniversalTx" ∧ t ≠ Ux.INBOUND_REVERT ∧ t ≠ Ux.RESCUE_FUNDS)
  ∨ (determineFunctionName t = "revertUniversalTx" ∧ t = Ux.INBOUND_REVERT) ∨ (determineFunctionName t = "rescueFunds" ∧ t = Ux.RESCUE_FUNDS).
Proof. destruct t; cbn; auto. Qed.
Lemma id32_ok bz r : id32 bz = Ok r → r = replicate (32 - length bz) 0 ++ bz ∧ length r = 32%nat.
Proof. unfold id32. case_decide; [done|]. intros [= <-]. split; [done|]. rewrite length_app, length_replicate. lia. Qed.
(** The call is the encoding of what the outbound stands for; the native token goes with it. *)
Lemma vault_call_inv data txData value :
  vault_call data = Ok (txData, value) →
  ∃ c args, intent data = Some c ∧ abi_Pack (call_of c).2 = Ok args ∧ txData = (call_of c).1 ++ args ∧
    value = (if decide (HexToAddress (OcAssetAddr data) = zero_address) then call_amount c else 0) ∧
    (0 ≤ call_amount c < 2 ^ 256 → Forall abi_ok (call_of c).2).
Proof.
  unfold vault_call, encodeFunctionCall, intent. intros H. binds. simplify_eq.
  repeat match goal with H : _ = Some _ |- _ => rewrite H; clear H end. cbn [mbind option_bind].
  match goal with H : parseTxType _ = Ok ?t |- _ => rewrite H; clear H; rename t into ty end.
  match goal with H : id32 _ = Ok _ |- _ => apply id32_ok in H as [-> Hid] end.
  destruct (function_of ty) as [(Hf & Hn1 & Hn2)|[(Hf & ->)|(Hf & ->)]]; rewrite Hf in *; unfold call_values in *;
    match goal with H : (if decide _ then _ else _) = Ok _ |- _ => revert H end;
    [rewrite decide_True by done|rewrite decide_False, decide_True by auto..]; intros [= <-].
  - assert (∀ (c1 c2 c3 : VaultCall), match ty with Ux.INBOUND_REVERT => Some c1 | Ux.RESCUE_FUNDS => Some c2 | _ => Some c3 end = Some c3)
      as Hty by (by destruct ty). rewrite Hty. eexists _, _. split_and!; [reflexivity|done|done|done|].
    intros Ha. apply abi_ok_all; cbn; auto 10 using length_address.
  - eexists _, _. split_and!; [reflexivity|done|done|done|]. intros Ha. apply abi_ok_all; cbn; auto 10 using length_address.
  - eexists _, _. split_and!; [reflexivity|done|done|done|]. intros Ha. apply abi_ok_all; cbn; auto 10 using length_address.
Qed.

Lemma big_Uint64_range z : 0 ≤ big_Uint64 z < 2 ^ 64.
Proof. unfold big_Uint64, u64. apply Z.mod_pos_bound. lia. Qed.
Lemma sent_value_range (a v : Z) (P : Prop) `{Decision P} : v = (if decide P then a else 0) → 0 ≤ a → 0 ≤ v.
Proof. intros -> Ha. case_decide; lia. Qed.
Lemma outbound_tx_ok nonce to value gl gp data :
  0 ≤ nonce < 2 ^ 64 → 0 ≤ value → 0 ≤ gp → tx_ok (mkLegacyTx nonce to value (big_Uint64 gl) gp data).
Proof. intros. pose proof (big_Uint64_range gl). split_and!; cbn; lia. Qed.
Lemma call_of_inj `{TLL : !EvmTxLaws} c c' args args' :
  (call_of c).1 ++ args = (call_of c').1 ++ args' → abi_Pack (call_of c).2 = Ok args → abi_Pack (call_of c').2 = Ok args' →
  Forall abi_ok (call_of c).2 → Forall abi_ok (call_of c').2 → c = c'.
Proof.
  intros He Hp Hp' Hok Hok'.
  assert (∀ f, length (funcSelector f) = 4%nat) as Hlen by (intros f; unfold funcSelector; rewrite length_take, Keccak256_length; done).
  apply app_inj_1 in He as [Hs <-]; [|destruct c, c'; cbn [call_of fst]; by rewrite !Hlen].
  pose proof selectors_differ as Hsel. cbn [fmap list_fmap] in Hsel. rewrite !NoDup_cons, !not_elem_of_cons in Hsel. destruct Hsel as ((H1 & H2 & _) & (H3 & _) & _).
  pose proof (abi_Pack_inj (call_of c).2 (call_of c').2 args) as Hinj.
  destruct c, c'; cbn [call_of fst] in Hs; try congruence; specialize (Hinj eq_refl Hok Hok' Hp Hp'); cbn in Hinj; congruence.
Qed.

(** ** The request *)
(** The transaction of an outbound, with its price and limit. *)
Definition outbound_tx (data : OutboundCreatedEvent) (nonce : Z) (tx : LegacyTx) : Prop :=
  ∃ txData value gasLimit gasPrice, vault_call data = Ok (txData, value) ∧ big_SetString (OcGasLimit data) = Some gasLimit ∧
    big_SetString (OcGasPrice data) = Some gasPrice ∧ tx = mkLegacyTx nonce vaultAddress value (big_Uint64 gasLimit) gasPrice txData.
Lemma request_inv data nonce req :
  evm_GetOutboundSigningRequest data nonce = Ok req →
  ∃ tx, outbound_tx data nonce tx ∧ parseGasLimit (OcGasLimit data) = Ok (default 0 (big_SetString (OcGasLimit data))) ∧
    OcGasPrice data ≠ "" ∧ req = mkUnsignedSigningReq (signer_Hash chainIDInt tx) nonce None.
Proof.
  unfold evm_GetOutboundSigningRequest. intros H. binds.
  destruct (decide (OcGasPrice data = "")) as [|Hp]; [binds; done|]. binds.
  match goal with H : parseGasLimit _ = Ok ?g |- _ => rename H into Hg; rename g into gl end.
  match goal with H : vault_call _ = Ok ?c |- _ => rename H into Hv; destruct c as [txData value] end.
  assert (big_SetString (OcGasLimit data) = Some gl) as Hgl.
  { revert Hg. unfold parseGasLimit. destruct (_ || _); [done|]. destruct (big_SetString (OcGasLimit data)); [|done]. by intros [= ->]. }
  eexists. split_and!; [|by rewrite Hgl|done|done]. eexists _, _, _, _. split_and!; done.
Qed.
(** The copies agree. *)
Lemma calls_agree data : broadcast_call data = vault_call data.
Proof. reflexivity. Qed.
Lemma assembled_inv data nonce req tx hash amount signature :
  evm_GetOutboundSigningRequest data nonce = Ok req → outbound_tx data nonce tx → length signature = 65%nat →
  assembled_outbound (mkUnsignedSigningReq hash nonce amount) data signature = apply_signature tx signature.
Proof.
  intros (tx' & _ & Hgl & Hp & _)%request_inv (txData & value & gl & gp & Hv & Hs & Hgp & ->) Hlen. unfold assembled_outbound.
  rewrite bool_decide_eq_true_2 by done. cbn [check mbind res_bind]. rewrite calls_agree, Hv, Hgl, Hs. cbn [mbind res_bind wrap_res default].
  rewrite decide_False by done. unfold lenient_int. by rewrite Hgp.
Qed.

Section sending.
Context {E : Type} `{EV : Env E}.
Implicit Types (n : Node E).

(** C7. What is sent is what was signed.  When a node has built the request of an outbound
    for some nonce, a node that holds the same outbound and nonce with a signature, however
    it came by them, assembles the transaction whose hash that request carries: a call of
    the vault with the encoding of what the outbound stands for, its price and limit.  Unless
    the signature does not apply, that one transaction is sent and nothing else, and its
    hash is returned also when sending fails. *)
Theorem evm_sent_is_signed data nonce req req' signature n :
  evm_GetOutboundSigningRequest data nonce = Ok req → ReqNonce req' = nonce → length signature = 65%nat →
  ∃ tx c args, ReqSigningHash req = signer_Hash chainIDInt tx ∧ intent data = Some c ∧ abi_Pack (call_of c).2 = Ok args ∧
    EtData tx = (call_of c).1 ++ args ∧ EtTo tx = vaultAddress ∧ EtNonce tx = nonce ∧
    EtValue tx = (if decide (HexToAddress (OcAssetAddr data) = zero_address) then call_amount c else 0) ∧
    big_SetString (OcGasPrice data) = Some (EtGasPrice tx) ∧
    let '(r, n') := evm_BroadcastOutboundSigningRequest req' data signature n in
    match WithSignature chainIDInt tx signature with
    | Some _ => trace n' = trace n ∧ ∃ e, r = Ok ("", Some e)
    | None =>
        let stx := mkSignedEvmTx chainIDInt tx signature in
        ∃ a e, trace n' = Log (SendEvmTransaction stx) a :: trace n ∧ r = Ok (hex_string (tx_Hash stx), e) ∧
          (e = None ↔ a = Ok tt)
    end.
Proof.
  intros Hreq Hn Hlen. destruct (request_inv _ _ _ Hreq) as (tx & Htx & _ & _ & ->).
  destruct req' as [hash nonce' amount]. cbn in Hn. subst nonce'.
  pose proof (assembled_inv data nonce _ tx hash amount signature Hreq Htx Hlen) as Has.
  destruct Htx as (txData & value & gl & gp & Hv & Hs & Hgp & Htx). destruct (vault_call_inv _ _ _ Hv) as (c & args & Hi & Hpk & Hd & Hval & _).
  exists tx, c, args. split_and!; [done|done|done|by rewrite Htx|by rewrite Htx|by rewrite Htx|by rewrite Htx|by rewrite Htx|]. clear Htx. unfold evm_BroadcastOutboundSigningRequest, send_assembled. rewrite Has. unfold apply_signature.
  destruct (WithSignature chainIDInt tx signature) as [e|]; [by split; [|eexists]|].
  rewrite bind_unfold. unfold rpc. destruct (answer (SendEvmTransaction _) (env n)) as [a e]. eexists a, _. split_and!; [done|done|].
  destruct a as [[]|?|?]; naive_solver.
Qed.
End sending.

(** C8. The signature stands for one outbound.  Two requests on one chain with the same
    hash have the same nonce, price and limit, and stand for the same call of the vault:
    the same identifiers, token, amount, recipient and payload. *)
Theorem evm_hash_binds_outbound `{TLL : !EvmTxLaws} data nonce req c data' nonce' req' c' :
  evm_GetOutboundSigningRequest data nonce = Ok req → evm_GetOutboundSigningRequest data' nonce' = Ok req' →
  intent data = Some c → intent data' = Some c' → 0 ≤ call_amount c < 2 ^ 256 → 0 ≤ call_amount c' < 2 ^ 256 →
  0 ≤ default 0 (big_SetString (OcGasPrice data)) → 0 ≤ default 0 (big_SetString (OcGasPrice data')) →
  0 ≤ nonce < 2 ^ 64 → 0 ≤ nonce' < 2 ^ 64 → ReqSigningHash req = ReqSigningHash req' →
  c = c' ∧ nonce = nonce' ∧ big_SetString (OcGasPrice data) = big_SetString (OcGasPrice data').
Proof.
  intros (tx & Htx & _ & _ & ->)%request_inv (tx' & Htx' & _ & _ & ->)%request_inv Hc Hc' Ha Ha' Hp Hp' Hn Hn' He. cbn in He.
  destruct Htx as (txData & value & gl & gp & Hv & Hs & Hgp & Htx), Htx' as (txData' & value' & gl' & gp' & Hv' & Hs' & Hgp' & Htx').
  destruct (vault_call_inv _ _ _ Hv) as (c1 & args & Hi & Hpk & Hd & Hval & Hok), (vault_call_inv _ _ _ Hv') as (c1' & args' & Hi' & Hpk' & Hd' & Hval' & Hok').
  rewrite Hc in Hi. rewrite Hc' in Hi'. injection Hi as <-. injection Hi' as <-. rewrite Hgp in Hp. rewrite Hgp' in Hp'. cbn in Hp, Hp'.
  apply sent_value_range in Hval, Hval'; [|lia..].
  assert (tx = tx') as <-.
  { apply (signer_Hash_inj chainIDInt); [rewrite Htx; by apply outbound_tx_ok|rewrite Htx'; by apply outbound_tx_ok|done]. }
  rewrite Htx in Htx'. injection Htx' as <- _ _ <- Hdata. split_and!; [|done|congruence].
  rewrite Hd, Hd' in Hdata. by apply (call_of_inj c c' args args'); auto.
Qed.

(** ** Fund migrations *)
Lemma transfer_ok balance price limit l1 amount :
  computeFundMigrationTransfer balance price limit l1 = Ok amount ↔ 0 < amount ∧ balance = amount + price * limit + Z.max 0 l1.
Proof.
  unfold computeFundMigrationTransfer. destruct (decide (0 < l1)); case_decide; split;
    try (intros [= <-]; lia); try (intros [? ->]; f_equal; lia); try done; intros [? ->]; lia.
Qed.
Section migrating.
Context {E : Type} `{EV : Env E}.
Implicit Types (n : Node E).

Lemma migration_request_inv data nonce n req n' :
  evm_GetFundMigrationSigningRequest data nonce n = (Ok req, n') →
  ∃ balance amount, migration_gas data = Ok tt ∧
    match MgBalance data with
    | Some b => balance = b ∧ n' = n
    | None => trace n' = Log (GetBalance (HexToAddress (MgFrom data))) (Ok balance) :: trace n
    end ∧
    computeFundMigrationTransfer balance (MgGasPrice data) (MgGasLimit data) (MgL1GasFee data) = Ok amount ∧
    req = mkUnsignedSigningReq (signer_Hash chainIDInt (migration_tx data nonce amount)) nonce (Some amount).
Proof.
  unfold evm_GetFundMigrationSigningRequest. rewrite bind_unfold, lift_res_run. destruct (migration_gas data) as [[]|?|?]; [|done..].
  rewrite bind_unfold. destruct (MgBalance data) as [b|].
  - rewrite ret_run, bind_unfold, lift_res_run. destruct (computeFundMigrationTransfer _ _ _ _) as [a|?|?] eqn:Ha; [|done..].
    intros [= <- <-]. exists b, a. done.
  - rewrite wrap_run. unfold ask. rewrite bind_unfold. unfold rpc. destruct (answer (GetBalance _) (env n)) as [[b|?|?] e]; [|done..].
    rewrite ret_run. cbn [wrap_res]. rewrite bind_unfold, lift_res_run.
    destruct (computeFundMigrationTransfer _ _ _ _) as [a|?|?] eqn:Ha; [|done..]. intros [= <- <-]. exists b, a. done.
Qed.
(** C10. A fund migration moves everything.  The request transfers a positive amount to the
    current key; with the price of the gas and the fee of the layer below it is what the
    retired key holds.  A node that only knows the amount that was claimed builds the same
    request, whatever the balance is by then; and one that has the signature sends that
    transaction. *)
Theorem migration_moves_everything d from to nonce n req n' m signature :
  evm_GetFundMigrationSigningRequest (migration_data d from to None) nonce n = (Ok req, n') → length signature = 65%nat →
  ∃ balance amount, GetBalance (HexToAddress from) ⟹ Ok balance ∈ trace n' ∧ ReqAmount req = Some amount ∧ 0 < amount ∧
    amount + lenient_int (FmGasPrice d) * FmGasLimit d + Z.max 0 (lenient_int (FmL1GasFee d)) = balance ∧
    evm_GetFundMigrationSigningRequest (migration_data d from to (Some (claimed_balance d amount))) nonce m = (Ok req, m) ∧
    let tx := mkLegacyTx nonce (HexToAddress to) amount (FmGasLimit d) (lenient_int (FmGasPrice d)) [] in
    ReqSigningHash req = signer_Hash chainIDInt tx ∧
    (WithSignature chainIDInt tx signature = None → ∃ a,
       trace (evm_BroadcastFundMigrationTx req (migration_data d from to None) signature m).2
       = Log (SendEvmTransaction (mkSignedEvmTx chainIDInt tx signature)) a :: trace m).
Proof.
  intros (balance & amount & Hg & Hb & Ht & ->)%migration_request_inv Hlen. pose proof Ht as [Hpos Hbal]%transfer_ok.
  cbn [MgBalance migration_data MgGasPrice MgGasLimit MgL1GasFee] in Hb, Hbal. exists balance, amount. split_and!; [|done|done|lia| |split; [done|]].
  - rewrite Hb. left.
  - unfold evm_GetFundMigrationSigningRequest. rewrite bind_unfold, lift_res_run.
    change (migration_gas (migration_data d from to (Some (claimed_balance d amount)))) with (migration_gas (migration_data d from to None)).
    rewrite Hg, bind_unfold. cbn [MgBalance migration_data]. rewrite ret_run, bind_unfold, lift_res_run.
    assert (claimed_balance d amount = balance) as -> by (unfold claimed_balance; case_decide; lia). cbn [MgGasPrice MgGasLimit MgL1GasFee migration_data] in Ht |- *.
    by rewrite Ht.
  - intros Hsig. unfold evm_BroadcastFundMigrationTx, assembled_migration. rewrite bool_decide_eq_true_2 by done. cbn [check mbind res_bind].
    rewrite Hg. cbn [mbind res_bind ReqAmount]. rewrite bool_decide_eq_true_2 by done. cbn [check mbind res_bind]. unfold apply_signature.
    cbn [ReqNonce]. unfold migration_tx. cbn [MgTo MgGasLimit MgGasPrice migration_data]. rewrite Hsig.
    unfold send_assembled. rewrite bind_unfold. unfold rpc. destruct (answer (SendEvmTransaction _) (env m)) as [a e]. by exists a.
Qed.
End migrating.
End spec.
