(* ===== verification/UcSvmTxSpec.v ===== *)
(** * The universal client: what the threshold key signs for Solana

    The message of an outbound determines every field that matters; the payload decoder
    accepts exactly the encodings; the gateway finds in the instruction that carries the
    signature the message that was signed, unless the payload names another target. *)
From S2P Require Import Prelude GoStrings UvTypes TssTypes UxTypes RegTypes World Canonical Utss UxPayload UxMsg.
From S2P Require Import UcStore UcChain UcEvm UcSvm UcCoord UcEvmTx UcSvmTx UcLogic UcEvmSpec.
Import Uc.

(** Digests have 32 bytes and no collisions. *)
Class KeccakLaws `{Crypto} : Prop := {
  keccak_length bz : length (Keccak256 bz) = 32%nat;
  keccak_inj bz bz' : Keccak256 bz = Keccak256 bz' → bz = bz';
}.

(** ** Integers *)
Lemma be_bytes_inj k z z' : 0 ≤ z < 256 ^ Z.of_nat k → 0 ≤ z' < 256 ^ Z.of_nat k → be_bytes k z = be_bytes k z' → z = z'.
Proof. intros Hz Hz' He. by rewrite <- (SetBytes_be_bytes k z), <- (SetBytes_be_bytes k z'), He. Qed.
Lemma u64_range z : 0 ≤ u64 z < 256 ^ Z.of_nat 8.
Proof. change (256 ^ Z.of_nat 8) with (2 ^ 64). unfold u64. apply Z.mod_pos_bound. lia. Qed.
Definition is_i64 (z : Z) : Prop := - 2 ^ 63 ≤ z < 2 ^ 63.
Lemma u64_i64_inj z z' : is_i64 z → is_i64 z' → u64 z = u64 z' → z = z'.
Proof. unfold is_i64, u64. intros Hz Hz' He. pose proof (Z.div_mod z (2 ^ 64)). pose proof (Z.div_mod z' (2 ^ 64)).
  assert (2 ^ 64 * (z / 2 ^ 64 - z' / 2 ^ 64) = z - z') by lia. assert (z / 2 ^ 64 - z' / 2 ^ 64 = 0) by lia. lia. Qed.

Section message.
Context `{CR : Crypto, KL : !KeccakLaws}.

(** ** The message *)
Definition account_ok (a : GatewayAccountMeta) : Prop := length (GaPubkey a) = 32%nat.
Definition message_ok (m : TSSMessage) : Prop :=
  Forall (λ bz, length bz = 32%nat) [MTxID m; MUniversalTxID m; MToken m; MTarget m; MRevertRecipient m; MRevertMint m] ∧
  length (MSender m) = 20%nat ∧ Forall account_ok (MAccounts m) ∧
  is_i64 (MDeadline m) ∧ 0 ≤ MAmount m < 2 ^ 64 ∧ 0 ≤ MGasFee m < 2 ^ 64 ∧
  Z.of_nat (length (MAccounts m)) < 2 ^ 32 ∧ Z.of_nat (length (MIxData m)) < 2 ^ 32.
(** What the gateway is told, by kind. *)
Inductive Told :=
| TWithdraw (sender token target : list Z)
| TExecute (sender token target : list Z) (accounts : list GatewayAccountMeta) (ixData : list Z)
| TRevert (mint recipient msg : list Z)
| TRescue (mint recipient : list Z)
| TNothing.
Definition told (m : TSSMessage) : Told :=
  if decide (MInstructionID m = 1) then TWithdraw (MSender m) (MToken m) (MTarget m)
  else if decide (MInstructionID m = 2) then TExecute (MSender m) (MToken m) (MTarget m) (MAccounts m) (MIxData m)
  else if decide (MInstructionID m = 3) then TRevert (MRevertMint m) (MRevertRecipient m) (MRevertMsg m)
  else if decide (MInstructionID m = 4) then TRescue (MRevertMint m) (MRevertRecipient m)
  else TNothing.
Lemma accounts_inj l l' t t' :
  length l = length l' → Forall account_ok l → Forall account_ok l' →
  mjoin (account_bytes <$> l) ++ t = mjoin (account_bytes <$> l') ++ t' → l = l' ∧ t = t'.
Proof.
  revert l'. induction l as [|a l IH]; intros [|a' l'] Hl Hok Hok' He; try done.
  apply Forall_cons in Hok as [Ha Hok], Hok' as [Ha' Hok']. cbn in Hl, He. unfold account_bytes at 1 3 in He.
  rewrite <- !app_assoc in He. apply app_inj_1 in He as [Hk He]; [|by rewrite Ha, Ha']. cbn in He. injection He as Hw He.
  destruct (IH l' ltac:(lia) Hok Hok' He) as [-> ->]. split; [|done]. f_equal. destruct a as [k w], a' as [k' w']. cbn in *. subst k'.
  by destruct w, w'.
Qed.
Lemma mint_inj mint mint' t t' :
  length mint = 32%nat → length mint' = 32%nat → length t = length t' →
  (if decide (mint = zero_key) then [] else mint) ++ t = (if decide (mint' = zero_key) then [] else mint') ++ t' → mint = mint' ∧ t = t'.
Proof.
  intros Hl Hl' Ht He. assert (length (if decide (mint = zero_key) then [] else mint) = length (if decide (mint' = zero_key) then [] else mint')) as Hlen.
  { apply (f_equal length) in He. rewrite !length_app in He. lia. }
  apply app_inj_1 in He as [Hm Ht']; [|done]. split; [|done]. repeat case_decide; subst; cbn in *; congruence || lia.
Qed.
Definition message_head (m : TSSMessage) : list Z :=
  tssMessagePrefix ++ [MInstructionID m] ++ MChainID m ++ be_bytes 8 (u64 (MDeadline m)) ++ be_bytes 8 (MAmount m).
Definition message_body (m : TSSMessage) : list Z :=
  match told m with
  | TWithdraw sender token target => MTxID m ++ MUniversalTxID m ++ sender ++ token ++ be_bytes 8 (MGasFee m) ++ target
  | TExecute sender token target accounts ixData =>
      MTxID m ++ MUniversalTxID m ++ sender ++ token ++ be_bytes 8 (MGasFee m) ++ target ++ be_bytes 4 (Z.of_nat (length accounts))
        ++ mjoin (account_bytes <$> accounts) ++ be_bytes 4 (Z.of_nat (length ixData)) ++ ixData
  | TRevert mint recipient msg =>
      MTxID m ++ MUniversalTxID m ++ (if decide (mint = zero_key) then [] else mint) ++ recipient ++ be_bytes 8 (MGasFee m) ++ Keccak256 msg
  | TRescue mint recipient =>
      MTxID m ++ MUniversalTxID m ++ (if decide (mint = zero_key) then [] else mint) ++ recipient ++ be_bytes 8 (MGasFee m)
  | TNothing => []
  end.
Lemma tss_message_split m bz : tss_message m = Ok bz ↔ told m ≠ TNothing ∧ bz = message_head m ++ message_body m.
Proof.
  unfold tss_message, message_body, message_head, told. repeat (destruct (decide _); [rewrite ?app_assoc; naive_solver|]). naive_solver.
Qed.
Lemma be_bytes_eq k z z' t t' :
  0 ≤ z < 256 ^ Z.of_nat k → 0 ≤ z' < 256 ^ Z.of_nat k → be_bytes k z ++ t = be_bytes k z' ++ t' → z = z' ∧ t = t'.
Proof. intros Hz Hz' [He ->]%app_inj_1; [|by rewrite !length_be_bytes]. split; [by eapply be_bytes_inj|done]. Qed.
Lemma message_head_inj m m' b b' :
  message_ok m → message_ok m' → MChainID m = MChainID m' → message_head m ++ b = message_head m' ++ b' →
  MInstructionID m = MInstructionID m' ∧ MDeadline m = MDeadline m' ∧ MAmount m = MAmount m' ∧ b = b'.
Proof.
  intros (_ & _ & _ & Hd & Ha & _) (_ & _ & _ & Hd' & Ha' & _) Hc. unfold message_head. rewrite Hc, <- !app_assoc. intros He.
  apply app_inv_head, (app_inj_1 [_] [_]) in He as [[= Hid] He]; [|done]. apply app_inv_head in He.
  apply be_bytes_eq in He as [Hu He]; [|apply u64_range..]. apply be_bytes_eq in He as [Hm He]; [|done..].
  split_and!; try done. by apply u64_i64_inj.
Qed.
Lemma length32_inj (a a' : list Z) t t' : length a = 32%nat → length a' = 32%nat → a ++ t = a' ++ t' → a = a' ∧ t = t'.
Proof. intros Ha Ha' He. apply app_inj_1 in He; [done|by rewrite Ha, Ha']. Qed.
Lemma message_body_inj m m' :
  message_ok m → message_ok m' → MInstructionID m = MInstructionID m' → told m ≠ TNothing → message_body m = message_body m' →
  MTxID m = MTxID m' ∧ MUniversalTxID m = MUniversalTxID m' ∧ MGasFee m = MGasFee m' ∧ told m = told m'.
Proof.
  intros (Hl & Hs & Hacc & _ & _ & Hg & Hna & Hni) (Hl' & Hs' & Hacc' & _ & _ & Hg' & Hna' & Hni') Hid Hne. unfold message_body.
  rewrite !Forall_cons in Hl, Hl'. destruct Hl as (L1 & L2 & L3 & L4 & L5 & L6 & _), Hl' as (L1' & L2' & L3' & L4' & L5' & L6' & _).
  revert Hne. unfold told. rewrite Hid.
  repeat (destruct (decide (MInstructionID m' = _)); [intros _|]); [..|done]; intros He;
    apply length32_inj in He as [H1 He]; try done; apply length32_inj in He as [H2 He]; try done.
  - apply app_inj_1 in He as [H3 He]; [|by rewrite Hs, Hs']. apply length32_inj in He as [H4 He]; [|done..].
    apply be_bytes_eq in He as [H5 He]; [|done..]. split_and!; congruence.
  - apply app_inj_1 in He as [H3 He]; [|by rewrite Hs, Hs']. apply length32_inj in He as [H4 He]; [|done..].
    apply be_bytes_eq in He as [H5 He]; [|done..]. apply length32_inj in He as [H6 He]; [|done..].
    apply be_bytes_eq in He as [H7 He]; [|change (256 ^ Z.of_nat 4) with (2 ^ 32); lia..].
    apply accounts_inj in He as [H8 He]; [|lia|done..].
    apply be_bytes_eq in He as [H9 He]; [|change (256 ^ Z.of_nat 4) with (2 ^ 32); lia..]. split_and!; congruence.
  - apply mint_inj in He as [H3 He]; [|done|done|rewrite !length_app, !length_be_bytes, !keccak_length; lia].
    apply length32_inj in He as [H4 He]; [|done..]. apply be_bytes_eq in He as [H5 He]; [|done..]. apply keccak_inj in He. split_and!; congruence.
  - apply mint_inj in He as [H3 He]; [|done|done|rewrite !length_app, !length_be_bytes; lia].
    apply length32_inj in He as [H4 He]; [|done..]. rewrite <- (app_nil_r (be_bytes 8 (MGasFee m))), <- (app_nil_r (be_bytes 8 (MGasFee m'))) in He.
    apply be_bytes_eq in He as [H5 He]; [|done..]. split_and!; congruence.
Qed.
(** C9. The signature stands for one settlement.  Two messages for one cluster with the
    same hash tell the gateway the same: kind, deadline, amount, fee, both identifiers,
    and by kind the sender, the token, the target with its accounts and data, or the
    recipient of the refund and the reason. *)
Theorem svm_hash_binds_outbound m m' hash :
  message_ok m → message_ok m' → MChainID m = MChainID m' →
  constructTSSMessage m = Ok hash → constructTSSMessage m' = Ok hash →
  MInstructionID m = MInstructionID m' ∧ MDeadline m = MDeadline m' ∧ MAmount m = MAmount m' ∧ MTxID m = MTxID m' ∧
  MUniversalTxID m = MUniversalTxID m' ∧ MGasFee m = MGasFee m' ∧ told m = told m'.
Proof.
  intros Hm Hm' Hc. unfold constructTSSMessage. destruct (tss_message m) as [bz|?|?] eqn:H1; [|done..]. destruct (tss_message m') as [bz'|?|?] eqn:H2; [|done..].
  intros [= <-] [= He%keccak_inj]. subst bz'. apply tss_message_split in H1 as [Hne ->], H2 as [_ He].
  apply message_head_inj in He as (Hid & Hd & Ha & He); [|done..]. destruct (message_body_inj m m' Hm Hm' Hid Hne He) as (? & ? & ? & ?). done.
Qed.
End message.

(** ** Payloads *)
Lemma SetBytes_range l : is_bytes l → 0 ≤ SetBytes l < 256 ^ Z.of_nat (length l).
Proof.
  induction l as [|b l IH] using rev_ind; intros Hl; [cbn; lia|]. apply Forall_app in Hl as [Hl Hb].
  apply Forall_cons in Hb as [Hb _]. specialize (IH Hl). rewrite SetBytes_snoc, length_app. cbn [length].
  replace (Z.of_nat (length l + 1)) with (Z.of_nat (length l) + 1) by lia. rewrite Z.pow_add_r by lia. lia.
Qed.
Lemma be_bytes_SetBytes l : is_bytes l → be_bytes (length l) (SetBytes l) = l.
Proof.
  induction l as [|b l IH] using rev_ind; intros Hl; [done|]. apply Forall_app in Hl as [Hl Hb].
  apply Forall_cons in Hb as [Hb _]. rewrite length_app, Nat.add_comm. cbn [length Nat.add be_bytes]. rewrite SetBytes_snoc.
  rewrite Z.add_comm, Z.div_add, Z.div_small, Z.add_0_l, IH, Z.mod_add, Z.mod_small by done || lia. done.
Qed.
(** A payload with the byte that tells whether an account is writable as it was sent. *)
Definition raw_account (a : list Z * Z) : list Z := a.1 ++ [a.2].
Definition read_account (a : list Z * Z) : GatewayAccountMeta := mkGatewayAccountMeta a.1 (bool_decide (a.2 = 1)).
Definition encode_payload (accs : list (list Z * Z)) (ixData : list Z) (id : Z) (target : list Z) : list Z :=
  be_bytes 4 (Z.of_nat (length accs)) ++ mjoin (raw_account <$> accs) ++ be_bytes 4 (Z.of_nat (length ixData)) ++ ixData ++ [id] ++ target.
Definition raw_ok (a : list Z * Z) : Prop := length a.1 = 32%nat.
Lemma raw_cons a accs : mjoin (raw_account <$> a :: accs) = a.1 ++ a.2 :: mjoin (raw_account <$> accs).
Proof. change (raw_account a ++ mjoin (raw_account <$> accs) = a.1 ++ a.2 :: mjoin (raw_account <$> accs)). unfold raw_account at 1. by rewrite <- app_assoc. Qed.
Lemma length_raw accs : Forall raw_ok accs → length (mjoin (raw_account <$> accs)) = (33 * length accs)%nat.
Proof. induction 1 as [|a accs Ha _ IH]; [done|]. rewrite raw_cons, length_app. cbn [length]. rewrite IH, Ha. lia. Qed.
Lemma payload_accounts_raw accs t : Forall raw_ok accs → payload_accounts (length accs) (mjoin (raw_account <$> accs) ++ t) = read_account <$> accs.
Proof.
  induction 1 as [|a accs Ha _ IH]; [done|]. rewrite raw_cons, fmap_cons. cbn [length payload_accounts]. unfold raw_ok in Ha. rewrite <- app_assoc. f_equal.
  - unfold read_account. f_equal; [by rewrite take_app_length'|]. apply bool_decide_ext. rewrite lookup_app_r, Ha by lia. change (Some a.2 = Some 1 ↔ a.2 = 1). split; congruence.
  - rewrite drop_app_ge, Ha by lia. exact IH.
Qed.
Lemma raw_of_bytes n bz : (33 * n ≤ length bz)%nat → ∃ accs t, bz = mjoin (raw_account <$> accs) ++ t ∧ length accs = n ∧ Forall raw_ok accs.
Proof.
  revert bz. induction n as [|n IH]; intros bz Hl; [by exists [], bz|]. destruct (IH (drop 33 bz)) as (accs & t & Hd & Hn & Hok); [rewrite length_drop; lia|].
  destruct (bz !! 32%nat) as [b|] eqn:Hb; [|apply lookup_ge_None in Hb; lia].
  exists ((take 32 bz, b) :: accs), t. split_and!; [|cbn; lia|constructor; [unfold raw_ok; cbn; rewrite length_take; lia|done]].
  rewrite raw_cons, <- app_assoc. cbn [fst snd app]. rewrite <- Hd. by rewrite <- (take_drop_middle bz 32 b Hb) at 1.
Qed.
Definition fits (accs : list (list Z * Z)) (ixData target : list Z) : Prop :=
  Forall raw_ok accs ∧ length target = 32%nat ∧ Z.of_nat (length accs) < 2 ^ 32 ∧ Z.of_nat (length ixData) < 2 ^ 32.
(** What the decoder makes of an encoding. *)
Definition decoded (accs : list (list Z * Z)) (ixData : list Z) (id : Z) (target : list Z) : res (list GatewayAccountMeta * list Z * Z * list Z) :=
  if decide (id = 1) then
    if decide (accs = [] ∧ ixData = []) then Ok ([], [], 1, target) else Err "withdraw payload must have accountsCount=0 and ixDataLen=0"
  else if decide (id = 2) then Ok (read_account <$> accs, ixData, 2, target) else Err "invalid instruction_id".
Lemma be_uint_be_bytes z t : 0 ≤ z < 2 ^ 32 → be_uint (take 4 (be_bytes 4 z ++ t)) = z.
Proof. intros Hz. rewrite take_app_length' by (by rewrite length_be_bytes). by apply SetBytes_be_bytes. Qed.
Lemma decode_encoded accs ixData id target :
  fits accs ixData target → svm_decodePayload (encode_payload accs ixData id target) = decoded accs ixData id target.
Proof.
  intros (Hraw & Ht & Hna & Hni). set (A := mjoin (raw_account <$> accs)).
  assert (length A = 33 * length accs)%nat as HA by by apply length_raw.
  assert (length (encode_payload accs ixData id target) = 41 + 33 * length accs + length ixData)%nat as Hlen.
  { unfold encode_payload. rewrite !length_app, !length_be_bytes, Ht. fold A. rewrite HA. cbn [length]. lia. }
  unfold svm_decodePayload. rewrite Hlen. unfold encode_payload. fold A. rewrite be_uint_be_bytes by lia.
  rewrite (u64_id (Z.of_nat (length accs) * 33)), (u64_id (4 + _)), (u64_id (_ + 4)) by lia.
  replace (Z.to_nat (4 + Z.of_nat (length accs) * 33)) with (4 + length A)%nat by lia.
  assert (∀ k t, drop (4 + length A + k) (be_bytes 4 (Z.of_nat (length accs)) ++ A ++ t) = drop k t) as Hd.
  { intros k t. rewrite <- drop_drop, <- drop_drop, drop_app_length' by (by rewrite length_be_bytes). by rewrite drop_app_length. }
  pose proof (Hd 0%nat) as Hd0. rewrite Nat.add_0_r in Hd0. rewrite Hd0, drop_0, be_uint_be_bytes by lia. rewrite (u64_id (4 + _ + 4 + _ + 1 + 32)) by lia.
  do 4 (rewrite (bool_decide_eq_true_2 (_ ≤ _)) by lia; cbn [check mbind res_bind]). rewrite !Nat2Z.id.
  assert (drop 4 (be_bytes 4 (Z.of_nat (length accs)) ++ A ++ be_bytes 4 (Z.of_nat (length ixData)) ++ ixData ++ [id] ++ target)
          = A ++ be_bytes 4 (Z.of_nat (length ixData)) ++ ixData ++ [id] ++ target) as -> by (by rewrite drop_app_length' by (by rewrite length_be_bytes)).
  assert (drop (4 + length A + 4) (be_bytes 4 (Z.of_nat (length accs)) ++ A ++ be_bytes 4 (Z.of_nat (length ixData)) ++ ixData ++ [id] ++ target)
          = ixData ++ id :: target) as Hix by (by rewrite Hd, drop_app_length' by (by rewrite length_be_bytes)).
  rewrite <- lookup_drop, Hix, lookup_app_r, Nat.sub_diag by lia. rewrite <- Nat.add_succ_r, <- drop_drop, Hix, take_app_length.
  rewrite (drop_app_ge ixData), Nat.sub_succ_l, Nat.sub_diag by lia. change (drop 1 (id :: target)) with target. rewrite take_ge by lia.
  unfold A at 1. rewrite payload_accounts_raw by done. cbn [lookup list_lookup from_option res_bind mbind]. unfold decoded.
  destruct (decide (id = 1)) as [->|]; [|destruct (decide (id = 2)) as [->|]].
  - case_decide as Hc; [destruct Hc as [-> ->]; done|]. destruct accs as [|? ?], ixData as [|? ?]; try done. naive_solver.
  - done.
  - by rewrite (bool_decide_eq_false_2 (id = 1)), (bool_decide_eq_false_2 (id = 2)) by done.
Qed.
Lemma is_bytes_take k l : is_bytes l → is_bytes (take k l).
Proof. apply Forall_take. Qed.
Lemma be_bytes_take k l : is_bytes l → (k ≤ length l)%nat → l = be_bytes k (SetBytes (take k l)) ++ drop k l ∧ 0 ≤ SetBytes (take k l) < 256 ^ Z.of_nat k.
Proof.
  intros Hl Hk. pose proof (is_bytes_take k l Hl) as Ht. pose proof (SetBytes_range _ Ht) as Hr. pose proof (be_bytes_SetBytes _ Ht) as He.
  rewrite length_take_le in Hr, He by done. by rewrite He, take_drop.
Qed.
Lemma decodes_encoding bz :
  is_bytes bz → (∃ e, svm_decodePayload bz = Err e) ∨ ∃ accs ixData id target, fits accs ixData target ∧ bz = encode_payload accs ixData id target.
Proof.
  intros Hbz. unfold svm_decodePayload. destruct (decide (41 ≤ Z.of_nat (length bz))) as [Hl|];
    [rewrite (bool_decide_eq_true_2 (41 ≤ _)) by done|rewrite (bool_decide_eq_false_2 (41 ≤ _)) by done; by left; eexists].
  cbn [check mbind res_bind]. destruct (be_bytes_take 4 bz Hbz ltac:(lia)) as [Hb Hc]. change (256 ^ Z.of_nat 4) with (2 ^ 32) in Hc. unfold be_uint.
  set (c := SetBytes (take 4 bz)) in *. rewrite (u64_id (c * 33)), (u64_id (4 + _)), (u64_id (_ + 4)) by lia.
  destruct (decide (4 + c * 33 + 4 ≤ Z.of_nat (length bz))) as [Hl2|];
    [rewrite (bool_decide_eq_true_2 (4 + c * 33 + 4 ≤ _)) by done|rewrite (bool_decide_eq_false_2 (4 + c * 33 + 4 ≤ _)) by done; by left; eexists].
  cbn [check mbind res_bind].
  destruct (raw_of_bytes (Z.to_nat c) (drop 4 bz)) as (accs & t & Ht & Hn & Hraw); [rewrite length_drop; lia|].
  pose proof (length_raw accs Hraw) as Hlr.
  assert (drop (Z.to_nat (4 + c * 33)) bz = t) as Hdt.
  { replace (Z.to_nat (4 + c * 33)) with (4 + length (mjoin (raw_account <$> accs)))%nat by lia. by rewrite <- drop_drop, Ht, drop_app_length. }
  assert (is_bytes t) as Hbt by (rewrite <- Hdt; by apply Forall_drop).
  assert (length t = length bz - 4 - 33 * length accs)%nat as Hlt by (rewrite <- Hdt, length_drop; lia).
  rewrite Hdt. destruct (be_bytes_take 4 t Hbt ltac:(lia)) as [Hti Hi]. change (256 ^ Z.of_nat 4) with (2 ^ 32) in Hi.
  set (i := SetBytes (take 4 t)) in *. rewrite (u64_id (4 + c * 33 + 4 + i + 1 + 32)) by lia.
  destruct (decide (4 + c * 33 + 4 + i + 1 + 32 = Z.of_nat (length bz))) as [Hle|Hne].
  - right. set (d := drop 4 t) in *. assert (length d = Z.to_nat i + 33)%nat as Hld by (unfold d; rewrite length_drop; lia).
    destruct (d !! Z.to_nat i) as [id|] eqn:Hid; [|apply lookup_ge_None in Hid; lia].
    exists accs, (take (Z.to_nat i) d), id, (drop (S (Z.to_nat i)) d). rewrite <- (take_drop_middle d _ _ Hid) in Hti.
    split; [split_and!; [done|rewrite length_drop; lia|lia|rewrite length_take; lia]|].
    unfold encode_payload. rewrite length_take_le by lia. rewrite Hn, !Z2Nat.id by lia. rewrite Hb, Ht, Hti. done.
  - left. destruct (decide (4 + c * 33 + 4 + i + 1 + 32 ≤ Z.of_nat (length bz))) as [Hge|Hlt'].
    + rewrite (bool_decide_eq_true_2 (4 + c * 33 + 4 + i + 1 + 32 ≤ _)), (bool_decide_eq_false_2 (_ ≤ 4 + c * 33 + 4 + i + 1 + 32)) by lia. by eexists.
    + rewrite (bool_decide_eq_false_2 (4 + c * 33 + 4 + i + 1 + 32 ≤ _)) by lia. by eexists.
Qed.
(** C29. Payloads are read exactly.  The decoder never panics, whatever the bytes; it accepts
    a payload when it is the encoding of accounts, data, a kind and a target that leaves no
    byte over, a withdrawal having neither accounts nor data, and then returns these. *)
Theorem svm_payload_exact bz accounts ixData id target :
  is_bytes bz →
  (∀ e, svm_decodePayload bz ≠ Panic e) ∧
  (svm_decodePayload bz = Ok (accounts, ixData, id, target) ↔
   ∃ accs, bz = encode_payload accs ixData id target ∧ accounts = read_account <$> accs ∧ fits accs ixData target ∧
     (id = 1 ∧ accs = [] ∧ ixData = [] ∨ id = 2)).
Proof.
  intros Hbz. split.
  - intros e. destruct (decodes_encoding bz Hbz) as [[e' ->]|(accs & ix & i & tg & Hf & ->)]; [done|].
    rewrite decode_encoded by done. unfold decoded. repeat case_decide; done.
  - split.
    + destruct (decodes_encoding bz Hbz) as [[e' ->]|(accs & ix & i & tg & Hf & ->)]; [done|].
      rewrite decode_encoded by done. unfold decoded. destruct (decide (i = 1)) as [->|]; [|destruct (decide (i = 2)) as [->|]; [|done]].
      * case_decide as Hc; [|done]. destruct Hc as [-> ->]. intros [= <- <- <- <-]. exists []. naive_solver.
      * intros [= <- <- <- <-]. exists accs. naive_solver.
    + intros (accs & -> & -> & Hf & Hid). rewrite decode_encoded by done. unfold decoded.
      destruct Hid as [(-> & -> & ->)| ->]; [done|]. by rewrite decide_False, decide_True by done.
Qed.
