(* ===== verification/UcSvmSent.v ===== *)
(** * The universal client: what the gateway on Solana is sent

    The layout of the gateway's instructions, as the builder documents it, read back: the
    message that the program rebuilds from the data and the accounts it is given, against
    the one that was signed. *)
From S2P Require Import Prelude GoStrings UvTypes TssTypes UxTypes RegTypes World Canonical Utss UxPayload UxMsg.
From S2P Require Import UcStore UcChain UcEvm UcSvm UcCoord UcEvmTx UcSvmTx UcLogic UcEvmSpec UcEvmTxSpec UcSvmTxSpec.
Import Uc.

(** ** Flags *)
Definition flag_at (flags : list Z) (i : nat) : bool := Z.testbit (default 0 (flags !! (i / 8)%nat)) (7 - Z.of_nat (i mod 8)).
Lemma flag_byte_above fs : ∀ b j, b < j → 0 ≤ j → Z.testbit (flag_byte b fs) j = false.
Proof.
  induction fs as [|f fs IH]; intros b j Hb Hj; cbn [flag_byte]; [apply Z.bits_0|]. rewrite Z.lor_spec, IH by lia.
  destruct f; [|by rewrite Z.bits_0]. rewrite Z.shiftl_spec by done. rewrite Z.bits_above_log2 by (cbn; lia). done.
Qed.
Lemma flag_byte_at fs : ∀ b i, 0 ≤ b - Z.of_nat i → Z.testbit (flag_byte b fs) (b - Z.of_nat i) = default false (fs !! i).
Proof.
  induction fs as [|f fs IH]; intros b i Hb; cbn [flag_byte]; [apply Z.bits_0|]. rewrite Z.lor_spec.
  destruct i as [|i]; cbn [lookup list_lookup from_option id].
  - rewrite (flag_byte_above fs (b - 1)), orb_false_r by lia. rewrite Z.sub_0_r. destruct f; [|apply Z.bits_0].
    rewrite Z.shiftl_spec by lia. by rewrite Z.sub_diag.
  - replace (b - Z.of_nat (S i)) with (b - 1 - Z.of_nat i) by lia. rewrite IH by lia.
    destruct f; [|by rewrite Z.bits_0]. rewrite Z.shiftl_spec by lia. rewrite Z.testbit_neg_r by lia. done.
Qed.
Lemma flag_bytes_at fuel : ∀ flags i, (length flags ≤ fuel)%nat → (i < length flags)%nat → flag_at (flag_bytes fuel flags) i = default false (flags !! i).
Proof.
  induction fuel as [|fuel IH]; intros flags i Hf Hi; [lia|]. destruct flags as [|f fs] eqn:He; [cbn in Hi; lia|]. rewrite <- He in *.
  assert (flag_bytes (S fuel) flags = flag_byte 7 (take 8 flags) :: flag_bytes fuel (drop 8 flags)) as -> by (by rewrite He).
  unfold flag_at. destruct (decide (i < 8)%nat) as [Hlt|Hge].
  - rewrite Nat.div_small, Nat.mod_small by lia. cbn [lookup list_lookup from_option id]. rewrite flag_byte_at by lia. by rewrite lookup_take_lt.
  - assert (∃ j, i = j + 1 * 8)%nat as [j ->] by (exists (i - 8)%nat; lia). rewrite Nat.div_add, Nat.Div0.mod_add, Nat.add_1_r by lia.
    transitivity (flag_at (flag_bytes fuel (drop 8 flags)) j); [done|]. rewrite IH by (rewrite length_drop; lia).
    rewrite lookup_drop. do 2 f_equal. lia.
Qed.
Lemma flags_roundtrip accounts :
  imap (λ i a, mkGatewayAccountMeta (GaPubkey a) (flag_at (accountsToWritableFlags accounts) i)) accounts = accounts.
Proof.
  apply list_eq. intros i. rewrite list_lookup_imap. destruct (accounts !! i) as [a|] eqn:Ha; [|done]. cbn. f_equal.
  unfold accountsToWritableFlags. rewrite flag_bytes_at.
  - rewrite list_lookup_fmap, Ha. by destruct a.
  - by rewrite length_fmap.
  - rewrite length_fmap. by apply lookup_lt_Some in Ha.
Qed.

(** ** Reading *)
Definition read (k : nat) (bz : list Z) : option (list Z * list Z) := if decide (k ≤ length bz)%nat then Some (take k bz, drop k bz) else None.
Definition read_uint (k : nat) (bz : list Z) : option (Z * list Z) := '(a, r) ← read k bz; Some (le_uint a, r).
Definition read_vec (bz : list Z) : option (list Z * list Z) := '(k, r) ← read_uint 4 bz; read (Z.to_nat k) r.
Lemma read_app k a b : length a = k → read k (a ++ b) = Some (a, b).
Proof. intros <-. unfold read. rewrite decide_True by (rewrite length_app; lia). by rewrite take_app_length, drop_app_length. Qed.
Lemma read_uint_app k z b : 0 ≤ z < 256 ^ Z.of_nat k → read_uint k (le_bytes k z ++ b) = Some (z, b).
Proof. intros Hz. unfold read_uint. rewrite read_app by apply length_le_bytes. cbn. by rewrite le_uint_bytes. Qed.
Lemma read_vec_app a b : Z.of_nat (length a) < 2 ^ 32 → read_vec (vec a ++ b) = Some (a, b).
Proof.
  intros Ha. unfold read_vec, vec. rewrite <- app_assoc, read_uint_app by (change (256 ^ Z.of_nat 4) with (2 ^ 32); lia).
  cbn [mbind option_bind]. apply read_app. lia.
Qed.

Section sent.
Context `{CC : ChainCodecs, CR : Crypto, SL : SvmTxLib, BC : SvmBuilderConfig}.

(** What an instruction says: the message, and the tail with the signature and the hash it
    claims for the message.  An optional account that is absent is the program. *)
Definition account_key (ix : SvmInstruction) (i : nat) : option (list Z) := AmPublicKey <$> IxAccounts ix !! i.
Definition token_key (ix : SvmInstruction) (i : nat) : option (list Z) :=
  k ← account_key ix i; Some (if decide (k = gatewayAddress) then zero_key else k).
Record Tail := mkTail { TlGasFee : Z; TlDeadline : Z; TlSignature : list Z; TlV : Z; TlHash : list Z }.
Definition read_tail (bz : list Z) : option Tail :=
  '(gasFee, r) ← read_uint 8 bz; '(deadline, r) ← read_uint 8 r; '(signature, r) ← read 64 r; '(v, r) ← read_uint 1 r; '(hash, r) ← read 32 r;
  match r with [] => Some (mkTail gasFee (i64 deadline) signature v hash) | _ => None end.
Definition read_finalize (chainID : list Z) (ix : SvmInstruction) (bz : list Z) : option (TSSMessage * Tail) :=
  '(id, r) ← read_uint 1 bz; '(txID, r) ← read 32 r; '(universalTxID, r) ← read 32 r; '(amount, r) ← read_uint 8 r; '(sender, r) ← read 20 r;
  '(flags, r) ← read_vec r; '(ixData, r) ← read_vec r; t ← read_tail r;
  token ← token_key ix 11; target ← account_key ix (if decide (id = 1) then 8%nat else 7%nat);
  let accounts := imap (λ i a, mkGatewayAccountMeta (AmPublicKey a) (flag_at flags i)) (drop 20 (IxAccounts ix)) in
  Some (mkTSSMessage id chainID (TlDeadline t) amount txID universalTxID sender token (TlGasFee t) target accounts ixData zero_key zero_key [], t).
Definition read_revert (chainID : list Z) (ix : SvmInstruction) (bz : list Z) : option (TSSMessage * Tail) :=
  '(txID, r) ← read 32 bz; '(universalTxID, r) ← read 32 r; '(amount, r) ← read_uint 8 r; '(recipient, r) ← read 32 r;
  '(msg, r) ← read_vec r; t ← read_tail r; mint ← token_key ix 10;
  Some (mkTSSMessage 3 chainID (TlDeadline t) amount txID universalTxID zero_key zero_key (TlGasFee t) zero_key [] [] recipient mint msg, t).
Definition read_rescue (chainID : list Z) (ix : SvmInstruction) (bz : list Z) : option (TSSMessage * Tail) :=
  '(txID, r) ← read 32 bz; '(universalTxID, r) ← read 32 r; '(amount, r) ← read_uint 8 r;
  t ← read_tail r; mint ← token_key ix 10; recipient ← account_key ix 4;
  Some (mkTSSMessage 4 chainID (TlDeadline t) amount txID universalTxID zero_key zero_key (TlGasFee t) zero_key [] [] recipient mint [], t).
Definition gateway_reads (chainID : list Z) (ix : SvmInstruction) : option (TSSMessage * Tail) :=
  '(disc, r) ← read 8 (IxData ix);
  if decide (disc = anchorDiscriminator "finalize_universal_tx") then read_finalize chainID ix r
  else if decide (disc = anchorDiscriminator "revert_universal_tx") then read_revert chainID ix r
  else if decide (disc = anchorDiscriminator "rescue_funds") then read_rescue chainID ix r
  else None.
Class AnchorLaws : Prop := {
  Sum256_length bz : length (Sum256 bz) = 32%nat;
  discriminators_differ : NoDup (anchorDiscriminator <$> ["finalize_universal_tx"; "revert_universal_tx"; "rescue_funds"]);
}.
Context `{AL : !AnchorLaws}.

Definition tail_ok (gasFee deadline : Z) (signature : list Z) (v : Z) (hash : list Z) : Prop :=
  0 ≤ gasFee < 2 ^ 64 ∧ is_i64 deadline ∧ length signature = 64%nat ∧ 0 ≤ v < 256 ∧ length hash = 32%nat.
Lemma i64_u64 z : is_i64 z → i64 (u64 z) = z.
Proof.
  intros Hz. unfold i64, u64. rewrite Zplus_mod_idemp_l. apply i64_id in Hz. exact Hz.
Qed.
Lemma read_byte v r : 0 ≤ v < 256 → read_uint 1 ([v] ++ r) = Some (v, r).
Proof. intros Hv. unfold read_uint. rewrite read_app by done. cbn. do 2 f_equal. lia. Qed.
Lemma read_tail_app gasFee deadline signature v hash :
  tail_ok gasFee deadline signature v hash → read_tail (signed_tail gasFee deadline signature v hash) = Some (mkTail gasFee deadline signature v hash).
Proof.
  intros (Hg & Hd & Hs & Hv & Hh). unfold read_tail, signed_tail. rewrite read_uint_app by done. cbn [mbind option_bind].
  rewrite read_uint_app by apply u64_range. cbn [mbind option_bind]. rewrite read_app by done. cbn [mbind option_bind].
  rewrite read_byte by done. cbn [mbind option_bind]. rewrite <- (app_nil_r hash) at 1. rewrite read_app by done. cbn [mbind option_bind]. by rewrite i64_u64.
Qed.
Lemma length_discriminator s : length (anchorDiscriminator s) = 8%nat.
Proof. unfold anchorDiscriminator. by rewrite length_take, Sum256_length. Qed.
Lemma discriminators :
  anchorDiscriminator "finalize_universal_tx" ≠ anchorDiscriminator "revert_universal_tx" ∧
  anchorDiscriminator "finalize_universal_tx" ≠ anchorDiscriminator "rescue_funds" ∧
  anchorDiscriminator "revert_universal_tx" ≠ anchorDiscriminator "rescue_funds".
Proof.
  pose proof discriminators_differ as H. cbn [fmap list_fmap] in H. rewrite !NoDup_cons, !not_elem_of_cons in H. naive_solver.
Qed.

(** ** The accounts *)
Lemma finalize_accounts caller config vault cea tss executed dest isNative id recipient mint accs stored refund :
  let l := buildWithdrawAndExecuteAccounts caller config vault cea tss executed dest isNative id recipient mint accs stored refund in
  AmPublicKey <$> l !! 7%nat = Some dest ∧ AmPublicKey <$> l !! 8%nat = Some (if decide (id = 1) then recipient else gatewayAddress) ∧
  AmPublicKey <$> l !! 11%nat = Some (if isNative then gatewayAddress else mint) ∧
  drop 20 l = (if decide (id = 2) then (λ a, mkAccountMeta (GaPubkey a) (GaIsWritable a) false) <$> accs else []).
Proof.
  intros l. unfold l, buildWithdrawAndExecuteAccounts.
  destruct (decide (id = 1)) as [->|Hne]; [rewrite bool_decide_eq_true_2 by done|rewrite bool_decide_eq_false_2 by done];
    destruct isNative, (decide (dest = gatewayAddress)); done.
Qed.
Lemma revert_accounts config vault feeVault tss recipient executed caller isNative mint :
  let l := buildRevertAccounts config vault feeVault tss recipient executed caller isNative mint in
  AmPublicKey <$> l !! 4%nat = Some recipient ∧ AmPublicKey <$> l !! 10%nat = Some (if isNative then gatewayAddress else mint).
Proof. by destruct isNative. Qed.
Lemma exec_accounts_read accs :
  imap (λ i a, mkGatewayAccountMeta (AmPublicKey a) (flag_at (accountsToWritableFlags accs) i))
    ((λ a, mkAccountMeta (GaPubkey a) (GaIsWritable a) false) <$> accs) = accs.
Proof. rewrite imap_fmap. exact (flags_roundtrip accs). Qed.

(** ** The fields *)
Definition fields_ok (f : SvmFields) : Prop :=
  length (SfTxID f) = 32%nat ∧ length (SfUniversalTxID f) = 32%nat ∧ length (SfSender f) = 20%nat ∧ length (SfMint f) = 32%nat ∧
  length (SfRecipient f) = 32%nat ∧ 0 ≤ SfGasFee f < 2 ^ 64.
Lemma parse_uint64_range l : ∀ acc, 0 ≤ acc < 2 ^ 64 → 0 ≤ parse_uint64 acc l < 2 ^ 64.
Proof.
  induction l as [|c l IH]; intros acc Ha; cbn [parse_uint64]; [done|]. destruct (digit c) as [d|] eqn:Hd; [|lia].
  revert Hd. unfold digit. case_decide; [|done]. intros [= <-].
  case_decide; [lia|]. apply IH. lia.
Qed.
Lemma svm_pubkey_length what s k : svm_pubkey what s = Ok k → length k = 32%nat.
Proof. unfold svm_pubkey. destruct (base58_Decode s) as [bz|?|?]; repeat case_decide; destruct (decode_prefixed s); repeat case_decide; intros [=]; congruence. Qed.
Lemma svm_fields_ok data f : svm_fields data = Ok f → fields_ok f ∧ (native_asset (OcAssetAddr data) = true → SfMint f = zero_key).
Proof.
  unfold svm_fields. intros H. binds. unfold fields_ok. cbn [SfTxID SfUniversalTxID SfSender SfMint SfRecipient SfGasFee].
  repeat match goal with H : id32 _ = Ok _ |- _ => apply id32_ok in H as [_ ?] end.
  match goal with H : svm_pubkey "invalid recipient address format: " _ = Ok _ |- _ => apply svm_pubkey_length in H end.
  pose proof (parse_uint64_range (to_bytes (OcGasFee data)) 0 ltac:(lia)). destruct (native_asset _).
  - binds. done.
  - match goal with H : svm_pubkey "invalid asset address format: " _ = Ok _ |- _ => apply svm_pubkey_length in H end. done.
Qed.
Lemma hex_decode_bytes l r : hex_decode l = Some r → is_bytes r.
Proof.
  revert l r. fix IH 1. intros [|a [|b l]] r; cbn [hex_decode]; [intros [= <-]; constructor|done|].
  destruct (hexval a) as [x|] eqn:Ha; [|done]. destruct (hexval b) as [y|] eqn:Hb; [|done]. cbn [mbind option_bind].
  destruct (hex_decode l) as [r'|] eqn:Hl; [|done]. intros [= <-].
  apply lower_hexdigit in Ha as [_ Hx], Hb as [_ Hy]. constructor; [lia|by apply (IH l)].
Qed.
(** What the payload and the type make of an outbound. *)
Lemma svm_mode_ok data txType accs ixData id target :
  svm_mode data txType = Ok (accs, ixData, id, target) →
  Z.of_nat (length accs) < 2 ^ 32 ∧ Z.of_nat (length ixData) < 2 ^ 32 ∧ length target = 32%nat ∧
  if returns_funds txType then accs = [] ∧ ixData = [] ∧ (id = 3 ∨ id = 4) else id = 1 ∧ accs = [] ∧ ixData = [] ∨ id = 2.
Proof.
  unfold svm_mode. destruct (returns_funds txType) eqn:Hr.
  - intros H. binds. simplify_eq. destruct txType; try done; match goal with H : determineInstructionID _ = Ok _ |- _ => injection H as <- end; split_and!; auto; cbn; lia.
  - unfold decode_prefixed. destruct (hex_decode _) as [payload|] eqn:Hp; [|done]. apply hex_decode_bytes in Hp. destruct payload as [|b payload].
    + intros H. binds. simplify_eq. destruct txType; try done; match goal with H : determineInstructionID _ = Ok _ |- _ => injection H as <- end; split_and!; auto; cbn; lia.
    + intros H%wrap_res_ok. destruct (decodes_encoding _ Hp) as [[e He]|(a & ix & i & tg & Hf & He)]; [congruence|].
      rewrite He, decode_encoded in H by done. destruct Hf as (_ & Htl & Hna & Hni). revert H. unfold decoded.
      destruct (decide (i = 1)) as [->|]; [|destruct (decide (i = 2)) as [->|]; [|done]].
      * case_decide as Hc; [|done]. destruct Hc as [-> ->]. intros [= <- <- <- <-]. split_and!; auto; cbn; lia.
      * intros [= <- <- <- <-]. rewrite length_fmap. auto.
Qed.
Lemma length_flags accs : (length (accountsToWritableFlags accs) ≤ length accs)%nat.
Proof.
  unfold accountsToWritableFlags. generalize (GaIsWritable <$> accs). induction (length accs) as [|k IH]; intros fl; [cbn; lia|].
  destruct fl as [|b fl]; [cbn; lia|]. cbn [flag_bytes length]. specialize (IH (drop 8 (b :: fl))). lia.
Qed.

(** ** The instruction *)
Lemma token_read ix i (isNative : bool) mint :
  account_key ix i = Some (if isNative then gatewayAddress else mint) → mint ≠ gatewayAddress → (isNative = true → mint = zero_key) →
  token_key ix i = Some mint.
Proof. intros Hk Hm Hn. unfold token_key. rewrite Hk. cbn. destruct isNative; case_decide; try done. f_equal. symmetry. auto. Qed.
Section data.
Variables (f : SvmFields) (amount deadline : Z) (signature : list Z) (v : Z) (hash chainID : list Z).
Hypothesis Hf : fields_ok f.
Hypothesis Hamount : 0 ≤ amount < 2 ^ 64.
Hypothesis Htail : tail_ok (SfGasFee f) deadline signature v hash.

Ltac reads := repeat first [rewrite read_tail_app by done | rewrite read_vec_app by done | rewrite read_uint_app by done | rewrite read_byte by lia | rewrite read_app by done];
  cbn [mbind option_bind].
Lemma finalize_read ix id flags ixData dest :
  IxData ix = buildWithdrawAndExecuteData id (SfTxID f) (SfUniversalTxID f) amount (SfSender f) flags ixData (SfGasFee f) deadline signature v hash →
  id = 1 ∨ id = 2 → Z.of_nat (length flags) < 2 ^ 32 → Z.of_nat (length ixData) < 2 ^ 32 →
  token_key ix 11 = Some (SfMint f) → account_key ix (if decide (id = 1) then 8%nat else 7%nat) = Some dest →
  gateway_reads chainID ix =
    Some (mkTSSMessage id chainID deadline amount (SfTxID f) (SfUniversalTxID f) (SfSender f) (SfMint f) (SfGasFee f) dest
            (imap (λ i a, mkGatewayAccountMeta (AmPublicKey a) (flag_at flags i)) (drop 20 (IxAccounts ix))) ixData zero_key zero_key [],
          mkTail (SfGasFee f) deadline signature v hash).
Proof.
  destruct Hf as (H1 & H2 & H3 & H4 & H5 & H6). intros Hd Hid Hfl Hix Ht Hk. unfold gateway_reads. rewrite Hd. unfold buildWithdrawAndExecuteData.
  rewrite read_app by apply length_discriminator. cbn [mbind option_bind]. rewrite decide_True by done. unfold read_finalize.
  rewrite read_byte by lia. cbn [mbind option_bind]. do 10 reads. rewrite Ht. cbn [mbind option_bind]. by rewrite Hk.
Qed.
Lemma revert_read ix msg :
  IxData ix = buildRevertData (SfTxID f) (SfUniversalTxID f) amount (SfRecipient f) msg (SfGasFee f) deadline signature v hash →
  Z.of_nat (length msg) < 2 ^ 32 → token_key ix 10 = Some (SfMint f) →
  gateway_reads chainID ix =
    Some (mkTSSMessage 3 chainID deadline amount (SfTxID f) (SfUniversalTxID f) zero_key zero_key (SfGasFee f) zero_key [] []
            (SfRecipient f) (SfMint f) msg, mkTail (SfGasFee f) deadline signature v hash).
Proof.
  destruct Hf as (H1 & H2 & H3 & H4 & H5 & H6), discriminators as (D1 & D2 & D3). intros Hd Hm Ht. unfold gateway_reads. rewrite Hd. unfold buildRevertData.
  rewrite read_app by apply length_discriminator. cbn [mbind option_bind]. rewrite decide_False, decide_True by done. unfold read_revert.
  do 7 reads. by rewrite Ht.
Qed.
Lemma rescue_read ix :
  IxData ix = buildRescueData (SfTxID f) (SfUniversalTxID f) amount (SfGasFee f) deadline signature v hash →
  token_key ix 10 = Some (SfMint f) → account_key ix 4 = Some (SfRecipient f) →
  gateway_reads chainID ix =
    Some (mkTSSMessage 4 chainID deadline amount (SfTxID f) (SfUniversalTxID f) zero_key zero_key (SfGasFee f) zero_key [] []
            (SfRecipient f) (SfMint f) [], mkTail (SfGasFee f) deadline signature v hash).
Proof.
  destruct Hf as (H1 & H2 & H3 & H4 & H5 & H6), discriminators as (D1 & D2 & D3). intros Hd Ht Hk. unfold gateway_reads. rewrite Hd. unfold buildRescueData.
  rewrite read_app by apply length_discriminator. cbn [mbind option_bind]. rewrite decide_False, decide_False, decide_True by done. unfold read_rescue.
  do 5 reads. rewrite Ht. cbn [mbind option_bind]. by rewrite Hk.
Qed.
End data.

(** ** What is signed and what is sent *)
Section sending.
Context {E : Type} `{EV : Env E} `{KL : !KeccakLaws}.
Implicit Types (n m : Node E).

Lemma lift_res_ok {A} (r : res A) n a n' : lift_res r n = (Ok a, n') → r = Ok a ∧ n' = n.
Proof. rewrite lift_res_run. by intros [= -> ->]. Qed.
Ltac found := repeat match goal with H : lift_res _ _ = (Ok _, _) |- _ => apply lift_res_ok in H as [? ->] end.
Lemma find_pda_ok msg seeds n k n' : find_pda msg seeds n = (Ok k, n') → FindProgramAddress seeds gatewayAddress = Ok k ∧ n' = n.
Proof. unfold find_pda. intros H. run H. by apply lift_res_ok. Qed.
Lemma request_message data nonce n req n' :
  svm_GetOutboundSigningRequest data nonce n = (Ok req, n') →
  ∃ amount txType tssPDA chainID msg, svm_amount data = Ok amount ∧ parseTxType (OcTxType data) = Ok txType ∧
    FindProgramAddress [tssSeed] gatewayAddress = Ok tssPDA ∧ fetchTSSChainID tssPDA n = (Ok chainID, n') ∧
    outbound_message data amount txType chainID = Ok msg ∧ constructTSSMessage msg = Ok (ReqSigningHash req).
Proof.
  unfold svm_GetOutboundSigningRequest. intros H. run H. found.
  match goal with H : find_pda _ _ _ = _ |- _ => apply find_pda_ok in H as [Hp ->] end. eexists _, _, _, _, _. split_and!; done.
Qed.
Lemma instruction_inv data f amount id accs ixData signature v hash relayer n ix n' :
  gateway_instruction data f amount id accs ixData signature v hash relayer n = (Ok ix, n') →
  ∃ config vault tss executed feeVault cea,
    let isNative := native_asset (OcAssetAddr data) in
    ix = if decide (id = 1 ∨ id = 2)
         then mkSvmInstruction gatewayAddress
                (buildWithdrawAndExecuteAccounts relayer config vault cea tss executed (if bool_decide (id = 2) then SfRecipient f else SystemProgramID)
                   isNative id (SfRecipient f) (SfMint f) accs zero_key zero_key)
                (buildWithdrawAndExecuteData id (SfTxID f) (SfUniversalTxID f) amount (SfSender f)
                   (if bool_decide (id = 2) then accountsToWritableFlags accs else []) (if bool_decide (id = 2) then ixData else [])
                   (SfGasFee f) (OcSigningDeadline data) signature v hash)
         else mkSvmInstruction gatewayAddress
                (buildRevertAccounts config vault feeVault tss (SfRecipient f) executed relayer isNative (SfMint f))
                (if decide (id = 3)
                 then buildRevertData (SfTxID f) (SfUniversalTxID f) amount (SfRecipient f) (default [] (decode_prefixed (OcRevertMsg data)))
                        (SfGasFee f) (OcSigningDeadline data) signature v hash
                 else buildRescueData (SfTxID f) (SfUniversalTxID f) amount (SfGasFee f) (OcSigningDeadline data) signature v hash).
Proof.
  unfold gateway_instruction. intros H. run H. destruct (decide (id = 1 ∨ id = 2)).
  - run H. by eexists _, _, _, _, zero_key, _.
  - run H. by eexists _, _, _, _, _, zero_key.
Qed.
Lemma relayed what ixs blockhash key tables n tx n' :
  signed_by_relayer what ixs blockhash key tables n = (Ok tx, n') → tx = mkSvmTx ixs blockhash (PublicKeyOf key) tables.
Proof. unfold signed_by_relayer. destruct (NewTransaction _); [done|]. destruct (SignTransaction _ _); [done|]. by intros [= <- _]. Qed.
Lemma build_inv req data signature n tx id n' :
  BuildOutboundTransaction req data signature n = (Ok (tx, id), n') →
  length signature = 65%nat ∧
  ∃ amount txType f accs ixData target relayer ix n1 n2, svm_amount data = Ok amount ∧ parseTxType (OcTxType data) = Ok txType ∧
    svm_fields data = Ok f ∧ svm_mode data txType = Ok (accs, ixData, id, target) ∧ last (StxInstructions tx) = Some ix ∧
    gateway_instruction data f amount id accs ixData (take 64 signature) (default 0 (signature !! 64%nat)) (ReqSigningHash req) relayer n1 = (Ok ix, n2).
Proof.
  unfold BuildOutboundTransaction. intros H. run H. found. destruct x9 as [[[accs ixData] id'] target]. run H.
  unfold signature_parts in Hs. run Hs. match goal with H : bool_decide (length signature = _) = true |- _ => apply bool_decide_eq_true in H end. split; [done|].
  match goal with H : signed_by_relayer _ _ _ _ _ _ = _ |- _ => apply relayed in H as -> end. cbn [StxInstructions fst snd] in *.
  eexists _, _, _, _, _, _, _, _, _, _. split_and!; [done|done|done|done| |done]. by rewrite app_comm_cons, last_snoc.
Qed.
(** The message that was signed, by what the payload and the type made of it. *)
Lemma outbound_message_inv data amount txType chainID msg f accs ixData id target :
  outbound_message data amount txType chainID = Ok msg → svm_fields data = Ok f → svm_mode data txType = Ok (accs, ixData, id, target) →
  msg = if returns_funds txType
        then mkTSSMessage id chainID (OcSigningDeadline data) amount (SfTxID f) (SfUniversalTxID f) (SfSender f) (SfMint f) (SfGasFee f) zero_key [] []
               (SfRecipient f) (SfMint f) (if decide (id = 3) then default [] (decode_prefixed (OcRevertMsg data)) else [])
        else mkTSSMessage id chainID (OcSigningDeadline data) amount (SfTxID f) (SfUniversalTxID f) (SfSender f) (SfMint f) (SfGasFee f)
               (if decide (target = zero_key) then SfRecipient f else target) accs ixData zero_key zero_key [].
Proof.
  unfold outbound_message. intros H Hf Hm. rewrite Hf in H. cbn [mbind res_bind] in H. rewrite Hm in H. cbn [mbind res_bind] in H.
  destruct (returns_funds txType); [by injection H as <-|]. binds. done.
Qed.
Lemma hash_ok bz hash : Keccak256 <$> Ok bz = Ok hash → Keccak256 bz = hash.
Proof. by intros [= <-]. Qed.
Lemma other_target id chainID d amount tx utx sender token fee target target' accs ixData hash :
  id = 1 ∨ id = 2 → length target = 32%nat → length target' = 32%nat →
  constructTSSMessage (mkTSSMessage id chainID d amount tx utx sender token fee target accs ixData zero_key zero_key []) = Ok hash →
  constructTSSMessage (mkTSSMessage id chainID d amount tx utx sender token fee target' accs ixData zero_key zero_key []) = Ok hash →
  target = target'.
Proof.
  intros Hid Hl Hl'. unfold constructTSSMessage, tss_message. cbn [MInstructionID MChainID MDeadline MAmount MTxID MUniversalTxID MSender MToken MGasFee MTarget MAccounts MIxData].
  destruct Hid as [-> | ->]; [destruct (decide (1 = 1)) as [_|?]; [|done]|destruct (decide (2 = 1)) as [?|_]; [done|]; destruct (decide (2 = 2)) as [_|?]; [|done]];
    intros <-%hash_ok He%hash_ok%keccak_inj; rewrite <- !app_assoc in He; repeat apply app_inv_head in He; [done|].
  by apply length32_inj in He as [-> _].
Qed.
Lemma signature_byte signature : is_bytes signature → length signature = 65%nat → 0 ≤ default 0 (signature !! 64%nat) < 256.
Proof.
  intros Hb Hl. destruct (signature !! 64%nat) as [b|] eqn:Hs; [|cbn; lia]. exact (proj1 (Forall_lookup _ _) Hb _ _ Hs).
Qed.
Lemma signed_hash_length msg hash : constructTSSMessage msg = Ok hash → length hash = 32%nat.
Proof. unfold constructTSSMessage. destruct (tss_message msg); [|done..]. intros [= <-]. apply keccak_length. Qed.
(** What the instruction of an outbound carries. *)
Definition carried (data : OutboundCreatedEvent) (f : SvmFields) (amount : Z) (chainID : list Z) (id : Z) (accs : list GatewayAccountMeta) (ixData : list Z) : TSSMessage :=
  if decide (id = 1 ∨ id = 2)
  then mkTSSMessage id chainID (OcSigningDeadline data) amount (SfTxID f) (SfUniversalTxID f) (SfSender f) (SfMint f) (SfGasFee f) (SfRecipient f)
         accs ixData zero_key zero_key []
  else mkTSSMessage id chainID (OcSigningDeadline data) amount (SfTxID f) (SfUniversalTxID f) zero_key zero_key (SfGasFee f) zero_key [] []
         (SfRecipient f) (SfMint f) (if decide (id = 3) then default [] (decode_prefixed (OcRevertMsg data)) else []).
Lemma instruction_read data f amount id accs ixData signature v hash relayer n ix n' chainID :
  gateway_instruction data f amount id accs ixData signature v hash relayer n = (Ok ix, n') →
  fields_ok f → 0 ≤ amount < 2 ^ 64 → tail_ok (SfGasFee f) (OcSigningDeadline data) signature v hash →
  SfMint f ≠ gatewayAddress → (native_asset (OcAssetAddr data) = true → SfMint f = zero_key) →
  Z.of_nat (length accs) < 2 ^ 32 → Z.of_nat (length ixData) < 2 ^ 32 →
  Z.of_nat (length (default [] (decode_prefixed (OcRevertMsg data)))) < 2 ^ 32 →
  (id = 1 ∧ accs = [] ∧ ixData = [] ∨ id = 2) ∨ id = 3 ∨ id = 4 →
  IxProgram ix = gatewayAddress ∧
  gateway_reads chainID ix = Some (carried data f amount chainID id accs ixData, mkTail (SfGasFee f) (OcSigningDeadline data) signature v hash).
Proof.
  intros (config & vault & tss & executed & feeVault & cea & ->)%instruction_inv Hf Ha Ht Hgw Hnat Hna Hni Hrm Hid. cbv zeta. unfold carried.
  destruct Hid as [Hid|Hid].
  - rewrite !decide_True by naive_solver. split; [done|].
    match goal with |- context [mkSvmInstruction _ (buildWithdrawAndExecuteAccounts ?a ?b ?c ?d ?e ?g ?h ?i ?j ?k ?l ?m ?o ?p) _] =>
      destruct (finalize_accounts a b c d e g h i j k l m o p) as (H7 & H8 & H11 & Hd) end.
    destruct Hid as [(-> & -> & ->)| ->].
    + erewrite finalize_read; [|done|done|done|done|by left|done|done|by eapply token_read; [exact H11|..]|exact H8]. cbn [IxAccounts]. rewrite Hd. done.
    + rewrite bool_decide_eq_true_2 in * by done.
      erewrite finalize_read; [|done|done|done|done|by right| |done|by eapply token_read; [exact H11|..]|exact H7].
      * cbn [IxAccounts]. rewrite Hd. rewrite decide_True by done. by rewrite exec_accounts_read.
      * pose proof (length_flags accs). lia.
  - rewrite !(decide_False (P := (id = 1 ∨ id = 2))) by lia. split; [done|].
    match goal with |- context [mkSvmInstruction _ (buildRevertAccounts ?a ?b ?c ?d ?e ?g ?h ?i ?j) _] =>
      destruct (revert_accounts a b c d e g h i j) as (H4 & H10) end.
    destruct Hid as [-> | ->].
    + erewrite revert_read; [|done|done|done|done|done|by eapply token_read; [exact H10|..]]. done.
    + erewrite rescue_read; [|done|done|done|done|by eapply token_read; [exact H10|..]|exact H4]. done.
Qed.
(** C6. What is sent is what was signed, if the payload does not name another target.  From
    the transaction that carries a signature for an outbound, the gateway reads back the
    signature, the hash that was signed, and a message.  The message has the hash when
    funds are returned, and otherwise when the target of the payload is absent or is the
    recipient of the outbound: the recipient is what the accounts name, the target is what
    was signed. *)
Theorem svm_sent_is_signed data nonce n req n' req' signature m tx id m' f txType accs ixData target :
  svm_GetOutboundSigningRequest data nonce n = (Ok req, n') → BuildOutboundTransaction req' data signature m = (Ok (tx, id), m') →
  ReqSigningHash req' = ReqSigningHash req → svm_fields data = Ok f → parseTxType (OcTxType data) = Ok txType →
  svm_mode data txType = Ok (accs, ixData, id, target) → SfMint f ≠ gatewayAddress → is_i64 (OcSigningDeadline data) → is_bytes signature →
  Z.of_nat (length (default [] (decode_prefixed (OcRevertMsg data)))) < 2 ^ 32 →
  ∃ ix tssPDA chainID msg t, last (StxInstructions tx) = Some ix ∧ IxProgram ix = gatewayAddress ∧
    FindProgramAddress [tssSeed] gatewayAddress = Ok tssPDA ∧ fetchTSSChainID tssPDA n = (Ok chainID, n') ∧
    gateway_reads chainID ix = Some (msg, t) ∧ TlSignature t = take 64 signature ∧ signature !! 64%nat = Some (TlV t) ∧
    TlHash t = ReqSigningHash req ∧
    (constructTSSMessage msg = Ok (ReqSigningHash req) ↔ returns_funds txType = true ∨ target = zero_key ∨ target = SfRecipient f).
Proof.
  intros Hreq Hb Hh Hf Hty Hmode Hgw Hdl Hsig Hrm. destruct (request_message _ _ _ _ _ Hreq) as (amount & ty & tss & chainID & msg0 & Ha & Hty' & Htss & Hc & Hmsg & Hhash).
  destruct (build_inv _ _ _ _ _ _ _ Hb) as (Hls & amount' & ty' & f' & accs' & ix' & tg' & relayer & ix & n1 & n2 & Ha' & Hty'' & Hf' & Hmode' & Hlast & Hix).
  rewrite Hty in Hty', Hty''. injection Hty' as <-. injection Hty'' as <-. rewrite Hf in Hf'. injection Hf' as <-.
  rewrite Hmode in Hmode'. injection Hmode' as <- <- <-. rewrite Ha in Ha'. injection Ha' as <-.
  rewrite (outbound_message_inv _ _ _ _ _ _ _ _ _ _ Hmsg Hf Hmode) in Hhash. clear Hmsg msg0.
  destruct (svm_fields_ok _ _ Hf) as [Hfok Hnat], (svm_mode_ok _ _ _ _ _ _ Hmode) as (Hna & Hni & Hlt & Hid).
  assert (0 ≤ amount < 2 ^ 64) as Ham by (revert Ha; unfold svm_amount; intros H; binds; done).
  pose proof (signature_byte _ Hsig Hls) as Hv. rewrite Hh in Hix.
  assert (tail_ok (SfGasFee f) (OcSigningDeadline data) (take 64 signature) (default 0 (signature !! 64%nat)) (ReqSigningHash req)) as Htail.
  { refine (conj _ (conj Hdl (conj _ (conj Hv _)))); [apply Hfok|rewrite length_take; lia|by eapply signed_hash_length]. }
  assert (signature !! 64%nat = Some (default 0 (signature !! 64%nat))) as Hsv.
  { destruct (signature !! 64%nat) eqn:He; [done|]. apply lookup_ge_None in He. lia. }
  destruct (instruction_read data f amount id accs ixData _ _ _ relayer n1 ix n2 chainID Hix Hfok Ham Htail) as [Hprog Hread]; [done..|by destruct (returns_funds txType); naive_solver|].
  eexists ix, tss, chainID, _, _. split_and!; [done|done|done|done|exact Hread|done|done|done|]. unfold carried. destruct (returns_funds txType).
  - destruct Hid as (-> & -> & Hid). split; [by left|intros _]. rewrite <- Hhash. by destruct Hid as [-> | ->].
  - assert (id = 1 ∨ id = 2) as Hid' by naive_solver. rewrite decide_True by done. split.
    + intros Hc'. right. destruct (decide (target = zero_key)) as [|Hz]; [by left|right].
      refine (other_target _ _ _ _ _ _ _ _ _ _ _ _ _ _ Hid' _ _ Hhash Hc'); [done|apply Hfok].
    + intros [?|[-> | ->]]; [done| |].
      * by rewrite decide_True in Hhash by done.
      * by destruct (decide (SfRecipient f = zero_key)).
Qed.
End sending.
End sent.
