(* ===== verification/UcCoordSpec.v ===== *)
(** * The universal client: the coordinator

    Whose turn it is, whom it invites, which nonces it gives, and when a session starts. *)
From S2P Require Import Prelude GoStrings UvTypes TssTypes UxTypes RegTypes World Canonical Utss.
From S2P Require Import UcStore UcCoord UcSession UcLogic.
Import Uc.

(** ** Turns *)
(** The coordinators take turns: over the participants (the active validators, or all
    of them when none is active), each is the coordinator for [range] consecutive blocks,
    in order, round after round. *)
Theorem coordinator_rotates l range round i v block :
  0 < range → 0 ≤ round → getCoordinatorParticipants l !! i = Some v →
  let turn := round * Z.of_nat (length (getCoordinatorParticipants l)) + Z.of_nat i in
  turn * range ≤ block < (turn + 1) * range → coordinatorAddressForBlock l range block = Ok (addr_of v).
Proof.
  intros Hr Hround Hi turn Hb. unfold coordinatorAddressForBlock. pose proof (lookup_lt_Some _ _ _ Hi) as Hlen.
  revert Hi Hlen turn Hb. generalize (getCoordinatorParticipants l). intros ps Hi Hlen turn Hb.
  assert (block / range = turn) as -> by (symmetry; apply Z.div_unique_pos with (block - turn * range); nia).
  destruct ps as [|v0 ps]; [done|]. rewrite decide_False by lia.
  assert (turn mod Z.of_nat (length (v0 :: ps)) = Z.of_nat i) as ->
    by (unfold turn; rewrite Z.add_comm, Z.mod_add, Z.mod_small by lia; lia).
  by rewrite Nat2Z.id, Hi.
Qed.

(** ** Thresholds *)
Lemma CalculateThreshold_bounds k : 0 < k → 2 * k < 3 * CalculateThreshold k ∧ 0 < CalculateThreshold k ≤ k.
Proof.
  intros Hk. unfold CalculateThreshold. rewrite decide_False by lia. pose proof (Z.div_mod (2 * k) 3) as Hd.
  pose proof (Z.mod_pos_bound (2 * k) 3). case_decide; lia.
Qed.

Section invitations.
Context {E : Type} `{EV : Env E, CF : ClientConfig, CR : Crypto, SO : SortSlice, SL : !SortSliceLaws}.
Implicit Types (n : Node E) (v : UV.UniversalValidator) (l : list UV.UniversalValidator).

(** ** Invitations *)
Lemma swap_perm {A} (l : list A) i j : swap l i j ≡ₚ l.
Proof.
  unfold swap. destruct (l !! i) as [a|] eqn:Hi; [|done]. destruct (l !! j) as [b|] eqn:Hj; [|done].
  destruct (decide (i = j)) as [->|Hne].
  - rewrite Hi in Hj. injection Hj as <-. by rewrite list_insert_insert_eq, list_insert_id.
  - rewrite list_insert_insert_ne by done. by apply Permutation_insert_swap.
Qed.
Lemma shuffle_run {A} i (l : list A) n : ∃ (l' : list A) n', shuffle i l n = (Ok l', n') ∧ l' ≡ₚ l.
Proof.
  revert l n. induction i as [|i IH]; intros l n; cbn [shuffle]; [by eexists _, _|]. rewrite bind_unfold. unfold rpc.
  destruct (answer _ (env n)) as [j e].
  match goal with |- context [shuffle i ?l1 ?n1] => destruct (IH l1 n1) as (l' & n' & -> & Hl') end.
  eexists _, _. split; [reflexivity|]. by rewrite Hl', swap_perm.
Qed.
(** More than two thirds of the eligible, each at most once. *)
Lemma selectRandomThreshold_run l n :
  ∃ l' n', selectRandomThreshold l n = (Ok l', n') ∧ l' ⊆+ l ∧
    Z.of_nat (length l') = Z.min (Z.of_nat (length l)) (CalculateThreshold (Z.of_nat (length l))).
Proof.
  unfold selectRandomThreshold. case_decide as Hd; [eexists _, _; split_and!; [reflexivity|done|lia]|].
  rewrite bind_unfold. destruct (shuffle_run (length l - 1) l n) as (l' & n' & -> & Hl'). eexists _, _. split; [reflexivity|].
  assert (l ≠ []) as Hne by (intros ->; cbn in Hd; unfold CalculateThreshold in Hd; rewrite decide_True in Hd by lia; lia).
  destruct (CalculateThreshold_bounds (Z.of_nat (length l))) as [_ Hb]. { destruct l; [done|cbn; lia]. }
  split; [|rewrite length_take, Hl'; lia]. transitivity l'; [apply sublist_submseteq, sublist_take|by apply Permutation_submseteq].
Qed.
Definition identified l : Prop := ∀ v, v ∈ l → is_Some (UV.IdentifyInfo v).
Lemma eligible_addresses_all l : identified l → eligible_addresses l = addr_of <$> l.
Proof.
  intros Hl. unfold eligible_addresses. induction l as [|v l IH]; [done|]. cbn.
  destruct (Hl v (list_elem_of_here _ _)) as [id Hid]. rewrite Hid. cbn. unfold addr_of at 1. rewrite Hid. cbn. f_equal.
  apply IH. intros x Hx. apply Hl. by right.
Qed.
Lemma invitees_run ty l n :
  ∃ l' n', invitees ty l n = (Ok l', n') ∧ l' ⊆+ getEligibleForProtocol ty l ∧
    if is_sign ty then
      Z.of_nat (length l') = Z.min (Z.of_nat (length (getEligibleForProtocol ty l)))
        (CalculateThreshold (Z.of_nat (length (getEligibleForProtocol ty l))))
    else l' = getEligibleForProtocol ty l.
Proof.
  unfold invitees, getSignParticipants. destruct (is_sign ty) eqn:Hs; [|by eexists _, _].
  replace (getEligibleForProtocol ty l) with (getSignEligible l) by (by destruct ty). apply selectRandomThreshold_run.
Qed.
(** An invitation of the coordinator is accepted.  The choice of participants always
    succeeds; each is eligible and at most once in it, all of the eligible for a key
    process and more than two thirds for a signature; and every client that has the same
    validators in its cache finds the list of their addresses valid. *)
Theorem invitation_accepted ev l n n2 :
  getEligibleForProtocol (EvType ev) l ≠ [] → identified l → (validatorsSnapshot n2).1 = Ok l →
  (∃ invited n', invitees (EvType ev) l n = (Ok invited, n') ∧ invited ⊆+ getEligibleForProtocol (EvType ev) l ∧
     2 * Z.of_nat (length (getEligibleForProtocol (EvType ev) l)) < 3 * Z.of_nat (length invited) ∧
     (is_sign (EvType ev) = false → invited = getEligibleForProtocol (EvType ev) l) ∧
     (validateParticipants (addr_of <$> sort_Slice (λ a b, String.ltb (addr_of a) (addr_of b)) invited) ev n2).1 = Ok tt).
Proof.
  intros Hne Hid Hsnap. set (el := getEligibleForProtocol (EvType ev) l) in *.
  destruct (invitees_run (EvType ev) l n) as (inv & n' & Hrun & Hsub & Hlen). fold el in Hsub, Hlen.
  assert (0 < Z.of_nat (length el)) as Hpos by (destruct el; [done|cbn; lia]).
  destruct (CalculateThreshold_bounds _ Hpos) as [Hb1 Hb2].
  exists inv, n'. split_and!; [done|done| |by intros Hs; rewrite Hs in Hlen|].
  { destruct (is_sign (EvType ev)); [lia|rewrite Hlen; lia]. }
  assert (eligible_addresses el = addr_of <$> el) as Hel.
  { apply eligible_addresses_all. intros v Hv. apply Hid. revert Hv. unfold el, getEligibleForProtocol, getQuorumChangeParticipants, getSignEligible.
    destruct (EvType ev); try (by intros ?%not_elem_of_nil); rewrite !list_elem_of_In, filter_In; tauto. }
  set (parties := addr_of <$> sort_Slice _ inv).
  assert (parties ≡ₚ addr_of <$> inv) as Hperm by (apply fmap_Permutation, sort_Slice_perm).
  assert (length parties = length inv) as Hpl by (by rewrite Hperm, length_fmap).
  assert (Forall (.∈ addr_of <$> el) parties) as Hin.
  { apply Forall_forall. intros a Ha. rewrite Hperm in Ha. apply list_elem_of_fmap in Ha as (v & -> & Hv).
    apply list_elem_of_fmap_2. by eapply elem_of_submseteq. }
  unfold validateParticipants, GetEligibleUV. rewrite !bind_unfold. destruct (validatorsSnapshot n2) as [r n3]. cbn in Hsnap. subst r.
  cbn. fold el. rewrite Hel, (bool_decide_false (el = [])), (bool_decide_true _ Hin), length_fmap by done. cbn.
  destruct (EvType ev); cbn in Hlen |- *; subst; try done.
  all: try (rewrite (bool_decide_true (length parties = _)) by done; rewrite (bool_decide_true (Forall _ _));
            [reflexivity|apply Forall_forall; intros a Ha; by rewrite Hperm]).
  all: rewrite (bool_decide_true (CalculateThreshold _ ≤ _)); [reflexivity|unfold el in *; cbn in *; lia].
Qed.
End invitations.

Section acks.
Context {E : Type} `{EV : Env E, CF : ClientConfig, CR : Crypto, SO : SortSlice}.
Implicit Types (n : Node E) (t : list Logged).

(** ** Acknowledgements *)
(** The directory of peers: the validator behind a peer, in the list [l]. *)
Definition party_in (l : list UV.UniversalValidator) (peer : string) : option string := head (omap (party_of peer) l).
(** The count is that of the peers that acknowledged, each of them a participant. *)
Definition acks_ok (l : list UV.UniversalValidator) n : Prop :=
  ∀ id st, ackTracking (coord n) !! id = Some st →
    ackCount st = Z.of_nat (size (ackedBy st)) ∧
    ∀ peer, peer ∈ ackedBy st → ∃ party, party_in l peer = Some party ∧ party ∈ ackParticipants st.
Definition sent t : Prop := ∃ peer msg r, Send peer msg ⟹ r ∈ t.

Lemma all_acked l (acked : gset string) (parties : list string) :
  (∀ p q x, party_in l p = Some x → party_in l q = Some x → p = q) →
  (∀ peer, peer ∈ acked → ∃ party, party_in l peer = Some party ∧ party ∈ parties) →
  size acked = length parties → ∀ party, party ∈ parties → ∃ peer, peer ∈ acked ∧ party_in l peer = Some party.
Proof.
  intros Hinj Hin Hsize. set (L := omap (party_in l) (elements acked)).
  assert (length L = length parties ∧ NoDup L ∧ ∀ x, x ∈ L ↔ ∃ peer, peer ∈ acked ∧ party_in l peer = Some x) as (Hlen & Hnd & HL).
  { rewrite <- Hsize. unfold size, set_size. cbn. unfold L.
    assert (∀ ps, NoDup ps → (∀ p, p ∈ ps → is_Some (party_in l p)) →
      length (omap (party_in l) ps) = length ps ∧ NoDup (omap (party_in l) ps)) as Hps.
    { induction ps as [|p ps IH]; intros Hnd Hs; [by split; [|constructor]|]. apply NoDup_cons in Hnd as [Hp Hnd].
      destruct (Hs p (list_elem_of_here _ _)) as [x Hx]. cbn. rewrite Hx. cbn.
      destruct IH as [IH1 IH2]; [done|intros; apply Hs; by right|]. split; [by rewrite IH1|]. apply NoDup_cons. split; [|done].
      intros (q & Hq & Hqx)%list_elem_of_omap. apply Hp. by rewrite (Hinj p q x). }
    destruct (Hps (elements acked)) as [H1 H2]; [apply NoDup_elements| |].
    { intros p Hp%elem_of_elements. destruct (Hin p Hp) as (x & Hx & _). eauto. }
    split_and!; [done|done|]. intros x. rewrite list_elem_of_omap. by setoid_rewrite elem_of_elements. }
  intros party Hp. apply HL. apply list_elem_of_In. apply (NoDup_length_incl (l:=L) (l':=parties)).
  - by apply NoDup_ListNoDup.
  - lia.
  - intros x Hx. apply list_elem_of_In, HL in Hx as (peer & Hpe & Hx). destruct (Hin peer Hpe) as (y & Hy & Hyp).
    apply list_elem_of_In. congruence.
  - by apply list_elem_of_In.
Qed.
Lemma GetPartyIDFromPeerID_reads peer v :
  reads (E:=E) (GetPartyIDFromPeerID peer) v [] (λ _ t' r, ¬ sent t' ∧ (∀ e, r ≠ Panic e) ∧ ∀ a, r = Ok a → party_in v peer = Some a).
Proof.
  unfold GetPartyIDFromPeerID, sent, party_in. reading; facts; split_and!; try discriminate; try (intros ? [= <-]; done).
  all: intros (p & m & r & Hin); repeat (apply elem_of_cons in Hin as [Hin|Hin]; [by inversion Hin|]); by apply not_elem_of_nil in Hin.
Qed.
Lemma validateIncomingRequest_run peer id n :
  ∃ verdict n1 t, validateIncomingRequest id peer n = (Ok verdict, n1) ∧ undisturbed n n1 ∧ trace n1 = t ++ trace n ∧ ¬ sent t ∧
    (verdict = AckProcess → ∃ st party, ackTracking (coord n) !! id = Some st ∧
       party_in (allValidators (coord n)) peer = Some party ∧ party ∈ ackParticipants st).
Proof.
  assert (¬ sent []) as Hno by (intros (p & m & r & Hin); by apply not_elem_of_nil in Hin).
  unfold validateIncomingRequest. rewrite bind_unfold, gets_run.
  destruct (ackTracking (coord n) !! id) as [st|]; [|by exists AckSkip, n, []]. case_decide; [by exists AckSkip, n, []|].
  rewrite bind_unfold. unfold attempt.
  destruct (reads_run _ _ _ (GetPartyIDFromPeerID_reads peer (allValidators (coord n)))) as (r & n1 & t & -> & Hu & Ht & Hs & Hnp & Hp).
  destruct r as [party|e|e].
  - case_decide; [|by eexists _, n1, t]. eexists _, n1, t. split_and!; [reflexivity|done..|]. case_decide; [done|]. intros _.
    exists st, party. auto.
  - by eexists _, n1, t.
  - by destruct (Hnp e).
Qed.
Lemma send_begin_reads id ps v : reads (E:=E) (send_begin id ps) v [] (λ _ _ r, r = Ok tt).
Proof.
  apply (reads_for_each _ _ _ _ (λ _ _, True)); [done| |done]. intros x v' t' _ _. unfold GetPeerIDFromPartyID.
  reading; (split; [done|]); naive_solver.
Qed.
Lemma acks_ok_with l n n' : ackTracking (coord n') = ackTracking (coord n) → acks_ok l n → acks_ok l n'.
Proof. unfold acks_ok. by intros ->. Qed.
(** A session starts only when every participant agreed to it.  On a node whose count
    of acknowledgements is right, and with a directory in which no two peers are the same
    validator, an acknowledgement keeps the count right, and the coordinator sends out the
    start of the session only if each participant has acknowledged; it then forgets the
    session. *)
Theorem begin_needs_every_ack peer id n :
  acks_ok (allValidators (coord n)) n →
  (∀ p q x, party_in (allValidators (coord n)) p = Some x → party_in (allValidators (coord n)) q = Some x → p = q) →
  ∃ t, trace (handleUnsignedAck peer id n).2 = t ++ trace n ∧
    acks_ok (allValidators (coord n)) (handleUnsignedAck peer id n).2 ∧
    (sent t → ∃ st, ackTracking (coord n) !! id = Some st ∧
       ackTracking (coord (handleUnsignedAck peer id n).2) !! id = None ∧
       ∀ party, party ∈ ackParticipants st →
         ∃ p, (p = peer ∨ p ∈ ackedBy st) ∧ party_in (allValidators (coord n)) p = Some party).
Proof.
  intros Hok Hinj. set (l := allValidators (coord n)) in *. unfold handleUnsignedAck, on_ack.
  destruct (validateIncomingRequest_run peer id n) as (verdict & n1 & t & Hrun & (_ & _ & Ha) & Ht & Hs & Hv).
  rewrite bind_unfold, Hrun. destruct verdict as [| |e]; [|exists t; split_and!; [done|by eapply acks_ok_with|done]..].
  destruct (Hv eq_refl) as (st & party & Hst & Hparty & Hin). rewrite bind_unfold, gets_run, Ha, Hst.
  case_decide as Hdup; [exists t; split_and!; [done|by eapply acks_ok_with|done]|].
  destruct (Hok _ _ Hst) as [Hcount Hacked].
  set (st' := mkAckState (ackParticipants st) ({[ peer ]} ∪ ackedBy st) (ackCount st + 1)).
  assert (ackCount st' = Z.of_nat (size (ackedBy st')) ∧
    ∀ p, p ∈ ackedBy st' → ∃ x, party_in l p = Some x ∧ x ∈ ackParticipants st) as [Hc' Ha'].
  { cbn. split; [rewrite size_union, size_singleton by set_solver; lia|]. intros p [->%elem_of_singleton|Hp]%elem_of_union; eauto. }
  unfold set_coord. rewrite bind_unfold, modify_run. set (n2 := n1 <| coord ::= _ |>).
  assert (trace n2 = t ++ trace n) as Ht2 by done.
  assert (ackTracking (coord n2) = <[ id := st' ]> (ackTracking (coord n))) as Ha2 by (cbn -[insert]; by rewrite Ha).
  case_decide as Hall.
  - rewrite bind_unfold. destruct (reads_run _ n2 _ (send_begin_reads id (ackParticipants st) _)) as (r & n3 & t3 & -> & (_ & _ & Ha3) & Ht3 & ->).
    assert (ackTracking (coord (CancelTracking id n3).2) = delete id (ackTracking (coord n))) as Hfin.
    { change (delete id (ackTracking (coord n3)) = delete id (ackTracking (coord n))). by rewrite Ha3, Ha2, delete_insert_eq. }
    exists (t3 ++ t). split_and!.
    + change (trace n3 = (t3 ++ t) ++ trace n). by rewrite Ht3, Ht2, app_assoc.
    + intros i x. rewrite Hfin. intros [_ Hx]%lookup_delete_Some. exact (Hok _ _ Hx).
    + intros _. exists st. rewrite Hfin. split_and!; [done|by rewrite lookup_delete_eq|]. intros x Hx.
      destruct (all_acked l (ackedBy st') (ackParticipants st) Hinj Ha') with x as (p & Hp & Hpx); [lia|done|].
      exists p. split; [set_solver|done].
  - exists t. cbn -[insert]. split_and!; [done| |done]. intros i x. rewrite Ha2. intros [[<- <-]|[_ Hx]]%lookup_insert_Some; [done|exact (Hok _ _ Hx)].
Qed.
End acks.
