(* ===== verification/UcSessionSpec.v ===== *)
(** * The universal client: what a message can do to a row

    Messages come from peers that may be faulty.  A message moves a row only in the
    ways of [row_change]: an invitation of the coordinator opens a session on a
    confirmed event; a signature is stored only when it verifies for this very event,
    or comes out of the client's own session; a key session ends its event. *)
From S2P Require Import Prelude GoStrings UvTypes TssTypes UxTypes RegTypes World Canonical Utss.
From S2P Require Import UcStore UcCoord UcSession UcLogic UcCoordSpec.
Import Uc.

Section signatures.
Context {E : Type} `{EV : Env E, CF : ClientConfig, CR : Crypto, SO : SortSlice}.
Implicit Types (n : Node E) (ev : Event) (t : list Logged).

(** ** Signatures *)
(** The signature is one of [hash] under the public key [pub]. *)
Definition ecdsa_signed (pub : string) (hash signature : list Z) : Prop :=
  length hash = 32%nat ∧ (length signature = 64%nat ∨ length signature = 65%nat) ∧
  ∃ bz point, pubkey_bytes pub = Some bz ∧ length bz = 33%nat ∧ DecompressPubkey bz = Some point ∧
    ecdsa_Verify point hash (SetBytes (take 32 signature)) (SetBytes (take 32 (drop 32 signature))) = true.
Lemma verifyECDSASignature_ok pub hash signature :
  verifyECDSASignature pub hash signature = Ok tt ↔ ecdsa_signed pub hash signature.
Proof.
  unfold verifyECDSASignature, ecdsa_signed, check. split.
  - intros H. destruct (pubkey_bytes pub) as [bz|]; cbn in H; repeat (case_bool_decide; cbn in H; try discriminate);
      destruct (DecompressPubkey bz) as [pt|] eqn:Hd; try discriminate;
      destruct (ecdsa_Verify _ _ _ _) eqn:He; try discriminate; eauto 12.
  - intros (H1 & H2 & bz & pt & -> & H3 & Hd & He). rewrite H1, H3, Hd, He. by destruct H2 as [->| ->].
Qed.

(** The hash is that of the transaction the event asks for, built by the chain's own
    builder with the announced nonce (and, for a migration, amount). *)
Definition rebuilt t ev (nonce : Z) (amount : option Z) (hash : list Z) : Prop :=
  ∃ d req, EventData ev = Some d ∧ ReqSigningHash req = hash ∧
  match EvType ev with
  | EventTypeSignOutbound =>
      GetOutboundSigningRequest (OcDestinationChain (AsOutbound d)) (AsOutbound d) nonce ⟹ Ok req ∈ t
  | EventTypeSignFundMigrate =>
      ∃ a from to, amount = Some a ∧ 0 < a ∧
        DeriveEVMAddressFromPubkey (FmOldTssPubkey (AsMigration d)) = Ok from ∧
        DeriveEVMAddressFromPubkey (FmCurrentTssPubkey (AsMigration d)) = Ok to ∧
        GetFundMigrationSigningRequest (FmChain (AsMigration d))
          (migration_data (AsMigration d) from to (Some (claimed_balance (AsMigration d) a))) nonce ⟹ Ok req ∈ t
  | _ => False
  end.
(** The key that must sign: the current one, or the retired one for a migration. *)
Definition signing_key t ev (pub : string) : Prop :=
  match EvType ev with
  | EventTypeSignOutbound => ∃ key, GetCurrentKey ⟹ Ok (Some key) ∈ t ∧ Tss.TssPubkey key = pub
  | EventTypeSignFundMigrate => ∃ d, EventData ev = Some d ∧ FmOldTssPubkey (AsMigration d) = pub
  | _ => False
  end.
Definition verified t ev (sd : SignedDataPayload) : Prop :=
  rebuilt t ev (SpNonce sd) (SpAmount sd) (SdSigningHash sd) ∧
  ∃ pub, pub ≠ "" ∧ signing_key t ev pub ∧ ecdsa_signed pub (SdSigningHash sd) (SdSignature sd).

Lemma rebuilt_mono t t' ev nonce amount hash :
  t ⊆ t' → rebuilt t ev nonce amount hash → rebuilt t' ev nonce amount hash.
Proof.
  intros Ht (d & req & Hd & Hh & H). exists d, req. split_and!; [done..|].
  destruct (EvType ev); try done; [by apply Ht|]. destruct H as (a & x & y & ? & ? & ? & ? & H). exists a, x, y. auto 6.
Qed.
Lemma signing_key_mono t t' ev pub : t ⊆ t' → signing_key t ev pub → signing_key t' ev pub.
Proof. unfold signing_key. intros Ht. destruct (EvType ev); try done. intros (key & H & ?). eauto. Qed.
Lemma verified_mono t t' ev sd : t ⊆ t' → verified t ev sd → verified t' ev sd.
Proof.
  intros Ht [Hr (pub & Hne & Hk & He)]. split; [by eapply rebuilt_mono|]. exists pub. split_and!; [done| |done].
  by eapply signing_key_mono.
Qed.

Lemma rebuildSigningHash_reads ev nonce amount v t :
  reads (E:=E) (rebuildSigningHash ev nonce amount) v t (λ _ t' r,
    t ⊆ t' ∧ ∀ hash, r = Ok hash → rebuilt t' ev nonce amount hash).
Proof.
  unfold rebuildSigningHash, buildSignTransaction, buildFundMigrationTransaction, rebuilt.
  reading; simplify_eq; (split; [grown|]); try discriminate; intros hash [= <-].
  - eexists _, _. split_and!; [eassumption|reflexivity|told].
  - facts. eexists _, _. split_and!; [eassumption|reflexivity|].
    eexists _, _, _. split_and!; [reflexivity|assumption|eassumption..|told].
Qed.
Lemma verifyingPubkey_reads ev v t :
  reads (E:=E) (verifyingPubkey ev) v t (λ _ t' r, t ⊆ t' ∧ ∀ pub, r = Ok pub → pub ≠ "" ∧ signing_key t' ev pub).
Proof.
  unfold verifyingPubkey, GetCurrentTSSKey, signing_key.
  reading; facts; (split; [grown|]); try discriminate; intros pub [= <-]; (split; [done|]); eauto.
  match goal with a : option Tss.TssKey |- _ => destruct a as [key|] end; [|done]. exists key. split; [told|reflexivity].
Qed.
Lemma VerifySignedData_reads ev osd v t :
  reads (E:=E) (VerifySignedData ev osd) v t (λ _ t' r, t ⊆ t' ∧ (r = Ok tt → ∃ sd, osd = Some sd ∧ verified t' ev sd)).
Proof.
  unfold VerifySignedData. reading; facts; try (split; [grown|discriminate]).
  eapply reads_mono; [apply rebuildSigningHash_reads|]. intros v1 t1 [hash|e|e] [Ht1 Hr]; cbn [wrap_res];
    try (split; [grown|discriminate]). specialize (Hr hash eq_refl).
  reading; facts; try (split; [grown|discriminate]).
  eapply reads_mono; [apply verifyingPubkey_reads|]. intros v2 t2 [pub|e|e] [Ht2 Hp]; cbn [wrap_res];
    try (split; [grown|discriminate]). destruct (Hp pub eq_refl) as [Hne Hk]. reading.
  split; [set_solver|]. intros Hv. facts. eexists. split; [done|]. split; [|].
  - by eapply rebuilt_mono.
  - exists pub. split_and!; [done|done|]. apply verifyECDSASignature_ok. by facts.
Qed.
End signatures.

(** ** What the client asks of an invitation *)
Section invitations.
Context {E : Type} `{EV : Env E, CF : ClientConfig, CR : Crypto, SO : SortSlice}.
Implicit Types (n : Node E) (ev : Event) (t : list Logged) (v : list UV.UniversalValidator).

Definition peer_id (w : UV.UniversalValidator) : option string := UV.PeerId <$> UV.NetworkInfoOf w.
Definition address (w : UV.UniversalValidator) : option string := UV.CoreValidatorAddress <$> UV.IdentifyInfo w.
(** The rotation: each of the active validators in turn (of all, while none is active), for
    [coordinatorRange] blocks. *)
Definition turn_of v (block : Z) (addr : string) : Prop :=
  let active := List.filter (λ w, bool_decide (UV.CurrentStatus <$> UV.LifecycleInfoOf w = Some UV.UV_STATUS_ACTIVE)) v in
  let candidates := if decide (active = []) then v else active in
  ∃ w, candidates !! Z.to_nat ((block / coordinatorRange) mod Z.of_nat (length candidates)) = Some w ∧ address w = Some addr.
(** The peer is a validator whose turn it is at a block the client was told. *)
Definition coordinates v t (peer : string) : Prop :=
  ∃ block w addr, GetLatestBlock ⟹ Ok block ∈ t ∧ w ∈ v ∧ peer_id w = Some peer ∧ address w = Some addr ∧ addr ≠ "" ∧ turn_of v block addr.
(** The client could not check the request: it has no builder for the chain. *)
Definition unbuilt t (chain : string) : Prop := has_chains = false ∨ ∃ r, GetTxBuilder chain ⟹ r ∈ t ∧ r ≠ Ok tt.
(** The request is the one that the client's own builder gives for the event. *)
Definition own_view t ev (req : UnsignedSigningReq) : Prop :=
  ∃ d ours, EventData ev = Some d ∧ ReqSigningHash ours = ReqSigningHash req ∧
  match EvType ev with
  | EventTypeSignOutbound =>
      GetOutboundSigningRequest (OcDestinationChain (AsOutbound d)) (AsOutbound d) (ReqNonce req) ⟹ Ok ours ∈ t
  | EventTypeSignFundMigrate =>
      ∃ from to, ReqAmount ours = ReqAmount req ∧ is_Some (ReqAmount req) ∧
        DeriveEVMAddressFromPubkey (FmOldTssPubkey (AsMigration d)) = Ok from ∧
        DeriveEVMAddressFromPubkey (FmCurrentTssPubkey (AsMigration d)) = Ok to ∧
        GetFundMigrationSigningRequest (FmChain (AsMigration d)) (migration_data (AsMigration d) from to None) (ReqNonce req) ⟹ Ok ours ∈ t
  | _ => False
  end.
Definition chain_of (ty : EventType) (d : Payload) : string :=
  match ty with EventTypeSignFundMigrate => FmChain (AsMigration d) | _ => OcDestinationChain (AsOutbound d) end.
Definition requested t ev (req : option UnsignedSigningReq) : Prop :=
  is_sign (EvType ev) = true → ∃ r d, req = Some r ∧ EventData ev = Some d ∧ (unbuilt t (chain_of (EvType ev) d) ∨ own_view t ev r).
(** The threshold protocol was started for the event, over the hash of the request. *)
Definition started t ev (msg : Message) : Prop :=
  is_sign (EvType ev) = true → ∃ req share, MsgSigningReq msg = Some req ∧
    NewSignSession (MsgPayload msg) (MsgEventID msg) (MsgParticipants msg) share (ReqSigningHash req) ⟹ Ok tt ∈ t.
(** More than two thirds of the validators that may take part, and no others. *)
Definition quorum v (ty : EventType) (parties : list string) : Prop :=
  let eligible := eligible_addresses (getEligibleForProtocol ty v) in
  Forall (.∈ eligible) parties ∧ (eligible ≠ [] → 2 * Z.of_nat (length eligible) < 3 * Z.of_nat (length parties)).

Lemma coordinates_mono v t t' peer : t ⊆ t' → coordinates v t peer → coordinates v t' peer.
Proof. intros Ht (b & w & a & H & ?). exists b, w, a. auto. Qed.
Lemma unbuilt_mono t t' chain : t ⊆ t' → unbuilt t chain → unbuilt t' chain.
Proof. intros Ht [?|(r & H & ?)]; [by left|right; eauto]. Qed.
Lemma own_view_mono t t' ev req : t ⊆ t' → own_view t ev req → own_view t' ev req.
Proof.
  intros Ht (d & o & Hd & Hh & H). exists d, o. split_and!; [done..|].
  destruct (EvType ev); try done; [by apply Ht|]. destruct H as (x & y & ? & ? & ? & ? & H). exists x, y. auto 6.
Qed.
Lemma started_mono t t' ev msg : t ⊆ t' → started t ev msg → started t' ev msg.
Proof. intros Ht H Hs. destruct (H Hs) as (r & sh & ? & ?). exists r, sh. auto. Qed.
Lemma requested_mono t t' ev req : t ⊆ t' → requested t ev req → requested t' ev req.
Proof.
  intros Ht H Hs. destruct (H Hs) as (r & d & H1 & H2 & [H3|H3]); exists r, d; (split_and!; [done..|]); [left|right];
    [by eapply unbuilt_mono|by eapply own_view_mono].
Qed.

Lemma turn_of_coordinator v block addr :
  coordinatorAddressForBlock v coordinatorRange block = Ok addr → addr ≠ "" → turn_of v block addr.
Proof.
  unfold coordinatorAddressForBlock, getCoordinatorParticipants, getActiveParticipants, turn_of. change status_of with (λ w, UV.CurrentStatus <$> UV.LifecycleInfoOf w).
  cbv beta zeta. set (active := List.filter _ v). intros H Hne.
  assert (∀ ps : list UV.UniversalValidator, Ok (from_option addr_of "" (ps !! Z.to_nat ((block / coordinatorRange) mod Z.of_nat (length ps)))) = Ok addr →
    ∃ w, ps !! Z.to_nat ((block / coordinatorRange) mod Z.of_nat (length ps)) = Some w ∧ address w = Some addr) as Hps.
  { intros ps [= Hw]. destruct (ps !! _) as [w|]; cbn in Hw; [|done]. exists w. split; [done|]. unfold address, addr_of in *.
    destruct (UV.IdentifyInfo w); cbn in *; congruence. }
  destruct active as [|w0 active'] eqn:Ha.
  - rewrite decide_True by done. destruct v as [|w1 v']; [cbn in H; congruence|]. case_decide; [done|]. by apply Hps.
  - rewrite decide_False by done. case_decide; [done|]. by apply Hps.
Qed.
Lemma IsPeerCoordinator_reads peer v t :
  reads (E:=E) (IsPeerCoordinator peer) v t (λ v' t' r, t ⊆ t' ∧ (r = Ok true → v' = v ∧ coordinates v t' peer)).
Proof.
  unfold IsPeerCoordinator. reading; facts; (split; [grown|]); try discriminate.
  match goal with H : from_option addr_of "" ?o ≠ "" |- _ => destruct o as [w|] eqn:Hw; [|done]; clear - H Hw Heqr end.
  intros [= Hb]. facts. cbn [from_option] in *. split; [done|].
  apply find_some in Hw as [Hin Hp]. unfold has_peer in Hp. facts.
  eexists _, w, (addr_of w). split_and!; [told|by apply list_elem_of_In|done| |done|].
  - unfold address, addr_of in *. by destruct (UV.IdentifyInfo w).
  - by apply turn_of_coordinator.
Qed.
Lemma threshold_quorum {A B} (eligible : list A) (parties : list B) :
  length parties = length eligible ∨ CalculateThreshold (Z.of_nat (length eligible)) ≤ Z.of_nat (length parties) →
  eligible ≠ [] → 2 * Z.of_nat (length eligible) < 3 * Z.of_nat (length parties).
Proof.
  intros H Hne. assert (0 < Z.of_nat (length eligible)) as Hpos by (destruct eligible; [done|cbn; lia]).
  pose proof (CalculateThreshold_bounds _ Hpos). lia.
Qed.
Lemma validateParticipants_reads l ev v t :
  reads (E:=E) (validateParticipants l ev) v t (λ v' t' r, t ⊆ t' ∧ (r = Ok tt → v' = v ∧ quorum v (EvType ev) l)).
Proof.
  unfold validateParticipants, GetEligibleUV, quorum. reading; facts; (split; [grown|]); try discriminate; intros _.
  all: split_and!; [done..|]; apply threshold_quorum; auto.
Qed.
Lemma verify_request_reads ev req v t :
  reads (E:=E) (verify_request ev req) v t (λ _ t' r, t ⊆ t' ∧ (r = Ok tt → requested t' ev req)).
Proof.
  unfold verify_request, verifyOutboundSigningRequest, verifyFundMigrationSigningRequest, signing_req, if_builder,
    nonce_not_used, GetTSSAddress, requested, unbuilt, own_view.
  reading; facts; (split; [grown|]); try discriminate; intros _.
  all: try done; intros _; eexists _, _; (split_and!; [reflexivity|eassumption|]);
    first [ by left; left | left; right; eexists; split; [told|done]
          | solve [right; eexists _, _; split_and!; [eassumption|eassumption|told]]
          | right; eexists _, _; split_and!; [eassumption|eassumption|]; eexists _, _; split_and!; [congruence|by eexists|eassumption|eassumption|told] ].
Qed.
Lemma createSession_reads ev msg v t :
  reads (E:=E) (createSession ev msg) v t (λ _ t' r, t ⊆ t' ∧ (r = Ok tt → started t' ev msg)).
Proof.
  unfold createSession, current_keyID, GetCurrentTSSKey, load_keyshare, joining_keyshare, started.
  reading; facts; (split; [grown|]); try discriminate; intros Hok Hs; try discriminate Hs.
  all: try (eexists _, _; split; [eassumption|]; simplify_eq; told).
Qed.
Lemma party_of_peer_reads peer v t :
  reads (E:=E) (GetPartyIDFromPeerID peer) v t (λ _ t' r, t ⊆ t' ∧ ∀ party, r = Ok party → ∃ w, w ∈ v ∧ peer_id w = Some peer ∧ address w = Some party).
Proof.
  unfold GetPartyIDFromPeerID. reading; facts; (split; [grown|]); try discriminate; intros party [= <-].
  all: match goal with H : head (omap (party_of _) ?l) = Some _ |- _ => apply head_Some_elem_of, list_elem_of_omap in H as (w & Hw & Hp) end;
    try by apply not_elem_of_nil in Hw.
  exists w. unfold party_of in Hp. unfold peer_id, address. destruct (UV.NetworkInfoOf w) as [ni|]; [|done]. cbn in Hp. case_decide; [|done].
  split_and!; [done|cbn; congruence|done].
Qed.
End invitations.

(** ** How a message may change a row *)
Section messages.
Context {E : Type} `{EV : Env E, CF : ClientConfig, CR : Crypto, SO : SortSlice}.
Implicit Types (n : Node E) (ev : Event) (t : list Logged) (v : list UV.UniversalValidator) (st : sessionState).
(** The message and the peer that the transport says it is from. *)
Context (peer : string) (msg : Message).
#[local] Abbreviation eid := (MsgEventID msg).

(** The message drives a session on: the coordinator that opened it says to begin, or one of
    its participants sends a round of the protocol. *)
Definition drives n st : Prop :=
  MsgType msg = MessageTypeBegin ∧ peer = coordinatorPeer st ∨
  MsgType msg = MessageTypeStep ∧ ∃ w party, w ∈ allValidators (coord n) ∧ peer_id w = Some peer ∧ address w = Some party ∧ party ∈ participants st.
(** The result of a session of the client itself, with the request it was opened for. *)
Definition own_session n t (sd : SignedDataPayload) : Prop :=
  ∃ st req r, sessions n !! eid = Some st ∧ drives n st ∧ is_sign (protocolType st) = true ∧ signingReq st = Some req ∧
    GetResult eid ⟹ Ok r ∈ t ∧ sd = mkSignedDataPayload (ResSignature r) (ReqSigningHash req) (ReqNonce req) (ReqAmount req).
(** A signature that the message carries and the client verified, or one of its own. *)
Definition vouched n t ev (sd : SignedDataPayload) : Prop :=
  MsgSignedData msg = Some sd ∧ is_sign (EvType ev) = true ∧ verified t ev sd ∨ own_session n t sd.
Definition with_signature (d : Payload) (sd : SignedDataPayload) ev : Event :=
  ev <| EventData := Some (d <| SigningDataOf :=
          Some (signing_data (SdSignature sd) (SdSigningHash sd) (SpNonce sd) (SpAmount sd)) |>) |>
     <| EvStatus := StatusSigned |>.
(** The client has no session for the event and the event is open; the peer is the
    coordinator of the block; enough of the right validators take part, and the request to
    sign is the one the client would make itself. *)
Definition invited n t ev : Prop :=
  MsgType msg = MessageTypeSetup ∧ sessions n !! eid = None ∧ EvStatus ev = StatusConfirmed ∧ signed_data ev = None ∧
  (∃ block, GetLatestBlock ⟹ Ok block ∈ t ∧ ¬ (0 < ExpiryBlockHeight ev ≤ block)) ∧
  coordinates (allValidators (coord n)) t peer ∧ quorum (allValidators (coord n)) (EvType ev) (MsgParticipants msg) ∧
  requested t ev (MsgSigningReq msg).
(** A session of the client for a key process has a result. *)
Definition key_result n t : Prop :=
  ∃ st r, sessions n !! eid = Some st ∧ drives n st ∧ is_sign (protocolType st) = false ∧ GetResult eid ⟹ Ok r ∈ t.
Inductive row_change n t ev : Event → Prop :=
| row_kept : row_change n t ev ev
| row_invited : invited n t ev → row_change n t ev (set_status StatusInProgress ev)
| row_signed d sd :
    EventData ev = Some d → unsigned (EvStatus ev) = true → vouched n t ev sd →
    row_change n t ev (with_signature d sd ev)
| row_key_failed : key_result n t → row_change n t ev (set_status StatusReverted ev)
| row_key_done hash :
    key_result n t → row_change n t ev (ev <| EvStatus := StatusCompleted |> <| VoteTxHash := hash |>).

(** No row appears or disappears, and only the row of the event that the message names
    changes, as [row_change] allows. *)
Definition rows_moved n t (m : gmap string Event) : Prop :=
  ∀ id, match rows n !! id, m !! id with
        | Some ev, Some ev' => ev' = ev ∨ id = eid ∧ row_change n t ev ev'
        | None, None => True
        | _, _ => False
        end.
(** A session that was not there is the one that the message invites to. *)
Definition opened ev st : Prop :=
  protocolType st = EvType ev ∧ coordinatorPeer st = peer ∧ participants st = MsgParticipants msg ∧ signingReq st = MsgSigningReq msg.
Definition sessions_moved n t (m : gmap string sessionState) : Prop :=
  ∀ id st, m !! id = Some st → sessions n !! id = Some st ∨ id = eid ∧ ∃ ev, rows n !! eid = Some ev ∧ invited n t ev ∧ started t ev msg ∧ opened ev st.
Definition moved n n' : Prop := ∃ t, trace n' = t ++ trace n ∧ rows_moved n t (rows n') ∧ sessions_moved n t (sessions n').

Lemma invited_mono n t t' ev : t ⊆ t' → invited n t ev → invited n t' ev.
Proof.
  intros Ht (? & ? & ? & ? & (b & Hb & ?) & ? & ? & ?). split_and!; try done; [exists b; auto|by eapply coordinates_mono|by eapply requested_mono].
Qed.
Lemma row_change_mono n t t' ev ev' : t ⊆ t' → row_change n t ev ev' → row_change n t' ev ev'.
Proof.
  intros Ht. destruct 1 as [|Hi|d sd Hd Hu Hv|(st & r & ? & ? & ? & Hr)|hash (st & r & ? & ? & ? & Hr)].
  - constructor.
  - apply row_invited. by eapply invited_mono.
  - apply row_signed; [done|done|]. destruct Hv as [(? & ? & Hv)|(st & req & r & ? & ? & ? & ? & Hr & ?)].
    + left. split_and!; [done..|]. by eapply verified_mono.
    + right. exists st, req, r. split_and!; auto.
  - apply row_key_failed. exists st, r. auto.
  - apply row_key_done. exists st, r. auto.
Qed.
Lemma rows_moved_mono n t t' m : t ⊆ t' → rows_moved n t m → rows_moved n t' m.
Proof.
  intros Ht H id. specialize (H id). destruct (rows n !! id), (m !! id); try done. destruct H as [|[? H]]; [by left|right].
  split; [done|]. by eapply row_change_mono.
Qed.
Lemma sessions_moved_mono n t t' m : t ⊆ t' → sessions_moved n t m → sessions_moved n t' m.
Proof.
  intros Ht H id st Hst. destruct (H id st Hst) as [|(? & ev & ? & ? & ? & ?)]; [by left|right]. split; [done|]. exists ev.
  split_and!; [done|by eapply invited_mono|by eapply started_mono|done].
Qed.
Lemma rows_unmoved n t : rows_moved n t (rows n).
Proof. intros id. destruct (rows n !! id); [by left|done]. Qed.
Lemma sessions_unmoved n t : sessions_moved n t (sessions n).
Proof. intros id st Hst. by left. Qed.
Lemma rows_moved_one n t ev ev' : rows n !! eid = Some ev → row_change n t ev ev' → rows_moved n t (<[ eid := ev' ]> (rows n)).
Proof.
  intros Hr Hc k. destruct (decide (k = eid)) as [->|Hk].
  - rewrite Hr, lookup_insert_eq. by right.
  - rewrite lookup_insert_ne by done. apply rows_unmoved.
Qed.

(** ** A handler, from its first statement to a write *)
(** [n] is where a run from [n0] is after the calls [t]. *)
Definition at_point n0 t n : Prop := undisturbed n0 n ∧ trace n = t ++ trace n0.
Lemma at_start n : at_point n [] n.
Proof. by split. Qed.
Lemma moved_still n0 t n : at_point n0 t n → moved n0 n.
Proof. intros [(Hr & Hs & _) Ht]. exists t. rewrite Hr, Hs. split_and!; [done|apply rows_unmoved|apply sessions_unmoved]. Qed.
Lemma moved_then n0 n n' new : moved n0 n → rows n' = rows n → sessions n' ⊆ sessions n → trace n' = new ++ trace n → moved n0 n'.
Proof.
  intros (t & Ht & Hm & Hs) Hr Hse Hn. exists (new ++ t). rewrite Hn, Ht, Hr, app_assoc. split_and!; [done| |].
  - eapply rows_moved_mono; [|done]. set_solver.
  - eapply sessions_moved_mono; [|intros id st Hst; apply Hs; by eapply lookup_weaken]. set_solver.
Qed.
Lemma moved_reads {A} n0 (m : M (Node E) A) n Φ : moved n0 n → reads m (allValidators (coord n)) [] Φ → moved n0 (m n).2.
Proof. intros Hm Hr. destruct (Hr n eq_refl) as (new & (Hs & Hse & _) & Ht & _). by eapply moved_then; [..|rewrite Hse|]. Qed.
Lemma moved_bind {A B} (m : M (Node E) A) (f : A → M (Node E) B) n0 t n Φ :
  at_point n0 t n → reads m (allValidators (coord n)) t Φ →
  (∀ a t' n', at_point n0 t' n' → Φ (allValidators (coord n')) t' (Ok a) → moved n0 (f a n').2) →
  moved n0 ((m ≫= f) n).2.
Proof.
  intros [Hu Ht] Hr Hf. destruct (Hr n eq_refl) as (new & Hu' & Ht' & HΦ). rewrite bind_unfold.
  destruct (m n) as [[a|e|e] n1]; cbn [fst snd] in *.
  - apply (Hf a (new ++ t)); [|done]. split; [by transitivity n|]. by rewrite Ht', Ht, app_assoc.
  - apply (moved_still _ (new ++ t)). split; [by transitivity n|]. by rewrite Ht', Ht, app_assoc.
  - apply (moved_still _ (new ++ t)). split; [by transitivity n|]. by rewrite Ht', Ht, app_assoc.
Qed.
Lemma swallow_throw {A B} (m : M (Node E) unit) e (f : A → M (Node E) B) n : (((swallow m ;; throw e) ≫= f) n).2 = (m n).2.
Proof. rewrite !bind_unfold. unfold swallow. by destruct (m n) as [[]]. Qed.
Lemma GetEvent_run id n : GetEvent id n = (match rows n !! id with Some ev => Ok ev | None => Err "record not found" end, n).
Proof. unfold GetEvent, get_rows. mrun. by destruct (rows n !! id). Qed.

Lemma moved_persist n0 t n ev sd :
  at_point n0 t n → rows n0 !! eid = Some ev → vouched n0 t ev sd →
  moved n0 (PersistSignature eid (EventData ev) (SdSignature sd) (SdSigningHash sd) (SpNonce sd) (SpAmount sd) n).2.
Proof.
  intros Hp Hev Hv. pose proof Hp as [(Hr & Hs & _) Ht]. unfold PersistSignature, get_rows, set_rows. mrun.
  destruct (EventData ev) as [d|] eqn:Hd; mrun; [|by eapply moved_still]. rewrite Hr, Hev.
  destruct (unsigned (EvStatus ev)) eqn:Hu; mrun; [|by eapply moved_still].
  exists t. cbn -[insert]. rewrite Hr, Hs. split_and!; [done| |apply sessions_unmoved]. apply (rows_moved_one _ _ ev); [done|].
  exact (row_signed n0 t ev d sd Hd Hu Hv).
Qed.
Lemma moved_update n0 t n f :
  rows n = rows n0 → trace n = t ++ trace n0 → sessions_moved n0 t (sessions n) →
  (∀ ev, rows n0 !! eid = Some ev → row_change n0 t ev (f ev)) → moved n0 (Update eid f n).2.
Proof.
  intros Hr Ht Hs Hc. unfold Update, get_rows, set_rows. mrun. rewrite Hr.
  destruct (rows n0 !! eid) as [ev|] eqn:Hev; mrun; [|exists t; rewrite Hr; split_and!; [done|apply rows_unmoved|done]].
  exists t. cbn -[insert]. rewrite Hr. split_and!; [done| |done]. apply (rows_moved_one _ _ ev); [done|]. by apply Hc.
Qed.
Lemma moved_seq {A B} (m : M (Node E) A) (f : A → M (Node E) B) n0 n :
  moved n0 (m n).2 → (∀ a n1, moved n0 n1 → moved n0 (f a n1).2) → moved n0 ((m ≫= f) n).2.
Proof. intros Hm Hf. rewrite bind_unfold. destruct (m n) as [[a|e|e] n1]; [by apply Hf|done..]. Qed.
Lemma moved_CancelTracking n0 n id : moved n0 n → moved n0 (CancelTracking id n).2.
Proof. intros Hm. by apply (moved_then _ _ _ [] Hm). Qed.
Lemma handleSigningComplete_state (id : string) data sig req n :
  (handleSigningComplete id data sig (Some req) n).2
  = (PersistSignature id data sig (ReqSigningHash req) (ReqNonce req) (ReqAmount req) n).2.
Proof. unfold handleSigningComplete. mrun. by destruct (PersistSignature _ _ _ _ _ _ n) as [[] ]. Qed.

Lemma moved_GetEvent {B} what id (f : Event → M (Node E) B) n0 t n :
  at_point n0 t n → (∀ ev, rows n0 !! id = Some ev → moved n0 (f ev n).2) →
  moved n0 ((wrap what (GetEvent id) ≫= f) n).2.
Proof.
  intros Hp Hf. rewrite bind_unfold, wrap_run, GetEvent_run. pose proof Hp as [(-> & _) _].
  destruct (rows n0 !! id) as [ev|]; cbn; [by apply Hf|by eapply moved_still].
Qed.
Lemma moved_get_session {B} id (f : option sessionState → M (Node E) B) n0 t n :
  at_point n0 t n → moved n0 (f (sessions n0 !! id) n).2 → moved n0 ((get_session id ≫= f) n).2.
Proof. intros [(_ & Hs & _) _] Hf. unfold get_session. mrun. by rewrite Hs. Qed.
Lemma moved_require {B} b e (f : unit → M (Node E) B) n0 t n :
  at_point n0 t n → (b = true → moved n0 (f tt n).2) → moved n0 ((require b e ≫= f) n).2.
Proof. intros Hp Hf. destruct b; [by apply Hf|by eapply moved_still]. Qed.
Lemma moved_lift_option {A B} (o : option A) e (f : A → M (Node E) B) n0 t n :
  at_point n0 t n → (∀ a, o = Some a → moved n0 (f a n).2) → moved n0 ((lift_option o e ≫= f) n).2.
Proof. intros Hp Hf. destruct o as [a|]; [by apply Hf|by eapply moved_still]. Qed.
Lemma moved_deref {A B} (o : option A) (f : A → M (Node E) B) n0 t n :
  at_point n0 t n → (∀ a, o = Some a → moved n0 (f a n).2) → moved n0 ((deref o ≫= f) n).2.
Proof. intros Hp Hf. destruct o as [a|]; [by apply Hf|by eapply moved_still]. Qed.

Lemma moved_wrap {A B} what (m : M (Node E) A) (f : A → M (Node E) B) n0 t n Φ :
  at_point n0 t n → reads m (allValidators (coord n)) t Φ →
  (∀ a t' n', at_point n0 t' n' → Φ (allValidators (coord n')) t' (Ok a) → moved n0 (f a n').2) →
  moved n0 ((wrap what m ≫= f) n).2.
Proof.
  intros Hp Hr Hf. apply (moved_bind _ _ n0 t n (λ v t r, ∀ a, r = Ok a → Φ v t (Ok a))); [done| |by eauto].
  apply reads_wrap. eapply reads_mono; [exact Hr|]. intros v' t' r HΦ a Ha. apply wrap_res_ok in Ha as ->. done.
Qed.

Lemma moved_handleSignatureBroadcast n : moved n (handleSignatureBroadcast msg n).2.
Proof.
  unfold handleSignatureBroadcast. eapply moved_GetEvent; [apply at_start|]. intros ev Hev.
  destruct (past_confirmed (EvStatus ev)); [apply moved_CancelTracking, (moved_still _ _ _ (at_start n))|].
  eapply moved_require; [apply at_start|]. intros Hs.
  eapply moved_wrap; [apply at_start|apply VerifySignedData_reads|].
  intros [] t n1 Hp [_ Hv]. destruct (Hv eq_refl) as (sd & Hsd & Hsv). rewrite Hsd. cbn [deref].
  eapply moved_deref; [exact Hp|]. intros ? [= <-]. apply moved_seq; [|intros; by apply moved_CancelTracking].
  rewrite wrap_state, handleSigningComplete_state. cbn [ReqSigningHash ReqNonce ReqAmount].
  eapply moved_persist; [exact Hp|exact Hev|]. by left.
Qed.

Lemma moved_on_ack id m n :
  (∀ t n', at_point n t n' → moved n (m n').2) → moved n (on_ack id peer m n).2.
Proof.
  intros Hm. unfold on_ack. eapply (moved_bind _ _ _ _ _ (λ _ _ _, True)); [apply at_start| |].
  - unfold validateIncomingRequest. apply reads_bind. apply (reads_gets_any coord). intros c. unfold GetPartyIDFromPeerID. reading; done.
  - intros [| |e] t n' Hp _; [by eapply Hm|by eapply moved_still..].
Qed.
Lemma moved_handleSignedAck sd n : MsgSignedData msg = Some sd → moved n (handleSignedAck peer eid sd n).2.
Proof.
  intros Hsd. apply moved_on_ack. intros t n' Hp. eapply moved_GetEvent; [exact Hp|]. intros ev Hev.
  eapply moved_wrap; [exact Hp|apply VerifySignedData_reads|]. intros [] t1 n1 Hp1 [_ Hv].
  destruct (Hv eq_refl) as (? & [= <-] & Hsv). apply moved_seq; [|intros; by apply moved_CancelTracking].
  rewrite wrap_state. eapply moved_persist; [exact Hp1|exact Hev|]. left. split_and!; [done| |done].
  destruct Hsv as [(d & req & _ & _ & H) _]. by destruct (EvType ev).
Qed.

(** Code that writes no row. *)
Lemma keeps_moved {A} n0 (m : M (Node E) A) : (∀ v t, reads m v t (λ _ _ _, True)) → keeps (moved n0) m.
Proof. intros Hm n Hn. by eapply moved_reads. Qed.
Lemma moved_rpc n0 {A} (c : Call A) : keeps (moved n0) (rpc c).
Proof. apply keeps_moved. intros. by apply reads_rpc. Qed.
Lemma moved_snapshot n0 : keeps (moved n0) validatorsSnapshot.
Proof. apply keeps_moved. intros. by apply reads_snapshot. Qed.
Lemma moved_set_coord n0 f : keeps (moved n0) (set_coord f).
Proof. intros n Hn. by apply (moved_then _ _ _ [] Hn). Qed.
Lemma moved_close n0 id : keeps (moved n0) (set_sessions (delete id)).
Proof. intros n Hn. apply (moved_then _ _ _ [] Hn); [done|apply delete_subseteq|done]. Qed.
#[local] Hint Resolve moved_rpc moved_snapshot moved_set_coord moved_close : keeper.

Lemma moved_handleUnsignedAck id n : moved n (handleUnsignedAck peer id n).2.
Proof.
  unfold handleUnsignedAck. apply moved_on_ack. intros t n' Hp. apply moved_still in Hp. revert n' Hp.
  match goal with |- ∀ n', moved n n' → moved n (?m n').2 => change (keeps (moved n) m) end.
  unfold send_begin, GetPeerIDFromPartyID, CancelTracking. keep. apply keeps_for_each. intros p. keep.
Qed.

Lemma moved_open_session ev n t n1 :
  at_point n t n1 → rows n !! eid = Some ev → MsgType msg = MessageTypeSetup → sessions n !! eid = None → signed_data ev = None →
  allValidators (coord n1) = allValidators (coord n) → coordinates (allValidators (coord n)) t peer →
  moved n (open_session peer ev msg n1).2.
Proof.
  intros Hp Hev Hty Hno Hsd Hv Hco. unfold open_session. eapply moved_require; [exact Hp|]. intros Hc. facts.
  eapply (moved_wrap _ _ _ _ _ _ (λ v' t' r, v' = allValidators (coord n) ∧ t ⊆ t' ∧ ∀ b, r = Ok b → GetLatestBlock ⟹ Ok b ∈ t')); [exact Hp| |].
  { reading; (split_and!; [done|grown|]); intros ? [= <-]; told. }
  intros b t2 n2 Hp2 (Hv2 & Ht2 & Hb). specialize (Hb b eq_refl). eapply moved_require; [exact Hp2|]. intros Hx.
  eapply moved_wrap; [exact Hp2|apply validateParticipants_reads|]. intros [] t3 n3 Hp3 [Ht3 Hq]. destruct (Hq eq_refl) as [Hv3 Hq'].
  eapply moved_bind; [exact Hp3|apply verify_request_reads|]. intros [] t4 n4 Hp4 [Ht4 Hreq].
  eapply moved_wrap; [exact Hp4|apply createSession_reads|]. intros [] t5 n5 Hp5 [Ht5 Hstart].
  eapply (moved_bind _ _ _ _ _ (λ _ t' _, t5 ⊆ t')); [exact Hp5|reading; grown|]. intros now t6 n6 Hp6 Ht6.
  pose proof Hp6 as [(Hr & Hs & _) Ht]. assert (t ⊆ t6 ∧ t2 ⊆ t6 ∧ t4 ⊆ t6) as (H1 & H2 & H4) by set_solver.
  assert (invited n t6 ev) as Hi.
  { rewrite Hv2 in Hq'. split_and!; try done.
    - exists b. split; [by apply H2|]. apply negb_true_iff, andb_false_iff in Hx as [?|?]; facts; lia.
    - eapply coordinates_mono; [exact H1|done].
    - eapply requested_mono; [exact H4|by apply Hreq]. }
  unfold set_sessions. rewrite bind_unfold, modify_run. apply moved_seq.
  - rewrite swallow_state. apply (moved_update _ t6); [done|done| |].
    + intros id st. cbn -[insert]. rewrite Hs. intros [[<- <-]|[_ Hst]]%lookup_insert_Some; [right|by left]. split; [done|]. exists ev.
      split_and!; [done|done| |done]. eapply started_mono; [exact Ht6|by apply Hstart].
    + intros ev' Hev'. rewrite Hev in Hev'. injection Hev' as <-. by apply row_invited.
  - intros _ n7 H7. rewrite swallow_state. unfold sendACK. rewrite wrap_state. refine (keeps_moved _ _ _ n7 H7).
    intros. by apply reads_ask.
Qed.
Lemma moved_handleSetupMessage n : MsgType msg = MessageTypeSetup → moved n (handleSetupMessage peer msg n).2.
Proof.
  intros Hty. unfold handleSetupMessage. eapply moved_get_session; [apply at_start|].
  destruct (sessions n !! eid) eqn:Hs; [apply (moved_still _ _ _ (at_start n))|].
  eapply moved_wrap; [apply at_start|apply IsPeerCoordinator_reads|]. intros isCoord t1 n1 Hp1 [_ Hc].
  eapply moved_require; [exact Hp1|]. intros ->. destruct (Hc eq_refl) as [Hv Hco]. eapply moved_GetEvent; [exact Hp1|]. intros ev Hev.
  destruct (signed_data ev) eqn:Hsd.
  - rewrite wrap_state. unfold sendACK. rewrite wrap_state. refine (keeps_moved _ _ _ n1 _); [|by eapply moved_still].
    intros. by apply reads_ask.
  - by eapply moved_open_session.
Qed.

Lemma moved_assoc {A B C} (m : M (Node E) A) (g : A → M (Node E) B) (f : B → M (Node E) C) n0 n :
  moved n0 ((m ≫= λ a, g a ≫= f) n).2 → moved n0 (((m ≫= g) ≫= f) n).2.
Proof. rewrite !bind_unfold. by destruct (m n) as [[]]. Qed.
Lemma moved_cleanSession n0 id : keeps (moved n0) (cleanSession id).
Proof. unfold cleanSession. keep. Qed.
Lemma moved_handleSignFinished st result n t n1 :
  at_point n t n1 → sessions n !! eid = Some st → drives n st → is_sign (protocolType st) = true → GetResult eid ⟹ Ok result ∈ t →
  moved n (handleSignFinished eid result (signingReq st) n1).2.
Proof.
  intros Hp Hs Hdr Hk Hr. unfold handleSignFinished. eapply moved_GetEvent; [exact Hp|]. intros ev Hev.
  destruct (signingReq st) as [req|] eqn:Hreq; [|exact (moved_still _ _ _ Hp)].
  apply moved_seq.
  - rewrite handleSigningComplete_state.
    apply (moved_persist n t n1 ev (mkSignedDataPayload (ResSignature result) (ReqSigningHash req) (ReqNonce req) (ReqAmount req)));
      [done|done|]. right. exists st, req, result. auto 7.
  - intros _ n2 H2. apply moved_seq; [done|]. intros r n3 H3. refine (_ n3 H3).
    change (keeps (moved n) (broadcastSignature eid (mkSignedDataPayload (ResSignature result) (ReqSigningHash r) (ReqNonce r) (ReqAmount r)))).
    unfold broadcastSignature, Validators. keep. apply keeps_for_each. intros v. keep.
Qed.
Lemma moved_handleKeyFinished st result n t n1 :
  at_point n t n1 → sessions n !! eid = Some st → drives n st → is_sign (protocolType st) = false → GetResult eid ⟹ Ok result ∈ t →
  moved n (handleKeyFinished eid result n1).2.
Proof.
  intros Hp Hs Hdr Hk Hr. unfold handleKeyFinished.
  eapply (moved_wrap _ _ _ _ _ _ (λ _ t' _, t ⊆ t')); [exact Hp|reading; grown|]. intros [] t2 n2 Hp2 Ht2.
  assert (∀ t3 n3 hash, at_point n t3 n3 → t ⊆ t3 → moved n (wrap "failed to update event status to completed"
    (Update eid (λ r, r <| EvStatus := StatusCompleted |> <| VoteTxHash := hash |>)) n3).2) as Hdone.
  { intros t3 n3 hash [(Hr3 & Hse & _) Ht3] Hs3. rewrite wrap_state. apply (moved_update _ t3); [done|done|rewrite Hse; apply sessions_unmoved|]. intros ev _.
    apply row_key_done. exists st, result. auto. }
  destruct has_push_signer; [|by apply (Hdone t2)].
  apply moved_assoc. eapply moved_GetEvent; [exact Hp2|]. intros ev Hev.
  apply moved_assoc. eapply moved_lift_option; [exact Hp2|]. intros d Hd.
  apply moved_assoc. eapply (moved_bind _ _ _ _ _ (λ _ t' _, t2 ⊆ t')); [exact Hp2|reading; grown|].
  intros vote t3 n3 Hp3 Ht3. assert (t ⊆ t3) as Ht by (by transitivity t2).
  assert (moved n (Update eid (set_status StatusReverted) n3).2) as Hfail.
  { destruct Hp3 as [(Hr3 & Hse & _) Hn3]. apply (moved_update _ t3); [done|done|rewrite Hse; apply sessions_unmoved|]. intros ev' _. apply row_key_failed.
    exists st, result. auto. }
  destruct vote as [hash|e|e]; [by apply (Hdone t3)|by rewrite swallow_throw..].
Qed.
Lemma moved_handleSessionFinished st n t n1 :
  at_point n t n1 → sessions n !! eid = Some st → drives n st → moved n (handleSessionFinished eid st n1).2.
Proof.
  intros Hp Hs Hdr. unfold handleSessionFinished, deferring.
  match goal with |- moved n (let '(_, _) := ?m n1 in _).2 => assert (moved n (m n1).2) as Hm end.
  { eapply (moved_wrap _ _ _ _ _ _ (λ _ t' r, ∀ a, r = Ok a → GetResult eid ⟹ Ok a ∈ t')); [exact Hp| |].
    - reading; intros ? [= <-]; told.
    - intros result t2 n2 Hp2 Hr. specialize (Hr _ eq_refl).
      destruct (is_sign (protocolType st)) eqn:Hk; [by eapply moved_handleSignFinished|by eapply moved_handleKeyFinished]. }
  match goal with |- moved n (let '(_, _) := ?m n1 in _).2 => destruct (m n1) as [r n2] end. cbn in Hm.
  pose proof (moved_cleanSession n eid n2 Hm) as Hc. by destruct (cleanSession eid n2).
Qed.
Lemma moved_processSessionStep st n t n1 :
  at_point n t n1 → sessions n !! eid = Some st → drives n st → moved n (processSessionStep eid n1).2.
Proof.
  intros Hp Hs Hdr. unfold processSessionStep. eapply moved_get_session; [exact Hp|].
  rewrite Hs.
  eapply (moved_wrap _ _ _ _ _ _ (λ _ _ _, True)); [exact Hp|by reading|]. intros [msgs finished] t2 n2 Hp2 _.
  eapply (moved_bind _ _ _ _ _ (λ _ _ _, True)); [exact Hp2| |].
  - apply (reads_for_each _ _ _ _ (λ _ _, True)); [done| |done]. intros x v t' _ _. unfold GetPeerIDFromPartyID. by reading.
  - intros [] t3 n3 Hp3 _. cbn. destruct finished; [by eapply moved_handleSessionFinished|by eapply moved_still].
Qed.
Lemma moved_handleStepMessage n : MsgType msg = MessageTypeStep → moved n (handleStepMessage peer msg n).2.
Proof.
  intros Hty. unfold handleStepMessage. eapply moved_get_session; [apply at_start|].
  destruct (sessions n !! eid) as [st|] eqn:Hs; [|apply (moved_still _ _ _ (at_start n))].
  eapply moved_wrap; [apply at_start|apply party_of_peer_reads|].
  intros party t1 n1 Hp1 [_ Hw]. eapply moved_require; [exact Hp1|]. intros Hin. facts.
  destruct (Hw _ eq_refl) as (w & Hw1 & Hw2 & Hw3).
  eapply (moved_wrap _ _ _ _ _ _ (λ _ _ _, True)); [exact Hp1|by reading|]. intros [] t2 n2 Hp2 _.
  eapply moved_processSessionStep; [exact Hp2|exact Hs|]. right. split; [done|]. by exists w, party.
Qed.
Lemma moved_handleBeginMessage n : MsgType msg = MessageTypeBegin → moved n (handleBeginMessage peer msg n).2.
Proof.
  intros Hty. unfold handleBeginMessage. eapply moved_get_session; [apply at_start|].
  destruct (sessions n !! eid) as [st|] eqn:Hs; [|apply (moved_still _ _ _ (at_start n))].
  eapply moved_require; [apply at_start|]. intros Hin. facts. eapply moved_processSessionStep; [apply at_start|exact Hs|]. by left.
Qed.

Lemma moved_onReceive n : moved n (onReceive peer msg n).2.
Proof.
  unfold onReceive, coordinator_HandleIncomingMessage, session_HandleIncomingMessage. rewrite swallow_state.
  destruct (MsgType msg) eqn:Hty.
  - by apply moved_handleSetupMessage.
  - destruct (MsgSignedData msg) eqn:Hsd; [by apply moved_handleSignedAck|apply moved_handleUnsignedAck].
  - by apply moved_handleBeginMessage.
  - by apply moved_handleStepMessage.
  - apply moved_handleSignatureBroadcast.
  - apply (moved_still _ _ _ (at_start n)).
Qed.
End messages.
