(* ===== verification/UcFlow.v ===== *)
(** * The universal client: broadcasting and resolving signed transactions

    [tss/txflow], [tss/txbroadcaster] and [tss/txresolver].  The broadcaster takes
    SIGNED rows to the destination chain; the resolver follows BROADCASTED rows to a
    final status, or votes on Push Chain that they failed.  Both run on a timer and
    go through their rows in batches. *)
From S2P Require Import Prelude GoStrings UvTypes TssTypes UxTypes RegTypes World Canonical Utss UcStore UcCoord.
From Stdlib Require Import Ascii.
Import Uc.

Section flow.
Context {E : Type} `{EV : Env E, CF : ClientConfig, CR : Crypto, SO : SortSlice}.
Implicit Types (n : Node E).
#[local] Abbreviation M := (M (Node E)).

(** The node's lookup, an error as a value. *)
Definition getTSSAddress : M (res string) := attempt GetTSSAddress.

(** ** txflow *)
Inductive NonceVerdict := NonceUnknown | NonceConsumed | NonceAvailable.
Definition CheckNonce (chain signer : string) (signedNonce : Z) : M NonceVerdict :=
  r ← rpc (GetNextNonce chain signer true);
  match r with
  | Ok finalizedNonce => mret (if decide (signedNonce < finalizedNonce) then NonceConsumed else NonceAvailable)
  | _ => mret NonceUnknown
  end.
Definition DecodeSigningData (sd : SigningData) : option (UnsignedSigningReq * list Z) :=
  signingHash ← hex_decode (to_bytes (SigningHash sd));
  signature ← hex_decode (to_bytes (Signature sd));
  Some (mkUnsignedSigningReq signingHash (SdNonce sd) (TSSFundMigrationAmount sd), signature).
Definition ReadSignedNonce (ev : Event) : option Z := d ← EventData ev; sd ← SigningDataOf d; Some (SdNonce sd).
Definition ReadSigningDeadline (ev : Event) : Z :=
  match EventData ev with Some d => OcSigningDeadline (AsOutbound d) | None => 0 end.
Definition ReadFundMigrationSigner (ev : Event) : option (string * Z) :=
  d ← EventData ev; sd ← SigningDataOf d;
  if decide (FmOldTssPubkey (AsMigration d) = "") then None
  else match DeriveEVMAddressFromPubkey (FmOldTssPubkey (AsMigration d)) with
       | Ok addr => Some (addr, SdNonce sd)
       | _ => None
       end.

(** ** The broadcaster *)
(** A failed update is logged. *)
Definition markBroadcasted (ev : Event) (chainID txHash : string) : M unit :=
  swallow (Update (EventID ev) (λ r, r <| BroadcastedTxHash := chainID +:+ ":" +:+ txHash |>
                                       <| EvStatus := StatusBroadcasted |>)).
Definition checkNonceAndMarkBroadcasted (ev : Event) (chainID txHash signerAddr : string) (eventNonce : Z) : M unit :=
  verdict ← CheckNonce chainID signerAddr eventNonce;
  match verdict with NonceConsumed => markBroadcasted ev chainID txHash | _ => mret tt end.
Definition on_chain (chainID txHash : string) : M bool :=
  v ← rpc (VerifyBroadcastedTx chainID txHash);
  mret (match v with Ok r => Found r | _ => false end).
(** [f] when the chain has a builder. *)
Definition with_builder (chainID : string) (f : M unit) : M unit :=
  b ← rpc (GetTxBuilder chainID); match b with Ok _ => f | _ => mret tt end.

Definition broadcastOutboundEVM (ev : Event) (data : OutboundCreatedEvent) (sd : SigningData) (chainID : string) : M unit :=
  with_builder chainID (
    match DecodeSigningData sd with
    | None => mret tt
    | Some (req, signature) =>
        r ← rpc (BroadcastOutboundSigningRequest chainID req data signature);
        let '(txHash, broadcastErr) := r in
        match broadcastErr with
        | None => markBroadcasted ev chainID txHash
        | Some _ =>
            if decide (txHash = "") then mret tt
            else
              found ← on_chain chainID txHash;
              if (found : bool) then markBroadcasted ev chainID txHash
              else if has_tss_lookup then
                a ← getTSSAddress;
                match a with
                | Ok tssAddress => checkNonceAndMarkBroadcasted ev chainID txHash tssAddress (SdNonce sd)
                | _ => mret tt
                end
              else checkNonceAndMarkBroadcasted ev chainID txHash "" (SdNonce sd)
        end
    end).
Definition broadcastOutboundSVM (ev : Event) (data : OutboundCreatedEvent) (sd : SigningData) (chainID : string) : M unit :=
  with_builder chainID (
    match DecodeSigningData sd with
    | None => mret tt
    | Some (req, signature) =>
        let txID := OcTxID data in
        let deadline := OcSigningDeadline data in
        let broadcast : M unit :=
          r ← rpc (BroadcastOutboundSigningRequest chainID req data signature);
          let '(txHash, broadcastErr) := r in
          match broadcastErr with
          | None => markBroadcasted ev chainID txHash
          | Some _ =>
              x ← rpc (IsAlreadyExecuted chainID txID);
              if (x.1.1 : bool) then markBroadcasted ev chainID "" else mret tt
          end in
        now ← rpc NowUnix;
        if decide (deadline < now) then
          x ← rpc (IsAlreadyExecuted chainID txID);
          let '(executed, clusterTime, checkErr) := x in
          match checkErr with
          | Some _ => mret tt
          | None =>
              if (executed : bool) then markBroadcasted ev chainID ""
              else if decide (deadline < clusterTime) then markBroadcasted ev chainID ""
              else broadcast
          end
        else broadcast
    end).
Definition broadcastFundMigrationEVM (ev : Event) (data : FundMigrationInitiatedEventData) (sd : SigningData)
    (chainID : string) : M unit :=
  match DeriveEVMAddressFromPubkey (FmOldTssPubkey data), DeriveEVMAddressFromPubkey (FmCurrentTssPubkey data) with
  | Ok oldTSSAddr, Ok currentTSSAddr =>
      with_builder chainID (
        match DecodeSigningData sd with
        | None => mret tt
        | Some (req, signature) =>
            r ← rpc (BroadcastFundMigrationTx chainID req (migration_data data oldTSSAddr currentTSSAddr None) signature);
            let '(txHash, broadcastErr) := r in
            match broadcastErr with
            | None => markBroadcasted ev chainID txHash
            | Some _ =>
                if decide (txHash = "") then mret tt
                else
                  found ← on_chain chainID txHash;
                  if (found : bool) then markBroadcasted ev chainID txHash
                  else checkNonceAndMarkBroadcasted ev chainID txHash oldTSSAddr (SdNonce sd)
            end
        end)
  | _, _ => mret tt
  end.
(** The payload and its signature, when both are there. *)
Definition signed_payload (ev : Event) : option (Payload * SigningData) :=
  d ← EventData ev; sd ← SigningDataOf d; Some (d, sd).
Definition broadcastOutbound (ev : Event) : M unit :=
  match signed_payload ev with
  | None => mret tt
  | Some (d, sd) =>
      let chainID := OcDestinationChain (AsOutbound d) in
      enabled ← rpc (IsChainOutboundEnabled chainID);
      if (enabled : bool) then
        evm ← rpc (IsEVMChain chainID);
        if (evm : bool) then broadcastOutboundEVM ev (AsOutbound d) sd chainID
        else broadcastOutboundSVM ev (AsOutbound d) sd chainID
      else mret tt
  end.
Definition broadcastFundMigration (ev : Event) : M unit :=
  match signed_payload ev with
  | None => mret tt
  | Some (d, sd) =>
      let chainID := FmChain (AsMigration d) in
      evm ← rpc (IsEVMChain chainID);
      if (evm : bool) then broadcastFundMigrationEVM ev (AsMigration d) sd chainID else mret tt
  end.
Definition broadcastEvent (ev : Event) : M unit :=
  match EvType ev with
  | EventTypeSignOutbound => broadcastOutbound ev
  | EventTypeSignFundMigrate => broadcastFundMigration ev
  | _ => mret tt
  end.

(** The loop of a tick: fetch a batch, handle it, stop after a short one.  [false]
    when [fuel] rounds were not enough. *)
Definition batchSize : nat := 100.
Fixpoint drain (fetch : nat → M (list Event)) (handle : Event → M unit) (fuel : nat) : M bool :=
  match fuel with
  | O => mret false
  | S fuel' =>
      evs ← fetch batchSize;
      match evs with
      | [] => mret true
      | _ =>
          for_each handle evs ;;
          if decide (length evs < batchSize)%nat then mret true else drain fetch handle fuel'
      end
  end.
Definition processSigned (fuel : nat) : M bool :=
  if has_chains then drain GetSignedSignEvents broadcastEvent fuel else mret true.

(** ** The resolver *)
(** Split at the last colon. *)
Fixpoint split_last_colon (l : bytes) : option (bytes * bytes) :=
  match l with
  | [] => None
  | c :: l' =>
      match split_last_colon l' with
      | Some (a, b) => Some (c :: a, b)
      | None => if decide (c = ":"%char) then Some ([], l') else None
      end
  end.
Definition parseCAIPTxHash (caip : string) : res (string * string) :=
  match split_last_colon (to_bytes caip) with
  | None | Some ([], _) => Err ("invalid CAIP tx hash format: " +:+ caip)
  | Some (a, b) => Ok (of_bytes a, of_bytes b)
  end.
Definition extractOutboundIDs (ev : Event) : option (string * string) :=
  d ← EventData ev; Some (OcTxID (AsOutbound d), OcUniversalTxId (AsOutbound d)).

Definition voteOutboundFailureAndMarkReverted (ev : Event) (txID utxID txHash : string) (blockHeight : Z)
    (gasFeeUsed errorMsg : string) : M unit :=
  if has_push_signer then
    let gasFeeUsed := if decide (gasFeeUsed = "") then "0" else gasFeeUsed in
    v ← rpc (VoteOutbound txID utxID (Ux.mkOutboundObservation false blockHeight txHash errorMsg gasFeeUsed));
    match v with
    | Ok voteTxHash =>
        swallow (Update (EventID ev) (λ r, r <| EvStatus := StatusReverted |> <| VoteTxHash := voteTxHash |>))
    | _ => mret tt
    end
  else mret tt.
Definition voteFundMigrationAndMark (ev : Event) (migrationID : Z) (txHash : string) (success : bool) : M unit :=
  if has_push_signer then
    v ← rpc (VoteFundMigration migrationID txHash success);
    match v with
    | Ok voteTxHash =>
        let newStatus := if success then StatusCompleted else StatusReverted in
        swallow (Update (EventID ev) (λ r, r <| EvStatus := newStatus |> <| VoteTxHash := voteTxHash |>))
    | _ => mret tt
    end
  else mret tt.
Definition rewindToSigned (ev : Event) : M unit := swallow (Update (EventID ev) (set_status StatusSigned)).
Definition outboundSigner (ev : Event) : M (option (string * Z)) :=
  match ReadSignedNonce ev with
  | None => mret None
  | Some signedNonce =>
      if has_tss_lookup then
        a ← getTSSAddress;
        mret (match a with Ok addr => Some (addr, signedNonce) | _ => None end)
      else mret None
  end.

Definition resolveOutboundEVM (ev : Event) (chainID rawTxHash : string) : M unit :=
  if decide (rawTxHash = "") then rewindToSigned ev
  else
    match extractOutboundIDs ev with
    | None => mret tt
    | Some (txID, utxID) =>
        with_builder chainID (
          v ← rpc (VerifyBroadcastedTx chainID rawTxHash);
          match v with
          | Ok tx =>
              if Found tx then
                needed ← rpc (GetStandardConfirmations chainID);
                if decide (Confirmations tx < needed) then mret tt
                else if decide (TxStatus tx = 0) then
                  g ← rpc (GetGasFeeUsed chainID rawTxHash);
                  match g with
                  | Ok gasFeeUsed =>
                      voteOutboundFailureAndMarkReverted ev txID utxID rawTxHash (TxHeight tx) gasFeeUsed
                        "tx execution reverted on destination chain"
                  | _ => mret tt
                  end
                else swallow (Update (EventID ev) (set_status StatusCompleted))
              else
                s ← outboundSigner ev;
                match s with
                | None => mret tt
                | Some (signer, signedNonce) =>
                    verdict ← CheckNonce chainID signer signedNonce;
                    match verdict with
                    | NonceUnknown => mret tt
                    | NonceConsumed =>
                        voteOutboundFailureAndMarkReverted ev txID utxID "" 0 "0" "tx not executed on destination chain"
                    | NonceAvailable => rewindToSigned ev
                    end
                end
          | _ => mret tt
          end)
    end.
Definition resolveFundMigrationEVM (ev : Event) (chainID rawTxHash : string) (migrationID : Z) : M unit :=
  if decide (rawTxHash = "") then rewindToSigned ev
  else
    with_builder chainID (
      v ← rpc (VerifyBroadcastedTx chainID rawTxHash);
      match v with
      | Ok tx =>
          if Found tx then
            needed ← rpc (GetStandardConfirmations chainID);
            if decide (Confirmations tx < needed) then mret tt
            else voteFundMigrationAndMark ev migrationID rawTxHash (negb (bool_decide (TxStatus tx = 0)))
          else
            match ReadFundMigrationSigner ev with
            | None => mret tt
            | Some (signer, signedNonce) =>
                verdict ← CheckNonce chainID signer signedNonce;
                match verdict with
                | NonceUnknown => mret tt
                | NonceConsumed => voteFundMigrationAndMark ev migrationID "" false
                | NonceAvailable => rewindToSigned ev
                end
            end
      | _ => mret tt
      end).
Definition svmRevertSlackSeconds : Z := 30.
Definition svmClusterStaleSeconds : Z := 120.
Definition resolveSVM (ev : Event) (chainID : string) : M unit :=
  match extractOutboundIDs ev with
  | None => mret tt
  | Some (txID, utxID) =>
      with_builder chainID (
        x ← rpc (IsAlreadyExecuted chainID txID);
        let '(executed, clusterTime, err) := x in
        match err with
        | Some _ => mret tt
        | None =>
            if (executed : bool) then swallow (Update (EventID ev) (set_status StatusCompleted))
            else
              let deadline := ReadSigningDeadline ev in
              if decide (clusterTime = 0) then mret tt
              else
                now ← rpc NowUnix;
                if decide (svmClusterStaleSeconds < i64 (now - clusterTime)) then mret tt
                else if decide (clusterTime ≤ i64 (deadline + svmRevertSlackSeconds)) then mret tt
                else voteOutboundFailureAndMarkReverted ev txID utxID "" 0 "0" "tx not executed on destination chain"
        end)
  end.
Definition resolveOutbound (ev : Event) : M unit :=
  match parseCAIPTxHash (BroadcastedTxHash ev) with
  | Ok (chainID, rawTxHash) =>
      enabled ← rpc (IsChainOutboundEnabled chainID);
      if (enabled : bool) then
        evm ← rpc (IsEVMChain chainID);
        if (evm : bool) then resolveOutboundEVM ev chainID rawTxHash else resolveSVM ev chainID
      else mret tt
  | _ => mret tt
  end.
Definition resolveFundMigration (ev : Event) : M unit :=
  match parseCAIPTxHash (BroadcastedTxHash ev) with
  | Ok (chainID, rawTxHash) =>
      evm ← rpc (IsEVMChain chainID);
      if (evm : bool) then
        match EventData ev with
        | None => mret tt
        | Some d => resolveFundMigrationEVM ev chainID rawTxHash (FmMigrationID (AsMigration d))
        end
      else mret tt
  | _ => mret tt
  end.
Definition resolveEvent (ev : Event) : M unit :=
  match EvType ev with
  | EventTypeSignOutbound => resolveOutbound ev
  | EventTypeSignFundMigrate => resolveFundMigration ev
  | _ => mret tt
  end.
Definition processBroadcasted (fuel : nat) : M bool :=
  if has_chains then drain GetBroadcastedSignEvents resolveEvent fuel else mret true.

(** ** expirysweeper *)
Definition sweep (maxEventAge : Z) : M unit :=
  b ← rpc GetLatestBlock;
  match b with Ok currentBlock => DeleteExpiredEvents currentBlock ;; mret tt | _ => mret tt end ;;
  now ← rpc Now;
  DeleteOldUnsignedEvents (now - maxEventAge) ;; mret tt.
End flow.
