(* ===== verification/UcFlowSpec.v ===== *)
(** * The universal client: when a failure is voted, and how rows move

    A vote that an outbound failed gives its funds back on Push Chain, so the client
    must not cast one for a transaction that went through or still can.  A row that
    reached a final status must stay there. *)
From S2P Require Import Prelude GoStrings UvTypes TssTypes UxTypes RegTypes World Canonical Utss UcStore UcCoord UcLogic UcFlow.
From Stdlib Require Import Ascii.
Import Uc.

(** ** The record of a broadcast *)
Lemma split_last_colon_none l : ":"%char ∉ l → split_last_colon l = None.
Proof.
  induction l as [|c l IH]; intros Hn; cbn; [done|]. apply not_elem_of_cons in Hn as [Hc Hl].
  rewrite IH by done. by rewrite decide_False.
Qed.
Lemma split_last_colon_app a b : ":"%char ∉ b → split_last_colon (a ++ ":"%char :: b) = Some (a, b).
Proof.
  intros Hb. induction a as [|c a IH]; cbn; [by rewrite split_last_colon_none by done|]. by rewrite IH.
Qed.
Lemma split_last_colon_inv l a b : split_last_colon l = Some (a, b) → l = a ++ ":"%char :: b ∧ ":"%char ∉ b.
Proof.
  revert a b. induction l as [|c l IH]; intros a b; cbn; [done|]. destruct (split_last_colon l) as [[a' b']|] eqn:Hs.
  - intros [= <- <-]. destruct (IH _ _ eq_refl) as [-> ?]. done.
  - case_decide as Hc; [|done]. intros [= <- <-]. subst c. split; [done|]. clear IH. induction l as [|x l IH]; [by intros ?%not_elem_of_nil|].
    cbn in Hs. destruct (split_last_colon l) as [[]|]; [done|]. case_decide; [done|]. apply not_elem_of_cons. auto.
Qed.
Lemma parse_broadcast_hash chain hash :
  chain ≠ "" → ":"%char ∉ to_bytes hash → parseCAIPTxHash (chain +:+ ":" +:+ hash) = Ok (chain, hash).
Proof.
  intros Hc Hh. unfold parseCAIPTxHash. rewrite !to_bytes_app. cbn [to_bytes String.list_ascii_of_string app].
  rewrite split_last_colon_app by done. destruct (to_bytes chain) as [|c l] eqn:Hl.
  - destruct Hc. apply to_bytes_inj. by rewrite Hl.
  - by rewrite <- Hl, !of_to_bytes.
Qed.

Section spec.
Context {E : Type} `{EV : Env E, CF : ClientConfig, CR : Crypto, SO : SortSlice}.
Implicit Types (n : Node E).

Lemma DeriveEVM_no_panic s e : DeriveEVMAddressFromPubkey s ≠ Panic e.
Proof. unfold DeriveEVMAddressFromPubkey. by repeat case_match. Qed.
Lemma rpc_run {A} (c : Call A) n :
  ∃ a e, rpc c n = (Ok a, mkNode (rows n) (sessions n) (coord n) (dbHeight n) (Log c a :: trace n) e).
Proof. unfold rpc. destruct (answer c (env n)) as [a e]. by exists a, e. Qed.
Lemma getTSSAddress_run n :
  ∃ k r e, getTSSAddress n = (Ok r, mkNode (rows n) (sessions n) (coord n) (dbHeight n) (Log GetCurrentKey k :: trace n) e) ∧
    ∀ a, r = Ok a → ∃ key, k = Ok (Some key) ∧ DeriveEVMAddressFromPubkey (Tss.TssPubkey key) = Ok a.
Proof.
  destruct (rpc_run GetCurrentKey n) as (k & e & H). exists k. unfold getTSSAddress, GetTSSAddress, Uc.ask. mrun. rewrite H. mrun.
  destruct k as [[key|]|e'|e']; mrun; try (eexists _, _; split; [reflexivity|done]).
  case_decide; mrun; [eexists _, _; split; [reflexivity|done]|].
  destruct (DeriveEVMAddressFromPubkey _) as [a|e'|e'] eqn:Ha.
  - eexists (Ok a), _. split; [reflexivity|]. intros ? [= <-]. eauto.
  - eexists (Err e'), _. split; [reflexivity|done].
  - by destruct (DeriveEVM_no_panic _ _ Ha).
Qed.
Lemma Update_run id f n :
  swallow (Update id f) n = (Ok tt, n <| rows ::= λ m, from_option (λ ev, <[ id := f ev ]> m) m (m !! id) |>).
Proof.
  unfold Update, get_rows, set_rows. mrun. destruct (rows n !! id) eqn:Hr; mrun; cbn -[insert]; rewrite Hr; [done|].
  by destruct n.
Qed.
End spec.

(** Run a handler from [n]: one case per answer and per test. *)
Ltac ask_step :=
  first
    [ rewrite Update_run
    | match goal with |- context [getTSSAddress ?n] =>
        let k := fresh "k" in let r := fresh "r" in let e := fresh "e" in let H := fresh "Hq" in let Hk := fresh "Hk" in
        destruct (getTSSAddress_run n) as (k & r & e & H & Hk); rewrite H; clear H;
        cbn [rows sessions coord trace env] in *
      end
    | match goal with |- context [rpc ?c ?n] =>
        let a := fresh "a" in let e := fresh "e" in let H := fresh "Hq" in
        destruct (rpc_run c n) as (a & e & H); rewrite H; clear H; cbn [rows sessions coord trace env] in *
      end
    | match goal with
      | |- context [(match ?x with Ok _ => _ | Err _ => _ | Panic _ => _ end) _] => is_var x; destruct x
      | |- context [match ?x with Ok _ => _ | Err _ => _ | Panic _ => _ end] => is_var x; destruct x
      | |- context [(if ?x then _ else _) _] => destruct x eqn:?
      | |- context [(match ?x with Some _ => _ | None => _ end) _] => destruct x as [?|] eqn:?
      | |- context [(let (_, _) := ?x in _) _] => destruct x eqn:?
      | |- context [(match ?x with NonceUnknown => _ | NonceConsumed => _ | NonceAvailable => _ end) _] =>
          destruct x eqn:?
      end ].
Ltac ask := repeat first [ask_step | progress mrun].
(** The calls a run added to the log. *)
Ltac calls_before l t :=
  lazymatch l with
  | t => constr:(@nil Logged)
  | ?x :: ?l' => let r := calls_before l' t in constr:(x :: r)
  end.
Ltac log_of_run :=
  cbn [snd fst trace rows sessions coord env upd];
  lazymatch goal with |- ∃ _, ?l = _ ++ ?t ∧ _ => let r := calls_before l t in exists r; split; [reflexivity|] end.

Section votes.
Context {E : Type} `{EV : Env E, CF : ClientConfig, CR : Crypto, SO : SortSlice}.
Implicit Types (n : Node E) (ev : Event).

(** The transaction is in a block with the confirmations the chain asks for. *)
Definition confirmed (t : list Logged) (chain hash : string) (tx : TxReceipt) : Prop :=
  VerifyBroadcastedTx chain hash ⟹ Ok tx ∈ t ∧ Found tx = true ∧
  ∃ needed, GetStandardConfirmations chain ⟹ needed ∈ t ∧ needed ≤ Confirmations tx.
(** The chain does not know the transaction, and has finalized another one of its
    signer at its nonce. *)
Definition displaced (t : list Logged) (chain hash signer : string) (nonce : Z) : Prop :=
  (∃ tx, VerifyBroadcastedTx chain hash ⟹ Ok tx ∈ t ∧ Found tx = false) ∧
  ∃ finalized, GetNextNonce chain signer true ⟹ Ok finalized ∈ t ∧ nonce < finalized.
(** Solana: the program did not execute it, and the cluster's clock, read within two
    minutes of the host's, is 30 seconds past the deadline that the program enforces; the
    sums are those of [int64]. *)
Definition lapsed (t : list Logged) (chain txID : string) (deadline : Z) : Prop :=
  ∃ clusterTime now, IsAlreadyExecuted chain txID ⟹ (false, clusterTime, None) ∈ t ∧ NowUnix ⟹ now ∈ t ∧
    i64 (deadline + 30) < clusterTime ∧ i64 (now - clusterTime) ≤ 120 ∧ clusterTime ≠ 0.

(** The address of the current key. *)
Definition tss_address (t : list Logged) (signer : string) : Prop :=
  ∃ key, GetCurrentKey ⟹ Ok (Some key) ∈ t ∧ DeriveEVMAddressFromPubkey (Tss.TssPubkey key) = Ok signer.

(** What the client was told before it votes that the outbound of a row failed, and what
    the vote then says. *)
Definition failure_evidence (d : Payload) (t : list Logged) (chain hash : string) (obs : Ux.OutboundObservation) : Prop :=
  (∃ tx fee, confirmed t chain hash tx ∧ TxStatus tx = 0 ∧ GetGasFeeUsed chain hash ⟹ Ok fee ∈ t ∧
     Ux.ObsTxHash obs = hash ∧ Ux.ObsBlockHeight obs = TxHeight tx ∧ Ux.GasFeeUsed obs = (if decide (fee = "") then "0" else fee)) ∨
  ((∃ signer sd, SigningDataOf d = Some sd ∧ tss_address t signer ∧ displaced t chain hash signer (SdNonce sd)) ∨
   lapsed t chain (OcTxID (AsOutbound d)) (OcSigningDeadline (AsOutbound d))) ∧
  Ux.ObsTxHash obs = "" ∧ Ux.ObsBlockHeight obs = 0 ∧ Ux.GasFeeUsed obs = "0".
(** And before it votes on a fund migration, whose signer is the account of the retired key. *)
Definition migration_evidence (d : Payload) (t : list Logged) (chain hash txHash : string) (success : bool) : Prop :=
  (∃ tx, confirmed t chain hash tx ∧ success = negb (bool_decide (TxStatus tx = 0)) ∧ txHash = hash) ∨
  (∃ signer sd, SigningDataOf d = Some sd ∧ DeriveEVMAddressFromPubkey (FmOldTssPubkey (AsMigration d)) = Ok signer ∧
     displaced t chain hash signer (SdNonce sd) ∧ success = false ∧ txHash = "").

(** A call that is a vote names the transfer of the row [ev], and its evidence is among the
    calls [t]. *)
Definition justified ev (chain hash : string) (t : list Logged) (l : Logged) : Prop :=
  match asked l with
  | VoteOutbound txID utxID obs =>
      ∃ d, EvType ev = EventTypeSignOutbound ∧ EventData ev = Some d ∧ txID = OcTxID (AsOutbound d) ∧
        utxID = OcUniversalTxId (AsOutbound d) ∧ Ux.Success obs = false ∧ failure_evidence d t chain hash obs
  | VoteFundMigration migrationID txHash success =>
      ∃ d, EvType ev = EventTypeSignFundMigrate ∧ EventData ev = Some d ∧ migrationID = FmMigrationID (AsMigration d) ∧
        migration_evidence d t chain hash txHash success
  | _ => True
  end.
Definition is_vote (l : Logged) : Prop :=
  match asked l with VoteOutbound _ _ _ | VoteFundMigration _ _ _ => True | _ => False end.
Definition sound_run ev (chain hash : string) (m : M (Node E) unit) n : Prop :=
  ∃ new, trace (m n).2 = new ++ trace n ∧ Forall (justified ev chain hash new) new.

(** Evidence among some calls is evidence among more. *)
Lemma confirmed_mono t t' chain hash tx : t ⊆ t' → confirmed t chain hash tx → confirmed t' chain hash tx.
Proof. intros Ht (H1 & H2 & needed & H3 & H4). split_and!; [by apply Ht|done|]. exists needed. split; [by apply Ht|done]. Qed.
Lemma displaced_mono t t' chain hash signer nonce :
  t ⊆ t' → displaced t chain hash signer nonce → displaced t' chain hash signer nonce.
Proof.
  intros Ht ((tx & H1 & H2) & fin & H3 & H4). split; [exists tx|exists fin]; (split; [by apply Ht|done]).
Qed.
Lemma lapsed_mono t t' chain txID deadline : t ⊆ t' → lapsed t chain txID deadline → lapsed t' chain txID deadline.
Proof. intros Ht (c & now & H1 & H2 & H3). exists c, now. split_and!; [by apply Ht|by apply Ht|apply H3..]. Qed.
Lemma justified_mono ev chain hash t t' l : t ⊆ t' → justified ev chain hash t l → justified ev chain hash t' l.
Proof.
  intros Ht. pose proof (λ tx, confirmed_mono t t' chain hash tx Ht) as Hc.
  pose proof (λ s k, displaced_mono t t' chain hash s k Ht) as Hd. pose proof (λ x d, lapsed_mono t t' chain x d Ht) as Hl.
  unfold justified. destruct (asked l); try done.
  - intros (d & H1 & H2 & H3 & H4 & H5 & H). exists d. split_and!; [done..|].
    destruct H as [(tx & fee & H & Hs & Hf & Ho)|[[(s & sd & H & (key & Hk & Ha) & H7)|H] Ho]].
    + left. exists tx, fee. auto.
    + right. split; [left|done]. exists s, sd. split_and!; [done| |auto]. exists key. auto.
    + right. auto.
  - intros (d & H1 & H2 & H3 & [(tx & H & H4)|(s & sd & H & H4 & H5 & H6)]); exists d; (split_and!; [done..|]).
    + left. exists tx. auto.
    + right. exists s, sd. auto.
Qed.
Lemma silent_run ev chain hash m n : trace (m n).2 = trace n → sound_run ev chain hash m n.
Proof. intros H. exists []. by rewrite H. Qed.
Lemma after_rpc ev chain hash {A} (c : Call A) (f : A → M (Node E) unit) n :
  (∀ a t, justified ev chain hash t (Log c a)) → (∀ a n', sound_run ev chain hash (f a) n') →
  sound_run ev chain hash (rpc c ≫= f) n.
Proof.
  intros Hc Hf. unfold sound_run. rewrite bind_unfold. destruct (rpc_run c n) as (a & e & ->). mrun.
  destruct (Hf a (mkNode (rows n) (sessions n) (coord n) (dbHeight n) (Log c a :: trace n) e)) as (new & Ht & Hj). cbn [trace] in Ht.
  exists (new ++ [Log c a]). rewrite Ht, <- app_assoc. split; [done|]. apply Forall_app. split; [|by constructor].
  eapply Forall_impl; [exact Hj|]. intros l. apply justified_mono. set_solver.
Qed.
End votes.

(** Close the goals of a run whose calls are explicit. *)
Ltac no_vote := repeat (apply Forall_cons; split; [exact I|]); try apply Forall_nil_2.
Ltac runs := unfold sound_run; ask; log_of_run; no_vote.
Ltac nonce_verdict :=
  match goal with H : (if decide ?P then _ else _) = _ |- _ => destruct (decide P); try discriminate H; clear H end.
Ltac looked_up :=
  match goal with Hk : ∀ _, Ok ?x = Ok _ → _ |- _ => destruct (Hk _ eq_refl) as (? & -> & ?); clear Hk end.
Ltac evidence :=
  simplify_eq; try looked_up; try nonce_verdict; repeat (eexists || split || (progress told) || eassumption || reflexivity || lia).
Ltac vote tac := apply Forall_cons; split; [tac|no_vote].

Section sound.
Context {E : Type} `{EV : Env E, CF : ClientConfig, CR : Crypto, SO : SortSlice}.
Implicit Types (n : Node E) (ev : Event).

Lemma resolveOutboundEVM_sound ev chain hash n :
  EvType ev = EventTypeSignOutbound → sound_run ev chain hash (resolveOutboundEVM ev chain hash) n.
Proof.
  intros Hty. unfold resolveOutboundEVM, rewindToSigned, extractOutboundIDs, outboundSigner, ReadSignedNonce. case_decide as Hh.
  { apply silent_run. by rewrite Update_run. }
  destruct (EventData ev) as [d|] eqn:Hd; cbn; [|by apply silent_run]. destruct (SigningDataOf d) as [sd|] eqn:Hsd; cbn;
    unfold with_builder, CheckNonce, voteOutboundFailureAndMarkReverted; runs.
  all: vote ltac:(exists d; split_and!; [done..|]; first [solve [left; evidence] | solve [right; split; [left; evidence|done]]]).
Qed.
Lemma resolveSVM_sound ev chain hash n : EvType ev = EventTypeSignOutbound → sound_run ev chain hash (resolveSVM ev chain) n.
Proof.
  intros Hty. unfold resolveSVM, svmClusterStaleSeconds, svmRevertSlackSeconds, extractOutboundIDs, ReadSigningDeadline.
  destruct (EventData ev) as [d|] eqn:Hd; cbn; [|by apply silent_run].
  unfold with_builder, voteOutboundFailureAndMarkReverted. runs.
  all: vote ltac:(exists d; split_and!; [done..|]; right; split; [right; evidence|done]).
Qed.
Lemma resolveFundMigrationEVM_sound ev chain hash d n :
  EvType ev = EventTypeSignFundMigrate → EventData ev = Some d →
  sound_run ev chain hash (resolveFundMigrationEVM ev chain hash (FmMigrationID (AsMigration d))) n.
Proof.
  intros Hty Hd. unfold resolveFundMigrationEVM, rewindToSigned, ReadFundMigrationSigner. case_decide as Hh.
  { apply silent_run. by rewrite Update_run. }
  rewrite Hd. cbn. destruct (SigningDataOf d) as [sd|] eqn:Hsd; cbn;
    [case_decide; [|destruct (DeriveEVMAddressFromPubkey _) as [signer| |] eqn:Ha]|]; unfold with_builder, CheckNonce, voteFundMigrationAndMark; runs.
  all: vote ltac:(exists d; split_and!; [done..|]; first [solve [left; evidence] | solve [right; evidence]]).
Qed.
(** What is recorded of a broadcast: the chain, a colon and the hash. *)
Definition recorded ev (chain hash : string) : Prop :=
  BroadcastedTxHash ev = chain +:+ ":" +:+ hash ∧ chain ≠ "" ∧ ":"%char ∉ to_bytes hash.
Lemma parse_recorded ev chain hash : parseCAIPTxHash (BroadcastedTxHash ev) = Ok (chain, hash) → recorded ev chain hash.
Proof.
  unfold parseCAIPTxHash. destruct (split_last_colon _) as [[[|c a] b]|] eqn:Hs; try discriminate. intros [= <- <-].
  destruct (split_last_colon_inv _ _ _ Hs) as [Hl Hb]. unfold recorded. rewrite to_of_bytes. split_and!; [|done|done].
  apply to_bytes_inj. rewrite !to_bytes_app, !to_of_bytes, Hl. change (String c (of_bytes a)) with (of_bytes (c :: a)). by rewrite to_of_bytes.
Qed.
Lemma resolveEvent_sound ev n :
  ∃ new, trace (resolveEvent ev n).2 = new ++ trace n ∧
    Forall (λ l, is_vote l → ∃ chain hash, recorded ev chain hash ∧ justified ev chain hash new l) new.
Proof.
  assert (∀ m chain hash, parseCAIPTxHash (BroadcastedTxHash ev) = Ok (chain, hash) →
    sound_run ev chain hash m n → ∃ new, trace (m n).2 = new ++ trace n ∧
    Forall (λ l, is_vote l → ∃ chain hash, recorded ev chain hash ∧ justified ev chain hash new l) new) as Hlift.
  { intros m chain hash Hp%parse_recorded (new & Ht & Hj). exists new. split; [done|]. eapply Forall_impl; [done|]. eauto. }
  assert (∃ new, trace n = new ++ trace n ∧ Forall (λ l, is_vote l → ∃ chain hash,
      recorded ev chain hash ∧ justified ev chain hash new l) new) as Hnone.
  { by exists []. }
  unfold resolveEvent, resolveOutbound, resolveFundMigration.
  destruct (EvType ev) eqn:Hty; try exact Hnone; destruct (parseCAIPTxHash _) as [[chain hash]| |] eqn:Hp; try exact Hnone;
    apply (Hlift _ _ _ eq_refl); clear Hlift Hnone.
  - apply after_rpc; [done|]. intros [] n1; [|by apply silent_run].
    apply after_rpc; [done|]. intros [] n2; [by apply resolveOutboundEVM_sound|by apply resolveSVM_sound].
  - apply after_rpc; [done|]. intros [] n1; [|by apply silent_run].
    destruct (EventData ev) eqn:Hd; [|by apply silent_run]. by apply resolveFundMigrationEVM_sound.
Qed.

(** The resolver makes no row BROADCASTED: those that are, are as they were. *)
Definition as_broadcast n n' : Prop := ∀ id ev, rows n' !! id = Some ev → is_broadcasted ev = true → rows n !! id = Some ev.
Lemma as_broadcast_rpc n {A} (c : Call A) : keeps (as_broadcast n) (rpc c).
Proof. intros n' Hn. unfold rpc. by destruct (answer c (env n')). Qed.
Lemma as_broadcast_Update n id f : (∀ r, is_broadcasted (f r) = false) → keeps (as_broadcast n) (Update id f).
Proof.
  intros Hf n' Hn. unfold Update, get_rows, set_rows. mrun. destruct (rows n' !! id) as [r|] eqn:Hr; mrun; [|done].
  intros i ev Hi Hb. cbn -[insert] in Hi. apply lookup_insert_Some in Hi as [[_ <-]|[_ Hi]]; [by rewrite Hf in Hb|auto].
Qed.
#[local] Hint Resolve as_broadcast_rpc as_broadcast_Update : keeper.
Lemma not_broadcast ev : EvStatus ev ≠ StatusBroadcasted → is_broadcasted ev = false.
Proof. intros Hs. unfold is_broadcasted. by rewrite (bool_decide_eq_false_2 _ Hs), andb_false_r. Qed.
#[local] Hint Extern 1 (∀ _, is_broadcasted _ = false) => intros ?; apply not_broadcast; (done || by case_match) : keeper.
Lemma as_broadcast_resolveEvent n ev : keeps (as_broadcast n) (resolveEvent ev).
Proof.
  unfold resolveEvent, resolveOutbound, resolveFundMigration, resolveOutboundEVM, resolveSVM, resolveFundMigrationEVM,
    with_builder, outboundSigner, rewindToSigned, voteOutboundFailureAndMarkReverted, voteFundMigrationAndMark,
    CheckNonce, getTSSAddress, GetTSSAddress, ask. keep.
Qed.

(** A tick: fetch and handle, as long as the batches are full. *)
Lemma keeps_drain I (P : Event → Prop) fetch handle fuel :
  (∀ k n, I n → ∃ evs, fetch k n = (Ok evs, n) ∧ Forall P evs) →
  (∀ ev, P ev → keeps I (handle ev)) → keeps I (drain (E:=E) fetch handle fuel).
Proof.
  intros Hf Hh. induction fuel as [|fuel IH]; intros n Hn; [done|]. cbn [drain].
  destruct (Hf batchSize n Hn) as (evs & Hq & HP). rewrite bind_unfold, Hq.
  destruct evs as [|ev evs]; [done|]. revert n Hn Hq. intros n Hn _.
  refine (keeps_bind I _ _ _ _ n Hn).
  - apply keeps_for_each_in. intros x Hx. apply Hh. by eapply Forall_forall.
  - intros _. case_decide; [apply keeps_ret|exact IH].
Qed.
Lemma elem_of_select `{!SortSliceLaws} p limit m ev : ev ∈ select p limit m → p ev = true ∧ ∃ id, m !! id = Some ev.
Proof.
  intros Hev. assert (ev ∈ sort_Slice oldest_first (List.filter p (walk_values m))) as Hs.
  { unfold select in Hev. destruct limit; [apply elem_of_take in Hev as (i & Hi & _); by eapply list_elem_of_lookup_2|done]. }
  rewrite sort_Slice_perm, list_elem_of_In, filter_In, <- list_elem_of_In, elem_of_walk_values in Hs. tauto.
Qed.
Lemma fetched `{!SortSliceLaws} p k n :
  ∃ evs, get_rows (select p (Some k)) n = (Ok evs, n) ∧ Forall (λ ev, p ev = true ∧ ∃ id, rows n !! id = Some ev) evs.
Proof. eexists. split; [reflexivity|]. apply Forall_forall. intros ev. apply elem_of_select. Qed.

(** The votes of [new] are about rows of the database that were broadcast, with their evidence. *)
Definition votes_justified n (new : list Logged) : Prop :=
  ∀ l, l ∈ new → is_vote l → ∃ id ev chain hash,
    rows n !! id = Some ev ∧ is_broadcasted ev = true ∧ recorded ev chain hash ∧ justified ev chain hash new l.
(** C4. The resolver never votes without evidence.  Whatever the chains answer and
    however many rounds a tick takes, each vote it casts is about a row that was in the
    database as BROADCASTED when the tick began, and the chain and the transaction it asks
    for are those recorded in the row.  An outbound is only voted as failed, under the two
    identifiers in the row, when its transaction reverted with enough confirmations (the
    vote then carries its hash, height and fee), or is unknown while the chain finalized a
    nonce of the current key's account above the one in the row, or (Solana) was not
    executed 30 seconds past the deadline in the row by a cluster clock that is not stale.
    A fund migration is voted under the identifier in the row: a success exactly when its
    confirmed receipt says so, and as failed also when the retired key's account finalized
    a nonce above the one in the row while the transaction is unknown. *)
Theorem resolver_votes_justified `{!SortSliceLaws} fuel n :
  ∃ new, trace (processBroadcasted fuel n).2 = new ++ trace n ∧ votes_justified n new.
Proof.
  unfold processBroadcasted. destruct has_chains; [|exists []; split; [done|by intros ? ?%not_elem_of_nil]].
  enough (keeps (λ n', as_broadcast n n' ∧ ∃ new, trace n' = new ++ trace n ∧ votes_justified n new)
    (drain GetBroadcastedSignEvents resolveEvent fuel)) as Hkeep.
  { apply (Hkeep n). split; [by intros ??|]. exists []. split; [done|by intros ? ?%not_elem_of_nil]. }
  apply (keeps_drain _ (λ ev, is_broadcasted ev = true ∧ ∃ id, rows n !! id = Some ev)).
  - intros k n' [Hn _]. destruct (fetched is_broadcasted (if decide (k = 0%nat) then 50%nat else k) n') as (evs & He & HF).
    exists evs. split; [exact He|]. eapply Forall_impl; [exact HF|]. intros ev (Hb & id & Hid). eauto.
  - intros ev (Hev & id & Hid) n' (Hn & new & Ht & Hj). split; [by apply as_broadcast_resolveEvent|].
    destruct (resolveEvent_sound ev n') as (more & Hm & HF).
    exists (more ++ new). rewrite Hm, Ht, app_assoc. split; [done|].
    intros l [Hl|Hl]%elem_of_app Hv.
    + rewrite Forall_forall in HF. destruct (HF l Hl Hv) as (chain & hash & Hp & Hjl).
      exists id, ev, chain, hash. split_and!; [done..|]. eapply justified_mono; [|exact Hjl]. set_solver.
    + destruct (Hj l Hl Hv) as (id' & ev' & chain & hash & H1 & H2 & H3 & H4). exists id', ev', chain, hash.
      split_and!; [done..|]. eapply justified_mono; [|exact H4]. set_solver.
Qed.
End sound.
