(* ===== verification/UcSpeak.v ===== *)
(** * The universal client: invariants of its handlers and ticks

    A handler asks the outside world, writes rows, sessions and the coordinator's state.
    What is kept by those, is kept by the whole handler.  The two calls that hand a signed
    transaction to a chain are told apart, since only the broadcaster makes them. *)
From S2P Require Import Prelude GoStrings UvTypes TssTypes UxTypes RegTypes World Canonical Utss.
From S2P Require Import UcStore UcCoord UcSession UcLogic UcFlow UcFlowSpec.
Import Uc.

Definition hands_over {A} (c : Call A) : bool :=
  match c with BroadcastOutboundSigningRequest _ _ _ _ | BroadcastFundMigrationTx _ _ _ _ => true | _ => false end.
(** An update that leaves what the row describes as it is. *)
Definition same_row (ev ev' : Event) : Prop := EventID ev' = EventID ev ∧ EvType ev' = EvType ev ∧ EventData ev' = EventData ev.

Section speaking.
Context {E : Type} `{EV : Env E, CF : ClientConfig, CR : Crypto, SO : SortSlice}.
Implicit Types (n : Node E).
Context (I : Node E → Prop).
Hypothesis I_quiet : ∀ A (c : Call A), hands_over c = false → keeps I (rpc c).
Hypothesis I_set_coord : ∀ f, keeps I (set_coord f).

Lemma I_ask {A} (c : Call (res A)) : hands_over c = false → keeps I (ask c).
Proof. intros Hc. unfold ask. apply keeps_bind; [by apply I_quiet|]. intros ?. keep. Qed.
#[local] Hint Extern 1 (keeps _ (rpc _)) => apply I_quiet; reflexivity : keeper.
#[local] Hint Extern 1 (keeps _ (ask _)) => apply I_ask; reflexivity : keeper.
#[local] Hint Resolve I_set_coord : keeper.
#[local] Hint Extern 2 (keeps _ (for_each _ _)) => apply keeps_for_each; intros ?; keep : keeper.
Lemma I_snapshot : keeps I validatorsSnapshot.
Proof. unfold validatorsSnapshot. keep. Qed.
Lemma I_shuffle {A} i (l : list A) : keeps I (shuffle i l).
Proof. revert l. induction i as [|i IH]; intros l; cbn; keep. Qed.
#[local] Hint Resolve I_snapshot I_shuffle : keeper.
Lemma I_GetTSSAddress : keeps I GetTSSAddress.
Proof. unfold GetTSSAddress. keep. Qed.
#[local] Hint Resolve I_GetTSSAddress : keeper.

(** ** The coordinator's poll *)
Lemma I_setup_for e threshold parties l nonce : keeps I (setup_for e threshold parties l nonce).
Proof.
  unfold setup_for, createKeygenSetup, createQcSetup, createSignSetup, createFundMigrationSignSetup, current_key,
    load_keyshare, buildSignTransaction, buildFundMigrationTransaction. keep.
Qed.
#[local] Hint Resolve I_setup_for : keeper.
Lemma I_processEvent e l nonce : keeps I (processEventAsCoordinator e l nonce).
Proof. unfold processEventAsCoordinator, track. keep. Qed.
Lemma I_assign_nonce e p : keeps I (assign_nonce e p).
Proof. unfold assign_nonce, assignFundMigrateNonce, assignSignNonce, is_evm, fetch_nonce, getNextNonceForChain. keep. Qed.
#[local] Hint Resolve I_processEvent I_assign_nonce : keeper.
Lemma I_coordinate_all all evs p : keeps I (coordinate_all all evs p).
Proof.
  revert p. induction evs as [|e evs IH]; intros p; cbn; [keep|]. apply keeps_bind; [|intros p'; apply IH].
  unfold coordinate, invitees, getSignParticipants, selectRandomThreshold. keep.
Qed.
#[local] Hint Resolve I_coordinate_all : keeper.
Lemma I_poll_tick : keeps I poll_tick.
Proof.
  unfold poll_tick, updateValidators, processConfirmedEvents, GetNonExpiredConfirmedEvents, getInFlightSignCountPerChain,
    GetInFlightSignEvents, get_rows. keep.
Qed.

(** ** One row of the broadcaster or of the resolver *)
Section row.
Context (e : Event).
Hypothesis I_Update : ∀ f, (∀ r, same_row r (f r)) → keeps I (Update (EventID e) f).
#[local] Hint Extern 1 (keeps _ (Update _ _)) => apply I_Update; intros ?; repeat split : keeper.
Lemma I_resolveEvent : keeps I (resolveEvent e).
Proof.
  unfold resolveEvent, resolveOutbound, resolveFundMigration, resolveOutboundEVM, resolveSVM, resolveFundMigrationEVM,
    with_builder, outboundSigner, rewindToSigned, voteOutboundFailureAndMarkReverted, voteFundMigrationAndMark,
    CheckNonce, getTSSAddress. keep.
Qed.
(** The two calls that hand over, with what the row says. *)
Hypothesis I_outbound : ∀ d sd req signature,
  EvType e = EventTypeSignOutbound → EventData e = Some d → SigningDataOf d = Some sd → DecodeSigningData sd = Some (req, signature) →
  keeps I (rpc (BroadcastOutboundSigningRequest (OcDestinationChain (AsOutbound d)) req (AsOutbound d) signature)).
Hypothesis I_migration : ∀ d sd req signature from to,
  EvType e = EventTypeSignFundMigrate → EventData e = Some d → SigningDataOf d = Some sd → DecodeSigningData sd = Some (req, signature) →
  DeriveEVMAddressFromPubkey (FmOldTssPubkey (AsMigration d)) = Ok from → DeriveEVMAddressFromPubkey (FmCurrentTssPubkey (AsMigration d)) = Ok to →
  keeps I (rpc (BroadcastFundMigrationTx (FmChain (AsMigration d)) req (migration_data (AsMigration d) from to None) signature)).
#[local] Hint Extern 1 (keeps _ (rpc (BroadcastOutboundSigningRequest _ _ _ _))) => eapply I_outbound; eassumption : keeper.
#[local] Hint Extern 1 (keeps _ (rpc (BroadcastFundMigrationTx _ _ _ _))) => eapply I_migration; eassumption : keeper.
Lemma I_broadcastEvent : keeps I (broadcastEvent e).
Proof.
  unfold broadcastEvent, broadcastOutbound, broadcastFundMigration, signed_payload.
  destruct (EvType e) eqn:Hty; try (by keep); (destruct (EventData e) as [d|] eqn:Hd; cbn; [|keep]);
    (destruct (SigningDataOf d) as [sd|] eqn:Hsd; cbn; [|keep]);
    unfold broadcastOutboundEVM, broadcastOutboundSVM, broadcastFundMigrationEVM, with_builder, on_chain, checkNonceAndMarkBroadcasted,
      markBroadcasted, CheckNonce, getTSSAddress; keep.
Qed.
End row.

(** ** Messages, when what is written does not matter *)
Section messages.
Hypothesis I_set_rows : ∀ f, keeps I (set_rows f).
Hypothesis I_set_sessions : ∀ f, keeps I (set_sessions f).
#[local] Hint Resolve I_set_rows I_set_sessions : keeper.
Lemma I_rewrite k f : keeps I (Update k f).
Proof. unfold Update, get_rows. keep. Qed.
Lemma I_Persist k d a b c e : keeps I (PersistSignature k d a b c e).
Proof. unfold PersistSignature, get_rows. keep. Qed.
Lemma I_GetEvent k : keeps I (GetEvent k).
Proof. unfold GetEvent, get_rows. keep. Qed.
#[local] Hint Resolve I_rewrite I_Persist I_GetEvent : keeper.
Lemma I_VerifySignedData e sd : keeps I (VerifySignedData e sd).
Proof.
  unfold VerifySignedData, rebuildSigningHash, verifyingPubkey, GetCurrentTSSKey, buildSignTransaction,
    buildFundMigrationTransaction. keep.
Qed.
Lemma I_GetPeer k : keeps I (GetPeerIDFromPartyID k).
Proof. unfold GetPeerIDFromPartyID. keep. Qed.
Lemma I_GetParty k : keeps I (GetPartyIDFromPeerID k).
Proof. unfold GetPartyIDFromPeerID. keep. Qed.
#[local] Hint Resolve I_VerifySignedData I_GetPeer I_GetParty : keeper.
Lemma I_deferring d m : keeps I d → keeps I m → keeps I (deferring d m).
Proof.
  intros Hd Hm n Hn. unfold deferring. specialize (Hm n Hn). destruct (m n) as [r n1]. specialize (Hd n1 Hm). by destruct (d n1).
Qed.
Lemma I_step k : keeps I (processSessionStep k).
Proof.
  unfold processSessionStep, get_session, no_session, handleSessionFinished. keep.
  apply I_deferring; unfold cleanSession, handleSignFinished, handleKeyFinished, handleSigningComplete, GetEvent, get_rows,
    broadcastSignature, Validators; keep.
Qed.
#[local] Hint Resolve I_step : keeper.
Lemma I_setup peer msg : keeps I (handleSetupMessage peer msg).
Proof.
  unfold handleSetupMessage, get_session, IsPeerCoordinator, GetEvent, get_rows, sendACK, open_session, validateParticipants, GetEligibleUV,
    verify_request, verifyOutboundSigningRequest, verifyFundMigrationSigningRequest, signing_req, if_builder, nonce_not_used,
    createSession, current_keyID, GetCurrentTSSKey, load_keyshare, joining_keyshare, sendACK. keep.
Qed.
Lemma I_onReceive peer msg : keeps I (onReceive peer msg).
Proof.
  unfold onReceive, coordinator_HandleIncomingMessage, session_HandleIncomingMessage. pose proof I_setup.
  keep; unfold handleSignedAck, handleUnsignedAck, on_ack, validateIncomingRequest, GetEvent, get_rows, CancelTracking, send_begin,
    handleBeginMessage, handleStepMessage, handleSignatureBroadcast, handleSigningComplete, get_session, no_session; keep.
Qed.
End messages.
End speaking.

(** ** A tick *)
Section ticks.
Context {E : Type} `{EV : Env E, CF : ClientConfig, CR : Crypto, SO : SortSlice, SOL : !SortSliceLaws}.
Implicit Types (n : Node E).
(** What holds of the rows a round fetches, and goes on holding, is known when each is handled. *)
Lemma drain_keeps (I : Node E → Prop) (P : Node E → Event → Prop) (p : Event → bool) handle fuel :
  (∀ n id ev, I n → rows n !! id = Some ev → p ev = true → P n ev) →
  (∀ ev n, I n → P n ev → I (handle ev n).2 ∧ ∀ ev', P n ev' → P (handle ev n).2 ev') →
  keeps I (drain (λ k, get_rows (select p (Some (if decide (k = 0%nat) then 50%nat else k)))) handle fuel).
Proof.
  intros Hf Hh. assert (∀ evs n, I n → Forall (P n) evs → I (for_each handle evs n).2) as Hall.
  { induction evs as [|ev evs IH]; intros n Hn HP; [done|]. inversion_clear HP as [|? ? Hev Hevs]. cbn [for_each]. rewrite bind_unfold.
    destruct (Hh ev n Hn Hev) as [H1 H2]. destruct (handle ev n) as [[[]|?|?] n1]; cbn in *; [|done..]. apply IH; [done|].
    eapply Forall_impl; [exact Hevs|exact H2]. }
  induction fuel as [|fuel IH]; intros n Hn; [done|]. cbn [drain]. rewrite bind_unfold.
  destruct (fetched p (if decide (batchSize = 0%nat) then 50%nat else batchSize) n) as (evs & Hq & HF).
  unfold get_rows in *. rewrite Hq. assert (Forall (P n) evs) as HP.
  { eapply Forall_impl; [exact HF|]. intros ev (Hp & id & Hid). by eapply Hf. }
  destruct evs as [|ev evs]; [done|]. rewrite bind_unfold. specialize (Hall (ev :: evs) n Hn HP).
  destruct (for_each handle (ev :: evs) n) as [[[]|?|?] n1]; cbn [snd] in Hall |- *; [|done..].
  destruct (decide (length (ev :: evs) < batchSize)%nat); [done|by apply IH].
Qed.
End ticks.
