(* ===== verification/UcSettled.v ===== *)
(** * The universal client: a settled transfer stays settled

    The broadcaster, the resolver, the coordinator, the sweeper and the handlers of
    messages all write to the same rows, and most of their updates do not check the
    status they overwrite.  What keeps a COMPLETED or REVERTED transfer as it is, is
    that each of them picks its rows by status.  The expiry of sessions does not. *)
From S2P Require Import Prelude GoStrings UvTypes TssTypes UxTypes RegTypes World Canonical Utss.
From S2P Require Import UcStore UcCoord UcSession UcLogic UcSessionSpec UcFlow UcFlowSpec UcSpeak.
Import Uc.

Section settled.
Context {E : Type} `{EV : Env E, CF : ClientConfig, CR : Crypto, SO : SortSlice, SL : !SortSliceLaws}.
Implicit Types (n : Node E) (ev : Event).

(** ** The invariant *)
Definition keyed n : Prop := ∀ id ev, rows n !! id = Some ev → EventID ev = id.
(** The session of an event has its type. *)
Definition typed n : Prop :=
  ∀ id st ev, sessions n !! id = Some st → rows n !! id = Some ev → EvType ev = protocolType st.
Definition settled ev : Prop := EvStatus ev = StatusCompleted ∨ EvStatus ev = StatusReverted.
(** The invariant, and the row of [id] is [ev]. *)
Definition holds (id : string) ev n : Prop := keyed n ∧ typed n ∧ rows n !! id = Some ev.

Definition same_event ev ev' : Prop := EventID ev' = EventID ev ∧ EvType ev' = EvType ev.

Section one_row.
Context (id : string) (ev : Event).

Lemma holds_same n n' : rows n' = rows n → sessions n' = sessions n → holds id ev n → holds id ev n'.
Proof. unfold holds, keyed, typed. by intros -> ->. Qed.
Lemma holds_rpc {A} (c : Call A) : keeps (holds id ev) (rpc c).
Proof. intros n. unfold rpc. destruct (answer c (env n)). by apply holds_same. Qed.
Lemma holds_set_coord f : keeps (holds id ev) (set_coord f).
Proof. intros n. by apply holds_same. Qed.
Lemma holds_close k : keeps (holds id ev) (set_sessions (delete k)).
Proof.
  intros n (Hk & Ht & Hr). split_and!; [done| |done]. intros k' st ev' Hs. change (delete k (sessions n) !! k' = Some st) in Hs. apply lookup_delete_Some in Hs as [_ Hs]. by apply Ht.
Qed.
Lemma holds_insert k ev' n :
  holds id ev n → k ≠ id → EventID ev' = k → (∀ st, sessions n !! k = Some st → EvType ev' = protocolType st) →
  holds id ev (n <| rows ::= insert k ev' |>).
Proof.
  intros (Hk & Ht & Hr) Hne Hid Hty. unfold holds, keyed, typed. cbn -[insert]. split_and!.
  - intros i e [[<- <-]|[_ Hi]]%lookup_insert_Some; [done|by apply Hk].
  - intros i st e Hs [[<- <-]|[_ Hi]]%lookup_insert_Some; [by apply Hty|by eapply Ht].
  - by rewrite lookup_insert_ne.
Qed.
Lemma holds_Update k f : k ≠ id → (∀ e, same_event e (f e)) → keeps (holds id ev) (Update k f).
Proof.
  intros Hne Hf n Hn. unfold Update, get_rows, set_rows. mrun. destruct (rows n !! k) as [e|] eqn:He; mrun; [|done].
  destruct (Hf e) as [H1 H2]. pose proof Hn as (Hk & Ht & _). apply holds_insert; [done|done|rewrite H1; by apply Hk|].
  intros st Hs. rewrite H2. by eapply Ht.
Qed.
Lemma holds_delete_where p : p ev = false → keeps (holds id ev) (delete_where p).
Proof.
  intros Hp n (Hk & Ht & Hr). unfold delete_where, get_rows, set_rows. mrun. cbn. unfold holds, keyed, typed. cbn. split_and!.
  - intros i e [Hi _]%map_lookup_filter_Some. by apply Hk.
  - intros i st e Hs [Hi _]%map_lookup_filter_Some. by eapply Ht.
  - by apply map_lookup_filter_Some_2.
Qed.
End one_row.
#[local] Hint Resolve holds_rpc holds_set_coord holds_close : keeper.

(** ** The ticks *)
Lemma holds_poll_tick id ev : keeps (holds id ev) poll_tick.
Proof. apply I_poll_tick; [intros; apply holds_rpc|apply holds_set_coord]. Qed.

Section another_row.
Context (id : string) (ev e : Event) (Hne : EventID e ≠ id).
Lemma holds_Update_other f : (∀ r, same_row r (f r)) → keeps (holds id ev) (Update (EventID e) f).
Proof using Hne. intros Hf. apply holds_Update; [done|]. intros r. by destruct (Hf r) as (? & ? & ?). Qed.
Lemma holds_broadcastEvent : keeps (holds id ev) (broadcastEvent e).
Proof using Hne. apply I_broadcastEvent; intros; first [apply holds_rpc|by apply holds_Update_other]. Qed.
Lemma holds_resolveEvent : keeps (holds id ev) (resolveEvent e).
Proof using Hne. apply I_resolveEvent; intros; first [apply holds_rpc|by apply holds_Update_other]. Qed.
End another_row.

(** A tick picks its rows by status, so it does not pick a settled one. *)
Lemma holds_drain id ev p handle fuel :
  p ev = false → (∀ e, EventID e ≠ id → keeps (holds id ev) (handle e)) →
  keeps (holds id ev) (drain (E:=E) (λ k, get_rows (select p (Some (if decide (k = 0%nat) then 50%nat else k)))) handle fuel).
Proof.
  intros Hp Hh. apply (keeps_drain _ (λ e, EventID e ≠ id)); [|done].
  intros k n (Hk & _ & Hr). destruct (fetched p (if decide (k = 0%nat) then 50%nat else k) n) as (evs & He & HF).
  exists evs. split; [exact He|]. eapply Forall_impl; [exact HF|]. intros e [He1 (i & He2)] Heq.
  rewrite (Hk _ _ He2) in Heq. subst i. congruence.
Qed.
Lemma settled_not_picked ev : settled ev → is_signed ev = false ∧ is_broadcasted ev = false.
Proof. intros [Hs|Hs]; unfold is_signed, is_broadcasted; rewrite Hs, !bool_decide_false by done; by rewrite !andb_false_r. Qed.
Lemma holds_processSigned id ev fuel : settled ev → keeps (holds id ev) (processSigned fuel).
Proof.
  intros Hs. unfold processSigned. destruct has_chains; [|apply keeps_ret].
  apply (holds_drain id ev is_signed); [by apply settled_not_picked|]. intros. by apply holds_broadcastEvent.
Qed.
Lemma holds_processBroadcasted id ev fuel : settled ev → keeps (holds id ev) (processBroadcasted fuel).
Proof.
  intros Hs. unfold processBroadcasted. destruct has_chains; [|apply keeps_ret].
  apply (holds_drain id ev is_broadcasted); [by apply settled_not_picked|]. intros. by apply holds_resolveEvent.
Qed.
Lemma holds_sweep id ev maxEventAge : settled ev → ExpiryBlockHeight ev = 0 → keeps (holds id ev) (sweep maxEventAge).
Proof.
  intros Hs Hx. unfold sweep, DeleteExpiredEvents, DeleteOldUnsignedEvents. keep; apply holds_delete_where.
  - by rewrite Hx.
  - destruct Hs as [-> | ->]; by rewrite andb_false_r.
Qed.
Lemma holds_alter id ev k f n :
  k ≠ id → (∀ e, same_event e (f e)) → holds id ev n → holds id ev (n <| rows ::= alter f k |>).
Proof.
  intros Hne Hf (Hk & Ht & Hr). unfold holds, keyed, typed. cbn -[alter]. split_and!.
  - intros i e [(<- & e' & He & ->)|[_ He]]%lookup_alter_Some; [|by apply Hk]. rewrite (proj1 (Hf e')). by apply Hk.
  - intros i st e Hs [(<- & e' & He & ->)|[_ He]]%lookup_alter_Some; [|by eapply Ht]. rewrite (proj2 (Hf e')). by eapply Ht.
  - by rewrite lookup_alter_ne.
Qed.
Lemma holds_Recover id ev : settled ev → keeps (holds id ev) RecoverInProgressEvents.
Proof.
  intros Hs n Hn. unfold RecoverInProgressEvents, get_rows, set_rows. rewrite bind_unfold, gets_run.
  match goal with |- holds id ev (for_each ?f ?l n).2 => cut (keeps (holds id ev) (for_each f l)); [intros Hl; by apply Hl|] end.
  apply keeps_for_each_in. intros [k e] Hin. apply list_elem_of_In, filter_In in Hin as [Hin Hst].
  apply list_elem_of_In, elem_of_walk in Hin. apply bool_decide_eq_true in Hst. cbn in *.
  apply keeps_modify. intros w. apply holds_alter; [|done]. intros ->. destruct Hn as (_ & _ & Hr).
  rewrite Hr in Hin. injection Hin as <-. destruct Hs as [Hs|Hs]; by rewrite Hs in Hst.
Qed.
(** A new event: its identifier is a hash of its type, so a session for it has its type. *)
Definition fresh_event n e : Prop := ∀ st, sessions n !! EventID e = Some st → EvType e = protocolType st.
Lemma holds_Insert id ev e n : fresh_event n e → holds id ev n → holds id ev (InsertEventIfNotExists e n).2.
Proof.
  intros Hf Hn. unfold InsertEventIfNotExists, get_rows, set_rows. mrun.
  destruct (rows n !! EventID e) eqn:He; mrun; [done|]. apply holds_insert; [done| |done|done].
  intros Heq. destruct Hn as (_ & _ & Hr). congruence.
Qed.
Lemma holds_forget id ev : keeps (holds id ev) (set_sessions (λ _, ∅)).
Proof. intros n (Hk & Ht & Hr). split_and!; [done| |done]. by intros i st e Hs. Qed.

(** ** Messages *)
Lemma row_change_same peer msg n t ev ev' : row_change peer msg n t ev ev' → same_event ev ev'.
Proof. by destruct 1. Qed.
Lemma holds_onReceive id ev peer msg n :
  settled ev → is_sign (EvType ev) = true → holds id ev n → holds id ev (onReceive peer msg n).2.
Proof.
  intros Hs Hty (Hk & Ht & Hr). destruct (moved_onReceive peer msg n) as (t & _ & Hm & Hse). revert Hm Hse.
  generalize (onReceive peer msg n).2. intros n' Hm Hse.
  assert (∀ i e', rows n' !! i = Some e' → ∃ e, rows n !! i = Some e ∧ same_event e e') as Hback.
  { intros i e' He'. specialize (Hm i). rewrite He' in Hm. destruct (rows n !! i) as [e|]; [|done]. exists e. split; [done|].
    destruct Hm as [->|[_ Hc]]; [done|by eapply row_change_same]. }
  split_and!.
  - intros i e' He'. destruct (Hback _ _ He') as (e & He & ->  & _). by apply Hk.
  - intros i st e' Hst He'. destruct (Hback _ _ He') as (e & He & _ & ->).
    destruct (Hse i st Hst) as [Hst'|(-> & e2 & He2 & _ & _ & Ho)]; [by eapply Ht|]. destruct Ho as [-> _]. congruence.
  - specialize (Hm id). rewrite Hr in Hm. destruct (rows n' !! id) as [ev'|]; [|done]. f_equal. destruct Hm as [->|[-> Hm]]; [done|].
    assert (¬ key_result peer msg n t) as Hkey by (intros (st & r & Hst & _ & Hno & _); rewrite (Ht _ _ _ Hst Hr) in Hty; congruence).
    destruct Hm as [|(_ & _ & Hc & _)|d sd _ Hu|H|hash H]; [done|..]; unfold settled in Hs; try tauto.
    + rewrite Hc in Hs. by destruct Hs.
    + destruct (EvStatus ev); try discriminate; by destruct Hs.
Qed.

(** ** The client *)
Definition fresh_coordinator : Coordinator := mkCoordinator [] None ∅ ∅.
(** One handler or tick: a message, a poll of the coordinator, rounds of the broadcaster
    and of the resolver, a sweep, a new event from Push Chain, a restart.  The expiry of
    sessions and the removal of old rows by the cleaner are left out. *)
Inductive client_step : Node E → Node E → Prop :=
| step_receive peer msg n : client_step n (onReceive peer msg n).2
| step_poll n : client_step n (poll_tick n).2
| step_broadcast fuel n : client_step n (processSigned fuel n).2
| step_resolve fuel n : client_step n (processBroadcasted fuel n).2
| step_sweep age n : client_step n (sweep age n).2
| step_insert e n : fresh_event n e → client_step n (InsertEventIfNotExists e n).2
| step_restart n :
    client_step n ((set_coord (λ _, fresh_coordinator) ;; set_sessions (λ _, ∅) ;; RecoverInProgressEvents) n).2.

Lemma holds_step id ev n n' :
  settled ev → is_sign (EvType ev) = true → ExpiryBlockHeight ev = 0 → client_step n n' → holds id ev n → holds id ev n'.
Proof.
  intros Hs Hty Hx. destruct 1.
  - by apply holds_onReceive.
  - apply holds_poll_tick.
  - by apply holds_processSigned.
  - by apply holds_processBroadcasted.
  - by apply holds_sweep.
  - by apply holds_Insert.
  - apply keeps_bind; [apply holds_set_coord|intros _]. apply keeps_bind; [apply holds_forget|intros _]. by apply holds_Recover.
Qed.
(** C17. A settled transfer stays settled.  From a node whose rows are under their own
    identifiers and whose sessions have the type of their row, no sequence of messages
    (whatever they say), polls, rounds of the broadcaster and the resolver (however many
    of a tick), sweeps, new events and restarts changes the row of a COMPLETED or
    REVERTED outbound or fund migration. *)
Theorem settled_transfers_stay id ev n n' :
  keyed n → typed n → rows n !! id = Some ev → is_sign (EvType ev) = true → settled ev → ExpiryBlockHeight ev = 0 →
  rtc client_step n n' → rows n' !! id = Some ev.
Proof.
  intros Hk Ht Hr Hty Hs Hx Hrun. assert (holds id ev n) as Hn by done. clear Hk Ht Hr.
  induction Hrun as [n|n n1 n2 Hstep _ IH]; [apply Hn|]. apply IH. by eapply holds_step.
Qed.

(** C39. The expiry of a session reopens a settled transfer: it sets the row to SIGNED
    whenever the row carries a signature, whatever its status, so a COMPLETED or
    REVERTED transfer is handed to the broadcaster again. *)
Theorem expired_session_reopens delay id n st ev sd block :
  sessions n !! id = Some st → rows n !! id = Some ev → settled ev → is_sign (EvType ev) = true →
  signed_data ev = Some sd → (answer GetLatestBlock (env n)).1 = Ok block →
  ∃ ev', rows (expire_session delay id n).2 !! id = Some ev' ∧ is_signed ev' = true.
Proof.
  intros Hs Hr _ Hty Hsd Hb. exists (set_status StatusSigned ev). split; [|unfold is_signed, set_status; cbn; by rewrite Hty].
  unfold expire_session, get_session, cleanSession, set_sessions. mrun. rewrite Hs. mrun.
  assert (∃ n1, rpc GetLatestBlock n = (Ok (Ok block), n1) ∧ rows n1 = rows n) as (n1 & -> & Hn1).
  { unfold rpc. destruct (answer GetLatestBlock (env n)) as [a e]. cbn in Hb. subst a. by eexists. } mrun.
  match goal with |- context [rpc (CloseSession id) ?n1] => destruct (rpc_run (CloseSession id) n1) as (u & e2 & ->) end.
  mrun. rewrite GetEvent_run. cbn. rewrite Hn1, Hr. cbn. mrun.
  rewrite Hsd. unfold Update, get_rows, set_rows. mrun. cbn. rewrite ?Hn1, Hr. cbn. mrun. cbn -[insert]. by rewrite lookup_insert_eq.
Qed.
End settled.
