(* ===== verification/UcAgreed.v ===== *)
(** * The universal client: what it hands over was agreed

    An invariant of the client over all its handlers and ticks.  A request that a session
    signs, a signature in a row and a transaction that is handed to a chain all belong to
    the event that their identifier names on Push Chain: the hash is the one that the
    client's own builder gave for that event, and the signature was verified over it for
    the key of the event, or came out of the client's own session over it. *)
From S2P Require Import Prelude GoStrings UvTypes TssTypes UxTypes RegTypes World Canonical Utss.
From S2P Require Import UcStore UcCoord UcSession UcLogic UcSessionSpec UcFlow UcFlowSpec UcSpeak UcSettled.
Import Uc.

Section agreed.
Context {E : Type} `{EV : Env E, CF : ClientConfig, CR : Crypto, SO : SortSlice, SL : !SortSliceLaws}.
Implicit Types (n : Node E) (ev : Event) (t : list Logged) (st : sessionState).
(** The events of Push Chain by their identifiers. *)
Context (catalogue : string → Event).

(** The row is about the event: its type and payload, the signature aside. *)
Definition bare (d : Payload) : Payload := d <| SigningDataOf := None |>.
Definition describes ev ev0 : Prop := EvType ev = EvType ev0 ∧ bare <$> EventData ev = bare <$> EventData ev0.
(** The client's builder gave the hash for the event, the nonce and, for a migration, the
    amount; or there was no builder to ask. *)
Definition agreed t ev (nonce : Z) (amount : option Z) (hash : list Z) : Prop :=
  rebuilt t ev nonce amount hash ∨ own_view t ev (mkUnsignedSigningReq hash nonce amount) ∨
  ∃ d, EventData ev = Some d ∧ unbuilt t (chain_of (EvType ev) d).
(** The client's own session was started over the hash. *)
Definition session_over t (id : string) (hash : list Z) : Prop :=
  ∃ payload parties share, NewSignSession payload id parties share hash ⟹ Ok tt ∈ t.
Definition signed_by t (id : string) (hash signature : list Z) : Prop :=
  (∃ pub, pub ≠ "" ∧ signing_key t (catalogue id) pub ∧ ecdsa_signed pub hash signature) ∨
  (∃ r, GetResult id ⟹ Ok r ∈ t ∧ ResSignature r = signature ∧ session_over t id hash).
Definition signed_row t (id : string) (sd : SigningData) : Prop :=
  ∃ signature hash amount, sd = signing_data signature hash (SdNonce sd) amount ∧
    agreed t (catalogue id) (SdNonce sd) amount hash ∧ signed_by t id hash signature.
Definition row_ok t (id : string) ev : Prop :=
  describes ev (catalogue id) ∧
  ∀ d sd, is_sign (EvType ev) = true → EventData ev = Some d → SigningDataOf d = Some sd → signed_row t id sd.
Definition session_ok t (id : string) st : Prop :=
  is_sign (protocolType st) = true → ∀ req, signingReq st = Some req →
    agreed t (catalogue id) (ReqNonce req) (ReqAmount req) (ReqSigningHash req) ∧ session_over t id (ReqSigningHash req).
(** What is handed to a chain is the signed transaction of an event, for its chain. *)
Definition handed_ok t (l : Logged) : Prop :=
  match asked l with
  | BroadcastOutboundSigningRequest chain req data signature =>
      has_chains = true ∧ ∃ id d sd, EvType (catalogue id) = EventTypeSignOutbound ∧ EventData (catalogue id) = Some d ∧ data = AsOutbound d ∧
        chain = OcDestinationChain (AsOutbound d) ∧ signed_row t id sd ∧ DecodeSigningData sd = Some (req, signature)
  | BroadcastFundMigrationTx chain req data signature =>
      has_chains = true ∧ ∃ id d sd from to, EvType (catalogue id) = EventTypeSignFundMigrate ∧ EventData (catalogue id) = Some d ∧
        DeriveEVMAddressFromPubkey (FmOldTssPubkey (AsMigration d)) = Ok from ∧
        DeriveEVMAddressFromPubkey (FmCurrentTssPubkey (AsMigration d)) = Ok to ∧
        data = migration_data (AsMigration d) from to None ∧ chain = FmChain (AsMigration d) ∧
        signed_row t id sd ∧ DecodeSigningData sd = Some (req, signature)
  | _ => True
  end.
Definition accountable n : Prop :=
  (∀ id ev, rows n !! id = Some ev → row_ok (trace n) id ev) ∧
  (∀ id st, sessions n !! id = Some st → session_ok (trace n) id st) ∧
  (∀ l, l ∈ trace n → handed_ok (trace n) l).

(** ** More calls, and the same event in another row *)
Lemma agreed_mono t t' ev nonce amount hash : t ⊆ t' → agreed t ev nonce amount hash → agreed t' ev nonce amount hash.
Proof.
  intros Ht [H|[H|(d & Hd & H)]]; [left|right; left|right; right; exists d; split; [done|]];
    [by eapply rebuilt_mono|by eapply own_view_mono|by eapply unbuilt_mono].
Qed.
Lemma session_over_mono t t' id hash : t ⊆ t' → session_over t id hash → session_over t' id hash.
Proof. intros Ht (x & y & z & H). exists x, y, z. auto. Qed.
Lemma signed_row_mono t t' id sd : t ⊆ t' → signed_row t id sd → signed_row t' id sd.
Proof.
  intros Ht (sig & hash & amount & H1 & H2 & H3). exists sig, hash, amount. split_and!; [done|by eapply agreed_mono|].
  destruct H3 as [(pub & ? & ? & ?)|(r & ? & ? & ?)]; [left|right].
  - exists pub. split_and!; [done| |done]. by eapply signing_key_mono.
  - exists r. split_and!; [auto|done|]. by eapply session_over_mono.
Qed.
Lemma agreed_row_mono t t' id ev : t ⊆ t' → row_ok t id ev → row_ok t' id ev.
Proof. intros Ht [H1 H2]. split; [done|]. intros d sd ? ? ?. eapply signed_row_mono; [exact Ht|]. by eapply H2. Qed.
Lemma session_ok_mono t t' id st : t ⊆ t' → session_ok t id st → session_ok t' id st.
Proof. intros Ht H Hs req Hr. destruct (H Hs req Hr). split; [by eapply agreed_mono|by eapply session_over_mono]. Qed.
Lemma handed_ok_mono t t' l : t ⊆ t' → handed_ok t l → handed_ok t' l.
Proof.
  intros Ht. pose proof (λ id sd, signed_row_mono t t' id sd Ht) as Hs. unfold handed_ok. destruct (asked l); try done.
  - intros (? & id & d & sd & ? & ? & ? & ? & ? & ?). split; [done|]. exists id, d, sd. auto 7.
  - intros (? & id & d & sd & x & y & ? & ? & ? & ? & ? & ? & ? & ?). split; [done|]. exists id, d, sd, x, y. auto 9.
Qed.
Lemma bare_eq d d0 : bare d = bare d0 → AsOutbound d = AsOutbound d0 ∧ AsMigration d = AsMigration d0.
Proof. destruct d, d0. unfold bare. cbn. by intros [= -> -> _ _ _]. Qed.
Lemma describes_data ev ev0 d : describes ev ev0 → EventData ev = Some d →
  ∃ d0, EventData ev0 = Some d0 ∧ AsOutbound d = AsOutbound d0 ∧ AsMigration d = AsMigration d0.
Proof.
  intros [_ Hd] He. rewrite He in Hd. destruct (EventData ev0) as [d0|]; [|done]. exists d0. apply (inj Some) in Hd. by apply bare_eq in Hd.
Qed.
Lemma rebuilt_describes t ev ev0 nonce amount hash : describes ev ev0 → rebuilt t ev nonce amount hash → rebuilt t ev0 nonce amount hash.
Proof.
  intros Hd (d & req & He & Hh & H). destruct (describes_data _ _ _ Hd He) as (d0 & He0 & Ho & Hm). exists d0, req.
  rewrite <- (proj1 Hd), <- Ho, <- Hm. done.
Qed.
Lemma own_view_describes t ev ev0 req : describes ev ev0 → own_view t ev req → own_view t ev0 req.
Proof.
  intros Hd (d & ours & He & Hh & H). destruct (describes_data _ _ _ Hd He) as (d0 & He0 & Ho & Hm). exists d0, ours.
  rewrite <- (proj1 Hd), <- Ho, <- Hm. done.
Qed.
Lemma unbuilt_describes t ev ev0 d : describes ev ev0 → EventData ev = Some d → unbuilt t (chain_of (EvType ev) d) →
  ∃ d0, EventData ev0 = Some d0 ∧ unbuilt t (chain_of (EvType ev0) d0).
Proof.
  intros Hd He H. destruct (describes_data _ _ _ Hd He) as (d0 & He0 & Ho & Hm). exists d0. split; [done|].
  unfold chain_of in *. by rewrite <- (proj1 Hd), <- Ho, <- Hm.
Qed.
Lemma signing_key_describes t ev ev0 pub : describes ev ev0 → signing_key t ev pub → signing_key t ev0 pub.
Proof.
  intros Hd. unfold signing_key. rewrite <- (proj1 Hd). destruct (EvType ev); try done.
  intros (d & He & <-). destruct (describes_data _ _ _ Hd He) as (d0 & He0 & _ & Hm). exists d0. by rewrite Hm.
Qed.

(** ** Calls and writes *)
Lemma accountable_log n l e : handed_ok (l :: trace n) l → accountable n →
  accountable (mkNode (rows n) (sessions n) (coord n) (dbHeight n) (l :: trace n) e).
Proof.
  intros Hl (Hr & Hs & Ht). assert (trace n ⊆ l :: trace n) as Hsub by (by apply list_subseteq_cons).
  split_and!; cbn; [intros id ev H; eapply agreed_row_mono; eauto|intros id st H; eapply session_ok_mono; eauto|].
  intros l' [->|Hin]%elem_of_cons; [done|]. eapply handed_ok_mono; eauto.
Qed.
Lemma accountable_quiet {A} (c : Call A) : hands_over c = false → keeps accountable (rpc c).
Proof. intros Hc n Hn. unfold rpc. destruct (answer c (env n)) as [a e]. apply accountable_log; [|done]. by destruct c. Qed.
Lemma accountable_set_coord f : keeps accountable (set_coord f).
Proof. by intros n Hn. Qed.
Lemma row_ok_same t id ev ev' : same_row ev ev' → row_ok t id ev → row_ok t id ev'.
Proof. intros (_ & H1 & H2) [[H3 H4] H5]. unfold row_ok, describes. rewrite H1, H2. split; [done|]. done. Qed.
Lemma accountable_Update k f : (∀ r, same_row r (f r)) → keeps accountable (Update k f).
Proof.
  intros Hf n (Hr & Hs & Ht). unfold Update, get_rows, set_rows. mrun. destruct (rows n !! k) as [e|] eqn:He; mrun; [|done].
  split_and!; [|done|done]. cbn -[insert]. intros id ev [[<- <-]|[_ H]]%lookup_insert_Some; [|by apply Hr].
  eapply row_ok_same; [apply Hf|]. by apply Hr.
Qed.
Lemma accountable_filter p : keeps accountable (delete_where p).
Proof.
  intros n (Hr & Hs & Ht). unfold delete_where, get_rows, set_rows. mrun. split_and!; [|done|done]. cbn.
  intros id ev [H _]%map_lookup_filter_Some. by apply Hr.
Qed.
#[local] Hint Resolve accountable_filter accountable_set_coord : keeper.
#[local] Hint Extern 1 (keeps _ (rpc _)) => apply accountable_quiet; reflexivity : keeper.

(** ** Handlers and ticks *)
Lemma accountable_poll : keeps accountable poll_tick.
Proof. apply I_poll_tick; intros; [by apply accountable_quiet|apply accountable_set_coord]. Qed.
Lemma accountable_resolve fuel : keeps accountable (processBroadcasted fuel).
Proof.
  unfold processBroadcasted. destruct has_chains; [|apply keeps_ret]. apply (drain_keeps _ (λ _ _, True)); [done|].
  intros ev n Hn _. split; [|done]. revert n Hn. apply I_resolveEvent; intros; [by apply accountable_quiet|by apply accountable_Update].
Qed.
Lemma accountable_sweep age : keeps accountable (sweep age).
Proof. unfold sweep, DeleteExpiredEvents, DeleteOldUnsignedEvents. keep. Qed.
Lemma accountable_restart : keeps accountable (set_coord (λ _, fresh_coordinator) ;; set_sessions (λ _, ∅) ;; RecoverInProgressEvents).
Proof.
  assert (keeps accountable (set_sessions (E:=E) (λ _, ∅))) by (by intros n (Hr & Hs & Ht)).
  unfold RecoverInProgressEvents, get_rows, set_rows. keep. apply keeps_for_each. intros [k e]. apply keeps_modify.
  intros n (Hr & Hs & Ht). split_and!; [|done|done]. cbn -[alter].
  intros id ev [(<- & ev' & He & ->)|[_ He]]%lookup_alter_Some; [|by apply Hr]. eapply row_ok_same; [|by apply Hr]. by repeat split.
Qed.
(** The broadcaster: the row is about an event, and its signature was vouched for. *)
Section handing.
Context (Hch : has_chains = true) (n0 : Node E) (id : string) (ev : Event) (Hev : row_ok (trace n0) id ev).
Definition onward n : Prop := accountable n ∧ trace n0 ⊆ trace n.
Lemma onward_quiet {A} (c : Call A) : hands_over c = false → keeps onward (rpc c).
Proof.
  intros Hc n [Hn Ht]. split; [by apply accountable_quiet|]. destruct (rpc_run c n) as (a & e & ->). cbn. set_solver.
Qed.
Lemma onward_Update k f : (∀ r, same_row r (f r)) → keeps onward (Update k f).
Proof.
  intros Hf n [Hn Ht]. split; [by apply accountable_Update|]. unfold Update, get_rows, set_rows. mrun. by destruct (rows n !! k); mrun.
Qed.
Lemma onward_hand {A} (c : Call A) : (∀ a t, trace n0 ⊆ t → handed_ok t (Log c a)) → keeps onward (rpc c).
Proof.
  intros Hc n [Hn Ht]. unfold rpc. destruct (answer c (env n)) as [a e]. split; [|cbn; set_solver].
  apply accountable_log; [|done]. apply Hc. set_solver.
Qed.
Lemma onward_broadcastEvent : keeps onward (broadcastEvent ev).
Proof using All.
  apply I_broadcastEvent; [intros; by apply onward_quiet|intros; by apply onward_Update|..].
  - intros d sd req sig Hty Hd Hsd Hdec. apply onward_hand. intros a t Ht. destruct (agreed_row_mono _ _ _ _ Ht Hev) as [Hde Hsig].
    destruct (describes_data _ _ _ Hde Hd) as (d0 & Hd0 & Ho & _). split; [done|]. exists id, d0, sd. rewrite Ho, <- (proj1 Hde), Hty in *. eauto 9.
  - intros d sd req sig from to Hty Hd Hsd Hdec Hf Hto. apply onward_hand. intros a t Ht. destruct (agreed_row_mono _ _ _ _ Ht Hev) as [Hde Hsig].
    destruct (describes_data _ _ _ Hde Hd) as (d0 & Hd0 & _ & Hm). split; [done|]. exists id, d0, sd, from, to. rewrite Hm, <- (proj1 Hde), Hty in *. eauto 12.
Qed.
End handing.
Lemma accountable_broadcast fuel : keeps accountable (processSigned fuel).
Proof.
  unfold processSigned. destruct has_chains eqn:Hch; [|apply keeps_ret]. apply (drain_keeps _ (λ n ev, ∃ id, row_ok (trace n) id ev)).
  - intros n id ev (Hr & _) Hid _. exists id. by apply Hr.
  - intros ev n Hn [id Hev]. destruct (onward_broadcastEvent Hch n id ev Hev n) as [H1 H2]; [done|]. split; [done|].
    intros ev' [id' Hev']. exists id'. by eapply agreed_row_mono.
Qed.

(** Messages: what is stored was vouched for, and nothing is handed over. *)
Lemma quiet_onReceive peer msg n l : l ∈ trace (onReceive peer msg n).2 → hands_over (asked l) = true → l ∈ trace n.
Proof.
  revert l. enough (keeps (λ n', ∀ l, l ∈ trace n' → hands_over (asked l) = true → l ∈ trace n) (onReceive peer msg)) as Hk by (by apply (Hk n)).
  apply I_onReceive; try (by intros f n' Hn). intros A c Hc n' Hn. destruct (rpc_run c n') as (a & e & ->). cbn.
  intros l [->|Hin]%elem_of_cons; [cbn; congruence|auto].
Qed.
Lemma agreed_requested t ev d id req : describes ev (catalogue id) → EventData ev = Some d →
  unbuilt t (chain_of (EvType ev) d) ∨ own_view t ev req → agreed t (catalogue id) (ReqNonce req) (ReqAmount req) (ReqSigningHash req).
Proof.
  intros Hd He [H|H]; right; [right; by eapply unbuilt_describes|left]. destruct req. by eapply own_view_describes.
Qed.
Lemma session_ok_opened peer msg n t st ev :
  row_ok t (MsgEventID msg) ev → invited peer msg n t ev → started t ev msg → opened peer msg ev st → session_ok t (MsgEventID msg) st.
Proof.
  intros [Hd _] (_ & _ & _ & _ & _ & _ & _ & Hreq) Hst (Hp & _ & _ & Hr) Hs req Hreq'. rewrite Hp in Hs. rewrite Hr in Hreq'.
  destruct (Hreq Hs) as (r & d & Hr1 & Hda & Hv). destruct (Hst Hs) as (r' & share & Hr2 & Hn). simplify_eq.
  split; [by eapply agreed_requested|]. by eexists _, _, _.
Qed.
Lemma vouched_row peer msg n t t' ev sd : t ⊆ t' → trace n ⊆ t' → accountable n → is_sign (EvType ev) = true → describes ev (catalogue (MsgEventID msg)) →
  vouched peer msg n t ev sd → signed_row t' (MsgEventID msg) (signing_data (SdSignature sd) (SdSigningHash sd) (SpNonce sd) (SpAmount sd)).
Proof.
  intros Ht Hn (_ & Hs & _) Hsig Hd Hv. exists (SdSignature sd), (SdSigningHash sd), (SpAmount sd). split; [done|]. cbn [SdNonce signing_data].
  destruct Hv as [(_ & _ & [Hr (pub & Hne & Hk & He)])|(st & req & r & Hst & _ & Hty & Hreq & Hres & ->)].
  - split; [left; eapply rebuilt_describes; [exact Hd|eapply rebuilt_mono; [exact Ht|done]]|left]. exists pub. split_and!; [done| |done].
    eapply signing_key_describes; [exact Hd|eapply signing_key_mono; [exact Ht|done]].
  - destruct (Hs _ _ Hst Hty _ Hreq) as [Ha Ho]. cbn. split; [eapply agreed_mono; [exact Hn|done]|right]. exists r.
    split_and!; [auto|done|eapply session_over_mono; [exact Hn|done]].
Qed.
Lemma accountable_receive peer msg : keeps accountable (onReceive peer msg).
Proof.
  intros n Hn. pose proof (quiet_onReceive peer msg n) as Hq. destruct (moved_onReceive peer msg n) as (t & Ht & Hm & Hse).
  revert Ht Hm Hse Hq. generalize (onReceive peer msg n).2. intros n' Ht Hm Hse Hq. pose proof Hn as (Hr & Hs & Hh).
  assert (trace n ⊆ trace n' ∧ t ⊆ trace n') as [H1 H2] by (rewrite Ht; set_solver).
  assert (∀ id ev, rows n !! id = Some ev → row_ok (trace n') id ev) as Hrow by (intros; eapply agreed_row_mono; [exact H1|by apply Hr]).
  split_and!.
  - intros id ev' Hev'. specialize (Hm id). rewrite Hev' in Hm. destruct (rows n !! id) as [ev|] eqn:Hev; [|done].
    destruct Hm as [->|[-> Hc]]; [by apply Hrow|]. specialize (Hrow _ _ Hev).
    destruct Hc as [|_|d sd Hd _ Hv|_|hash _]; try (eapply row_ok_same; [|exact Hrow]; by repeat split).
    pose proof Hrow as [[Hty Hde] _]. split; [split; [done|]|].
    { cbn. rewrite <- Hde, Hd. by destruct d. }
    cbn. intros ? ? Hs2 [= <-] [= <-]. eapply (vouched_row peer msg n t (trace n') ev); try done.
  - intros id st Hst. destruct (Hse id st Hst) as [Hst'|(-> & ev & Hev & Hi & Hst' & Ho)]; [eapply session_ok_mono; [exact H1|by apply Hs]|].
    eapply session_ok_opened; [by apply Hrow|by eapply invited_mono|by eapply started_mono|done].
  - intros l Hl. destruct (hands_over (asked l)) eqn:Hha.
    + eapply handed_ok_mono; [exact H1|]. apply Hh. by apply Hq.
    + unfold handed_ok. by destruct (asked l).
Qed.

(** ** Runs *)
(** A new event is the one that its identifier names, without a signature; every other step
    brings no row. *)
Definition listed ev : Prop := describes ev (catalogue (EventID ev)) ∧ ∀ d, EventData ev = Some d → SigningDataOf d = None.
Inductive listed_step : Node E → Node E → Prop :=
| listed_insert ev n : listed ev → listed_step n (InsertEventIfNotExists ev n).2
| listed_other n n' : client_step n n' → (∀ id, rows n !! id = None → rows n' !! id = None) → listed_step n n'.
Lemma accountable_insert ev : listed ev → keeps accountable (InsertEventIfNotExists ev).
Proof.
  intros [Hd Hno] n (Hr & Hs & Ht). unfold InsertEventIfNotExists, get_rows, set_rows. mrun. destruct (rows n !! EventID ev) eqn:He; mrun; [done|].
  split_and!; [|done|done]. cbn -[insert]. intros id e [[<- <-]|[_ H]]%lookup_insert_Some; [|by apply Hr].
  split; [done|]. intros d sd _ Hda Hsd. by rewrite (Hno _ Hda) in Hsd.
Qed.
Lemma accountable_step n n' : listed_step n n' → accountable n → accountable n'.
Proof.
  destruct 1 as [ev n Hl|n n' Hst Hno]; [by apply accountable_insert|]. destruct Hst as [| | | | |e n|].
  - apply accountable_receive.
  - apply accountable_poll.
  - apply accountable_broadcast.
  - apply accountable_resolve.
  - apply accountable_sweep.
  - revert Hno. unfold InsertEventIfNotExists, get_rows, set_rows. mrun. destruct (rows n !! EventID e) eqn:He; mrun; [done|].
    intros Hno. specialize (Hno _ He). cbn -[insert] in Hno. by rewrite lookup_insert_eq in Hno.
  - apply accountable_restart.
Qed.
Lemma accountable_run n n' : rtc listed_step n n' → accountable n → accountable n'.
Proof. induction 1; eauto using accountable_step. Qed.
End agreed.
