(* ===== verification/UcDrain.v ===== *)
(** * The universal client: when a tick ends

    A tick of the broadcaster or of the resolver handles its rows in batches of 100 and
    stops after a short batch.  It ends when handling a row moves it out of the query;
    when 100 rows stay where they are, it never does. *)
From S2P Require Import Prelude GoStrings UvTypes TssTypes UxTypes RegTypes World Canonical Utss.
From S2P Require Import UcStore UcCoord UcSession UcLogic UcSessionSpec UcFlow UcFlowSpec UcSettled.
Import Uc.

(** ** Counting the rows of a query *)
Definition matching (p : Event → bool) (m : gmap string Event) : nat := length (List.filter p (walk_values m)).
Lemma matching_fresh p m k e : m !! k = None → matching p (<[ k := e ]> m) = ((if p e then 1 else 0) + matching p m)%nat.
Proof.
  intros Hk. unfold matching, walk_values. assert (walk (<[ k := e ]> m) ≡ₚ (k, e) :: walk m) as Hp.
  { unfold walk. rewrite !merge_sort_Permutation. by apply map_to_list_insert. }
  rewrite (Permutation_length (filter_perm p _ _ (fmap_Permutation snd _ _ Hp))). cbn. by destruct (p e).
Qed.
Lemma matching_update p m k e e' :
  m !! k = Some e → p e = true → p e' = false → matching p m = S (matching p (<[ k := e' ]> m)).
Proof.
  intros He Hp Hp'. rewrite <- (insert_delete_id m k e He) at 1. rewrite <- (insert_delete_eq m k e').
  rewrite !matching_fresh by apply lookup_delete_eq. by rewrite Hp, Hp'.
Qed.
Lemma matching_none p m : matching p m = 0%nat → ∀ id e, m !! id = Some e → p e = false.
Proof.
  intros H id e He. destruct (p e) eqn:Hp; [|done]. unfold matching in H. apply nil_length_inv in H.
  assert (e ∈ List.filter p (walk_values m)) as Hin; [|by rewrite H in Hin; apply not_elem_of_nil in Hin].
  apply list_elem_of_In, filter_In. split; [|done]. apply list_elem_of_In, elem_of_walk_values. eauto.
Qed.

Section drain.
Context {E : Type} `{EV : Env E, CF : ClientConfig, CR : Crypto, SO : SortSlice, SL : !SortSliceLaws}.
Implicit Types (n : Node E) (ev : Event).

Lemma length_select p k m : length (select p (Some k) m) = (k `min` matching p m)%nat.
Proof. unfold select. by rewrite length_take, (Permutation_length (sort_Slice_perm _ _)). Qed.
Lemma NoDup_ids_filter p l : NoDup (EventID <$> l) → NoDup (EventID <$> List.filter p l).
Proof.
  induction l as [|x l IH]; cbn; [done|]. intros [Hx Hl]%NoDup_cons. destruct (p x); cbn; [|by apply IH].
  apply NoDup_cons. split; [|by apply IH]. contradict Hx. apply list_elem_of_fmap in Hx as (y & -> & Hy).
  apply list_elem_of_fmap. exists y. split; [done|]. apply list_elem_of_In, filter_In in Hy as [Hy _]. by apply list_elem_of_In.
Qed.
Lemma NoDup_select p k n : keyed n → NoDup (EventID <$> select p (Some k) (rows n)).
Proof.
  intros Hk. unfold select. rewrite fmap_take. eapply sublist_NoDup; [|apply sublist_take].
  rewrite (fmap_Permutation EventID _ _ (sort_Slice_perm _ _)). apply NoDup_ids_filter. unfold walk_values.
  rewrite <- list_fmap_compose. rewrite (list_fmap_ext _ fst); [apply NoDup_walk_fst|].
  intros i [id e] Hi. apply list_elem_of_lookup_2, elem_of_walk in Hi. by apply Hk.
Qed.

(** ** A loop over the rows that match [p] *)
Section loop.
Context (p : Event → bool) (handle : Event → M (Node E) unit).
#[local] Abbreviation fetch := (λ k, get_rows (select p (Some (if decide (k = 0%nat) then 50%nat else k)))).
Lemma drain_unfold fuel n :
  drain fetch handle (S fuel) n =
  match select p (Some 100%nat) (rows n) with
  | [] => (Ok true, n)
  | evs => (for_each handle evs ;; if decide (length evs < 100)%nat then mret true else drain fetch handle fuel) n
  end.
Proof.
  cbn [drain]. rewrite bind_unfold. unfold get_rows. rewrite gets_run.
  change (if decide (batchSize = 0%nat) then 50%nat else batchSize) with 100%nat. change batchSize with 100%nat.
  by destruct (select p (Some 100%nat) (rows n)).
Qed.

(** Rows that stay where they are keep the loop busy for ever. *)
Lemma drain_spins fuel n :
  (∀ e n', p e = true → (∃ id, rows n !! id = Some e) → rows n' = rows n →
    (handle e n').1 = Ok tt ∧ rows (handle e n').2 = rows n) →
  (100 ≤ matching p (rows n))%nat → (drain fetch handle fuel n).1 = Ok false ∧ rows (drain fetch handle fuel n).2 = rows n.
Proof.
  intros Hh Hc. assert (∀ n', rows n' = rows n → (drain fetch handle fuel n').1 = Ok false ∧ rows (drain fetch handle fuel n').2 = rows n);
    [|by auto]. induction fuel as [|fuel IH]; intros n' Hn'; [done|]. rewrite drain_unfold, Hn'.
  assert (length (select p (Some 100%nat) (rows n)) = 100%nat) as Hlen by (rewrite length_select; lia).
  destruct (select p (Some 100%nat) (rows n)) as [|e0 l0] eqn:Hsel; [done|]. rewrite <- Hsel in *. clear Hsel e0 l0.
  assert (∀ evs n1, evs ⊆ select p (Some 100%nat) (rows n) → rows n1 = rows n →
    (for_each handle evs n1).1 = Ok tt ∧ rows (for_each handle evs n1).2 = rows n) as Hfor.
  { induction evs as [|e evs IHe]; intros n1 Hsub Hn1; [done|]. rewrite for_each_cons_run, bind_unfold.
    destruct (elem_of_select p _ _ e (Hsub e (list_elem_of_here _ _))) as [Hp Hid]. destruct (Hh e n1 Hp Hid Hn1) as [H1 H2].
    destruct (handle e n1) as [r n2]. cbn in *. subst r. apply IHe; [set_solver|done]. }
  rewrite bind_unfold. destruct (Hfor _ n' (reflexivity _) Hn') as [H1 H2].
  destruct (for_each handle _ n') as [r n2]. cbn in H1, H2. subst r. rewrite decide_False by lia. by apply IH.
Qed.

(** [handle] takes a row out of the query, and leaves the others alone. *)
Definition clears (good : Event → Prop) : Prop := ∀ e n, p e = true → good e → rows n !! EventID e = Some e →
  ∃ e' n', handle e n = (Ok tt, n') ∧ rows n' = <[ EventID e := e' ]> (rows n) ∧ p e' = false ∧ EventID e' = EventID e.
Definition all_good (good : Event → Prop) n : Prop := ∀ id e, rows n !! id = Some e → p e = true → good e.
Lemma batch_clears good evs n :
  clears good → keyed n → all_good good n → NoDup (EventID <$> evs) →
  (∀ e, e ∈ evs → p e = true ∧ rows n !! EventID e = Some e) →
  ∃ n', for_each handle evs n = (Ok tt, n') ∧ keyed n' ∧ all_good good n' ∧
    matching p (rows n) = (length evs + matching p (rows n'))%nat.
Proof.
  intros Hc. revert n. induction evs as [|e evs IH]; intros n Hk Hg Hnd Hin; [by exists n|].
  rewrite for_each_cons_run, bind_unfold. apply NoDup_cons in Hnd as [Hne Hnd].
  destruct (Hin e (list_elem_of_here _ _)) as [Hp Hr].
  destruct (Hc e n Hp (Hg _ _ Hr Hp) Hr) as (e' & n1 & -> & Hr1 & Hp' & Hid).
  destruct (IH n1) as (n2 & H2 & Hk2 & Hg2 & Hm2).
  - intros i x. rewrite Hr1. intros [[<- <-]|[_ Hx]]%lookup_insert_Some; [done|by apply Hk].
  - intros i x. rewrite Hr1. intros [[<- <-]|[_ Hx]]%lookup_insert_Some; [congruence|by eapply Hg].
  - done.
  - intros x Hx. destruct (Hin x (list_elem_of_further _ _ _ Hx)) as [Hpx Hrx]. split; [done|]. rewrite Hr1, lookup_insert_ne; [done|].
    intros Heq. apply Hne. rewrite Heq. by apply list_elem_of_fmap_2.
  - exists n2. split_and!; [done..|]. rewrite (matching_update p _ _ _ e' Hr Hp Hp'), <- Hr1, Hm2. done.
Qed.
Lemma drain_finishes good fuel n :
  clears good → keyed n → all_good good n → (matching p (rows n) < 100 * fuel)%nat →
  ∃ n', drain fetch handle fuel n = (Ok true, n') ∧ matching p (rows n') = 0%nat.
Proof.
  intros Hc. revert n. induction fuel as [|fuel IH]; intros n Hk Hg Hf; [lia|]. rewrite drain_unfold.
  pose proof (length_select p 100 (rows n)) as Hlen.
  destruct (batch_clears good (select p (Some 100%nat) (rows n)) n) as (n1 & H1 & Hk1 & Hg1 & Hm1); [done..|by apply NoDup_select| |].
  { intros e [Hp (id & Hid)]%elem_of_select. split; [done|]. by rewrite (Hk _ _ Hid). }
  destruct (select p (Some 100%nat) (rows n)) as [|e0 l0] eqn:Hsel.
  { exists n. split; [done|]. change (length []) with 0%nat in Hlen. lia. }
  rewrite bind_unfold, H1. case_decide as Hshort.
  - exists n1. split; [done|]. lia.
  - apply IH; [done|done|lia].
Qed.
End loop.

(** ** The broadcaster *)
(** The outside world always answers [c] in a way that [P] accepts. *)
Definition always {A} (c : Call A) (P : A → Prop) : Prop := ∀ e : E, P (answer c e).1.
Lemma always_run {A} (c : Call A) P n :
  always c P → ∃ a n', rpc c n = (Ok a, n') ∧ P a ∧ rows n' = rows n.
Proof. intros Hc. specialize (Hc (env n)). unfold rpc. destruct (answer c (env n)) as [a e]. by eexists _, _. Qed.

(** C40. The broadcaster can spin for ever: with 100 signed outbounds whose chain has
    outbounds disabled, a tick fetches the same full batch again and again, and does not
    end after any number of rounds. *)
Theorem processSigned_spins fuel n :
  has_chains = true → (∀ chain, always (IsChainOutboundEnabled chain) (.= false)) →
  (∀ id e, rows n !! id = Some e → is_signed e = true → EvType e = EventTypeSignOutbound) →
  (100 ≤ matching is_signed (rows n))%nat → (processSigned fuel n).1 = Ok false.
Proof.
  intros Hch Hoff Hty Hc. unfold processSigned. rewrite Hch. apply (drain_spins is_signed); [|done].
  intros e n' Hp (id & Hid) Hr. unfold broadcastEvent. rewrite (Hty _ _ Hid Hp). unfold broadcastOutbound.
  destruct (signed_payload e) as [[d sd]|]; [|done]. rewrite bind_unfold.
  destruct (always_run _ _ n' (Hoff (OcDestinationChain (AsOutbound d)))) as (a & n1 & -> & -> & Hr1). split; [done|]. cbn. by rewrite Hr1.
Qed.

(** A signed outbound whose signature decodes. *)
Definition broadcastable ev : Prop :=
  EvType ev = EventTypeSignOutbound ∧ ∃ d sd x, signed_payload ev = Some (d, sd) ∧ DecodeSigningData sd = Some x.
(** A chain that takes every transaction. *)
Definition chains_accept : Prop :=
  (∀ chain, always (IsChainOutboundEnabled chain) (.= true)) ∧ (∀ chain, always (IsEVMChain chain) (.= true)) ∧
  (∀ chain, always (GetTxBuilder chain) (.= Ok tt)) ∧
  (∀ chain req data sig, always (BroadcastOutboundSigningRequest chain req data sig) (λ r, r.2 = None)).
Lemma broadcastEvent_clears : chains_accept → clears is_signed (broadcastEvent (E:=E)) broadcastable.
Proof.
  intros (Hen & Hevm & Hb & Hsend) e n Hp (Hty & d & sd & [req sig] & Hpay & Hdec) Hr.
  unfold broadcastEvent. rewrite Hty. unfold broadcastOutbound. rewrite Hpay, bind_unfold.
  destruct (always_run _ _ n (Hen (OcDestinationChain (AsOutbound d)))) as (? & n1 & -> & -> & Hr1). rewrite bind_unfold.
  destruct (always_run _ _ n1 (Hevm (OcDestinationChain (AsOutbound d)))) as (? & n2 & -> & -> & Hr2).
  unfold broadcastOutboundEVM, with_builder. rewrite Hdec, bind_unfold.
  destruct (always_run _ _ n2 (Hb (OcDestinationChain (AsOutbound d)))) as (? & n3 & -> & -> & Hr3). rewrite bind_unfold.
  destruct (always_run _ _ n3 (Hsend (OcDestinationChain (AsOutbound d)) req (AsOutbound d) sig)) as ([hash err] & n4 & -> & He & Hr4).
  cbn in He. subst err. unfold markBroadcasted. rewrite Update_run.
  eexists _, _. split; [reflexivity|]. cbn -[insert]. rewrite Hr4, Hr3, Hr2, Hr1, Hr. cbn -[insert]. split; [reflexivity|].
  split; [|done]. unfold is_signed. cbn. by rewrite andb_false_r.
Qed.
(** A tick of the broadcaster ends and leaves nothing behind: when the chains take
    every transaction and every signed row is an outbound whose signature decodes, one
    round per 100 rows, and one more, are enough, and no signed row is left. *)
Theorem processSigned_finishes fuel n :
  has_chains = true → chains_accept → keyed n →
  (∀ id e, rows n !! id = Some e → is_signed e = true → broadcastable e) →
  (matching is_signed (rows n) < 100 * fuel)%nat →
  ∃ n', processSigned fuel n = (Ok true, n') ∧ ∀ id e, rows n' !! id = Some e → is_signed e = false.
Proof.
  intros Hch Hacc Hk Hg Hf. unfold processSigned. rewrite Hch.
  destruct (drain_finishes is_signed broadcastEvent broadcastable fuel n) as (n' & Hn' & Hm); [by apply broadcastEvent_clears|done..|].
  exists n'. split; [exact Hn'|]. by apply matching_none.
Qed.
End drain.
