(* ===== verification/UcNonces.v ===== *)
(** * The universal client: the nonces of a poll

    The coordinator gives a nonce to every transaction it has signed in a poll.  Two
    transactions of one account with the same nonce exclude each other on the chain. *)
From S2P Require Import Prelude GoStrings UvTypes TssTypes UxTypes RegTypes World Canonical Utss.
From S2P Require Import UcStore UcCoord UcSession UcLogic UcDrain.
Import Uc.

Section nonces.
Context {E : Type} `{EV : Env E, CF : ClientConfig, CR : Crypto, SO : SortSlice}.
Implicit Types (n : Node E) (t : list Logged) (p : poll).

(** The nonces of the outbounds to [chain] that the client had built, the last one first. *)
Definition nonce_asked (chain : string) (l : Logged) : option Z :=
  match asked l with
  | GetOutboundSigningRequest c _ nonce => if decide (c = chain) then Some nonce else None
  | _ => None
  end.
Definition nonces (chain : string) t : list Z := omap (nonce_asked chain) t.

(** After the calls [t] of a poll: the nonces of a chain decrease, going back, from the
    last one the poll gave out there, which is below [bound]. *)
Definition poll_ok (bound : Z) p t : Prop := ∀ chain,
  StronglySorted (λ a b, b < a) (nonces chain t) ∧
  (∀ x, x ∈ nonces chain t → ∃ k, nonceByChain p !! chain = Some k ∧ x ≤ k) ∧
  (∀ k, nonceByChain p !! chain = Some k → 0 ≤ k < bound).
(** The nonce [x] of [chain] has been given out, and not been used yet. *)
Definition reserved (chain : string) (x : Z) p t : Prop :=
  nonceByChain p !! chain = Some x ∧ ∀ y, y ∈ nonces chain t → y < x.
Definition since (t0 : list Logged) (P : list Logged → Prop) n : Prop := ∃ t, trace n = t ++ t0 ∧ P t.

Lemma poll_ok_mono b b' p t : b ≤ b' → poll_ok b p t → poll_ok b' p t.
Proof. intros Hb H chain. destruct (H chain) as (H1 & H2 & H3). split_and!; [done..|]. intros k Hk. specialize (H3 k Hk). lia. Qed.

Lemma into_some {A B} (I J : Node E → Prop) (a : A) e (f : A → M (Node E) B) : into I J (f a) → into I J (lift_option (Some a) e ≫= f).
Proof. done. Qed.

(** Code that builds no outbound. *)
Definition same_nonces t t' : Prop := ∀ chain, nonces chain t' = nonces chain t.
Lemma poll_ok_same b p t t' : same_nonces t t' → poll_ok b p t → poll_ok b p t'.
Proof. intros Hs H chain. rewrite (Hs chain). apply H. Qed.
Lemma reserved_same chain x p t t' : same_nonces t t' → reserved chain x p t → reserved chain x p t'.
Proof. intros Hs [H1 H2]. split; [done|]. by rewrite (Hs chain). Qed.

(** A property of the calls of a poll that only the nonces matter to. *)
Definition about_nonces (P : list Logged → Prop) : Prop := ∀ t t', same_nonces t t' → P t → P t'.
Lemma since_rpc t0 P {A} (c : Call A) :
  about_nonces P → (∀ chain a, nonce_asked chain (Log c a) = None) → keeps (since t0 P) (rpc c).
Proof.
  intros HP Hc n (t & Ht & Hn). unfold rpc. destruct (answer c (env n)) as [a e]. exists (Log c a :: t). split; [cbn; by rewrite Ht|].
  apply (HP t); [|done]. intros chain. unfold nonces. cbn. by rewrite Hc.
Qed.
Lemma since_set_coord t0 P f : keeps (since t0 P) (set_coord f).
Proof. by intros n. Qed.
End nonces.
#[export] Hint Resolve since_set_coord : keeper.
#[export] Hint Extern 1 (keeps (since _ _) (rpc _)) => apply since_rpc; [assumption | intros; reflexivity] : keeper.

Section quiet.
Context {E : Type} `{EV : Env E, CF : ClientConfig, CR : Crypto, SO : SortSlice}.
Context (t0 : list Logged) (P : list Logged → Prop) (HP : about_nonces P).
#[local] Abbreviation still := (keeps (W:=Node E) (since t0 P)).
Lemma since_ask {A} (c : Call (res A)) : (∀ chain a, nonce_asked chain (Log c a) = None) → still (ask c).
Proof using HP. intros Hc. unfold ask. apply keeps_bind; [by apply since_rpc|]. intros r. keep. Qed.
#[local] Hint Extern 1 (keeps (since _ _) (ask _)) => apply since_ask; intros; reflexivity : keeper.
Lemma since_snapshot : still validatorsSnapshot.
Proof using HP. unfold validatorsSnapshot. keep. Qed.
Lemma since_GetTSSAddress : still GetTSSAddress.
Proof using HP. unfold GetTSSAddress. keep. Qed.
Lemma since_shuffle {A} i (l : list A) : still (shuffle i l).
Proof using HP. revert l. induction i as [|i IH]; intros l; cbn; keep. Qed.
#[local] Hint Resolve since_GetTSSAddress since_shuffle since_snapshot : keeper.
Lemma since_invitees ty l : still (invitees ty l).
Proof using HP. unfold invitees, getSignParticipants, selectRandomThreshold. keep. Qed.
Lemma since_assignFundMigrateNonce ev chain : still (assignFundMigrateNonce ev chain).
Proof using HP. unfold assignFundMigrateNonce. keep. Qed.
Lemma since_getNextNonce chain b : still (getNextNonceForChain chain b).
Proof using HP. unfold getNextNonceForChain. keep. Qed.
(** Everything of a setup but the transaction of an outbound. *)
Lemma since_setup_for ev threshold parties l nonce :
  EvType ev ≠ EventTypeSignOutbound → still (setup_for ev threshold parties l nonce).
Proof using HP.
  intros Hty. unfold setup_for, createKeygenSetup, createQcSetup, createFundMigrationSignSetup, current_key,
    load_keyshare, buildFundMigrationTransaction. destruct (EvType ev); try done; keep.
Qed.
End quiet.

Section assign.
Context {E : Type} `{EV : Env E, CF : ClientConfig, CR : Crypto, SO : SortSlice}.
Implicit Types (n : Node E) (t : list Logged) (p : poll).

Lemma about_poll b p : about_nonces (poll_ok b p).
Proof. intros t t' Hs. by apply poll_ok_same. Qed.
Lemma about_reserved b chain x p : about_nonces (λ t, poll_ok b p t ∧ reserved chain x p t).
Proof. intros t t' Hs [H1 H2]. split; [by eapply poll_ok_same|by eapply reserved_same]. Qed.
Lemma poll_ok_use b chain x p t data r :
  poll_ok b p t → reserved chain x p t → poll_ok b p (Log (GetOutboundSigningRequest chain data x) r :: t).
Proof.
  intros Hp [Hk Hx] c. destruct (Hp c) as (H1 & H2 & H3). unfold nonces. cbn. unfold nonce_asked at 1 3. cbn.
  case_decide as Hc; [subst c|done]. fold (nonces chain t). split_and!; [|set_solver by eauto with lia|done].
  - constructor; [done|]. apply Forall_forall. intros y Hy. by apply Hx.
Qed.

(** ** A setup uses the nonce it was given, once *)
Section use.
Context (t0 : list Logged) (b x : Z) (chain : string) (p : poll).
#[local] Abbreviation given := (since (E:=E) t0 (λ t, poll_ok b p t ∧ reserved chain x p t)).
#[local] Abbreviation used := (since (E:=E) t0 (poll_ok b p)).
Lemma given_used n : given n → used n.
Proof. intros (t & Ht & H & _). by exists t. Qed.
Lemma build_uses d : OcDestinationChain (AsOutbound d) = chain → into given used (buildSignTransaction (Some d) (Some x)).
Proof.
  intros Hc. pose proof (about_reserved b chain x p) as Hab. unfold buildSignTransaction. pose proof (@since_ask E EV t0 _ Hab) as Hask.
  refine (_ : into given used (_ ≫= _)). apply into_some. do 4 (apply into_bind; [exact given_used|keep|intros ?]).
  apply into_some, into_wrap. intros n (t & Ht & Hp & Hr). unfold ask. rewrite bind_unfold. unfold rpc.
  destruct (answer _ (env n)) as [r e].
  assert (used (n <| env := e |> <| trace ::= cons (Log (GetOutboundSigningRequest (OcDestinationChain (AsOutbound d)) (AsOutbound d) x) r) |>)) as Hu.
  { eexists (_ :: t). split; [cbn; by rewrite Ht|]. rewrite Hc. by apply poll_ok_use. }
  by destruct r.
Qed.
Lemma setup_uses ev threshold parties l :
  EvType ev = EventTypeSignOutbound → extractDestinationChain (EventData ev) = chain →
  into given used (setup_for ev threshold parties l (Some x)).
Proof.
  intros Hty Hc. pose proof (about_reserved b chain x p) as Hab. pose proof (about_poll b p) as Hab'.
  pose proof (@since_ask E EV t0 _ Hab) as Hask. unfold setup_for. rewrite Hty.
  apply into_then; [|intros; apply keeps_ret]. unfold createSignSetup, current_key, load_keyshare.
  apply into_bind; [exact given_used|keep|intros key]. apply into_bind; [exact given_used|keep|intros share].
  destruct (EventData ev) as [d|]; [|by intros n Hn; apply given_used].
  apply into_then; [by apply into_wrap, build_uses|]. intros req.
  pose proof (@since_ask E EV t0 _ Hab') as Hask'. keep.
Qed.
End use.
Lemma processEvent_keeps t0 P ev l nonce :
  about_nonces P → EvType ev ≠ EventTypeSignOutbound → keeps (since (E:=E) t0 P) (processEventAsCoordinator ev l nonce).
Proof.
  intros HP Hty. unfold processEventAsCoordinator, track. pose proof (@since_setup_for E EV CF CR t0 P HP) as Hs. keep.
  apply keeps_for_each. intros v. keep.
Qed.
Lemma processEvent_uses t0 b x chain p ev l :
  EvType ev = EventTypeSignOutbound → extractDestinationChain (EventData ev) = chain →
  into (since (E:=E) t0 (λ t, poll_ok b p t ∧ reserved chain x p t)) (since t0 (poll_ok b p))
    (processEventAsCoordinator ev l (Some x)).
Proof.
  intros Hty Hc. pose proof (about_poll b p) as Hab. unfold processEventAsCoordinator, track.
  apply into_then; [by apply into_wrap, setup_uses|]. intros s. keep. apply keeps_for_each. intros v. keep.
Qed.

(** ** Giving out a nonce *)
Section give.
Context (t0 : list Logged) (first b : Z) (Hfirst : first ≤ b) (Hb : b < 2^64).
Context (Hnext : ∀ chain signer fin, always (E:=E) (GetNextNonce chain signer fin) (λ r, ∀ x, r = Ok x → 0 ≤ x < first)).
#[local] Abbreviation ok := (λ p, since (E:=E) t0 (poll_ok b p)).
#[local] Abbreviation ok' := (λ p, since (E:=E) t0 (poll_ok (b + 1) p)).
Definition given_out (chain : string) (r : res (option Z * poll)) n : Prop :=
  match r with
  | Ok (Some x, p) => since t0 (λ t, poll_ok (b + 1) p t ∧ reserved chain x p t) n
  | Ok (None, p) => since t0 (poll_ok (b + 1) p) n
  | _ => ∃ p, since t0 (poll_ok (b + 1) p) n
  end.
Lemma ok_more p n : ok p n → ok' p n.
Proof. intros (t & Ht & H). exists t. split; [done|]. eapply poll_ok_mono; [|done]. lia. Qed.
Lemma given_out_bind {A} chain p (m : M (Node E) A) f n :
  keeps (ok p) m → ok p n → (∀ a n', ok p n' → given_out chain (f a n').1 (f a n').2) →
  given_out chain ((m ≫= f) n).1 ((m ≫= f) n).2.
Proof.
  intros Hm Hn Hf. rewrite bind_unfold. specialize (Hm n Hn). destruct (m n) as [[a|e|e] n1]; [by apply Hf|..];
    exists p; by apply ok_more.
Qed.
(** A poll that gives out [x] after the nonces [t]. *)
Lemma reserve chain x p t f :
  poll_ok b p t → 0 ≤ x < b + 1 → (∀ y, y ∈ nonces chain t → y < x) →
  let p' := mkPoll f (<[ chain := x ]> (nonceByChain p)) (skippedChains p) in poll_ok (b + 1) p' t ∧ reserved chain x p' t.
Proof.
  intros Hp Hx Hy p'. split; [|split; [apply lookup_insert_eq|done]].
  intros c. destruct (Hp c) as (H1 & H2 & H3). split; [done|]. cbn -[insert]. destruct (decide (c = chain)) as [->|Hc].
  - rewrite lookup_insert_eq. split; [|intros k [= <-]; lia]. intros y Hin. exists x. split; [done|]. specialize (Hy y Hin). lia.
  - rewrite lookup_insert_ne by done. split; [done|]. intros k Hk. specialize (H3 k Hk). lia.
Qed.
Lemma getNextNonceForChain_bound chain fin n x n' : getNextNonceForChain chain fin n = (Ok x, n') → 0 ≤ x < first.
Proof using Hnext.
  intros (? & ? & _ & (? & ? & _ & (addr & n2 & _ & H)%bind_ok)%bind_ok)%bind_ok. unfold ask in H.
  apply bind_ok in H as (r & n3 & Hr & H). unfold rpc in Hr. specialize (Hnext chain addr fin (env n2)).
  destruct (answer _ (env n2)) as [r' e]. injection Hr as -> <-. destruct r; try discriminate. injection H as -> <-. by apply Hnext.
Qed.
Lemma fetch_nonce_gives chain p fin n :
  ok p n → nonceByChain p !! chain = None → given_out chain (fetch_nonce chain p fin n).1 (fetch_nonce chain p fin n).2.
Proof using Hb Hfirst Hnext.
  intros Hn Hnone. unfold fetch_nonce. rewrite bind_unfold. unfold attempt.
  pose proof (since_getNextNonce t0 _ (about_poll b p) chain fin n Hn) as Hk.
  destruct (getNextNonceForChain chain fin n) as [[x|e|e] n1] eqn:Hr; cbn in Hk.
  - apply getNextNonceForChain_bound in Hr. unfold set_coord. rewrite bind_unfold, modify_run. cbn -[insert incr].
    destruct Hk as (t & Ht & Hp). exists t. split; [done|]. apply reserve; [done|lia|].
    intros y Hy. destruct (Hp chain) as (_ & H & _). destruct (H y Hy) as (k & Hkk & _). congruence.
  - by apply ok_more.
  - exists p. by apply ok_more.
Qed.
Lemma assignSignNonce_gives chain p n :
  ok p n → given_out chain (assignSignNonce chain p n).1 (assignSignNonce chain p n).2.
Proof using Hb Hfirst Hnext.
  intros Hn. pose proof (about_poll b p) as Hab. unfold assignSignNonce. case_decide; [by apply ok_more|].
  apply (given_out_bind _ p); [unfold is_evm; keep|done|]. intros isEVM n1 Hn1.
  destruct (nonceByChain p !! chain) as [k|] eqn:Hk.
  - destruct (_ && _); [by apply ok_more|]. destruct Hn1 as (t & Ht & Hp). exists t. split; [done|].
    destruct (Hp chain) as (_ & Hle & Hbd). specialize (Hbd k Hk). rewrite u64_id by lia.
    apply (reserve chain (k + 1) p t (incr chain (inFlightPerChain p))); [done|lia|].
    intros y Hy. destruct (Hle y Hy) as (k' & Hk' & ?). replace k' with k in * by congruence. lia.
  - destruct (_ && _); [|by apply fetch_nonce_gives]. apply (given_out_bind _ p); [keep|done|]. intros c n2 Hn2.
    case_decide; [|by apply fetch_nonce_gives]. apply (given_out_bind _ p); [keep|done|]. intros _ n3 Hn3.
    destruct (ok_more _ _ Hn3) as (t & Ht & Hp). by exists t.
Qed.

(** One event: its nonce is used at most once. *)
Definition assigned ev (r : res (option (option Z) * poll)) n : Prop :=
  match r with
  | Ok (Some nonce, p) =>
      if decide (EvType ev = EventTypeSignOutbound) then
        ∃ x, nonce = Some x ∧ since t0 (λ t, poll_ok (b + 1) p t ∧ reserved (extractDestinationChain (EventData ev)) x p t) n
      else ok' p n
  | Ok (None, p) => ok' p n
  | _ => ∃ p, ok' p n
  end.
Lemma post_bind {A B} (Q : res B → Node E → Prop) p (m : M (Node E) A) f n :
  keeps (ok p) m → ok p n → (∀ e n', ok p n' → Q (Err e) n' ∧ Q (Panic e) n') →
  (∀ a n', ok p n' → Q (f a n').1 (f a n').2) → Q ((m ≫= f) n).1 ((m ≫= f) n).2.
Proof.
  intros Hm Hn He Hf. rewrite bind_unfold. specialize (Hm n Hn). destruct (m n) as [[a|e|e] n1]; [by apply Hf|..]; by apply He.
Qed.
Lemma assign_nonce_gives ev p n : ok p n → assigned ev (assign_nonce ev p n).1 (assign_nonce ev p n).2.
Proof using Hb Hfirst Hnext.
  intros Hn. pose proof (about_poll b p) as Hab.
  assert (∀ e n', ok p n' → assigned ev (Err e) n' ∧ assigned ev (Panic e) n') as Herr.
  { intros e n' Hn'. split; exists p; by apply ok_more. }
  assert (∀ n', ok p n' → assigned ev (Ok (None, p)) n') as Hnone by (intros; by apply ok_more).
  unfold assign_nonce. destruct (EvType ev) eqn:Hty;
    try (cbn; unfold assigned; rewrite Hty, decide_False by done; by apply ok_more).
  - case_decide; [by apply Hnone|]. apply (post_bind _ p); [keep|done|done|]. intros enabled n1 Hn1.
    destruct enabled; [|by apply Hnone]. pose proof (assignSignNonce_gives (extractDestinationChain (EventData ev)) p n1 Hn1) as Hg.
    rewrite bind_unfold. destruct (assignSignNonce _ p n1) as [[[[x|] p']|e|e] n2]; cbn in Hg |- *; try done.
    unfold assigned. rewrite decide_True by done. eauto.
  - case_decide; [by apply Hnone|]. apply (post_bind _ p); [apply keeps_attempt, since_assignFundMigrateNonce, Hab|done|done|].
    intros r n1 Hn1. cbn. unfold assigned. destruct r; try (by apply ok_more). rewrite Hty, decide_False by done. by apply ok_more.
Qed.
Definition poll_after (r : res poll) n : Prop := match r with Ok p => ok' p n | _ => ∃ p, ok' p n end.
Lemma coordinate_one all ev p n : ok p n → poll_after (coordinate all ev p n).1 (coordinate all ev p n).2.
Proof using Hb Hfirst Hnext.
  intros Hn. unfold coordinate. rewrite bind_unfold. pose proof (assign_nonce_gives ev p n Hn) as Ha.
  destruct (assign_nonce ev p n) as [[[[nonce|] p']|e|e] n1]; cbn [fst snd] in *; [|done..]. unfold assigned in Ha.
  rewrite bind_unfold. case_decide as Hty.
  - destruct Ha as (x & -> & Hg). pose proof (since_invitees t0 _ (about_reserved (b + 1) _ x p') (EvType ev) all n1 Hg) as Hi.
    destruct (invitees (EvType ev) all n1) as [[l|e|e] n2]; cbn in Hi; [|exists p'; by eapply given_used..].
    destruct l as [|v l]; [by eapply given_used|]. rewrite bind_unfold. unfold attempt.
    pose proof (processEvent_uses t0 (b + 1) x _ p' ev (v :: l) Hty eq_refl n2 Hi) as Hu.
    destruct (processEventAsCoordinator ev (v :: l) (Some x) n2) as [[u|e|e] n3]; cbn in Hu |- *; [done|done|by exists p'].
  - pose proof (since_invitees t0 _ (about_poll (b + 1) p') (EvType ev) all n1 Ha) as Hi.
    destruct (invitees (EvType ev) all n1) as [[l|e|e] n2]; cbn in Hi; [|by exists p'..].
    destruct l as [|v l]; [done|]. rewrite bind_unfold. unfold attempt.
    pose proof (processEvent_keeps t0 _ ev (v :: l) nonce (about_poll (b + 1) p') Hty n2 Hi) as Hu.
    destruct (processEventAsCoordinator ev (v :: l) nonce n2) as [[u|e|e] n3]; cbn in Hu |- *; [done|done|by exists p'].
Qed.
End give.

Lemma coordinate_many t0 first all evs b p n :
  (∀ chain signer fin, always (E:=E) (GetNextNonce chain signer fin) (λ r, ∀ x, r = Ok x → 0 ≤ x < first)) →
  first ≤ b → b + Z.of_nat (length evs) ≤ 2^64 → since t0 (poll_ok b p) n →
  ∃ b' p', since t0 (poll_ok b' p') (coordinate_all all evs p n).2.
Proof.
  intros Hnext. revert b p n. induction evs as [|ev evs IH]; intros b p n Hf Hb Hn; [by exists b, p|]. cbn [coordinate_all length] in *.
  pose proof (coordinate_one t0 first b Hf ltac:(lia) Hnext all ev p n Hn) as Hc. rewrite bind_unfold.
  destruct (coordinate all ev p n) as [[p1|e|e] n1]; cbn in Hc; [|destruct Hc as (p1 & Hc); by exists (b + 1), p1..].
  apply (IH (b + 1)); [lia|lia|done].
Qed.
Lemma latest_reads v : reads (E:=E) (wrap "failed to get latest block" (ask GetLatestBlock)) v [] (λ _ t _, ∀ chain, nonces chain t = []).
Proof. by reading. Qed.
Lemma length_select_all `{!SortSliceLaws} f m : (length (select f None m) ≤ size m)%nat.
Proof.
  unfold select. rewrite (Permutation_length (sort_Slice_perm _ _)). etransitivity; [apply List.filter_length_le|].
  unfold walk_values. by rewrite length_fmap, length_walk.
Qed.
(** C18. The outbounds of a poll have nonces of their own.  While the nonces that the chains
    answer and the number of rows are below 2^63, the requests that the coordinator builds
    in one poll for the outbounds to a chain, all from the account of the current key, have
    strictly increasing nonces.  Fund migrations spend from the account of a retired key,
    have the nonce that the chain answers for that account each time, and are not counted. *)
Theorem poll_nonces_increase `{!SortSliceLaws} n :
  (∀ chain signer fin, always (E:=E) (GetNextNonce chain signer fin) (λ r, ∀ x, r = Ok x → 0 ≤ x < 2^63)) →
  Z.of_nat (size (rows n)) < 2^63 →
  ∃ t, trace (processConfirmedEvents n).2 = t ++ trace n ∧ ∀ chain, StronglySorted (λ a b, b < a) (nonces chain t).
Proof.
  intros Hnext Hsize. set (t0 := trace n).
  assert (∀ b p n', since t0 (poll_ok b p) n' → ∃ t, trace n' = t ++ t0 ∧ ∀ chain, StronglySorted (λ a b, b < a) (nonces chain t)) as Hfin.
  { intros b p n' (t & Ht & Hp). exists t. split; [done|]. intros chain. apply Hp. }
  assert (since t0 (poll_ok (2^63) (mkPoll ∅ ∅ ∅)) n) as H0.
  { exists []. split; [done|]. intros chain. split_and!; [constructor|by intros ? ?%not_elem_of_nil|done]. }
  pose proof (about_poll (2^63) (mkPoll ∅ ∅ ∅)) as Hab. unfold processConfirmedEvents. rewrite bind_unfold.
  destruct (reads_run _ n _ (latest_reads _)) as (r & n1 & t1 & -> & (Hr1 & _) & Ht1 & Hs1).
  assert (since t0 (poll_ok (2^63) (mkPoll ∅ ∅ ∅)) n1) as H1.
  { exists t1. split; [done|]. apply (Hab []); [by intros chain; rewrite Hs1|]. intros chain.
    split_and!; [constructor|by intros ? ?%not_elem_of_nil|done]. }
  destruct r as [block|e|e]; [|by eapply Hfin..]. rewrite bind_unfold.
  pose proof (since_snapshot t0 _ Hab n1 H1) as H2.
  assert (rows (validatorsSnapshot n1).2 = rows n) as Hr2.
  { destruct (reads_run _ n1 _ (reads_snapshot _ _ (λ _ _ _, True) I (λ _, I) (λ _, I))) as (? & n2 & ? & -> & (Hr & _) & _). cbn. congruence. }
  destruct (validatorsSnapshot n1) as [[all|e|e] n2]; cbn in H2, Hr2; [|by eapply Hfin..]. destruct all as [|v all]; [by eapply Hfin|].
  rewrite bind_unfold, lift_res_run. destruct (coordinatorAddressForBlock _ _ _) as [c|e|e]; [|exact (Hfin _ _ _ H2)..].
  case_decide; [|exact (Hfin _ _ _ H2)]. unfold GetNonExpiredConfirmedEvents, getInFlightSignCountPerChain, GetInFlightSignEvents, get_rows. mrun.
  match goal with |- context [coordinate_all ?all ?evs ?p n2] =>
    destruct (coordinate_many t0 (2^63) all evs (2^63) p n2) as (b' & p' & Hend); [exact Hnext|reflexivity| |exact H2|exact (Hfin _ _ _ Hend)]
  end.
  match goal with |- context [length (select ?f ?o ?m)] => pose proof (length_select_all f m : (length (select f o m) ≤ size m)%nat) as Hl end.
  rewrite Hr2 in Hl |- *. lia.
Qed.
End assign.
