(* ===== verification/UcSigner.v ===== *)
(** * The universal client: its votes on Push Chain

    [pushsigner]: a vote is wrapped in an authorization of the validator's operator, signed
    by the hot key with a sequence number that is cached, broadcast, and waited for. *)
From S2P Require Import Prelude GoStrings UvTypes TssTypes UxTypes.
From Stdlib Require Import Ascii.

(** [strings.Contains] *)
Fixpoint contains_at (sub l : bytes) : bool :=
  bool_decide (sub `prefix_of` l) || match l with [] => false | _ :: l' => contains_at sub l' end.
Definition Contains (s sub : string) : bool := contains_at (to_bytes sub) (to_bytes s).

(** ** Votes *)
Inductive VoteMsg :=
| MsgVoteInbound (signer : string) (inbound : Ux.Inbound)
| MsgVoteChainMeta (signer observedChainId : string) (price chainHeight : Z)
| MsgVoteOutbound (signer txId utxId : string) (observedTx : Ux.OutboundObservation)
| MsgVoteFundMigration (signer : string) (migrationId : Z) (txHash : string) (success : bool)
| MsgVoteTssKeyProcess (signer tssPubkey keyId : string) (processId : Z).
Definition MsgTypeURL (m : VoteMsg) : string :=
  match m with
  | MsgVoteInbound _ _ => "/uexecutor.v1.MsgVoteInbound"
  | MsgVoteChainMeta _ _ _ _ => "/uexecutor.v1.MsgVoteChainMeta"
  | MsgVoteOutbound _ _ _ _ => "/uexecutor.v1.MsgVoteOutbound"
  | MsgVoteFundMigration _ _ _ _ => "/utss.v1.MsgVoteFundMigration"
  | MsgVoteTssKeyProcess _ _ _ _ => "/utss.v1.MsgVoteTssKeyProcess"
  end.
(** A signed transaction: [MsgExec] of the hot key around the messages. *)
Record AuthzTx := mkAuthzTx {
  AxGrantee : string; AxMsgs : list VoteMsg; AxMemo : string; AxGasLimit : Z; AxFee : string; AxAccountNumber : Z; AxSequence : Z }.
Record TxResponse := mkTxResponse { RespHash : string; RespCode : Z; RespRawLog : string }.

(** ** The chain and the keyring *)
(** What a remote call answers is a value or an error. *)
Class PushCore (E : Type) : Type := {
  BroadcastTx : AuthzTx → E → res (option TxResponse) * E;
  GetAccount : string → E → res (Z * Z) * E;                  (* account number and sequence *)
  GetTx : string → E → res (option TxResponse) * E;           (* in a block *)
}.
Class Keyring : Type := {
  hotKeyAddr : res string;
  SignTx : AuthzTx → option error;                            (* why it cannot be signed or encoded *)
}.
Record Signer (E : Type) := mkSigner { lastSequence : Z; chain : E }.
Arguments mkSigner {_} _ _.
Arguments lastSequence {_} _.
Arguments chain {_} _.
#[export] Instance Signer_eta {E} : Eta (Signer E) := λ r, mkSigner (lastSequence r) (chain r).

Definition defaultGasLimit : Z := 500000000.
Definition defaultFeeAmount : string := "500000000000000upc".
Definition maxAttempts : nat := 3.
(** A poll every half second for 15 seconds at most. *)
Definition confirmPolls : nat := 30.
Definition mismatch : string := "account sequence mismatch".

Section signer.
Context {E : Type} `{PC : PushCore E, KR : Keyring}.
#[local] Abbreviation M := (M (Signer E)).
Definition with_chain {A} (f : E → A * E) : M A := λ s, let '(a, e) := f (chain s) in (Ok a, s <| chain := e |>).
Definition set_sequence (f : Z → Z) : M unit := modify (λ s, s <| lastSequence ::= f |>).

Definition getAccountInfo : M (Z * Z) :=
  addr ← lift_res hotKeyAddr;
  r ← with_chain (GetAccount addr);
  wrap "failed to query account info" (lift_res r).
Definition signTxWithSequence (tx : AuthzTx) : M AuthzTx :=
  account ← wrap "failed to get account info" getAccountInfo;
  let '(number, chainSequence) := account in
  set_sequence (λ l, if decide (l = 0) then chainSequence else if decide (l < chainSequence) then chainSequence else l) ;;
  sequence ← gets lastSequence;
  let tx := mkAuthzTx (AxGrantee tx) (AxMsgs tx) (AxMemo tx) (AxGasLimit tx) (AxFee tx) number sequence in
  match SignTx tx with
  | Some e => throw ("failed to sign transaction with keyring: " +:+ e)
  | None => mret tx
  end.
(** [left]: how many attempts there are after this one. *)
Fixpoint broadcast_attempts (left_ : nat) (tx : AuthzTx) : M TxResponse :=
  signed ← wrap "failed to sign transaction" (signTxWithSequence tx);
  r ← with_chain (BroadcastTx signed);
  match r with
  | Err e | Panic e =>
      set_sequence (λ _, 0) ;;
      match left_ with
      | S left' => if Contains e mismatch then broadcast_attempts left' tx else throw ("failed to broadcast transaction: " +:+ e)
      | O => throw ("failed to broadcast transaction: " +:+ e)
      end
  | Ok (Some txResp) =>
      if decide (RespCode txResp = 0) then set_sequence (λ l, u64 (l + 1)) ;; mret txResp
      else
        let failed : M TxResponse := set_sequence (λ l, u64 (l + 1)) ;; throw ("transaction failed with code " +:+ fmt_d (RespCode txResp) +:+ ": " +:+ RespRawLog txResp) in
        match left_ with
        | S left' => if Contains (ToLower (RespRawLog txResp)) mismatch then set_sequence (λ _, 0) ;; broadcast_attempts left' tx else failed
        | O => failed
        end
  | Ok None => set_sequence (λ l, u64 (l + 1)) ;; panic "invalid memory address or nil pointer dereference"
  end.
Definition signAndBroadcastAuthZTx (msgs : list VoteMsg) (memo : string) (gasLimit : Z) (feeAmount : string) : M TxResponse :=
  grantee ← match msgs with
            | [] => throw "failed to wrap messages with AuthZ: no messages to wrap"
            | _ => wrap "failed to wrap messages with AuthZ" (lift_res hotKeyAddr)
            end;
  broadcast_attempts (pred maxAttempts) (mkAuthzTx grantee msgs memo gasLimit feeAmount 0 0).
(** One tick of the poll per unit, until a deadline. *)
Fixpoint waitForTxConfirmation (polls : nat) (txHash : string) : M unit :=
  match polls with
  | O => throw ("timeout waiting for tx " +:+ txHash +:+ " after 15s")
  | S polls =>
      r ← with_chain (GetTx txHash);
      match r with Ok (Some _) => mret tt | _ => waitForTxConfirmation polls txHash end
  end.
(** [ticks]: how many ticks of the poll come before the deadline of the caller; slow
    answers leave fewer of them. *)
Definition vote (ticks : nat) (msg : VoteMsg) (memo : string) : M string :=
  let memo := if decide (memo = "") then "Vote: " +:+ MsgTypeURL msg else memo in
  txResp ← wrap "failed to broadcast vote" (signAndBroadcastAuthZTx [msg] memo defaultGasLimit defaultFeeAmount);
  require (bool_decide (RespCode txResp = 0)) ("vote failed with code " +:+ fmt_d (RespCode txResp) +:+ ": " +:+ RespRawLog txResp) ;;
  wrap "tx broadcast but not confirmed" (waitForTxConfirmation (ticks `min` confirmPolls) (RespHash txResp)) ;;
  mret (RespHash txResp).
Definition voteInbound (ticks : nat) (granter : string) (inbound : Ux.Inbound) : M string :=
  vote ticks (MsgVoteInbound granter inbound) ("Vote inbound: " +:+ Ux.TxHash inbound).
Definition voteChainMeta (ticks : nat) (granter chainID : string) (price chainHeight : Z) : M string :=
  vote ticks (MsgVoteChainMeta granter chainID price chainHeight)
    ("Vote chain meta: " +:+ chainID +:+ " @ price=" +:+ fmt_d price +:+ " height=" +:+ fmt_d chainHeight).
Definition voteOutbound (ticks : nat) (granter txID utxID : string) (observation : Ux.OutboundObservation) : M string :=
  vote ticks (MsgVoteOutbound granter txID utxID observation) ("Vote outbound: " +:+ txID).
Definition voteFundMigration (ticks : nat) (granter : string) (migrationID : Z) (txHash : string) (success : bool) : M string :=
  vote ticks (MsgVoteFundMigration granter migrationID txHash success) ("Vote fund migration: " +:+ fmt_d migrationID).
Definition voteTssKeyProcess (ticks : nat) (granter tssPubKey keyID : string) (processID : Z) : M string :=
  vote ticks (MsgVoteTssKeyProcess granter tssPubKey keyID processID) ("Vote TSS key: " +:+ keyID).
End signer.

(** ** Authorizations *)
Record grantInfo := mkGrantInfo { GiGranter : string; GiMessageType : string; GiExpiration : option Z }.
Definition requiredMsgGrants : list string :=
  ["/uexecutor.v1.MsgVoteInbound"; "/uexecutor.v1.MsgVoteChainMeta"; "/uexecutor.v1.MsgVoteOutbound"; "/utss.v1.MsgVoteTssKeyProcess";
   "/utss.v1.MsgVoteFundMigration"].
Definition grants_now (now : Z) (granter : string) (g : grantInfo) : bool :=
  negb (match GiExpiration g with Some t => bool_decide (t < now) | None => false end) && bool_decide (GiGranter g = granter)
  && bool_decide (GiMessageType g ∈ requiredMsgGrants).
(** The types that are authorized: the keys of a map, in no order. *)
Definition verifyGrants (now : Z) (grants : list grantInfo) (granter : string) : res (gset string) :=
  let authorized : gset string := list_to_set (GiMessageType <$> List.filter (grants_now now granter) grants) in
  match List.filter (λ req, bool_decide (req ∉ authorized)) requiredMsgGrants with
  | [] => Ok authorized
  | missing => Err ("missing grants from granter " +:+ granter +:+ ": [" +:+ String.concat " " missing +:+ "]")
  end.
(** A grant as the node answers it: the authorization with its type and its encoding. *)
Record GrantAuthorization := mkGrantAuthorization { GaGranter : string; GaAuthorization : option (string * bytes); GaExpiration : option Z }.
Definition genericAuthorization : string := "/cosmos.authz.v1beta1.GenericAuthorization".
Section grants.
(** [cdc.Unmarshal] of a [GenericAuthorization]: the message type it names. *)
Context (extractMessageType : bytes → res string).
Definition extract_one (g : GrantAuthorization) : list grantInfo :=
  match GaAuthorization g with
  | Some (typeUrl, value) =>
      if decide (typeUrl = genericAuthorization) then
        match extractMessageType value with Ok msgType => [mkGrantInfo (GaGranter g) msgType (GaExpiration g)] | _ => [] end
      else []
  | None => []
  end.
Definition extractGrantInfo (resp : list GrantAuthorization) : list grantInfo := resp ≫= extract_one.
(** [validateKeysAndGrants], from the keys that the opened keyring lists: their names and addresses. *)
Definition validateKeysAndGrants (now : Z) (keyInfos : res (list (string * res string)))
    (GetGranteeGrants : string → res (list GrantAuthorization)) (granter : string) : res (string * string * gset string) :=
  keyInfos ← keyInfos;
  match keyInfos with
  | [] => Err "no keys found in keyring"
  | (name, addr) :: _ =>
      keyAddr ← addr;
      grantResp ← GetGranteeGrants keyAddr;
      match extractGrantInfo grantResp with
      | [] => Err ("no AuthZ grants found for " +:+ keyAddr)
      | grants =>
          match verifyGrants now grants granter with
          | Ok authorized => Ok (name, keyAddr, authorized)
          | Err e | Panic e => Err (e +:+ " (grantee: " +:+ keyAddr +:+ ")")
          end
      end
  end.
End grants.

(** The client starts exactly when every vote it will cast is authorized: for each of the
    five messages there is a grant of the validator that has not expired. *)
Lemma verifyGrants_spec now grants granter :
  (∃ authorized, verifyGrants now grants granter = Ok authorized) ↔
  ∀ req, req ∈ requiredMsgGrants → ∃ g, g ∈ grants ∧ GiGranter g = granter ∧ GiMessageType g = req ∧ (∀ t, GiExpiration g = Some t → now ≤ t).
Proof.
  unfold verifyGrants. set (auth := list_to_set _ : gset string).
  assert (Hauth : ∀ req, req ∈ requiredMsgGrants → req ∈ auth ↔
            ∃ g, g ∈ grants ∧ GiGranter g = granter ∧ GiMessageType g = req ∧ (∀ t, GiExpiration g = Some t → now ≤ t)).
  { intros req Hr. unfold auth. rewrite elem_of_list_to_set, list_elem_of_fmap. unfold grants_now. split.
    - intros (g & -> & (Hg & Hn)%list_elem_of_In%List.filter_In). exists g. apply list_elem_of_In in Hg.
      apply andb_prop in Hn as [[H1 H2%bool_decide_eq_true]%andb_prop _]. split_and!; try done. intros t Ht. rewrite Ht in H1.
      apply negb_true_iff, bool_decide_eq_false in H1. lia.
    - intros (g & Hg & H1 & H2 & H3). exists g. split; [done|]. apply list_elem_of_In, List.filter_In. split; [by apply list_elem_of_In|].
      rewrite H1, H2, !bool_decide_eq_true_2, !andb_true_r by done. destruct (GiExpiration g) as [t|]; [|done].
      rewrite bool_decide_eq_false_2; [done|]. specialize (H3 t eq_refl). lia. }
  clearbody auth.
  assert (Hall : List.filter (λ req, bool_decide (req ∉ auth)) requiredMsgGrants = [] ↔ ∀ req, req ∈ requiredMsgGrants → req ∈ auth).
  { split.
    - intros Hnil req Hr. destruct (decide (req ∈ auth)) as [|Hn]; [done|]. exfalso.
      assert (Hin : In req (List.filter (λ req, bool_decide (req ∉ auth)) requiredMsgGrants)).
      { apply List.filter_In. split; [by apply list_elem_of_In|by apply bool_decide_eq_true]. }
      by rewrite Hnil in Hin.
    - intros Hin. destruct (List.filter _ _) as [|req l] eqn:Hf; [done|]. exfalso.
      assert (H : In req (req :: l)) by by left. rewrite <- Hf in H. apply List.filter_In in H as [H1 H2%bool_decide_eq_true].
      by apply H2, Hin, list_elem_of_In. }
  destruct (List.filter _ _) eqn:Hf; split.
  - intros _ req Hr. apply Hauth; [done|]. by apply Hall.
  - intros _. by eexists.
  - by intros [? ?].
  - intros H. exfalso. enough (Hn : s :: l = []) by done. apply Hall. intros req Hr. apply Hauth; auto.
Qed.

(** ** The sequence number *)
Definition mismatched (r : res (option TxResponse)) : Prop :=
  (∃ e, r = Err e ∧ Contains e mismatch = true) ∨
  (∃ resp, r = Ok (Some resp) ∧ RespCode resp ≠ 0 ∧ Contains (ToLower (RespRawLog resp)) mismatch = true).
(** A node of Push Chain during a call: [expected] is the sequence its mempool asks of the
    next transaction of the hot key, [committed] the one of the last block, which account
    queries answer and which lags while transactions wait; another sequence is refused as
    a mismatch. *)
Class Mempool (E : Type) `{PC : PushCore E, KR : Keyring} : Type := {
  grantee : string; number : Z; committed : E → Z; expected : E → Z;
  hot_key : hotKeyAddr = Ok grantee;
  signs tx : SignTx tx = None;
  lags e : 0 ≤ committed e ≤ expected e;
  knows_account e : GetAccount grantee e = (Ok (number, committed e), e);
  refuses tx e : AxSequence tx ≠ expected e → mismatched (BroadcastTx tx e).1 ∧ (BroadcastTx tx e).2 = e;
}.
Section cast.
Context {E : Type} `{MP : Mempool E}.
Implicit Types (s : Signer E) (e : E).
Definition signed_tx (tx : AuthzTx) (sequence : Z) : AuthzTx :=
  mkAuthzTx (AxGrantee tx) (AxMsgs tx) (AxMemo tx) (AxGasLimit tx) (AxFee tx) number sequence.
(** The sequence of the first attempt: the cached one, unless the chain is ahead of it. *)
Definition reconciled s : Z := Z.max (lastSequence s) (committed (chain s)).

Lemma sign_run tx s : 0 ≤ lastSequence s →
  signTxWithSequence tx s = (Ok (signed_tx tx (reconciled s)), mkSigner (reconciled s) (chain s)).
Proof.
  intros Hl. unfold signTxWithSequence, getAccountInfo, with_chain, set_sequence. rewrite hot_key. destruct s as [l e]. cbn in Hl.
  pose proof (lags e). mrun. rewrite knows_account. mrun. unfold reconciled. cbn. rewrite signs. mrun.
  assert (Hm : (if decide (l = 0) then committed e else if decide (l < committed e) then committed e else l) = Z.max l (committed e)).
  { destruct (decide (l = 0)); [lia|]. destruct (decide (l < committed e)); lia. }
  by rewrite Hm.
Qed.
(** What an answer that is no mismatch ends the attempts with. *)
Definition ends_with (sequence : Z) (answer : res (option TxResponse) * E) (out : res TxResponse * Signer E) : Prop :=
  match answer with
  | (Ok (Some resp), e') =>
      if decide (RespCode resp = 0) then out = (Ok resp, mkSigner (u64 (sequence + 1)) e')
      else out = (Err ("transaction failed with code " +:+ fmt_d (RespCode resp) +:+ ": " +:+ RespRawLog resp), mkSigner (u64 (sequence + 1)) e')
  | (Err err, e') => out = (Err ("failed to broadcast transaction: " +:+ err), mkSigner 0 e')
  | _ => True
  end.
Lemma attempt_ends n tx s : 0 ≤ lastSequence s → ¬ mismatched (BroadcastTx (signed_tx tx (reconciled s)) (chain s)).1 →
  ends_with (reconciled s) (BroadcastTx (signed_tx tx (reconciled s)) (chain s)) (broadcast_attempts n tx s).
Proof.
  intros Hl Hm. unfold mismatched in Hm. destruct n; cbn [broadcast_attempts]; rewrite bind_unfold, wrap_run, sign_run by done; cbn [wrap_res];
    rewrite bind_unfold; unfold with_chain; cbn [chain]; (destruct (BroadcastTx _ (chain s)) as [[[resp|]|err|err] e']); cbn in Hm |- *; try done;
    unfold set_sequence; try (case_decide; mrun; try done).
  - destruct (Contains (ToLower _) mismatch) eqn:Hc; [|mrun; done]. destruct Hm. right. eauto.
  - destruct (Contains err mismatch) eqn:Hc; [|mrun; done]. destruct Hm. left. eauto.
Qed.
Lemma attempt_refused n tx s : 0 ≤ lastSequence s → reconciled s ≠ expected (chain s) →
  broadcast_attempts (S n) tx s = broadcast_attempts n tx (mkSigner 0 (chain s)).
Proof.
  intros Hl Hr. destruct (refuses (signed_tx tx (reconciled s)) (chain s) Hr) as [Href Hsame].
  cbn [broadcast_attempts]. rewrite bind_unfold, wrap_run, sign_run by done. cbn [wrap_res]. rewrite bind_unfold. unfold with_chain. cbn [chain].
  destruct (BroadcastTx _ (chain s)) as [r e']. cbn in Href, Hsame. subst e'. unfold set_sequence.
  destruct Href as [(e & -> & Hm)|(resp & -> & Hc & Hm)]; cbn beta iota.
  - rewrite bind_unfold, modify_run. cbn beta iota. by rewrite Hm.
  - rewrite decide_False by done. rewrite Hm. by rewrite bind_unfold, modify_run.
Qed.
Lemma last_refused tx s : 0 ≤ lastSequence s → reconciled s ≠ expected (chain s) →
  ∃ err l, broadcast_attempts 0 tx s = (Err err, mkSigner l (chain s)) ∧ (l = 0 ∨ l = u64 (reconciled s + 1)).
Proof.
  intros Hl Hr. destruct (refuses (signed_tx tx (reconciled s)) (chain s) Hr) as [Href Hsame].
  cbn [broadcast_attempts]. rewrite bind_unfold, wrap_run, sign_run by done. cbn [wrap_res]. rewrite bind_unfold. unfold with_chain. cbn [chain].
  destruct (BroadcastTx _ (chain s)) as [r e']. cbn in Href, Hsame. subst e'. unfold set_sequence.
  destruct Href as [(e & -> & Hm)|(resp & -> & Hc & Hm)]; cbn beta iota.
  - mrun. eexists _, _. split; [reflexivity|by left].
  - rewrite decide_False by done. mrun. eexists _, _. split; [reflexivity|by right].
Qed.
Lemma attempts_reach tx s : 0 ≤ lastSequence s → let x := expected (chain s) in
  reconciled s = x ∨ committed (chain s) = x → ¬ mismatched (BroadcastTx (signed_tx tx x) (chain s)).1 →
  ends_with x (BroadcastTx (signed_tx tx x) (chain s)) (broadcast_attempts (pred maxAttempts) tx s).
Proof.
  intros Hl x Hor Hm. destruct (decide (reconciled s = x)) as [<-|Hr]; [by apply attempt_ends|]. destruct Hor as [|Hc]; [done|].
  change (pred maxAttempts) with 2%nat. rewrite attempt_refused by done.
  assert (reconciled (mkSigner 0 (chain s)) = x) as Hx by (unfold reconciled; cbn; pose proof (lags (chain s)); lia).
  pose proof (attempt_ends 1 tx (mkSigner 0 (chain s))) as H. rewrite Hx in H. by apply H.
Qed.
Lemma attempts_fail tx s : 0 ≤ lastSequence s → reconciled s ≠ expected (chain s) → committed (chain s) ≠ expected (chain s) →
  ∃ err l, broadcast_attempts (pred maxAttempts) tx s = (Err err, mkSigner l (chain s)) ∧ (l = 0 ∨ l = u64 (committed (chain s) + 1)).
Proof.
  intros Hl Hr Hc. assert (reconciled (mkSigner 0 (chain s)) = committed (chain s)) as Hx by (unfold reconciled; cbn; pose proof (lags (chain s)); lia).
  change (pred maxAttempts) with 2%nat. rewrite !attempt_refused; cbn; rewrite ?Hx; try done.
  destruct (last_refused tx (mkSigner 0 (chain s))) as (err & l & H1 & H2); [done|by rewrite Hx|]. rewrite Hx in H2. eauto.
Qed.

(** ** The poll *)
Fixpoint polled (n : nat) (txHash : string) e : E := match n with O => e | S n => polled n txHash (GetTx txHash e).2 end.
(** The [k]-th poll finds the transaction in a block, whatever its result there. *)
Definition found_at (txHash : string) e (k : nat) : Prop := ∃ onchain, (GetTx txHash (polled k txHash e)).1 = Ok (Some onchain).
Lemma wait_run polls txHash s :
  ∃ j, (waitForTxConfirmation polls txHash s).2 = mkSigner (lastSequence s) (polled j txHash (chain s)) ∧
    ((∃ k, (k < polls)%nat ∧ found_at txHash (chain s) k) → (waitForTxConfirmation polls txHash s).1 = Ok tt) ∧
    ((∀ k, (k < polls)%nat → ¬ found_at txHash (chain s) k) → ∃ err, (waitForTxConfirmation polls txHash s).1 = Err err).
Proof.
  revert s. induction polls as [|polls IH]; intros s; cbn [waitForTxConfirmation].
  { exists 0%nat. split_and!; [by destruct s|intros (k & ? & _); lia|by eexists]. }
  rewrite bind_unfold. unfold with_chain. destruct (GetTx txHash (chain s)) as [r e'] eqn:Hg. cbn beta iota.
  set (s' := s <| chain := e' |>). destruct (IH s') as (j & H1 & H2 & H3).
  assert (∀ k, found_at txHash (chain s') k ↔ found_at txHash (chain s) (S k)) as Hs.
  { intros k. unfold found_at. cbn [polled]. by rewrite Hg. }
  destruct r as [[found|]|err|err].
  { exists 1%nat. cbn [polled]. rewrite Hg. split_and!; [done|done|]. intros Hno. destruct (Hno 0%nat ltac:(lia)). exists found. cbn. by rewrite Hg. }
  all: exists (S j); cbn [polled]; rewrite Hg; (split_and!; [done| |intros Hno; apply H3; intros k Hk; rewrite Hs; apply Hno; lia]);
    intros (k & Hk & Hf); apply H2; (destruct k as [|k]; [destruct Hf as [o Ho]; cbn in Ho; by rewrite Hg in Ho|]); exists k; (split; [lia|by apply Hs]).
Qed.

End cast.
