(* ===== verification/UcChains.v ===== *)
(** * The universal client: the manager of its chains

    [chains/chains.go]: the clients of the chains follow the configurations of Push Chain.
    The map of clients is under a read-write lock.  Only the manager's goroutine changes the
    map, and the readers beside it hold the lock for one lookup; so a wait for another
    goroutine ends, and the only wait without an end is one for a lock that the manager
    itself holds. *)
From S2P Require Import Prelude GoStrings RegTypes.

(** ** Waiting *)
(** [None]: the goroutine waits for itself for ever. *)
Definition Sync (S A : Type) : Type := S → option (A * S).
#[export] Instance Sync_ret {S} : MRet (Sync S) := λ A a s, Some (a, s).
#[export] Instance Sync_bind {S} : MBind (Sync S) := λ A B f m s, match m s with Some (a, s') => f a s' | None => None end.
Definition look {S A} (f : S → A) : Sync S A := λ s, Some (f s, s).
Definition change {S} (f : S → S) : Sync S unit := λ s, Some (tt, f s).
Fixpoint each {S A} (f : A → Sync S unit) (l : list A) : Sync S unit :=
  match l with [] => mret tt | a :: l => f a ;; each f l end.

(** ** Configurations *)
Section same.
Context {A : Type} (eqb : A → A → bool).
Fixpoint each_equal (a b : list A) : bool :=
  match a, b with [], [] => true | x :: a, y :: b => eqb x y && each_equal a b | _, _ => false end.
Definition option_equal (a b : option A) : bool := match a, b with None, None => true | Some x, Some y => eqb x y | _, _ => false end.
Lemma each_equal_refl l : (∀ x, eqb x x = true) → each_equal l l = true.
Proof. intros H. induction l as [|x l IH]; [done|]. cbn. by rewrite H, IH. Qed.
Lemma option_equal_refl o : (∀ x, eqb x x = true) → option_equal o o = true.
Proof. intros H. by destruct o; cbn. Qed.
End same.
Definition gatewayMethodsEqual : list Reg.GatewayMethods → list Reg.GatewayMethods → bool := each_equal (λ a b,
  bool_decide (Reg.GmName a = Reg.GmName b) && bool_decide (Reg.GmIdentifier a = Reg.GmIdentifier b)
  && bool_decide (Reg.GmEventIdentifier a = Reg.GmEventIdentifier b) && bool_decide (Reg.GmConfirmationType a = Reg.GmConfirmationType b)).
Definition vaultMethodsEqual : list Reg.VaultMethods → list Reg.VaultMethods → bool := each_equal (λ a b,
  bool_decide (Reg.VmName a = Reg.VmName b) && bool_decide (Reg.VmIdentifier a = Reg.VmIdentifier b)
  && bool_decide (Reg.VmEventIdentifier a = Reg.VmEventIdentifier b) && bool_decide (Reg.VmConfirmationType a = Reg.VmConfirmationType b)).
Definition chainEnabledEqual : option Reg.ChainEnabled → option Reg.ChainEnabled → bool := option_equal (λ a b,
  bool_decide (Reg.IsInboundEnabled a = Reg.IsInboundEnabled b) && bool_decide (Reg.IsOutboundEnabled a = Reg.IsOutboundEnabled b)).
Definition blockConfirmationEqual : option Reg.BlockConfirmation → option Reg.BlockConfirmation → bool := option_equal (λ a b,
  bool_decide (Reg.FastInbound a = Reg.FastInbound b) && bool_decide (Reg.StandardInbound a = Reg.StandardInbound b)).
Definition configsEqual (a b : Reg.ChainConfig) : bool :=
  bool_decide (Reg.Chain a = Reg.Chain b) && bool_decide (Reg.VmTypeOf a = Reg.VmTypeOf b)
  && bool_decide (Reg.GatewayAddress a = Reg.GatewayAddress b)
  && gatewayMethodsEqual (Reg.GatewayMethodsOf a) (Reg.GatewayMethodsOf b) && vaultMethodsEqual (Reg.VaultMethodsOf a) (Reg.VaultMethodsOf b)
  && blockConfirmationEqual (Reg.BlockConfirmationOf a) (Reg.BlockConfirmationOf b) && chainEnabledEqual (Reg.Enabled a) (Reg.Enabled b).
Lemma configsEqual_refl a : configsEqual a a = true.
Proof.
  unfold configsEqual, gatewayMethodsEqual, vaultMethodsEqual, blockConfirmationEqual, chainEnabledEqual.
  rewrite !bool_decide_eq_true_2, !each_equal_refl, !option_equal_refl; try done; intros x; by rewrite !bool_decide_eq_true_2.
Qed.
Inductive chainAction := chainActionSkip | chainActionAdd | chainActionUpdate | chainActionRemove.
Definition both_disabled (cfg : Reg.ChainConfig) : bool :=
  match Reg.Enabled cfg with Some e => negb (Reg.IsInboundEnabled e) && negb (Reg.IsOutboundEnabled e) | None => true end.

(** ** The manager *)
(** What it starts and asks: databases, clients and Push Chain. *)
Class ChainClients (C E : Type) : Type := {
  OpenFileDB : string → E → option error * E;
  StartClient : Reg.ChainConfig → E → (error + C) * E;        (* [NewClient] and [Start], of EVM or Solana *)
  StartPush : E → (error + C) * E;
  StopClient : C → E → E;                                     (* its error is logged *)
  GetAllChainConfigs : E → (error + list Reg.ChainConfig) * E;
}.
Record Manager (C E : Type) := mkManager {
  clients : gmap string C; chainConfigs : gmap string Reg.ChainConfig; readers : nat; writer : bool; outside : E }.
Arguments mkManager {_ _} _ _ _ _ _.
Arguments clients {_ _} _.
Arguments chainConfigs {_ _} _.
Arguments readers {_ _} _.
Arguments writer {_ _} _.
Arguments outside {_ _} _.
#[export] Instance Manager_eta {C E} : Eta (Manager C E) := λ r, mkManager (clients r) (chainConfigs r) (readers r) (writer r) (outside r).

Section manager.
Context {C E : Type} `{CL : ChainClients C E} (pushChainID : string).
Implicit Types (s : Manager C E) (cfg : Reg.ChainConfig) (e : E).
#[local] Abbreviation Sync := (Sync (Manager C E)).
Definition perform {A} (f : E → A * E) : Sync A := λ s, let '(a, e) := f (outside s) in Some (a, s <| outside := e |>).
(** [sync.RWMutex] *)
Definition RLock : Sync unit := λ s, if writer s then None else Some (tt, s <| readers ::= S |>).
Definition RUnlock : Sync unit := change (λ s, s <| readers ::= pred |>).
Definition Lock : Sync unit := λ s, if writer s || negb (readers s =? 0)%nat then None else Some (tt, s <| writer := true |>).
Definition Unlock : Sync unit := change (λ s, s <| writer := false |>).

Definition determineChainAction cfg : Sync chainAction :=
  RLock ;;
  client ← look (λ s, clients s !! Reg.Chain cfg);
  existingConfig ← look (λ s, chainConfigs s !! Reg.Chain cfg);
  RUnlock ;;
  mret (if both_disabled cfg then match client with Some _ => chainActionRemove | None => chainActionSkip end
        else match client, existingConfig with
             | None, _ => chainActionAdd
             | Some _, Some existing => if configsEqual existing cfg then chainActionSkip else chainActionUpdate
             | Some _, None => chainActionSkip
             end).
(** The client of a chain, started. *)
Definition started_client cfg : E → (error + C) * E := λ e,
  let '(failed, e) := OpenFileDB (Reg.Chain cfg) e in
  match failed with
  | Some err => (inl ("failed to get database for chain: " +:+ err), e)
  | None => match Reg.VmTypeOf cfg with Reg.EVM | Reg.SVM => StartClient cfg e | _ => (inl "unsupported VM type", e) end
  end.
Definition store_client (chainID : string) cfg (c : C) : Sync unit :=
  Lock ;; change (λ s, s <| clients ::= <[chainID := c]> |> <| chainConfigs ::= <[chainID := cfg]> |>) ;; Unlock.
Definition addChain cfg : Sync (option error) :=
  if decide (Reg.Chain cfg = "") then mret (Some "invalid chain config")
  else
    r ← perform (started_client cfg);
    match r with inl err => mret (Some err) | inr c => store_client (Reg.Chain cfg) cfg c ;; mret None end.
Definition removeChain (chainID : string) : Sync unit :=
  Lock ;;
  client ← look (λ s, clients s !! chainID);
  match client with
  | None => mret tt
  | Some c =>
      change (λ s, s <| outside := StopClient c (outside s) |>) ;;
      change (λ s, s <| clients ::= delete chainID |> <| chainConfigs ::= delete chainID |>)
  end ;;
  Unlock.
Definition process_config cfg : Sync unit :=
  if decide (Reg.Chain cfg = "" ∨ Reg.Chain cfg = pushChainID) then mret tt
  else
    action ← determineChainAction cfg;
    match action with
    | chainActionSkip => mret tt
    | chainActionAdd => addChain cfg ;; mret tt
    | chainActionUpdate => removeChain (Reg.Chain cfg) ;; addChain cfg ;; mret tt
    | chainActionRemove => removeChain (Reg.Chain cfg)
    end.
Definition seen (cfgs : list Reg.ChainConfig) (chainID : string) : bool :=
  bool_decide (chainID = pushChainID) || bool_decide (chainID ≠ "" ∧ chainID ∈ Reg.Chain <$> cfgs).
Definition remove_stale (cfgs : list Reg.ChainConfig) (chainID : string) : Sync unit :=
  if seen cfgs chainID then mret tt else removeChain chainID.
(** The range over the map of clients, in some order, under the read lock. *)
Definition fetchAndUpdate : Sync (option error) :=
  r ← perform GetAllChainConfigs;
  match r with
  | inl err => mret (Some err)
  | inr cfgs =>
      each process_config cfgs ;;
      RLock ;;
      running ← look (λ s, (map_to_list (clients s)).*1);
      each (remove_stale cfgs) running ;;
      RUnlock ;;
      mret None
  end.
Definition push_config : Reg.ChainConfig :=
  Reg.mkChainConfig pushChainID Reg.UNKNOWN_VM "" "" None [] (Some (Reg.mkChainEnabled true true)) 0 [] None.
Definition ensurePushChain : Sync (option error) :=
  if decide (pushChainID = "") then mret (Some "push chain ID not configured")
  else
    RLock ;;
    client ← look (λ s, clients s !! pushChainID);
    RUnlock ;;
    match client with
    | Some _ => mret None
    | None =>
        failed ← perform (OpenFileDB pushChainID);
        match failed with
        | Some err => mret (Some ("failed to get database for push chain: " +:+ err))
        | None =>
            r ← perform StartPush;
            match r with inl err => mret (Some err) | inr c => store_client pushChainID push_config c ;; mret None end
        end
    end.
Definition StopAll : Sync unit :=
  Lock ;;
  change (λ s, s <| outside := foldr StopClient (outside s) (map_to_list (clients s)).*2 |>) ;;
  change (λ s, s <| clients := ∅ |> <| chainConfigs := ∅ |>) ;;
  Unlock.
(** ** What the rest of the client reads *)
Definition read {A} (f : Manager C E → A) : Sync A := RLock ;; a ← look f; RUnlock ;; mret a.
Definition GetClient (chainID : string) : Sync (option C) := read (λ s, clients s !! chainID).
Definition IsEVMChain (chainID : string) : Sync bool :=
  read (λ s, match chainConfigs s !! chainID with Some cfg => bool_decide (Reg.VmTypeOf cfg = Reg.EVM) | None => false end).
Definition enabled_flag (flag : Reg.ChainEnabled → bool) (chainID : string) s : bool :=
  match chainConfigs s !! chainID with Some cfg => match Reg.Enabled cfg with Some en => flag en | None => false end | None => false end.
Definition IsChainInboundEnabled (chainID : string) : Sync bool := read (enabled_flag Reg.IsInboundEnabled chainID).
Definition IsChainOutboundEnabled (chainID : string) : Sync bool := read (enabled_flag Reg.IsOutboundEnabled chainID).
Definition GetStandardConfirmations (chainID : string) : Sync Z := read (λ s,
  match chainConfigs s !! chainID with
  | Some cfg => match Reg.BlockConfirmationOf cfg with Some b => if decide (0 < Reg.StandardInbound b) then Reg.StandardInbound b else 12 | None => 12 end
  | None => 12
  end).

(** ** A round of the manager *)
Definition free s : Prop := readers s = 0%nat ∧ writer s = false.
(** A client has its configuration, under its own name. *)
Definition paired s : Prop := ∀ chainID, is_Some (clients s !! chainID) ↔ is_Some (chainConfigs s !! chainID).
(** What is outside once the client of the chain, if there is one, has stopped. *)
Definition stopped (k : string) s : E := match clients s !! k with Some c => StopClient c (outside s) | None => outside s end.
(** The client does not start in what it finds outside. *)
Definition cannot_start cfg s : Prop := ∃ err, (started_client cfg (stopped (Reg.Chain cfg) s)).1 = inl err.
(** [cfg] has been followed: the client is gone when both directions are off; otherwise it
    runs with a configuration like [cfg], the same client as before when it did already, or
    it could not be started. *)
Definition followed cfg s s' : Prop :=
  let k := Reg.Chain cfg in
  if both_disabled cfg then clients s' !! k = None
  else (∃ c r, clients s' !! k = Some c ∧ chainConfigs s' !! k = Some r ∧ configsEqual r cfg = true ∧
          (∀ r0, chainConfigs s !! k = Some r0 → configsEqual r0 cfg = true → clients s !! k = Some c)) ∨
       (clients s' !! k = None ∧ cannot_start cfg s).
Definition untouched (k : string) s s' : Prop := clients s' !! k = clients s !! k ∧ chainConfigs s' !! k = chainConfigs s !! k.

Lemma sync_bind_run {A B} (m : Sync A) (f : A → Sync B) s :
  (m ≫= f) s = match m s with Some (a, s') => f a s' | None => None end.
Proof. reflexivity. Qed.
(** A free manager, by its parts. *)
Definition idle (cl : gmap string C) (cf : gmap string Reg.ChainConfig) e : Manager C E := mkManager cl cf 0 false e.
Lemma free_idle s : free s ↔ s = idle (clients s) (chainConfigs s) (outside s).
Proof. destruct s as [cl cf r w e]. unfold free, idle. cbn. split; [by intros [-> ->]|]. intros H. by injection H. Qed.
Lemma free_is_idle cl cf e : free (idle cl cf e).
Proof. done. Qed.

Ltac steps := unfold Lock, Unlock, RLock, RUnlock, look, change, idle, mbind, Sync_bind, mret, Sync_ret; cbn.
Lemma removeChain_run cl cf e k : paired (idle cl cf e) →
  removeChain k (idle cl cf e) = Some (tt, idle (delete k cl) (delete k cf) (stopped k (idle cl cf e))).
Proof.
  intros Hp. unfold removeChain, stopped. steps.
  destruct (cl !! k) as [c|] eqn:Hk; cbn; [done|].
  assert (Hf : cf !! k = None) by (apply eq_None_not_Some; intros H; apply (Hp k) in H; cbn in H; rewrite Hk in H; by destruct H).
  by rewrite !delete_id.
Qed.
Lemma addChain_run cl cf e cfg : Reg.Chain cfg ≠ "" →
  (∃ c e', addChain cfg (idle cl cf e) = Some (None, idle (<[Reg.Chain cfg := c]> cl) (<[Reg.Chain cfg := cfg]> cf) e')) ∨
  ((∃ err, (started_client cfg e).1 = inl err) ∧ ∃ err e', addChain cfg (idle cl cf e) = Some (Some err, idle cl cf e')).
Proof.
  intros Hne. unfold addChain. rewrite decide_False by done. unfold perform, store_client. steps.
  destruct (started_client cfg e) as [[err|c] e'] eqn:Hs.
  - right. split; [by exists err|]. by eexists _, _.
  - left. by eexists _, _.
Qed.
Lemma action_run cl cf e cfg : ∃ a, determineChainAction cfg (idle cl cf e) = Some (a, idle cl cf e) ∧
  a = (if both_disabled cfg then match cl !! Reg.Chain cfg with Some _ => chainActionRemove | None => chainActionSkip end
       else match cl !! Reg.Chain cfg, cf !! Reg.Chain cfg with
            | None, _ => chainActionAdd
            | Some _, Some existing => if configsEqual existing cfg then chainActionSkip else chainActionUpdate
            | Some _, None => chainActionSkip
            end).
Proof. by eexists. Qed.
(** What a round leaves is told by lookups, so that rounds compose. *)
Lemma paired_insert cl cf e e' k c r : paired (idle cl cf e) → paired (idle (<[k := c]> cl) (<[k := r]> cf) e').
Proof.
  intros Hp j. cbn. destruct (decide (j = k)) as [->|Hj]; [by rewrite !lookup_insert_eq|rewrite !lookup_insert_ne by done; apply Hp].
Qed.
Lemma paired_delete cl cf e e' k : paired (idle cl cf e) → paired (idle (delete k cl) (delete k cf) e').
Proof.
  intros Hp j. cbn. destruct (decide (j = k)) as [->|Hj]; [by rewrite !lookup_delete_eq|rewrite !lookup_delete_ne by done; apply Hp].
Qed.
Lemma untouched_refl k s : untouched k s s.
Proof. done. Qed.
Lemma untouched_trans k s1 s2 s3 : untouched k s1 s2 → untouched k s2 s3 → untouched k s1 s3.
Proof. intros [? ?] [? ?]. split; congruence. Qed.
Lemma followed_after cfg s s1 s2 : followed cfg s s1 → untouched (Reg.Chain cfg) s1 s2 → followed cfg s s2.
Proof. unfold followed, untouched. by intros H [-> ->]. Qed.
(** One configuration: its own chain follows it, the others stay. *)
Definition skipped (k : string) : Prop := k = "" ∨ k = pushChainID.
Definition round_of cfg s s' : Prop :=
  free s' ∧ paired s' ∧ (∀ k, k ≠ Reg.Chain cfg ∨ skipped k → untouched k s s') ∧ (skipped (Reg.Chain cfg) ∨ followed cfg s s').
Lemma process_removed cl cf e cfg : paired (idle cl cf e) → both_disabled cfg = true → ¬ skipped (Reg.Chain cfg) →
  ∃ s', removeChain (Reg.Chain cfg) (idle cl cf e) = Some (tt, s') ∧ round_of cfg (idle cl cf e) s'.
Proof.
  intros Hp Hd Hs. rewrite removeChain_run by done. eexists. split; [done|]. split_and!; [done|by eapply paired_delete| |].
  - intros k [Hk|Hk]; (split; cbn; apply lookup_delete_ne; congruence).
  - right. unfold followed. rewrite Hd. apply lookup_delete_eq.
Qed.
(** Adding the client to a map that has it or not, seen from the manager before. *)
Lemma process_added cl cf e cl0 cf0 e0 cfg : paired (idle cl cf e) → both_disabled cfg = false → ¬ skipped (Reg.Chain cfg) →
  cl !! Reg.Chain cfg = None → (∀ k, k ≠ Reg.Chain cfg → untouched k (idle cl0 cf0 e0) (idle cl cf e)) →
  (∀ r, cf0 !! Reg.Chain cfg = Some r → configsEqual r cfg = false) → e = stopped (Reg.Chain cfg) (idle cl0 cf0 e0) →
  ∃ s', (addChain cfg ;; mret tt) (idle cl cf e) = Some (tt, s') ∧ round_of cfg (idle cl0 cf0 e0) s'.
Proof.
  intros Hp Hd Hs Hn Hrest Hdiff Hst. assert (Hne : Reg.Chain cfg ≠ "") by (intros H; apply Hs; by left). rewrite sync_bind_run.
  destruct (addChain_run cl cf e cfg Hne) as [(c & e' & ->)|(Hc & err & e' & ->)]; (eexists; split; [done|]); split_and!; try done.
  - by eapply paired_insert.
  - intros k Hk. assert (k ≠ Reg.Chain cfg) by naive_solver. eapply untouched_trans; [by apply Hrest|].
    split; cbn; by apply lookup_insert_ne.
  - right. unfold followed. rewrite Hd. left. exists c, cfg. cbn. rewrite !lookup_insert_eq, configsEqual_refl. split_and!; try done.
    intros r0 Hr0 Heq. by rewrite (Hdiff r0 Hr0) in Heq.
  - intros k Hk. apply Hrest. naive_solver.
  - right. unfold followed. rewrite Hd. right. split; [done|]. unfold cannot_start. by rewrite <- Hst.
Qed.
Lemma process_spec cfg s : free s → paired s → ∃ s', process_config cfg s = Some (tt, s') ∧ round_of cfg s s'.
Proof.
  intros Hf Hp. apply free_idle in Hf. destruct s as [cl cf rd wr e]. cbn in Hf. rewrite Hf in Hp |- *. clear Hf. unfold process_config.
  destruct (decide (Reg.Chain cfg = "" ∨ Reg.Chain cfg = pushChainID)) as [Hs|Hs].
  { eexists. split; [done|]. split_and!; [done|done|done|by left]. }
  rewrite sync_bind_run. destruct (action_run cl cf e cfg) as (a & -> & ->).
  assert (Hstay : followed cfg (idle cl cf e) (idle cl cf e) → ∃ s', (mret tt : Sync unit) (idle cl cf e) = Some (tt, s') ∧ round_of cfg (idle cl cf e) s').
  { intros Hfol. eexists. split; [done|]. split_and!; [done|done|done|by right]. }
  destruct (both_disabled cfg) eqn:Hd.
  - destruct (cl !! Reg.Chain cfg) eqn:Hk; [by apply process_removed|]. apply Hstay. unfold followed. by rewrite Hd.
  - destruct (cl !! Reg.Chain cfg) as [c|] eqn:Hk.
    + destruct (proj1 (Hp (Reg.Chain cfg))) as [r Hr]; [by eexists|]. cbn in Hr. rewrite Hr. destruct (configsEqual r cfg) eqn:Heq.
      * apply Hstay. unfold followed. rewrite Hd. left. exists c, r. cbn. by rewrite Hk, Hr.
      * rewrite sync_bind_run, removeChain_run by done.
        apply process_added; [by eapply paired_delete|done|done|apply lookup_delete_eq| |congruence|done].
        intros k Hne. split; cbn; by apply lookup_delete_ne.
    + apply process_added; try done; [|unfold stopped; cbn; by rewrite Hk]. intros r Hr. destruct (proj2 (Hp (Reg.Chain cfg))) as [c Hc]; [by eexists|]. cbn in Hc. congruence.
Qed.
Lemma each_followed cfgs s : free s → paired s → NoDup (Reg.Chain <$> cfgs) →
  ∃ s', each process_config cfgs s = Some (tt, s') ∧ free s' ∧ paired s' ∧
    (∀ k, k ∉ Reg.Chain <$> cfgs ∨ skipped k → untouched k s s') ∧ (∀ i cfg, cfgs !! i = Some cfg → skipped (Reg.Chain cfg) ∨
       ∃ si, each process_config (take i cfgs) s = Some (tt, si) ∧ untouched (Reg.Chain cfg) s si ∧ followed cfg si s').
Proof.
  revert s. induction cfgs as [|cfg cfgs IH]; intros s Hf Hp Hn.
  { exists s. by split_and!. }
  cbn in Hn. apply NoDup_cons in Hn as [Hni Hn]. destruct (process_spec cfg s Hf Hp) as (s1 & Hs1 & Hf1 & Hp1 & Hu1 & Hfol1).
  destruct (IH s1 Hf1 Hp1 Hn) as (s2 & Hs2 & Hf2 & Hp2 & Hu2 & Hfol2). exists s2. split_and!; try done.
  - cbn [each]. rewrite sync_bind_run, Hs1. exact Hs2.
  - intros k Hk. cbn in Hk. rewrite not_elem_of_cons in Hk. apply (untouched_trans _ _ s1); [apply Hu1|apply Hu2]; naive_solver.
  - intros [|i] cfg' Hi; cbn in Hi.
    + injection Hi as <-. destruct Hfol1 as [|Hfol1]; [by left|]. right. exists s. split_and!; [done|done|].
      eapply followed_after; [done|]. apply Hu2. by left.
    + destruct (Hfol2 i cfg' Hi) as [|(si & Hsi & Hui & Hfol)]; [by left|]. right. exists si. split_and!; [| |done].
      2: { eapply untouched_trans; [apply Hu1; left; intros Heq; apply Hni|exact Hui]. rewrite <- Heq. apply list_elem_of_fmap_2. by eapply list_elem_of_lookup_2. }
      cbn [take each]. by rewrite sync_bind_run, Hs1.
Qed.
(** Under the read lock, the first client to be removed is the last thing that happens. *)
Lemma stale_run cfgs l s : readers s ≠ 0%nat →
  each (remove_stale cfgs) l s = if forallb (seen cfgs) l then Some (tt, s) else None.
Proof.
  intros Hr. induction l as [|k l IH]; [done|]. cbn [each forallb]. rewrite sync_bind_run. unfold remove_stale at 1.
  destruct (seen cfgs k); [cbn; by rewrite IH|]. cbn. unfold removeChain. rewrite sync_bind_run. unfold Lock.
  apply Nat.eqb_neq in Hr. rewrite Hr. by rewrite orb_true_r.
Qed.
Definition stale cfgs s (k : string) : Prop := is_Some (clients s !! k) ∧ seen cfgs k = false.

(** C36. A round of the manager.  Let Push Chain answer its configurations, one per chain.
    If a client runs for a chain that is not among them, the round does not end: the
    removal waits for the write lock while the round holds the read lock.  Otherwise it
    ends with the lock free, the client of Push Chain untouched, every configuration
    followed (the chain closed, or served under an equal configuration, by the same client
    as before if it was equal then, or its client failed to start in what the round found
    outside when it came to it, after the old client stopped) and no client for any other
    chain. *)
Theorem manager_follows_registry s cfgs e :
  free s → paired s → NoDup (Reg.Chain <$> cfgs) → GetAllChainConfigs (outside s) = (inr cfgs, e) →
  ((∃ k, stale cfgs s k) → fetchAndUpdate s = None) ∧
  ((∀ k, ¬ stale cfgs s k) →
   ∃ s', fetchAndUpdate s = Some (None, s') ∧ free s' ∧ paired s' ∧ untouched pushChainID s s' ∧
     (∀ i cfg, cfgs !! i = Some cfg → skipped (Reg.Chain cfg) ∨
        ∃ si, each process_config (take i cfgs) (s <| outside := e |>) = Some (tt, si) ∧ untouched (Reg.Chain cfg) s si ∧ followed cfg si s') ∧
     (∀ k, is_Some (clients s' !! k) → k = pushChainID ∨ ∃ cfg, cfg ∈ cfgs ∧ Reg.Chain cfg = k ∧ both_disabled cfg = false)).
Proof.
  intros Hf Hp Hn Hg. unfold fetchAndUpdate, perform. rewrite sync_bind_run, Hg. set (s0 := s <| outside := e |>).
  destruct (each_followed cfgs s0) as (s1 & Hs1 & Hf1 & Hp1 & Hu & Hfol); [done..|].
  cbn. rewrite sync_bind_run, Hs1, sync_bind_run. unfold RLock. rewrite (proj2 Hf1). rewrite sync_bind_run. cbn [look].
  unfold look. rewrite sync_bind_run, stale_run by done. cbn [clients].
  assert (Hunseen : ∀ k, seen cfgs k = false → clients s1 !! k = clients s !! k).
  { intros k [_ Hk%bool_decide_eq_false]%orb_false_iff. apply (Hu k). destruct (decide (k = "")); [right; by left|left; naive_solver]. }
  assert (Hstale : ∀ k, stale cfgs s k ↔ stale cfgs s1 k).
  { intros k. unfold stale. split; intros [Hr Hk]; (split; [|done]); by rewrite (Hunseen k Hk) in *. }
  change (clients (s1 <| readers ::= S |>)) with (clients s1). set (running := (map_to_list (clients s1)).*1).
  assert (Hin : ∀ k, In k running ↔ is_Some (clients s1 !! k)).
  { intros k. unfold running. rewrite <- list_elem_of_In, list_elem_of_fmap. split.
    - intros ([k' c] & -> & Hk%elem_of_map_to_list). by eexists.
    - intros [c Hc]. exists (k, c). split; [done|]. by apply elem_of_map_to_list. }
  split.
  - intros (k & [Hr Hk]%Hstale). destruct (forallb (seen cfgs) running) eqn:Ha; [|done]. rewrite forallb_forall in Ha.
    rewrite (Ha k) in Hk; [done|]. by apply Hin.
  - intros Hno. assert (Ha : forallb (seen cfgs) running = true).
    { apply forallb_forall. intros k Hk%Hin. destruct (seen cfgs k) eqn:Hsk; [done|]. destruct (Hno k). by apply Hstale. }
    rewrite Ha. eexists. split; [reflexivity|]. cbn. split_and!; try done.
    + apply Hu. by right; right.
    + intros k [c Hc]. destruct (decide (k = pushChainID)) as [|Hkp]; [by left|]. right.
      assert (Hsk : seen cfgs k = true) by (rewrite forallb_forall in Ha; apply Ha, Hin; by eexists).
      unfold seen in Hsk. apply orb_true_iff in Hsk as [Hsk%bool_decide_eq_true|[Hne (cfg & -> & Hcfg)%list_elem_of_fmap]%bool_decide_eq_true]; [done|].
      exists cfg. split_and!; [done..|]. apply list_elem_of_lookup in Hcfg as [i Hi].
      destruct (Hfol i cfg Hi) as [[Hs|Hs]|(si & _ & _ & Hfc)]; [done|done|].
      unfold followed in Hfc. destruct (both_disabled cfg); [|done]. cbn in Hc. congruence.
Qed.
End manager.
