(* ===== verification/UcRpc.v ===== *)
(** * The universal client: pools of endpoints

    [chains/evm/rpc_client.go], [chains/svm/rpc_client.go] and [pushcore/pushCore.go]: which
    endpoints a pool has, and how a call goes round them until one answers. *)
From S2P Require Import Prelude GoStrings.

(** ** The endpoints of a pool *)
Section pools.
Context (dial : string → option error) (ChainID : string → error + Z).
Definition evm_endpoint (expectedChainID : Z) (url : string) : bool :=
  match dial url with
  | Some _ => false
  | None => match ChainID url with inl _ => true | inr id => bool_decide (i64 id = expectedChainID) end
  end.
Definition evm_NewRPCClient (rpcURLs : list string) (expectedChainID : Z) : res (list string) :=
  match rpcURLs with
  | [] => Err "no RPC URLs provided"
  | _ => match List.filter (evm_endpoint expectedChainID) rpcURLs with
         | [] => Err "failed to connect to any valid RPC endpoints"
         | clients => Ok clients
         end
  end.
Context (GetHealth : string → error + string) (GetGenesisHash : string → error + string).
Definition svm_endpoint (expectedGenesisHash : string) (url : string) : bool :=
  match GetHealth url with
  | inl _ => false
  | inr health =>
      bool_decide (health = "ok") &&
      (bool_decide (expectedGenesisHash = "") ||
       match GetGenesisHash url with
       | inl _ => true
       | inr hash => bool_decide (String.substring 0 (String.length expectedGenesisHash) hash = expectedGenesisHash)
       end)
  end.
Definition svm_NewRPCClient (rpcURLs : list string) (expectedGenesisHash : string) : res (list string) :=
  match rpcURLs with
  | [] => Err "no RPC URLs provided"
  | _ => match List.filter (svm_endpoint expectedGenesisHash) rpcURLs with
         | [] => Err "failed to connect to any valid RPC endpoints"
         | clients => Ok clients
         end
  end.
Definition pushcore_New (urls : list string) : res (list string) :=
  match urls with
  | [] => Err "pushcore: at least one gRPC URL is required"
  | _ => match List.filter (λ url, bool_decide (dial url = None)) urls with
         | [] => Err ("pushcore: all dials failed (" +:+ fmt_d (Z.of_nat (length urls)) +:+ " urls)")
         | clients => Ok clients
         end
  end.
End pools.

(** ** A call *)
Section calls.
Context {E A : Type}.
(** Whether the context of the caller is done, and the call at one endpoint. *)
Context (ctx_err : E → option error) (fn : nat → E → (error + A) * E).
(** The loop, from attempt [attempt]; [n] endpoints. *)
Fixpoint failover_from (n : nat) (operation : string) (startIndex : Z) (left_ : nat) (attempt : Z) (lastErr : option error) (e : E) : (error + A) * E :=
  match left_ with
  | O => (inl ("operation " +:+ operation +:+ " failed after trying " +:+ fmt_d (Z.of_nat n) +:+ " endpoints" +:+
               match lastErr with Some err => ": " +:+ err | None => "" end), e)
  | S left_ =>
      match ctx_err e with
      | Some err => (inl err, e)
      | None =>
          match fn (Z.to_nat (u64 (startIndex + attempt) mod Z.of_nat n)) e with
          | (inr a, e) => (inr a, e)
          | (inl err, e) => failover_from n operation startIndex left_ (attempt + 1) (Some err) e
          end
      end
  end.
(** With the counter after it. *)
Definition executeWithFailover (n : nat) (operation : string) (index : Z) (e : E) : (error + A) * Z * E :=
  match n with
  | O => (inl ("no RPC clients available for " +:+ operation), index, e)
  | _ =>
      let index := u64 (index + 1) in
      let '(r, e) := failover_from n operation (u64 (index - 1)) n 0 None e in (r, index, e)
  end.
Fixpoint round_robin_from (n : nat) (operationName : string) (start i : Z) (left_ : nat) (lastErr : error) (e : E) : (error + A) * E :=
  match left_ with
  | O => (inl ("pushcore: " +:+ operationName +:+ " failed on all " +:+ fmt_d (Z.of_nat n) +:+ " endpoints: " +:+ lastErr), e)
  | S left_ =>
      match fn (Z.to_nat ((start + i) mod Z.of_nat n)) e with
      | (inr a, e) => (inr a, e)
      | (inl err, e) => round_robin_from n operationName start (i + 1) left_ err e
      end
  end.
Definition u32 (z : Z) : Z := z mod 2 ^ 32.
Definition retryWithRoundRobin (numClients : nat) (operationName : string) (rrCounter : Z) (e : E) : (error + A) * Z * E :=
  match numClients with
  | O => (inl "pushcore: no endpoints configured", rrCounter, e)
  | _ =>
      let rrCounter := u32 (rrCounter + 1) in
      let start := u32 (rrCounter - 1) mod Z.of_nat numClients in
      let '(r, e) := round_robin_from numClients operationName start 0 numClients "" e in (r, rrCounter, e)
  end.

(** ** One endpoint is enough *)
Definition answers (k : nat) : Prop := ∀ e, ∃ a, (fn k e).1 = inr a.
(** A rotation by any start meets every endpoint. *)
Lemma rotation_meets (n k : nat) (start : Z) : (k < n)%nat → ∃ i, 0 ≤ i < Z.of_nat n ∧ Z.to_nat ((start + i) mod Z.of_nat n) = k.
Proof.
  intros Hk. exists ((Z.of_nat k - start) mod Z.of_nat n). split; [apply Z.mod_pos_bound; lia|].
  rewrite Zplus_mod_idemp_r. replace (start + (Z.of_nat k - start)) with (Z.of_nat k) by lia. rewrite Z.mod_small by lia. lia.
Qed.
Lemma round_robin_reaches n op start i0 m err e k i :
  answers k → i0 ≤ i < i0 + Z.of_nat m → Z.to_nat ((start + i) mod Z.of_nat n) = k →
  ∃ a, (round_robin_from n op start i0 m err e).1 = inr a.
Proof.
  intros Hk. revert i0 err e. induction m as [|m IH]; intros i0 err e Hi Hm; [lia|]. cbn [round_robin_from].
  destruct (fn _ e) as [[err'|a] e'] eqn:Hf; [|by eexists]. destruct (decide (i = i0)) as [->|Hne].
  - rewrite Hm in Hf. destruct (Hk e) as [a Ha]. by rewrite Hf in Ha.
  - apply IH; [lia|done].
Qed.
Lemma failover_reaches n op start i0 m err e k i :
  (∀ e, ctx_err e = None) → answers k → 0 ≤ start → 0 ≤ i0 → start + i0 + Z.of_nat m ≤ 2 ^ 64 →
  i0 ≤ i < i0 + Z.of_nat m → Z.to_nat ((start + i) mod Z.of_nat n) = k →
  ∃ a, (failover_from n op start m i0 err e).1 = inr a.
Proof.
  intros Hctx Hk Hs. revert i0 err e. induction m as [|m IH]; intros i0 err e H0 Hw Hi Hm; [lia|]. cbn [failover_from]. rewrite Hctx.
  assert (Hu : u64 (start + i0) = start + i0) by (apply u64_id; lia). rewrite Hu.
  destruct (fn _ e) as [[err'|a] e'] eqn:Hf; [|by eexists]. destruct (decide (i = i0)) as [->|Hne].
  - rewrite Hm in Hf. destruct (Hk e) as [a Ha]. by rewrite Hf in Ha.
  - apply IH; [lia|lia|lia|done].
Qed.
(** Whatever the others do, a call succeeds when one endpoint of the pool answers: always
    at Push Chain, and on the other chains while the counter is not about to wrap. *)
Lemma one_endpoint_is_enough n op (counter : Z) e k :
  (k < n)%nat → answers k →
  (∃ a, (retryWithRoundRobin n op counter e).1.1 = inr a) ∧
  ((∀ e, ctx_err e = None) → 0 ≤ counter → counter + 1 + Z.of_nat n ≤ 2 ^ 64 → ∃ a, (executeWithFailover n op counter e).1.1 = inr a).
Proof.
  intros Hk Ha. destruct n as [|n]; [lia|]. split.
  - unfold retryWithRoundRobin. cbv zeta. set (start := u32 _ mod _).
    destruct (rotation_meets (S n) k start Hk) as (i & Hi & Hm).
    destruct (round_robin_reaches (S n) op start 0 (S n) "" e k i Ha ltac:(lia) Hm) as [a Hr].
    destruct (round_robin_from _ _ _ _ _ _ _) as [r e']. exists a. exact Hr.
  - intros Hctx H0 Hw. unfold executeWithFailover. cbv zeta.
    assert (Hs : u64 (u64 (counter + 1) - 1) = counter) by (rewrite (u64_id (counter + 1)), u64_id; lia).
    rewrite Hs. destruct (rotation_meets (S n) k counter Hk) as (i & Hi & Hm).
    destruct (failover_reaches (S n) op counter 0 (S n) None e k i Hctx Ha H0 ltac:(lia) ltac:(lia) ltac:(lia) Hm) as [a Hr].
    destruct (failover_from _ _ _ _ _ _ _) as [r e']. exists a. exact Hr.
Qed.
End calls.
