(* ===== verification/UcBuilders.v ===== *)
(** * The universal client: its chains put together

    The threshold signer speaks to a chain through the builder of its transactions.  Here
    the builders of [chains/evm] and [chains/svm] answer those questions, each with the RPC
    side of its own chain, and the rest of the world answers the others. *)
From S2P Require Import Prelude GoStrings UvTypes TssTypes UxTypes RegTypes World Canonical Utss UxPayload UxMsg.
From S2P Require Import UcStore UcChain UcEvm UcSvm UcCoord UcSession UcEvmTx UcSvmTx UcLogic UcFlow UcFlowSpec UcEvmTxSpec UcSvmTxSpec.
Import Uc.

Inductive Builder := EvmBuilder (config : EvmBuilderConfig) | SvmBuilder (config : SvmBuilderConfig).
(** The RPC side of each chain, and everything else. *)
Record Fleet (E R : Type) := mkFleet { side : string → Node E; others : R }.
Arguments mkFleet {_ _} _ _.
Arguments side {_ _} _.
Arguments others {_ _} _.
(** The chains with their builders; one whose gateway is not configured has none. *)
Class Chains : Type := builder_of : string → option Builder.

Section fleet.
Context `{CC : ChainCodecs, CR : Crypto, TL : EvmTxLib, SL : SvmTxLib, CH : Chains}.
Context {E R : Type} `{EV : Env E, RV : Env R}.
Implicit Types (s : Fleet E R).

Definition at_chain {A} (chain : string) (m : M (Node E) A) s : res A * Fleet E R :=
  let '(r, n) := m (side s chain) in (r, mkFleet (λ c, if decide (c = chain) then n else side s c) (others s)).
Definition no_builder {A} : M (Node E) A := throw "txBuilder not available".
Definition with_kind {A} (chain : string) (evm : EvmBuilderConfig → M (Node E) A) (svm : SvmBuilderConfig → M (Node E) A) : M (Node E) A :=
  match builder_of chain with Some (EvmBuilder c) => evm c | Some (SvmBuilder c) => svm c | None => no_builder end.
(** The error of a method that also returns a value is part of its result. *)
Definition with_error {A} (none : A) (r : res (A * option error) * Fleet E R) : (A * option error) * Fleet E R :=
  let '(r, s) := r in (match r with Ok a => a | Err e | Panic e => (none, Some e) end, s).
#[export] Instance fleet_env : Env (Fleet E R) := λ A c s,
  match c in Call A return A * Fleet E R with
  | GetTxBuilder chain => (match builder_of chain with Some _ => Ok tt | None => Err "txBuilder not available" end, s)
  | IsEVMChain chain => (match builder_of chain with Some (EvmBuilder _) => true | _ => false end, s)
  | GetOutboundSigningRequest chain data nonce =>
      at_chain chain (with_kind chain (λ c, lift_res (evm_GetOutboundSigningRequest (BC := c) data nonce))
                                      (λ c, svm_GetOutboundSigningRequest (BC := c) data nonce)) s
  | GetFundMigrationSigningRequest chain data nonce =>
      at_chain chain (with_kind chain (λ c, evm_GetFundMigrationSigningRequest (BC := c) data nonce)
                                      (λ c, svm_GetFundMigrationSigningRequest data nonce)) s
  | BroadcastOutboundSigningRequest chain req data signature =>
      with_error "" (at_chain chain (with_kind chain (λ c, evm_BroadcastOutboundSigningRequest (BC := c) req data signature)
                                                     (λ c, svm_BroadcastOutboundSigningRequest (BC := c) req data signature)) s)
  | BroadcastFundMigrationTx chain req data signature =>
      with_error "" (at_chain chain (with_kind chain (λ c, evm_BroadcastFundMigrationTx (BC := c) req data signature)
                                                     (λ c, svm_BroadcastFundMigrationTx req data signature)) s)
  | VerifyBroadcastedTx chain txHash =>
      at_chain chain (with_kind chain (λ c, evm_VerifyBroadcastedTx txHash) (λ c, svm_VerifyBroadcastedTx txHash)) s
  | IsAlreadyExecuted chain txID =>
      with_error (false, 0) (at_chain chain (with_kind chain (λ c, evm_IsAlreadyExecuted txID) (λ c, svm_IsAlreadyExecuted (BC := c) txID)) s)
  | GetGasFeeUsed chain txHash => at_chain chain (with_kind chain (λ c, evm_GetGasFeeUsed txHash) (λ c, svm_GetGasFeeUsed txHash)) s
  | GetNextNonce chain signer useFinalized =>
      at_chain chain (with_kind chain (λ c, evm_GetNextNonce signer useFinalized) (λ c, svm_GetNextNonce signer useFinalized)) s
  | other => let '(a, r) := answer other (others s) in (a, mkFleet (side s) r)
  end.

Context `{CF : ClientConfig, SO : SortSlice}.
Implicit Types (n : Node (Fleet E R)).

Lemma rpc_answered {X} `{Env X} {A} (c : Call A) (x : Node X) a e :
  answer c (env x) = (a, e) → rpc c x = (Ok a, mkNode (rows x) (sessions x) (coord x) (dbHeight x) (Log c a :: trace x) e).
Proof. intros He. unfold rpc. by rewrite He. Qed.
(** ** Solana: an account that could not be read *)
(** What the program's record of an outbound reads as. *)
Lemma executed_answer (cfg : SvmBuilderConfig) txID bz pda (x : Node E) acc e1 bt e2 :
  decode_prefixed txID = Some bz → length bz = 32%nat → FindProgramAddress [executedSubTxSeed; bz] gatewayAddress = Ok pda →
  answer (GetAccountData pda) (env x) = (acc, e1) → answer LatestFinalizedBlockTime e1 = (bt, e2) →
  (svm_IsAlreadyExecuted txID x).1
  = Ok (match acc with Ok (_ :: _) => true | _ => false end, match bt with Ok t => t | _ => 0 end, None).
Proof.
  intros Hd Hl Hp Ha Hb. unfold svm_IsAlreadyExecuted. rewrite Hd, decide_True, Hp by done. rewrite bind_unfold.
  unfold storedPDAExists. rewrite bind_unfold, (rpc_answered _ _ _ _ Ha), ret_run, bind_unfold. by erewrite rpc_answered.
Qed.
(** C35. On Solana, a read that fails counts as an outbound that was not executed.  When the
    deadline has passed on the cluster, the resolver votes that an outbound failed if its
    record could not be read, as it does when there is none; it votes nothing when the
    record is read.  The answer of the node alone decides, whatever the record holds. *)
Theorem svm_unreadable_is_reverted ev chain (cfg : SvmBuilderConfig) txID utxID bz pda n acc e1 t e2 now r1 :
  has_push_signer = true → builder_of chain = Some (SvmBuilder cfg) → extractOutboundIDs ev = Some (txID, utxID) →
  decode_prefixed txID = Some bz → length bz = 32%nat → FindProgramAddress [executedSubTxSeed; bz] gatewayAddress = Ok pda →
  answer (GetAccountData pda) (env (side (env n) chain)) = (acc, e1) → answer LatestFinalizedBlockTime e1 = (Ok t, e2) →
  answer NowUnix (others (env n)) = (now, r1) → 0 < t → i64 (ReadSigningDeadline ev + 30) < t → i64 (now - t) ≤ 120 →
  let n' := (resolveSVM ev chain n).2 in
  match acc with
  | Ok (_ :: _) => trace n' = [Log (IsAlreadyExecuted chain txID) (true, t, None); Log (GetTxBuilder chain) (Ok tt)] ++ trace n
  | _ => ∃ v, trace n' = [Log (VoteOutbound txID utxID (Ux.mkOutboundObservation false 0 "" "tx not executed on destination chain" "0")) v;
                          Log NowUnix now; Log (IsAlreadyExecuted chain txID) (false, t, None); Log (GetTxBuilder chain) (Ok tt)] ++ trace n
  end.
Proof.
  intros Hps Hb Hids Hd Hl Hp Ha Ht Hn Hpos Hdl Hst. pose proof (executed_answer cfg txID bz pda (side (env n) chain) acc e1 (Ok t) e2 Hd Hl Hp Ha Ht) as Hx.
  destruct (svm_IsAlreadyExecuted txID (side (env n) chain)) as [x m] eqn:Hm. cbn in Hx. subst x.
  cbv zeta. unfold resolveSVM. rewrite Hids. unfold with_builder. rewrite bind_unfold.
  erewrite rpc_answered by (cbn; rewrite Hb; reflexivity). cbv iota. rewrite bind_unfold.
  erewrite rpc_answered by (cbn; unfold with_kind; rewrite Hb; unfold at_chain; rewrite Hm; reflexivity). cbv iota beta.
  destruct (match acc with Ok (_ :: _) => true | _ => false end) eqn:Hexec.
  - destruct acc as [[|? ?]|?|?]; try done. by rewrite (Update_run (E := Fleet E R)).
  - rewrite decide_False by lia. rewrite bind_unfold. erewrite rpc_answered by (cbn; rewrite Hn; reflexivity). cbv iota beta.
    rewrite decide_False by (unfold svmClusterStaleSeconds; lia). rewrite decide_False by (unfold svmRevertSlackSeconds; lia).
    unfold voteOutboundFailureAndMarkReverted. rewrite Hps. cbv zeta. rewrite decide_False by done. rewrite bind_unfold.
    unfold rpc. cbn [env]. destruct (answer (VoteOutbound _ _ _) _) as [v fl].
    destruct acc as [[|? ?]|?|?]; try done; exists v; destruct v; try done; by rewrite (Update_run (E := Fleet E R)).
Qed.
End fleet.
