(* ===== verification/UcFleet.v ===== *)
(** * The universal client: everything it sends

    Whatever the client does over its chains, an EVM chain is sent nothing but the
    transactions of the events of Push Chain, each signed over its own hash. *)
From S2P Require Import Prelude GoStrings UvTypes TssTypes UxTypes RegTypes World Canonical Utss UxPayload UxMsg.
From S2P Require Import UcStore UcChain UcEvm UcSvm UcCoord UcSession UcEvmTx UcSvmTx UcLogic UcFlow UcFlowSpec UcSpeak UcSessionSpec.
From S2P Require Import UcSettled UcAgreed UcEvmTxSpec UcSvmTxSpec UcBuilders.
Import Uc.

(** ** Facts about what was asked

    The client only speaks through [rpc], so what holds of its log and of the outside
    world across every call holds across every step. *)
Section speaking.
Context {E : Type} `{EV : Env E, CF : ClientConfig, CR : Crypto, SO : SortSlice, SOL : !SortSliceLaws}.
Implicit Types (n : Node E).
Variable I : Node E → Prop.
Hypothesis I_rpc : ∀ A (c : Call A), keeps I (rpc c).
Hypothesis I_same : ∀ n n', trace n' = trace n → env n' = env n → I n → I n'.

Lemma I_write f : (∀ n, trace (f n) = trace n ∧ env (f n) = env n) → keeps I (modify f).
Proof. intros Hf n. destruct (Hf n). by apply I_same. Qed.
#[local] Hint Extern 1 (keeps _ (modify _)) => apply I_write; by intros ? : keeper.
#[local] Hint Resolve I_rpc : keeper.
Lemma I_run_step n n' : client_step n n' → I n → I n'.
Proof.
  assert (∀ k f, keeps I (Update (E:=E) k f)) as HU by (intros k f; unfold Update, get_rows, set_rows; keep).
  destruct 1.
  - apply I_onReceive; intros; unfold set_coord, set_rows, set_sessions; keep.
  - apply I_poll_tick; intros; unfold set_coord; keep.
  - unfold processSigned. destruct has_chains; [|apply keeps_ret]. apply (drain_keeps _ (λ _ _, True)); [done|].
    intros ev m Hm _. split; [|done]. revert m Hm. apply I_broadcastEvent; intros; auto.
  - unfold processBroadcasted. destruct has_chains; [|apply keeps_ret]. apply (drain_keeps _ (λ _ _, True)); [done|].
    intros ev m Hm _. split; [|done]. revert m Hm. apply I_resolveEvent; intros; auto.
  - revert n. change (keeps I (sweep age)). unfold sweep, DeleteExpiredEvents, DeleteOldUnsignedEvents, delete_where, get_rows, set_rows. keep.
  - revert n H. intros n _. revert n. change (keeps I (InsertEventIfNotExists e)). unfold InsertEventIfNotExists, get_rows, set_rows. keep.
  - revert n. match goal with |- ∀ n, _ n → _ (?m n).2 => change (keeps I m) end.
    unfold RecoverInProgressEvents, get_rows, set_rows, set_coord, set_sessions. keep.
Qed.
Lemma I_run catalogue n n' : rtc (listed_step catalogue) n n' → I n → I n'.
Proof.
  induction 1 as [|n n1 n2 Hst _ IH]; [done|]. intros Hn. apply IH. destruct Hst as [ev n Hl|n n' Hst _]; [|by eapply I_run_step].
  unfold InsertEventIfNotExists, get_rows, set_rows. mrun. destruct (rows n !! EventID ev); mrun; [done|]. by apply (I_same n).
Qed.
End speaking.

(** ** What a builder sends *)
Section builders.
Context `{CC : ChainCodecs, CR : Crypto, TL : EvmTxLib, SL : SvmTxLib}.
Context {E : Type} `{EV : Env E}.
Variable P : SignedEvmTx → Prop.
(** Every EVM transaction that was sent satisfies [P]. *)
Definition sent_only (n : Node E) : Prop := ∀ tx a, SendEvmTransaction tx ⟹ a ∈ trace n → P tx.
Definition sends {A} (c : Call A) : option SignedEvmTx := match c with SendEvmTransaction tx => Some tx | _ => None end.
Lemma sent_rpc {A} (c : Call A) : from_option P True (sends c) → keeps sent_only (rpc c).
Proof.
  intros Hc n Hn tx a. unfold rpc. destruct (answer c (env n)) as [b e]. cbn. rewrite elem_of_cons. intros [He|Hin]; [|by eapply Hn].
  change (from_option P True (sends (asked (Log c b)))) in Hc. rewrite <- He in Hc. exact Hc.
Qed.
#[local] Hint Extern 1 (keeps _ (rpc _)) => apply sent_rpc; exact I : keeper.
Lemma sent_ask {A} (c : Call (res A)) : sends c = None → keeps sent_only (ask c).
Proof. intros Hc. unfold ask. apply keeps_bind; [apply sent_rpc; by rewrite Hc|]. intros ?. keep. Qed.
#[local] Hint Extern 1 (keeps _ (ask _)) => apply sent_ask; reflexivity : keeper.
Lemma sent_assembled msg r : (∀ tx, r = Ok tx → P tx) → keeps sent_only (send_assembled msg r).
Proof.
  intros Hr. unfold send_assembled. destruct r as [tx|?|?]; [|keep..]. apply keeps_bind; [apply sent_rpc; by apply Hr|]. intros a. keep.
Qed.
Lemma sent_evm_migration (cfg : EvmBuilderConfig) data nonce : keeps sent_only (evm_GetFundMigrationSigningRequest data nonce).
Proof. unfold evm_GetFundMigrationSigningRequest. keep. Qed.
Lemma sent_evm_nonce signer b : keeps sent_only (evm_GetNextNonce signer b).
Proof. unfold evm_GetNextNonce. keep. Qed.
Lemma sent_evm_verify hash : keeps sent_only (evm_VerifyBroadcastedTx hash).
Proof. unfold evm_VerifyBroadcastedTx. keep. Qed.
Lemma sent_evm_fee hash : keeps sent_only (evm_GetGasFeeUsed hash).
Proof. unfold evm_GetGasFeeUsed. keep. Qed.
Section svm.
Context (cfg : SvmBuilderConfig).
Lemma sent_find_pda msg seeds : keeps sent_only (find_pda msg seeds).
Proof. unfold find_pda. keep. Qed.
#[local] Hint Resolve sent_find_pda : keeper.
Lemma sent_fetch_tables alts tables : keeps sent_only (fetch_tables alts tables).
Proof. revert tables. induction alts as [|alt alts IH]; intros tables; cbn [fetch_tables]; keep. Qed.
Lemma sent_tables mint isNative : keeps sent_only (tables_or_none mint isNative).
Proof. unfold tables_or_none, fetchAddressTables. pose proof sent_fetch_tables. keep. Qed.
Lemma sent_signed what ixs blockhash key tables : keeps sent_only (signed_by_relayer what ixs blockhash key tables).
Proof. unfold signed_by_relayer. keep. Qed.
Lemma sent_keypair : keeps sent_only loadRelayerKeypair.
Proof. unfold loadRelayerKeypair. keep. Qed.
Lemma sent_parts signature : keeps sent_only (signature_parts signature).
Proof. unfold signature_parts. keep. Qed.
#[local] Hint Resolve sent_tables sent_signed sent_keypair sent_parts : keeper.
Lemma sent_instruction data f amount id accs ixData signature v hash relayer :
  keeps sent_only (gateway_instruction data f amount id accs ixData signature v hash relayer).
Proof. unfold gateway_instruction. keep. Qed.
#[local] Hint Resolve sent_instruction : keeper.
Lemma sent_svm_broadcast req data signature : keeps sent_only (svm_BroadcastOutboundSigningRequest req data signature).
Proof.
  unfold svm_BroadcastOutboundSigningRequest, broadcast_outbound, broadcastRefRoute, storedPDAExists, BuildOutboundTransaction,
    BuildRefRouteTransactions. keep.
Qed.
Lemma sent_svm_request data nonce : keeps sent_only (svm_GetOutboundSigningRequest data nonce).
Proof. unfold svm_GetOutboundSigningRequest, fetchTSSChainID. keep. Qed.
Lemma sent_svm_verify hash : keeps sent_only (svm_VerifyBroadcastedTx hash).
Proof. unfold svm_VerifyBroadcastedTx. keep. Qed.
Lemma sent_svm_executed txID : keeps sent_only (svm_IsAlreadyExecuted txID).
Proof. unfold svm_IsAlreadyExecuted, storedPDAExists. keep. Qed.
End svm.
End builders.

(** ** The client over its chains *)
Section fleet.
Context `{CC : ChainCodecs, CR : Crypto, TL : EvmTxLib, SL : SvmTxLib, CH : Chains}.
Context {E R : Type} `{EV : Env E, RV : Env R}.
Implicit Types (n : Node (Fleet E R)).

Lemma applied (cfg : EvmBuilderConfig) tx0 signature tx : apply_signature tx0 signature = Ok tx → tx = mkSignedEvmTx chainIDInt tx0 signature.
Proof. unfold apply_signature. destruct (WithSignature _ _ _); [done|]. by intros [= <-]. Qed.
Lemma assembled_signed (cfg : EvmBuilderConfig) req data signature tx :
  assembled_outbound req data signature = Ok tx →
  StChainID tx = chainIDInt ∧ signature = StSignature tx ∧
  ∀ req0, evm_GetOutboundSigningRequest data (ReqNonce req) = Ok req0 →
    outbound_tx data (ReqNonce req) (StTx tx) ∧ signer_Hash chainIDInt (StTx tx) = ReqSigningHash req0.
Proof.
  intros Ha. assert (∃ tx0, length signature = 65%nat ∧ tx = mkSignedEvmTx chainIDInt tx0 signature) as (tx0 & Hl & ->).
  { unfold assembled_outbound in Ha. binds. eexists. split; [done|]. by apply applied. }
  split_and!; [done..|]. intros req0 Hr. destruct (request_inv _ _ _ Hr) as (tx1 & Htx1 & _ & _ & ->). destruct req as [hash nonce amount]. cbn [ReqNonce] in *.
  rewrite (assembled_inv _ _ _ tx1 hash amount _ Hr Htx1 Hl) in Ha. apply applied in Ha. injection Ha as ->. done.
Qed.
Lemma assembled_migrates (cfg : EvmBuilderConfig) req data signature tx :
  assembled_migration req data signature = Ok tx →
  StChainID tx = chainIDInt ∧ signature = StSignature tx ∧ ∃ amount, ReqAmount req = Some amount ∧ 0 < amount ∧ StTx tx = migration_tx data (ReqNonce req) amount.
Proof.
  unfold assembled_migration. intros H. binds. destruct (ReqAmount req) as [amount|]; [|done]. binds.
  match goal with H : apply_signature _ _ = Ok _ |- _ => apply applied in H as -> end. split_and!; [done..|]. by exists amount.
Qed.
(** The transaction is one that the client handed to the builder of the chain. *)
Definition handed_over (t : list Logged) (chain : string) (tx : SignedEvmTx) : Prop :=
  ∃ cfg : EvmBuilderConfig, builder_of chain = Some (EvmBuilder cfg) ∧
  ((∃ req data signature r, BroadcastOutboundSigningRequest chain req data signature ⟹ r ∈ t ∧ assembled_outbound req data signature = Ok tx) ∨
   (∃ req data signature r, BroadcastFundMigrationTx chain req data signature ⟹ r ∈ t ∧ assembled_migration req data signature = Ok tx)).
Definition accounted n : Prop := ∀ chain, sent_only (handed_over (trace n) chain) (side (env n) chain).
Lemma sent_only_mono (P Q : SignedEvmTx → Prop) (x : Node E) : (∀ tx, P tx → Q tx) → sent_only P x → sent_only Q x.
Proof. intros H Hx tx a Hin. apply H. by eapply Hx. Qed.
Lemma handed_over_mono t t' chain tx : t ⊆ t' → handed_over t chain tx → handed_over t' chain tx.
Proof. intros Ht (cfg & Hb & [(req & d & s & r & Hin & Ha)|(req & d & s & r & Hin & Ha)]); exists cfg; (split; [done|]); [left|right]; eauto 8. Qed.
Lemma at_chain_accounted {A} chain (m : M (Node E) A) (s : Fleet E R) (P : string → SignedEvmTx → Prop) :
  (∀ c, sent_only (P c) (side s c)) → keeps (sent_only (P chain)) m → ∀ c, sent_only (P c) (side (at_chain chain m s).2 c).
Proof.
  intros Hs Hm c. unfold at_chain. specialize (Hm _ (Hs chain)). destruct (m (side s chain)) as [r x]. cbn. case_decide as Hc; [by subst c|apply Hs].
Qed.
Lemma with_error_side {A} (none : A) (r : res (A * option error) * Fleet E R) : (with_error none r).2 = r.2.
Proof. by destruct r. Qed.
Lemma answer_accounted {A} (c : Call A) (s : Fleet E R) (P : string → SignedEvmTx → Prop) :
  (∀ ch, sent_only (P ch) (side s ch)) →
  (∀ chain cfg, builder_of chain = Some (EvmBuilder cfg) →
    match c with
    | BroadcastOutboundSigningRequest ch req data signature => ch = chain → ∀ tx, assembled_outbound req data signature = Ok tx → P chain tx
    | BroadcastFundMigrationTx ch req data signature => ch = chain → ∀ tx, assembled_migration req data signature = Ok tx → P chain tx
    | _ => True
    end) →
  ∀ ch, sent_only (P ch) (side (answer c s).2 ch).
Proof.
  intros Hs Hb. destruct c; try (cbn; destruct (answer _ (others s)); exact Hs); try exact Hs.
  all: cbn [answer fleet_env]; rewrite ?with_error_side; apply at_chain_accounted; [done|]; unfold with_kind;
    destruct (builder_of chain) as [[cfg|cfg]|] eqn:Hk; [| |apply keeps_throw];
    auto using sent_evm_migration, sent_evm_nonce, sent_evm_verify, sent_evm_fee, sent_svm_request, sent_svm_verify, sent_svm_executed,
      sent_svm_broadcast, keeps_ret, keeps_lift_res, keeps_throw.
  1,2: apply sent_assembled; by apply (Hb chain cfg).
  all: first [apply keeps_ret | apply keeps_throw].
Qed.
Lemma accounted_rpc {A} (c : Call A) : keeps accounted (rpc c).
Proof.
  intros n Hn ch. unfold rpc. destruct (answer c (env n)) as [a s'] eqn:Hc. cbn. assert (s' = (answer c (env n)).2) as -> by (by rewrite Hc). revert ch.
  apply (answer_accounted c (env n) (handed_over (Log c a :: trace n))).
  - intros ch. eapply sent_only_mono; [|apply Hn]. intros tx. apply handed_over_mono. by apply list_subseteq_cons.
  - intros chain cfg Hb. destruct c; try done; intros -> tx Ha; exists cfg; (split; [done|]); [left|right]; eexists _, _, _, _; (split; [left|done]).
Qed.
Lemma accounted_same n n' : trace n' = trace n → env n' = env n → accounted n → accounted n'.
Proof. unfold accounted. by intros -> ->. Qed.

(** ** What the builders told the client *)
Definition told_truth (l : Logged) : Prop :=
  match asked l in Call A return A → Prop with
  | GetTxBuilder chain => λ r, r ≠ Ok tt → builder_of chain = None
  | GetOutboundSigningRequest chain data nonce => λ r, ∀ cfg req, builder_of chain = Some (EvmBuilder cfg) → r = Ok req →
      evm_GetOutboundSigningRequest (BC := cfg) data nonce = Ok req
  | GetFundMigrationSigningRequest chain data nonce => λ r, ∀ cfg req, builder_of chain = Some (EvmBuilder cfg) → r = Ok req →
      ∃ balance amount, (∀ b, MgBalance data = Some b → balance = b) ∧
        computeFundMigrationTransfer balance (MgGasPrice data) (MgGasLimit data) (MgL1GasFee data) = Ok amount ∧
        req = mkUnsignedSigningReq (signer_Hash (chainIDInt (EvmBuilderConfig := cfg)) (migration_tx data nonce amount)) nonce (Some amount)
  | _ => λ _, True
  end (answered l).
Definition truthful n : Prop := ∀ l, l ∈ trace n → told_truth l.
Lemma truthful_rpc {A} (c : Call A) : keeps truthful (rpc c).
Proof.
  intros n Hn l. unfold rpc. destruct (answer c (env n)) as [a s'] eqn:Hc. cbn. intros [->|Hin]%elem_of_cons; [|by apply Hn].
  destruct c; try exact I; unfold told_truth; cbn.
  - cbn in Hc. destruct (builder_of chain); [|done]. injection Hc as <- <-. done.
  - intros cfg req Hb ->. cbn in Hc. unfold with_kind, at_chain in Hc. rewrite Hb, lift_res_run in Hc. by injection Hc.
  - intros cfg req Hb ->. cbn in Hc. unfold with_kind, at_chain in Hc. rewrite Hb in Hc.
    destruct (evm_GetFundMigrationSigningRequest _ _ _) as [r x] eqn:Hr. injection Hc as -> _.
    destruct (migration_request_inv _ _ _ _ _ Hr) as (balance & amount & _ & Hbal & Ht & ->). exists balance, amount. split_and!; [|done|done].
    intros b Hb'. rewrite Hb' in Hbal. apply Hbal.
Qed.

Context `{CF : ClientConfig, SO : SortSlice, SOL : !SortSliceLaws} (catalogue : string → Event).
(** What the client signs, stores and sends as bytes goes through hexadecimal. *)
Definition same_bytes (bz bz' : list Z) : Prop := Forall (λ z, 0 ≤ z < 256) bz → bz' = bz.
Lemma decoded_row t id sd req signature :
  signed_row catalogue t id sd → DecodeSigningData sd = Some (req, signature) →
  ∃ sig0 hash amount, same_bytes sig0 signature ∧ ReqNonce req = SdNonce sd ∧ ReqAmount req = (a ← amount; if decide (0 < a) then Some a else None) ∧
    agreed t (catalogue id) (SdNonce sd) amount hash ∧ signed_by catalogue t id hash sig0.
Proof.
  intros (sig0 & hash & amount & Hsd & Ha & Hs) Hd. rewrite Hsd in Hd. unfold DecodeSigningData, signing_data, hex_of in Hd. cbn in Hd.
  rewrite !to_of_bytes in Hd. destruct (hex_decode (hex_encode hash)) as [h|] eqn:Hh; cbn in Hd; [|done].
  destruct (hex_decode (hex_encode sig0)) as [g|] eqn:Hg; cbn in Hd; [|done]. injection Hd as <- <-.
  exists sig0, hash, amount. split_and!; try done. intros Hb. rewrite (hex_encode_decode _ Hb) in Hg. by injection Hg.
Qed.
(** In a fleet, a chain with an EVM builder was always checked. *)
Lemma fleet_built n chain (cfg : EvmBuilderConfig) : truthful n → has_chains = true → builder_of chain = Some (EvmBuilder cfg) → ¬ unbuilt (trace n) chain.
Proof.
  intros Ht Hc Hb [H|(r & Hin & Hr)]; [congruence|]. specialize (Ht _ Hin Hr). cbn in Ht. congruence.
Qed.
Lemma outbound_agreed n ev d (cfg : EvmBuilderConfig) nonce amount hash :
  truthful n → has_chains = true → EvType ev = EventTypeSignOutbound → EventData ev = Some d →
  builder_of (OcDestinationChain (AsOutbound d)) = Some (EvmBuilder cfg) → agreed (trace n) ev nonce amount hash →
  ∃ req, evm_GetOutboundSigningRequest (AsOutbound d) nonce = Ok req ∧ ReqSigningHash req = hash.
Proof.
  intros Ht Hc Hty Hd Hb Ha. unfold agreed, rebuilt, own_view, chain_of in Ha. rewrite Hty, Hd in Ha.
  destruct Ha as [(? & req & [= <-] & Hh & Hin)|[(? & req & [= <-] & Hh & Hin)|(? & [= <-] & Hu)]].
  1,2: exists req; split; [by eapply (Ht _ Hin)|done]. by destruct (fleet_built n _ _ Ht Hc Hb).
Qed.
Lemma migration_agreed n ev d (cfg : EvmBuilderConfig) nonce amount hash from to :
  truthful n → has_chains = true → EvType ev = EventTypeSignFundMigrate → EventData ev = Some d →
  DeriveEVMAddressFromPubkey (FmOldTssPubkey (AsMigration d)) = Ok from → DeriveEVMAddressFromPubkey (FmCurrentTssPubkey (AsMigration d)) = Ok to →
  builder_of (FmChain (AsMigration d)) = Some (EvmBuilder cfg) → agreed (trace n) ev nonce amount hash →
  ∃ a, amount = Some a ∧ 0 < a ∧ hash = signer_Hash chainIDInt (migration_tx (migration_data (AsMigration d) from to None) nonce a).
Proof.
  intros Ht Hc Hty Hd Hf Hto Hb Ha. unfold agreed, rebuilt, own_view, chain_of in Ha. rewrite Hty, Hd in Ha.
  destruct Ha as [(? & req & [= <-] & <- & a & x & y & -> & Hpos & Hx & Hy & Hin)|[(? & ours & [= <-] & Hh & x & y & Ham & _ & Hx & Hy & Hin)|(? & [= <-] & Hu)]].
  - destruct (Ht _ Hin cfg req Hb eq_refl) as (balance & b & Hbal & Htr & ->).
    assert (x = from ∧ y = to) as [-> ->] by (split; congruence). exists a. split_and!; [done|done|].
    specialize (Hbal _ eq_refl). apply transfer_ok in Htr as [_ Htr]. cbn in Htr. assert (b = a) as -> by (unfold claimed_balance in Hbal; case_decide; lia). done.
  - destruct (Ht _ Hin cfg ours Hb eq_refl) as (balance & b & _ & Htr & ->). cbn in Ham, Hh.
    assert (x = from ∧ y = to) as [-> ->] by (split; congruence). subst hash amount. exists b. apply transfer_ok in Htr as [Hpos _]. done.
  - by destruct (fleet_built n _ _ Ht Hc Hb).
Qed.

(** The transaction that the event asks for, on this chain. *)
Definition event_tx (cfg : EvmBuilderConfig) ev (chain : string) (tx : LegacyTx) : Prop :=
  ∃ d nonce, EventData ev = Some d ∧
  match EvType ev with
  | EventTypeSignOutbound => chain = OcDestinationChain (AsOutbound d) ∧ outbound_tx (AsOutbound d) nonce tx
  | EventTypeSignFundMigrate => chain = FmChain (AsMigration d) ∧ ∃ to amount, 0 < amount ∧
      DeriveEVMAddressFromPubkey (FmCurrentTssPubkey (AsMigration d)) = Ok to ∧
      tx = mkLegacyTx nonce (HexToAddress to) amount (FmGasLimit (AsMigration d)) (lenient_int (FmGasPrice (AsMigration d))) []
  | _ => False
  end.
(** C5. The client sends nothing but what was signed for the events of Push Chain.  Take any
    run of a client that starts with an empty database: of messages (whatever they say),
    polls, rounds of the broadcaster and the resolver, sweeps, new events and restarts,
    where a new event is the one of Push Chain that its identifier names.  Each
    transaction that an EVM chain was sent, and for that chain's own identifier, is the one
    of an outbound to that chain (its call of the vault, value, price and limit) or of a
    fund migration on that chain (to the current key).  Its signature is over the hash of
    this very transaction: verified by the client under the key that must sign the event,
    or the result of the client's own session that was started over that hash for that
    event. *)
Theorem client_sends_what_was_signed n n' chain tx a :
  rows n = ∅ → sessions n = ∅ → trace n = [] → (∀ c, trace (side (env n) c) = []) → rtc (listed_step catalogue) n n' →
  SendEvmTransaction tx ⟹ a ∈ trace (side (env n') chain) →
  ∃ (cfg : EvmBuilderConfig) id signature, builder_of chain = Some (EvmBuilder cfg) ∧ StChainID tx = chainIDInt ∧
    event_tx cfg (catalogue id) chain (StTx tx) ∧ same_bytes signature (StSignature tx) ∧
    signed_by catalogue (trace n') id (signer_Hash chainIDInt (StTx tx)) signature.
Proof.
  intros Hr0 Hs0 Ht0 H0 Hrun Hsent.
  assert (accounted n') as Hacc.
  { eapply (I_run accounted); [intros; apply accounted_rpc|apply accounted_same|exact Hrun|]. intros c x b. rewrite H0. by intros ?%not_elem_of_nil. }
  assert (truthful n') as Htr.
  { eapply (I_run truthful); [intros; apply truthful_rpc|by intros ? ? Ht _; unfold truthful; rewrite Ht|exact Hrun|].
    intros l. rewrite Ht0. by intros ?%not_elem_of_nil. }
  destruct (accountable_run catalogue n n' Hrun) as (_ & _ & Hh).
  { split_and!; [rewrite Hr0; by intros ? ? ?%lookup_empty_Some|rewrite Hs0; by intros ? ? ?%lookup_empty_Some|rewrite Ht0; by intros ? ?%not_elem_of_nil]. }
  destruct (Hacc chain tx a Hsent) as (cfg & Hb & [(req & data & sig & r & Hin & Ha)|(req & data & sig & r & Hin & Ha)]).
  - destruct (Hh _ Hin) as (Hc & id & d & sd & Hty & Hd & -> & -> & Hrow & Hdec).
    destruct (decoded_row _ _ _ _ _ Hrow Hdec) as (sig0 & hash & amount & Hsame & Hn & _ & Hag & Hby).
    destruct (outbound_agreed n' _ d cfg _ _ _ Htr Hc Hty Hd Hb Hag) as (req0 & Hreq & <-). rewrite <- Hn in Hreq.
    destruct (assembled_signed _ _ _ _ _ Ha) as (Hid & -> & Htx). destruct (Htx _ Hreq) as [Hotx Hhash].
    exists cfg, id, sig0. split_and!; [done|done| |done|by rewrite Hhash]. exists d, (ReqNonce req). by rewrite Hty.
  - destruct (Hh _ Hin) as (Hc & id & d & sd & from & to & Hty & Hd & Hf & Hto & -> & -> & Hrow & Hdec).
    destruct (decoded_row _ _ _ _ _ Hrow Hdec) as (sig0 & hash & amount & Hsame & Hn & Ham & Hag & Hby).
    destruct (migration_agreed n' _ d cfg _ _ _ from to Htr Hc Hty Hd Hf Hto Hb Hag) as (x & -> & Hpos & ->). rewrite <- Hn in Hby.
    destruct (assembled_migrates _ _ _ _ _ Ha) as (Hid & -> & y & Hy & _ & Htx). cbn in Ham. rewrite decide_True in Ham by done. simplify_eq.
    exists cfg, id, sig0. split_and!; [done|done| |done|by rewrite Htx].
    exists d, (ReqNonce req). rewrite Hty. split; [done|]. split; [done|]. by exists to, x.
Qed.
End fleet.
