(* ===== verification/App.v ===== *)
(** * app/app.go: the application wires the modules together

    The components of the other files are proved against interfaces (type
    classes).  This file gives the instances the application passes
    ([NewChainApp]), discharges the laws of the interfaces for them, and proves
    what only holds of the composition.

    x/uexecutor and the message server of x/uvalidator get [&app.UvalidatorKeeper]
    or a copy made after [SetHooks]; x/utss gets a copy of the keeper made before
    [SetHooks], so its ballots run with no hook ([nil_ballot_hooks]). *)
From S2P Require Import Prelude GoStrings UvTypes TssTypes UxTypes RegTypes World Canonical.
From S2P Require Import UvValidator UvBallot UvMsg Registry Utss TssInv TssVotes TssOps UxKeys.
From S2P Require Import UxPayload UxEvm UxOutbound UxSettle UxInbound UxChainMeta UxFinality.
From S2P Require Import UxPending.
Import Ux.

Section wiring.
Context {E : Type} `{Bech32, CC : ChainCodecs, EC : EvmCodecs, SK : StakingKeeper,
  SH : Sha256, SS : SequenceStart, EK : EvmKeeper E}.
Implicit Types (ctx : Ctx) (w : World E).

(** evm.go: the gas queries x/utss makes *)
Definition GetGasPriceByChain ctx (chainNamespace : string) : M (World E) Z :=
  view_gasPriceByChainNamespace ctx chainNamespace.
Definition GetL1GasFeeByChain ctx (chainNamespace : string) : M (World E) Z :=
  view_l1GasFeeByChainNamespace ctx chainNamespace.
Definition GetTssFundMigrationGasLimitByChain ctx (chainNamespace : string) : M (World E) (option Z) :=
  n ← view_tssFundMigrationGasLimit ctx chainNamespace; mret (Some n).
Definition app_uexecutor : UExecutorKeeper E := {|
  Utss.HasPendingOutboundsForChain := HasPendingOutboundsForChain;
  Utss.GetGasPriceByChain := GetGasPriceByChain;
  Utss.GetL1GasFeeByChain := GetL1GasFeeByChain;
  Utss.GetTssFundMigrationGasLimitByChain := GetTssFundMigrationGasLimitByChain |}.

(** uvalidator_hooks.go, and the order of registration *)
Definition ux_validator_hooks : UValidatorHooks E := {|
  AfterValidatorAdded := λ _ _, mret tt;
  AfterValidatorRemoved := λ _ a, ux_AfterValidatorRemoved a;
  AfterValidatorStatusChanged := λ _ _ _ _, mret tt |}.
Definition app_validator_hooks : UValidatorHooks E :=
  multi_uvalidator_hooks [tss_hooks; ux_validator_hooks].
Definition app_utss : UtssKeeper E := tss_keeper.

(** ** The interfaces are implemented *)
Lemma tss_hook_uv ctx : stable uv (handleEligibleValidatorSetChange (E:=E) ctx).
Proof.
  apply stable_keeps. intros s.
  assert (∀ ty, keeps (λ w, uv w = s) (GetTssParticipants (E:=E) ty)) as Hp.
  { intros ty w Hw. by rewrite GetTssParticipants_read. }
  unfold handleEligibleValidatorSetChange, GetEligibleVoters, InitiateTssKeyProcess,
    force_expire, updateTssEventStatusByProcessId, next_process_id, next_event_id.
  keep; by apply keeps_set_tss.
Qed.
Lemma prune_hook_uv a : stable uv (ux_AfterValidatorRemoved (E:=E) a).
Proof.
  apply stable_keeps. intros s. unfold ux_AfterValidatorRemoved, PruneValidatorVotes, SetChainMeta. keep.
  apply keeps_for_each. intros [id en]. unfold prune_entry, SetChainMeta. keep; by apply keeps_set_ux.
Qed.
#[export] Instance app_validator_hooks_laws : @UValidatorHooksLaws E app_validator_hooks.
Proof.
  apply multi_uvalidator_hooks_laws. repeat constructor; intros; cbn;
    solve [apply tss_hook_uv | apply prune_hook_uv | done].
Qed.
#[export] Instance app_utss_laws : @UtssKeeperLaws E app_utss.
Proof.
  split; intros ctx w; symmetry; revert w.
  - assert (∀ w0, keeps (eq w0) (tss_GetCurrentTssParticipants (E:=E) ctx)) as Hk; [|intros w; by apply Hk].
    intros w0. unfold tss_GetCurrentTssParticipants. keep.
  - assert (∀ w0, keeps (eq w0) (tss_HasOngoingTss (E:=E) ctx)) as Hk; [|intros w; by apply Hk].
    intros w0. unfold tss_HasOngoingTss. keep.
Qed.
Context `{!EvmKeeperLaws E}.
#[export] Instance app_uexecutor_laws : @UExecutorKeeperLaws E app_uexecutor.
Proof.
  split; intros; intros w; cbn.
  - done.
  - unfold GetGasPriceByChain. by rewrite gasPrice_read.
  - unfold GetL1GasFeeByChain. by rewrite l1GasFee_read.
  - unfold GetTssFundMigrationGasLimitByChain. rewrite bind_unfold.
    pose proof (migrationGas_read ctx c w) as Hr. by destruct (view_tssFundMigrationGasLimit ctx c w) as [[]]; cbn in *; subst.
Qed.

(** ** What the composition guarantees *)
#[local] Existing Instance app_uexecutor.

(** Starting a migration asked x/uregistry and x/uexecutor, and wrote neither. *)
Lemma InitiateFundMigration_ux ctx old chain : stable ux (InitiateFundMigration ctx old chain).
Proof.
  apply stable_keeps. intros x.
  assert (∀ ids, keeps (λ w : World E, ux w = x) (no_pending_on chain ids)) as Hn.
  { intros ids. induction ids; cbn [no_pending_on]; keep. }
  assert (∀ A (m : M (World E) A), (∀ w, (m w).2 = w) → keeps (λ w, ux w = x) m) as Hrd.
  { intros A m Hm w Hw. by rewrite Hm. }
  unfold InitiateFundMigration, next_migration_id. cbn [Utss.GetGasPriceByChain Utss.GetL1GasFeeByChain
    Utss.GetTssFundMigrationGasLimitByChain Utss.HasPendingOutboundsForChain app_uexecutor].
  unfold HasPendingOutboundsForChain, GetGasPriceByChain, GetL1GasFeeByChain, GetTssFundMigrationGasLimitByChain.
  keep; first [by apply keeps_set_tss | apply Hrd; intros w;
    first [apply IsChainOutboundEnabled_read | apply gasPrice_read | apply migrationGas_read | apply l1GasFee_read]].
Qed.
Lemma InitiateFundMigration_asks ctx old chain w w' i :
  InitiateFundMigration ctx old chain w = (Ok i, w') →
  HasPendingOutboundsForChain chain w = (Ok false, w).
Proof.
  unfold InitiateFundMigration. intros Hr. wrun Hr.
  repeat match goal with H : negb ?b = true |- _ => apply negb_true_iff in H; subst end.
  match goal with H : IsChainOutboundEnabled chain w = (_, ?x) |- _ =>
    pose proof (IsChainOutboundEnabled_read chain w) as He; rewrite H in He; cbn in He; subst x end.
  match goal with H : _ = (Ok false, ?x) |- _ = (Ok false, w) => assert (x = w) as -> by (by injection H) end.
  done.
Qed.

(** C26. Funds of a chain move to the new key only when the chain is quiet: if a
    fund migration starts, the chain's outbounds are disabled, no universal
    transaction has a PENDING outbound to it, no other migration of the chain is
    pending, and the migration goes from a retired key to the current one. *)
Theorem fund_migration_waits_for_outbounds ctx old chain w w' i :
  tss_inv (tss w) → pending_inv (books w) →
  InitiateFundMigration ctx old chain w = (Ok i, w') →
  (IsChainOutboundEnabled chain w).1 = Ok false ∧
  (∀ key ob, outbound_in (books w') key ob → DestinationChain ob = chain → OutboundStatus ob ≠ PENDING) ∧
  ¬ pending_on chain (tss w) ∧
  ∃ k m, CurrentTssKey (tss w') = Some k ∧ FundMigrations (tss w') !! i = Some m ∧
    Tss.MigChain m = chain ∧ Tss.CurrentTssPubkey m = Tss.TssPubkey k ∧ old ≠ Tss.KeyId k ∧
    is_Some (TssKeyHistory (tss w') !! old).
Proof.
  intros Hinv Hp Hr. pose proof (InitiateFundMigration_cases (BHL := nil_ballot_hooks_laws E) ctx old chain w Hinv) as Hc. rewrite Hr in Hc.
  destruct Hc as (ok & ck & m & Hold & Hck & Hne & Hen & Hno & Hi & Hpk & _ & Hch & _ & Hpub & _ & Ht).
  pose proof (InitiateFundMigration_ux ctx old chain w) as Hux. rewrite Hr in Hux. cbn in Hux.
  destruct (has_pending_spec chain w Hp) as (b & Hb & Hiff).
  rewrite (InitiateFundMigration_asks _ _ _ _ _ _ Hr) in Hb. injection Hb as <-.
  split_and!; try done.
  - intros key ob Hin Hd Hst. unfold books in Hin. rewrite Hux in Hin.
    assert (false = true); [|done]. apply Hiff. eauto.
  - exists ck, m. rewrite Ht. cbn. rewrite Hi, lookup_insert_eq, Hold. by eauto 10.
Qed.

(** The audit trail of votes on inbounds: an entry for the ballot. *)
Definition audited (w : World E) (key id : string) (en : PendingInboundEntry) : Prop :=
  PendingInbounds (ux w) !! key = Some en ∧ id ∈ BallotId <$> Variants en ∧
  ∀ key' en', PendingInbounds (ux w) !! key' = Some en' → id ∈ BallotId <$> Variants en' → key' = key.

Lemma carries_variant_spec id p : carries_variant id p = true ↔ id ∈ BallotId <$> Variants p.2.
Proof.
  unfold carries_variant. rewrite existsb_exists, list_elem_of_fmap. split.
  - intros (v & Hin%list_elem_of_In & Hv%bool_decide_eq_true). by exists v.
  - intros (v & -> & Hin). exists v. split; [by apply list_elem_of_In|]. by apply bool_decide_eq_true.
Qed.
Lemma find_audited w key id en :
  audited w key id en → List.find (carries_variant id) (walk (PendingInbounds (ux w))) = Some (key, en).
Proof.
  intros (He & Hid & Hu). destruct (List.find _ _) as [[k e]|] eqn:Hf.
  - apply find_some in Hf as [Hin%list_elem_of_In%elem_of_walk Hc%carries_variant_spec].
    assert (k = key) as -> by (by eapply Hu). congruence.
  - eapply find_none in Hf; [|apply list_elem_of_In, elem_of_walk, He].
    by rewrite (proj2 (carries_variant_spec id (key, en)) Hid) in Hf.
Qed.

(** The audit trail follows the ballots: when the ballot of a vote variant
    ends, the variant is marked with the outcome; the entry stays while another
    variant is undecided, and otherwise leaves the pending list, for the list of
    expired inbounds if no variant passed.  Other entries do not change. *)
Theorem ballot_end_is_audited ctx id status w key en :
  audited w key id en →
  let vs := mark_variant id status (Variants en) in
  let '(out, w') := ux_AfterBallotTerminal ctx id Ballot.BALLOT_OBSERVATION_TYPE_INBOUND_TX status w in
  out = Ok tt ∧ w' = w <| ux ::= λ s,
    if existsb undecided vs then s <| PendingInbounds ::= insert key (en <| Variants := vs |>) |>
    else s <| PendingInbounds ::= delete key |>
           <| ExpiredInbounds ::= λ m, if existsb passed vs then m
                else <[key := mkExpiredInboundEntry key vs (u64 (BlockHeight ctx))]> m |> |>.
Proof.
  intros Ha vs. cbn [ux_AfterBallotTerminal]. unfold afterInboundBallotTerminal. mrun.
  rewrite (find_audited w key id en Ha). change (Variants (en <| Variants ::= mark_variant id status |>)) with vs.
  destruct (existsb undecided vs); mrun; [done|]. destruct (existsb passed vs); mrun; [|done].
  split; [done|]. by destruct w as [? ? [] ? ?].
Qed.

(** A vote on a closed ballot is refused, whatever the hooks. *)
Lemma closed_ballot_refuses {BH : BallotHooks E} {BHL : BallotHooksLaws E} ctx id ty voter x vs n e w p :
  ballots_inv (uv w) → NoDup vs → polls (uv w) !! id = Some p → phase p ≠ Ballot.BALLOT_STATUS_PENDING →
  is_ok (VoteOnBallot ctx id ty voter x vs n e w).1 = false.
Proof.
  intros Hinv Hnd Hp Hph. pose proof (VoteOnBallot_cast ctx id ty voter x vs n e w Hinv Hnd) as Hc.
  cbv zeta in Hc. rewrite Hp in Hc. cbn [from_option Datatypes.id] in Hc.
  assert (cast (BlockHeight ctx) voter x p = None) as Hn by (unfold cast; rewrite decide_False; naive_solver).
  rewrite Hn in Hc. destruct (VoteOnBallot _ _ _ _ _ _ _ _ w). by destruct Hc as [[[? ->] _] _].
Qed.

(** Ballots that x/utss sweeps away skip the audit trail: the first vote on a
    TSS key expires every overdue ballot, but x/utss holds a copy of the ballot
    keeper without hooks, so the entry of an overdue inbound ballot stays in the
    pending list with its variant undecided, although the ballot is EXPIRED and
    no later vote on it can end it. *)
Theorem utss_sweep_skips_audit ctx v pid pk kid w w' r id b key en :
  ballots_inv (uv w) → (∀ pr, CurrentTssProcess (tss w) = Some pr → NoDup (Tss.Participants pr)) →
  VoteOnTssBallot (BH := nil_ballot_hooks E) ctx v pid pk kid w = (Ok r, w') →
  Ballots (uv w) !! GetTssBallotKey pid pk kid = None →
  Ballots (uv w) !! id = Some b → Ballot.Status b = Ballot.BALLOT_STATUS_PENDING →
  Ballot.BlockHeightExpiry b ≤ BlockHeight ctx → audited w key id en →
  (Ballot.Status <$> Ballots (uv w') !! id) = Some Ballot.BALLOT_STATUS_EXPIRED ∧
  audited w' key id en ∧ ExpiredInbounds (ux w') = ExpiredInbounds (ux w) ∧
  ∀ ctx' ty voter x vs n e, NoDup vs →
    is_ok (VoteOnBallot (BH := ux_ballot_hooks E) ctx' id ty voter x vs n e w').1 = false.
Proof.
  intros Hinv Hnd Hr Hnew Hb Hst Hexp Ha. destruct r as [fin isNew].
  destruct (VoteOnTssBallot_ok _ _ _ _ _ _ _ _ _ Hr) as (pr & b1 & Hpr & <- & _ & _ & Hv).
  set (k := GetTssBallotKey (Tss.ProcId pr) pk kid) in *.
  assert (ux w' = ux w) as Hux.
  { assert (keeps (λ w1 : World E, ux w1 = ux w) (key_vote (BH := nil_ballot_hooks E) ctx v pk kid pr)) as Hk.
    { apply VoteOnBallot_keeps; [intros; apply keeps_ret|done]. }
    specialize (Hk w eq_refl). cbn in Hk. by rewrite Hv in Hk. }
  pose proof (VoteOnBallot_cast (BallotHooksLaws0 := nil_ballot_hooks_laws E)
    ctx k Ballot.BALLOT_OBSERVATION_TYPE_TSS_KEY (ValAddress_String v) Ballot.VOTE_RESULT_SUCCESS
    (Tss.Participants pr) (Z.of_nat (length (Tss.Participants pr))) (i64 (Tss.ExpiryHeight pr - BlockHeight ctx))
    w Hinv (Hnd _ Hpr)) as Hc.
  unfold key_vote in Hv. fold k in Hv. rewrite Hv in Hc. cbv zeta in Hc.
  assert (polls (uv w) !! k = None) as Hk by (unfold polls; by rewrite lookup_fmap, Hnew).
  rewrite Hk in Hc. destruct Hc as [Hc Hinv'].
  assert (k ≠ id) as Hne by (intros ->; congruence).
  assert (polls (uv w') !! id = Some ((poll_of b) <| phase := Ballot.BALLOT_STATUS_EXPIRED |>)) as Hp.
  { destruct (cast _ _ _ _) as [p'|]; destruct Hc as [_ ->]; rewrite lookup_insert_ne by done;
      unfold polls; rewrite !lookup_fmap, Hb; cbn; unfold lapse; by rewrite decide_True. }
  assert (Ballot.Status <$> Ballots (uv w') !! id = Some Ballot.BALLOT_STATUS_EXPIRED) as Hst'.
  { unfold polls in Hp. rewrite lookup_fmap in Hp. destruct (Ballots (uv w') !! id) as [b'|]; [|done].
    apply (f_equal (fmap phase)) in Hp. exact Hp. }
  split_and!; [done|by unfold audited; rewrite Hux|by rewrite Hux|].
  intros ctx' ty voter x vs n e Hvs. eapply (closed_ballot_refuses (BHL := ux_ballot_hooks_laws E)); eauto.
Qed.
End wiring.
