(* ===== verification/AppAnte.v ===== *)
(** * Admission of transactions

    [app/ante], [app/txpolicy/gasless.go] and [app/cosmos/min_gas_price.go]: the decorators
    of the repository among those of the SDK, which are parameters.  Votes and payloads of
    users are free of fees, and may come from accounts that do not exist yet. *)
From S2P Require Import Prelude GoStrings.

(** ** Transactions of the SDK *)
(** The messages: [MsgExec] with the types of those inside it. *)
Inductive TxMsg := AuthzExec (inner : list string) | OtherMsg (typeURL : string).
Inductive SignatureData := SingleSignature (mode : Z) (signature : list Z) | MultiSignature (signatures : list SignatureData) | OtherSignature.
Record SignatureV2 := mkSignatureV2 { SigPubKey : option (list Z); SigData : SignatureData }.
Record SignerData := mkSignerData { SgAddress : list Z; SgChainID : string; SgAccountNumber : Z; SgSequence : Z; SgPubKey : list Z }.
Definition TxCoins : Type := list (string * Z).
(** The interfaces that a transaction implements are the options; no fee is the nil list, as it is decoded. *)
Record FeeTx := mkFeeTx { TxGas : Z; TxFee : TxCoins; FeePayer : list Z; FeeGranter : option (list Z) }.
Record SigTx := mkSigTx { GetSigners : res (list (list Z)); GetSignaturesV2 : res (list SignatureV2); V2Adaptable : bool }.
Record SdkTx := mkSdkTx {
  GetMsgs : list TxMsg; AsFeeTx : option FeeTx; AsSigTx : option SigTx; GetExtensionOptions : list string }.
Record TxCtx := mkTxCtx {
  IsReCheckTx : bool; IsSigverifyTx : bool; IsCheckTx : bool; TxHeight : Z; TxChainID : string; MinGasPrices : TxCoins; TxPriority : Z }.
#[export] Instance TxCtx_eta : Eta TxCtx := λ r,
  mkTxCtx (IsReCheckTx r) (IsSigverifyTx r) (IsCheckTx r) (TxHeight r) (TxChainID r) (MinGasPrices r) (TxPriority r).

(** ** Free messages *)
Definition GaslessMsgTypes : list string :=
  ["/uexecutor.v1.MsgMigrateUEA"; "/uexecutor.v1.MsgExecutePayload"; "/uexecutor.v1.MsgVoteInbound"; "/uexecutor.v1.MsgVoteOutbound";
   "/utss.v1.MsgVoteTssKeyProcess"; "/utss.v1.MsgVoteFundMigration"; "/uexecutor.v1.MsgVoteChainMeta"].
Definition listed (typeURL : string) : bool := bool_decide (typeURL ∈ GaslessMsgTypes).
Definition gasless_msg (m : TxMsg) : bool :=
  match m with AuthzExec inner => forallb listed inner | OtherMsg typeURL => listed typeURL end.
Definition IsGaslessTx (tx : SdkTx) : bool :=
  match GetMsgs tx with [] => false | msgs => forallb gasless_msg msgs end.

(** ** The keepers *)
Record Account := mkAccount { AccAddr : list Z; AccNumber : Z; AccSequence : Z }.
#[export] Instance Account_eta : Eta Account := λ r, mkAccount (AccAddr r) (AccNumber r) (AccSequence r).
Class AccountKeeper (W : Type) : Type := {
  HasAccount : list Z → W → bool;
  GetAccount : list Z → W → option Account;
  NewAccountWithAddress : list Z → W → Account * W;
  SetAccount : Account → W → W;
  GetModuleAddress : string → option (list Z);
}.
Class AccountKeeperLaws W `{AccountKeeper W} : Prop := {
  HasAccount_Get a w : HasAccount a w = bool_decide (is_Some (GetAccount a w));
  NewAccount_addr a w : AccAddr (NewAccountWithAddress a w).1 = a;
  GetAccount_Set acc a w : GetAccount a (SetAccount acc w) = if decide (a = AccAddr acc) then Some acc else GetAccount a w;
}.
Class FeeKeepers (W : Type) : Type := {
  SendCoinsFromAccountToModule : list Z → string → TxCoins → M W unit;
  UseGrantedFees : option (list Z → list Z → TxCoins → list TxMsg → M W unit);    (* [None]: not enabled *)
  coins_IsValid : TxCoins → bool;
  coins_IsAnyGTE : TxCoins → TxCoins → bool;
}.
Class Signing : Type := {
  VerifySignature : list Z → SignerData → SignatureData → SdkTx → option error;
  address_of_key : list Z → list Z;                      (* [PubKey.Address()] *)
}.
(** Decimals are counts of 10^-18; [Mul], [Ceil] and [RoundInt] of [LegacyDec]. *)
Class FeeDecimals : Type := { dec_mul : Z → Z → Z; dec_ceil_int : Z → Z }.
Class FeeMarket : Type := { MinGasPrice : Z; EVMCoinDenom : string; DefaultBondDenom : string }.

Section ante.
Context {W : Type} `{AK : AccountKeeper W, FK : FeeKeepers W, SI : Signing, FD : FeeDecimals, FM : FeeMarket}.
Implicit Types (w : W) (tx : SdkTx) (ctx : TxCtx).
#[local] Abbreviation M := (M W).
Definition AnteHandler : Type := TxCtx → SdkTx → bool → M TxCtx.
Definition AnteDecorator : Type := TxCtx → SdkTx → bool → AnteHandler → M TxCtx.
(** [sdk.ChainAnteDecorators] *)
Definition ChainAnteDecorators (chain : list AnteDecorator) : AnteHandler :=
  foldr (λ d next ctx tx simulate, d ctx tx simulate next) (λ ctx _ _, mret ctx) chain.

(** ** New accounts *)
Fixpoint OnlyLegacyAminoSigners (sigData : SignatureData) : bool :=
  match sigData with
  | SingleSignature mode _ => bool_decide (mode = 127)
  | MultiSignature signatures => forallb OnlyLegacyAminoSigners signatures
  | OtherSignature => false
  end.
Fixpoint verify_each ctx tx (s : SigTx) (simulate : bool) (newAccAddr : list Z) (sigs : list SignatureV2) : res unit :=
  match sigs with
  | [] => Ok tt
  | sig :: sigs =>
      match SigPubKey sig with
      | None => Err "pubkey is not provided in signature"
      | Some pubKey =>
          (if negb simulate && negb (IsReCheckTx ctx) && IsSigverifyTx ctx then
             check (V2Adaptable s) "expected tx to implement V2AdaptableTx" ;;
             match VerifySignature pubKey (mkSignerData newAccAddr (TxChainID ctx) 0 0 pubKey) (SigData sig) tx with
             | None => Ok tt
             | Some e =>
                 Err (if OnlyLegacyAminoSigners (SigData sig)
                      then "signature verification failed; please verify account number, sequence and chain-id"
                      else "signature verification failed; please verify account number and chain-id: " +:+ e)
             end
           else Ok tt) ;;
          verify_each ctx tx s simulate newAccAddr sigs
      end
  end.
Definition verifySignatureForNewAccount ctx tx (s : SigTx) (simulate : bool) : res unit :=
  sigs ← GetSignaturesV2 s;
  signers ← GetSigners s;
  check (bool_decide (length sigs = length signers)) "invalid number of signer" ;;
  newAccAddr ← from_option Ok (Panic "index out of range") (signers !! 0%nat);
  verify_each ctx tx s simulate newAccAddr sigs.
Definition account_init_AnteHandle : AnteDecorator := λ ctx tx simulate next,
  if negb (IsGaslessTx tx) then next ctx tx simulate
  else
    match AsSigTx tx with
    | None => throw "invalid transaction type"
    | Some s =>
        match GetSigners s with
        | Ok [newAccAddr] =>
            exists_ ← gets (HasAccount newAccAddr);
            if (exists_ : bool) then next ctx tx simulate
            else
              lift_res (verifySignatureForNewAccount ctx tx s simulate) ;;
              modify (λ w, let '(acc, w1) := NewAccountWithAddress newAccAddr w in SetAccount (acc <| AccSequence := 1 |>) w1) ;;
              mret ctx
        | _ => next ctx tx simulate
        end
    end.

(** ** Fees *)
Definition coins_IsZero (c : TxCoins) : bool := forallb (λ dc, bool_decide (dc.2 = 0)) c.
Definition maxInt64 : Z := 2 ^ 63 - 1.
(** [Amount.QuoRaw(gas)] and its place in an [int64] *)
Definition coin_priority (gas amount : Z) : res Z :=
  if decide (gas = 0) then Panic "division by zero"
  else let gasPrice := Z.quot amount gas in Ok (if decide (- 2 ^ 63 ≤ gasPrice < 2 ^ 63) then gasPrice else maxInt64).
Fixpoint priority_from (priority : Z) (fee : TxCoins) (gas : Z) : res Z :=
  match fee with
  | [] => Ok priority
  | c :: fee => p ← coin_priority gas c.2; priority_from (if decide (priority = 0 ∨ p < priority) then p else priority) fee gas
  end.
Definition getTxPriority (fee : TxCoins) (gas : Z) : res Z := priority_from 0 fee gas.
Definition checkTxFeeWithValidatorMinGasPrices ctx tx : res (TxCoins * Z) :=
  feeTx ← from_option Ok (Err "Tx must be a FeeTx") (AsFeeTx tx);
  let feeCoins := TxFee feeTx in
  let gas := i64 (TxGas feeTx) in
  (if IsCheckTx ctx && negb (coins_IsZero (MinGasPrices ctx)) then
     let requiredFees := (λ gp, (gp.1, dec_ceil_int (dec_mul gp.2 (gas * 10 ^ 18)))) <$> MinGasPrices ctx in
     if forallb (λ c, bool_decide (0 ≤ c.2)) requiredFees then check (coins_IsAnyGTE feeCoins requiredFees) "insufficient fees"
     else Panic "negative coin amount"
   else Ok tt) ;;
  priority ← getTxPriority feeCoins gas;
  Ok (feeCoins, priority).
Definition FeeCollector : string := "fee_collector".
Definition DeductFees (acc : Account) (fees : TxCoins) : M unit :=
  require (coins_IsValid fees) "invalid fee amount" ;;
  SendCoinsFromAccountToModule (AccAddr acc) FeeCollector fees.
Definition checkDeductFee (feeTx : FeeTx) (msgs : list TxMsg) (fee : TxCoins) : M unit :=
  require (bool_decide (is_Some (GetModuleAddress FeeCollector))) "fee collector module account has not been set" ;;
  deductFeesFrom ← match FeeGranter feeTx with
                   | None => mret (FeePayer feeTx)
                   | Some feeGranter =>
                       match UseGrantedFees with
                       | None => throw "fee grants are not enabled"
                       | Some grant =>
                           (if decide (feeGranter = FeePayer feeTx) then mret tt
                            else wrap "does not allow to pay fees" (grant feeGranter (FeePayer feeTx) fee msgs)) ;;
                           mret feeGranter
                       end
                   end;
  acc ← gets (GetAccount deductFeesFrom);
  acc ← lift_option acc "fee payer address does not exist";
  if coins_IsZero fee then mret tt else DeductFees acc fee.
Definition deduct_fee_AnteHandle (txFeeChecker : TxCtx → SdkTx → res (TxCoins * Z)) : AnteDecorator := λ ctx tx simulate next,
  match AsFeeTx tx with
  | None => throw "Tx must be a FeeTx"
  | Some feeTx =>
      require (negb (negb simulate && bool_decide (0 < TxHeight ctx) && bool_decide (TxGas feeTx = 0))) "must provide positive gas" ;;
      if IsGaslessTx tx then next ctx tx simulate
      else
        fp ← (if simulate then mret (TxFee feeTx, 0) else lift_res (txFeeChecker ctx tx));
        checkDeductFee feeTx (GetMsgs tx) fp.1 ;;
        next (ctx <| TxPriority := fp.2 |>) tx simulate
  end.
Definition min_gas_price_AnteHandle : AnteDecorator := λ ctx tx simulate next,
  match AsFeeTx tx with
  | None => throw "invalid transaction type, expected sdk.FeeTx"
  | Some feeTx =>
      let feeCoins := TxFee feeTx in
      let validFees := match feeCoins with
                       | [] => true
                       | [c] => bool_decide (c.1 = EVMCoinDenom) || bool_decide (c.1 = DefaultBondDenom)
                       | _ => false
                       end in
      require (validFees || simulate) "expected only native token for fee" ;;
      if bool_decide (MinGasPrice = 0) || simulate then next ctx tx simulate
      else if IsGaslessTx tx then next ctx tx simulate
      else
        let fee := dec_ceil_int (dec_mul MinGasPrice (TxGas feeTx * 10 ^ 18)) in
        let requiredFees := if decide (0 < fee) then [(EVMCoinDenom, fee)] else [] in
        require (negb (bool_decide (feeCoins = []))) "fee not provided" ;;
        require (coins_IsAnyGTE feeCoins requiredFees) "provided fee < minimum global fee" ;;
        next ctx tx simulate
  end.
(** ** The chain of a Cosmos transaction *)
(** The decorators of the SDK, of wasm, of the EVM and of IBC in between. *)
Record SdkDecorators := mkSdkDecorators {
  before_min_gas : list AnteDecorator; tx_size : AnteDecorator; relay_and_gas_wanted : list AnteDecorator; signature_checks : list AnteDecorator }.
Definition NewCosmosAnteHandler (d : SdkDecorators) (dynamicFee : TxCtx → SdkTx → res (TxCoins * Z)) : AnteHandler :=
  ChainAnteDecorators (before_min_gas d ++ [min_gas_price_AnteHandle; tx_size d; deduct_fee_AnteHandle dynamicFee] ++ relay_and_gas_wanted d
                       ++ [account_init_AnteHandle] ++ signature_checks d).
Definition NewAnteHandler (d : SdkDecorators) (dynamicFee : TxCtx → SdkTx → res (TxCoins * Z)) (evm : AnteHandler) : AnteHandler := λ ctx tx sim,
  match GetExtensionOptions tx with
  | typeURL :: _ =>
      if decide (typeURL = "/cosmos.evm.vm.v1.ExtensionOptionsEthereumTx") then evm ctx tx sim
      else if decide (typeURL = "/cosmos.evm.types.v1.ExtensionOptionDynamicFeeTx") then NewCosmosAnteHandler d dynamicFee ctx tx sim
      else throw ("rejecting tx with unsupported extension option: " +:+ typeURL)
  | [] => NewCosmosAnteHandler d dynamicFee ctx tx sim
  end.

(** ** What is free *)
(** The types a transaction has, also inside [MsgExec]. *)
Definition msg_types (m : TxMsg) : list string := match m with AuthzExec inner => inner | OtherMsg t => [t] end.
Lemma gasless_spec tx : IsGaslessTx tx = true ↔ GetMsgs tx ≠ [] ∧ ∀ t, t ∈ (GetMsgs tx ≫= msg_types) → t ∈ GaslessMsgTypes.
Proof.
  unfold IsGaslessTx. destruct (GetMsgs tx) as [|m ms]; [naive_solver|]. rewrite forallb_forall. split.
  - intros H. split; [done|]. intros t (m' & Ht & Hm)%list_elem_of_bind. specialize (H m' (proj1 (list_elem_of_In _ _) Hm)).
    destruct m' as [inner|t']; cbn in *; [|apply list_elem_of_singleton in Ht as ->; by apply bool_decide_eq_true in H].
    rewrite forallb_forall in H. specialize (H t (proj1 (list_elem_of_In _ _) Ht)). by apply bool_decide_eq_true in H.
  - intros [_ H] m' Hm%list_elem_of_In. destruct m' as [inner|t']; cbn.
    + apply forallb_forall. intros t Ht%list_elem_of_In. apply bool_decide_eq_true, H, list_elem_of_bind. by exists (AuthzExec inner).
    + apply bool_decide_eq_true, H, list_elem_of_bind. exists (OtherMsg t'). split; [by left|done].
Qed.
(** A free transaction leaves every account as it was and reaches the rest of the chain;
    any other one has paid, from the granter when there is one, before it does. *)
Definition paid (feeTx : FeeTx) (msgs : list TxMsg) (fee : TxCoins) w w' : Prop := checkDeductFee feeTx msgs fee w = (Ok tt, w').
Lemma fee_before_next checker ctx tx simulate (next : AnteHandler) w feeTx ctx' w' :
  AsFeeTx tx = Some feeTx → deduct_fee_AnteHandle checker ctx tx simulate next w = (Ok ctx', w') →
  if IsGaslessTx tx then next ctx tx simulate w = (Ok ctx', w')
  else ∃ fee priority w1, (if simulate then fee = TxFee feeTx else checker ctx tx = Ok (fee, priority)) ∧ paid feeTx (GetMsgs tx) fee w w1 ∧
         next (ctx <| TxPriority := priority |>) tx simulate w1 = (Ok ctx', w').
Proof.
  intros Hf. unfold deduct_fee_AnteHandle. rewrite Hf. intros H. run H. destruct (IsGaslessTx tx); [done|]. run H.
  match goal with H : checkDeductFee _ _ _ _ = (Ok ?u, _) |- _ => destruct u end.
  destruct simulate.
  - match goal with H : mret _ _ = _ |- _ => injection H as <- <- end. eexists _, _, _. split_and!; done.
  - match goal with H : lift_res _ _ = _ |- _ => rewrite lift_res_run in H; injection H as H <- end.
    match goal with x : TxCoins * Z |- _ => destruct x end. eexists _, _, _. split_and!; done.
Qed.

(** ** New accounts *)
Context `{AL : !AccountKeeperLaws W}.
Definition checked ctx (simulate : bool) : bool := negb simulate && negb (IsReCheckTx ctx) && IsSigverifyTx ctx.
Definition key_accepted ctx tx (s : SigTx) (simulate : bool) (addr pubKey : list Z) (data : SignatureData) : Prop :=
  checked ctx simulate = true → V2Adaptable s = true ∧ VerifySignature pubKey (mkSignerData addr (TxChainID ctx) 0 0 pubKey) data tx = None.
Lemma verify_new ctx tx s simulate addr :
  GetSigners s = Ok [addr] →
  verifySignatureForNewAccount ctx tx s simulate = Ok tt ↔
  ∃ sig pubKey, GetSignaturesV2 s = Ok [sig] ∧ SigPubKey sig = Some pubKey ∧ key_accepted ctx tx s simulate addr pubKey (SigData sig).
Proof.
  intros Hs. unfold verifySignatureForNewAccount. rewrite Hs. destruct (GetSignaturesV2 s) as [sigs|?|?]; [|naive_solver..].
  cbn [mbind res_bind]. destruct sigs as [|sig [|sig' sigs]]; [cbn; naive_solver| |cbn; naive_solver].
  cbn [length check bool_decide decide]. rewrite bool_decide_eq_true_2 by done. cbn [check mbind res_bind lookup list_lookup from_option verify_each].
  unfold key_accepted. fold (checked ctx simulate). destruct (SigPubKey sig) as [pk|] eqn:Hp; [|naive_solver].
  destruct (checked ctx simulate).
  - destruct (V2Adaptable s); cbn [check mbind res_bind]; [|naive_solver]. destruct (VerifySignature _ _ _ _) eqn:Hv; cbn; naive_solver.
  - cbn. naive_solver.
Qed.
(** C37. Who may open an account.  A free transaction of one signer without an account is
    admitted exactly when it has one signature with some key that verifies (for account
    number and sequence zero) or needs no check; then its account is created with sequence
    one and no further decorator runs, whatever it would say, and otherwise nothing is
    written.  That the address of the signer is that of the key is not among the
    conditions. *)
Theorem new_account_admission ctx tx simulate (rest : list AnteDecorator) w s addr :
  IsGaslessTx tx = true → AsSigTx tx = Some s → GetSigners s = Ok [addr] → HasAccount addr w = false →
  let r := ChainAnteDecorators (account_init_AnteHandle :: rest) ctx tx simulate w in
  (r.1 = Ok ctx ↔ ∃ sig pubKey, GetSignaturesV2 s = Ok [sig] ∧ SigPubKey sig = Some pubKey ∧ key_accepted ctx tx s simulate addr pubKey (SigData sig)) ∧
  (r.1 = Ok ctx → ∃ acc, GetAccount addr r.2 = Some acc ∧ AccSequence acc = 1) ∧
  (r.1 ≠ Ok ctx → r.2 = w ∧ ∀ ctx', r.1 ≠ Ok ctx').
Proof.
  intros Hg Hs Ha Hh r. rewrite <- (verify_new ctx tx s simulate addr Ha). unfold r, ChainAnteDecorators. cbn [foldr]. unfold account_init_AnteHandle.
  rewrite Hg, Hs, Ha. cbn [negb]. mrun. rewrite Hh.
  destruct (verifySignatureForNewAccount ctx tx s simulate) as [[]|e|e]; mrun; [|split_and!; naive_solver..].
  split_and!; [done| |naive_solver]. intros _. cbn. pose proof (NewAccount_addr addr w) as Hn.
  destruct (NewAccountWithAddress addr w) as [acc w1]. cbn in Hn. eexists. rewrite GetAccount_Set. rewrite decide_True by done. split; done.
Qed.
End ante.
