(* ===== verification/Scenario.v ===== *)
(** * A concrete network

    Instances of the parameters of the development (codecs, staking, bank, EVM)
    small enough to compute with, and a network of three validators, on which the
    hypotheses of the theorems hold and the definitions are run. *)
From S2P Require Import Prelude GoStrings UvTypes TssTypes UxTypes RegTypes World Canonical.
From S2P Require Import UvValidator UvBallot UvMsg UvAbci Registry Utss TssInv UxKeys UxPayload.
From S2P Require Import UxEvm UxOutbound UxSettle UxInbound UxChainMeta UxFinality UxPending UxQuery App.
From Stdlib Require Import Ascii.
#[local] Open Scope list_scope.

(** An equation between closed terms, by evaluating both sides. *)
Ltac computed := match goal with |- ?a = ?b => vm_cast_no_check (@eq_refl _ b) end.
(** A closed run, by evaluating its outcome only. *)
Lemma run_outcome {A W} (p : res A * W) r : p.1 = r → p = (r, p.2).
Proof. destruct p as [o w]. cbn. by intros ->. Qed.
Ltac ran := refine (run_outcome _ _ _); computed.

(** ** Codecs *)
Definition parse_address (s : string) : res string :=
  if decide (s = "") then Err "empty address string is not allowed" else Ok s.
#[export] Instance net_bech32 : Bech32 := {|
  AccAddressFromBech32 := parse_address;
  ValAddressFromBech32 := parse_address;
  ValAddress_String := λ a, a |}.
#[export] Instance net_bech32_laws : Bech32Laws.
Proof. split. intros a Ha. cbn. unfold parse_address. by rewrite decide_False. Qed.

(** The bytes of a string. *)
Definition codes (s : string) : list Z := (λ c, Z.of_nat (nat_of_ascii c)) <$> to_bytes s.
Lemma codes_bytes s : Forall (λ z, 0 ≤ z < 256) (codes s).
Proof.
  apply Forall_fmap, Forall_true. intros c. cbn. pose proof (nat_ascii_bounded c). lia.
Qed.

(** An address is 40 hexadecimal digits after [0x]; its canonical form is in
    lower case. *)
Definition hex_address (s : string) : bool :=
  let '(body, pre) := strip0x s in pre && isHexString body && bool_decide (length (to_bytes body) = 40%nat).
#[export] Instance net_codecs : ChainCodecs := {|
  IsHexAddress := hex_address;
  ChecksumHex := λ s, with0x (strip0x s).1;
  Canonical.FromHex := λ s, to_bytes (strip0x s).1;
  base58_Decode := λ s, Ok (codes s) |}.
Lemma hex_address_spec s :
  hex_address s = true ↔ (strip0x s).2 = true ∧ isHexString (strip0x s).1 = true ∧
    length (to_bytes (strip0x s).1) = 40%nat.
Proof.
  unfold hex_address. destruct (strip0x s) as [body pre]. cbn. rewrite !andb_true_iff, bool_decide_eq_true. tauto.
Qed.
#[export] Instance net_codecs_laws : ChainCodecsLaws.
Proof.
  split; cbn; intros s.
  - intros (_ & Hb & Hl)%hex_address_spec. apply hex_address_spec. rewrite strip0x_with0x. cbn.
    by rewrite isHexString_ToLower, length_ToLower.
  - intros _. rewrite strip0x_with0x. apply with0x_ToLower.
  - intros (_ & Hb & _)%hex_address_spec. by apply TrimSpace_with0x.
  - done.
  - intros raw [= <-]. apply codes_bytes.
Qed.

(** A digest without collisions: the bytes themselves, in hexadecimal. *)
Lemma codes_inj s t : codes s = codes t → s = t.
Proof.
  intros Heq. apply to_bytes_inj. unfold codes in Heq. eapply list_fmap_eq_inj; [|exact Heq].
  intros a b Hab. cbn in Hab. rewrite <- (ascii_nat_embedding a), <- (ascii_nat_embedding b). f_equal. lia.
Qed.
#[export] Instance net_sha256 : Sha256 := λ s, of_bytes (hex_encode (codes s)).
#[export] Instance net_sha256_laws : Sha256Laws.
Proof.
  split; unfold sha256_hex, net_sha256.
  - intros s t Heq. apply (f_equal to_bytes) in Heq. rewrite !to_of_bytes in Heq.
    apply (f_equal hex_decode) in Heq. rewrite !hex_encode_decode in Heq by apply codes_bytes.
    injection Heq as Heq. by apply codes_inj.
  - intros s. rewrite to_of_bytes. intros Hin.
    destruct (hex_decode_elem _ _ _ (hex_encode_decode _ (codes_bytes s)) Hin) as [x Hx]. by vm_compute in Hx.
Qed.
#[export] Instance net_sequence : SequenceStart := 1%N.

(** Decimals: exact products and quotients, rounded towards zero. *)
#[export] Instance net_dec : DecOps := {|
  dec_Mul := λ a b, Z.quot (a * b) one_dec;
  dec_QuoTruncate := λ a b, if decide (b = 0) then Panic "division by zero" else Ok (Z.quot (a * one_dec) b);
  dec_MulTruncate := λ a b, Z.quot (a * b) one_dec |}.
#[export] Instance net_dec_laws : DecLaws.
Proof.
  split; intros a b; cbn [dec_Mul dec_QuoTruncate dec_MulTruncate net_dec].
  - replace (a * one_dec * b) with (a * b * one_dec) by ring. by apply Z.quot_mul.
  - intros Hb. by rewrite decide_False.
  - done.
Qed.

(** ** Staking: three bonded validators *)
Definition net_validators : list string := ["val1"; "val2"; "val3"].
#[export] Instance net_staking : StakingKeeper := {|
  GetValidator := λ a, if decide (a ∈ net_validators) then Some (mkStakingValidator true (Some a) a) else None;
  ValidatorByConsAddr := λ a, if decide (a ∈ net_validators) then Some (mkStakingValidator true (Some a) a) else None;
  IsTombstoned := λ _, false |}.

(** ** The bank: balances per account and denomination *)
Abbreviation Ledger := (gmap string (gmap string N)) (only parsing).
Definition balance (w : World Ledger) (m : string) : gmap string Z := Z.of_N <$> default ∅ (ext w !! m).
Definition set_balance (m : string) (c : gmap string Z) (w : World Ledger) : World Ledger :=
  w <| ext ::= insert m (Z.to_N <$> c) |>.
Definition nonneg (c : gmap string Z) : bool := bool_decide (map_Forall (λ _ a, 0 ≤ a) c).
#[export] Instance net_bank : Bank Ledger := {|
  GetAllBalances := λ m, gets (λ w, balance w m);
  SendCoinsFromModuleToModule := λ src dst c w,
    let left := coins_sub (balance w src) c in
    if nonneg c && nonneg left then
      let w1 := set_balance src left w in
      (Ok tt, set_balance dst (coins_add (balance w1 dst) c) w1)
    else (Err "insufficient funds", w);
  AllocateTokensToValidator := λ _ _, mret tt |}.
Lemma amt_nonneg c d : nonneg c = true → 0 ≤ amt c d.
Proof.
  intros Hc%bool_decide_eq_true. unfold amt. destruct (c !! d) as [a|] eqn:Hd; [|done]. by eapply Hc.
Qed.
Lemma amt_set_balance m m' c w d :
  nonneg c = true → amt (balance (set_balance m c w) m') d = if decide (m' = m) then amt c d else amt (balance w m') d.
Proof.
  intros Hc. pose proof (amt_nonneg c d Hc) as Hd. unfold amt, balance, set_balance in *. cbn.
  case_decide as Hm; [subst; rewrite lookup_insert_eq|by rewrite lookup_insert_ne].
  cbn. rewrite !lookup_fmap. destruct (c !! d); cbn in *; lia.
Qed.
#[export] Instance net_bank_laws : BankLaws balance.
Proof.
  assert (∀ w m d, 0 ≤ amt (balance w m) d) as Hnn.
  { intros w m d. unfold amt, balance. rewrite lookup_fmap. destruct (_ !! d); cbn; lia. }
  split; [done|done| |].
  - intros src dst c w u w' Hne. cbn. destruct (nonneg c) eqn:Hc; [|done].
    destruct (nonneg (coins_sub _ c)) eqn:Hl; [|done]. intros [= _ <-]. split; [done|]. intros m d.
    assert (nonneg (coins_add (balance (set_balance src (coins_sub (balance w src) c) w) dst) c) = true) as Ha.
    { apply bool_decide_eq_true. intros k a Hk.
      pose proof (amt_add (balance (set_balance src (coins_sub (balance w src) c) w) dst) c k) as Hs.
      unfold amt at 1 in Hs. rewrite Hk in Hs. cbn in Hs. rewrite Hs.
      pose proof (Hnn (set_balance src (coins_sub (balance w src) c) w) dst k). pose proof (amt_nonneg c k Hc). lia. }
    rewrite !amt_set_balance, amt_add, amt_set_balance, amt_sub by done. repeat case_decide; subst; try done; lia.
  - by intros v c w u w' [= _ <-].
Qed.

(** ** The EVM: every call succeeds and writes nothing *)
#[export] Instance net_evm_codecs : EvmCodecs := {|
  HexToAddress := λ s, s;
  Address_Hex := λ a, a;
  BytesToAddress := λ bz, hex_string bz;
  abi_unpack_payload := λ _, Err "abi: cannot unmarshal" |}.
#[export] Instance net_evm : EvmKeeper Ledger := {|
  DerivedEVMCall := λ _ _ _ _, mret (mkEvmOut (Some (mkReceipt "0xabc" 21000 [] [])) None);
  view_getUEAForOrigin := λ _ _ _, mret ("0xuea", true);
  view_getOriginForUEA := λ _ _ _, mret false;
  view_gasPriceByChainNamespace := λ _ _, mret 5;
  view_l1GasFeeByChainNamespace := λ _ _, mret 1;
  view_tssFundMigrationGasLimit := λ _ _, mret 21000;
  view_uniswapV3Quoter := λ _, mret "0xquoter";
  view_WPC := λ _, mret "0xwpc";
  view_defaultFeeTier := λ _ _, mret 500;
  view_quoteExactInputSingle := λ _ _ _ _ _ n, mret n;
  view_getOutboundTxGasAndFees := λ _ _ _, mret ("0xgas", 10, 5, 2);
  IsContract := λ _ _, false;
  ue_module_address := "0xmodule";
  GetBaseFee := λ _, Some (10 ^ 18);
  GetBalance := λ _ _, 10 ^ 18;
  SendCoinsFromAccountToModule := λ _ _, mret tt;
  BurnCoins := λ _, mret tt;
  unpack_outbound_event := λ _, Err "abi: cannot unmarshal";
  unpack_rescue_event := λ _, Err "abi: cannot unmarshal";
  UniversalTxOutboundEventSig := "0x01";
  RescueFundsOnSourceChainEventSig := "0x02";
  HexToHash := λ s, s;
  UxEvm.FromHex := λ s, codes s |}.
#[export] Instance net_evm_laws : EvmKeeperLaws Ledger.
Proof. split; intros; cbn; try done; first [by repeat split | by eexists | naive_solver]. Qed.
#[export] Instance net_hooks : BallotHooks Ledger := ux_ballot_hooks Ledger.
#[export] Instance net_hooks_laws : BallotHooksLaws Ledger := ux_ballot_hooks_laws Ledger.
#[export] Instance net_hooks_books : BooksHooksLaws Ledger := ux_ballot_hooks_books Ledger.
#[export] Instance net_validator_hooks : UValidatorHooks Ledger := app_validator_hooks.
#[export] Instance net_utss : UtssKeeper Ledger := app_utss.
#[export] Instance net_uexecutor : UExecutorKeeper Ledger := app_uexecutor.

(** ** The network *)
Definition at_height (h : Z) : Ctx := mkCtx h (5 * h) "push_42101-1".
Definition joined (a : string) : UV.UniversalValidator :=
  UV.mkUniversalValidator (Some (UV.mkIdentityInfo a)) (Some (UV.mkNetworkInfo ("peer-" +:+ a) ["/ip4/10.0.0.1"]))
    (Some (UV.mkLifecycleInfo UV.UV_STATUS_ACTIVE
      [UV.mkLifecycleEvent UV.UV_STATUS_PENDING_JOIN 1 UV.TRANSITION_REASON_ADMIN;
       UV.mkLifecycleEvent UV.UV_STATUS_ACTIVE 2 UV.TRANSITION_REASON_ADMIN])).
Definition net_uv : UvState :=
  empty_uv <| UvParams := Some (UV.mkParams "admin") |>
           <| UniversalValidatorSet := {[ "val1" := joined "val1"; "val2" := joined "val2"; "val3" := joined "val3" ]} |>.
(** Inbounds of Ethereum are open, outbounds are paused. *)
Definition ethereum : Reg.ChainConfig :=
  Reg.mkChainConfig "eip155:1" Reg.EVM "https://rpc" "0x2222222222222222222222222222222222222222"
    (Some (Reg.mkBlockConfirmation 1 12)) [] (Some (Reg.mkChainEnabled true false)) 30 [] None.
Definition net_reg : RegState :=
  empty_reg <| RegParams := Some (Reg.mkParams "admin") |> <| ChainConfigs := {[ "eip155:1" := ethereum ]} |>.
Definition net_tss : TssState := empty_tss <| TssParams := Some (Tss.mkParams "admin") |>.
Definition net : World Ledger := (empty_world ∅) <| uv := net_uv |> <| tss := net_tss |> <| reg := net_reg |>.

Lemma joined_ok h a : 2 ≤ h → a ≠ "" → validator_ok h a (joined a).
Proof.
  intros Hh Ha. eexists _, _, _, 2. split_and!; [done..| | |done].
  - cbn. unfold parse_address. by rewrite decide_False.
  - apply (lifecycle_move [_] UV.UV_STATUS_PENDING_JOIN 1); [apply lifecycle_join|done|done].
Qed.
Lemma net_validators_ok h : 2 ≤ h → validators_inv h net_uv.
Proof.
  intros Hh. unfold validators_inv. cbn. repeat apply map_Forall_insert_2; try (by apply joined_ok).
  apply map_Forall_empty.
Qed.
Lemma no_ballots s : Ballots s = ∅ → ActiveBallotIDs s = ∅ → ExpiredBallotIDs s = ∅ → FinalizedBallotIDs s = ∅ →
  ballots_inv s.
Proof.
  intros Hb Ha He Hf. split.
  - intros id b. by rewrite Hb, lookup_empty.
  - intros id. rewrite Ha, He, Hf. set_solver.
Qed.
(** One open ballot on the network, with the vote of [val1]. *)
Definition net_ballot : Ballot.Ballot :=
  Ballot.mkBallot "b1" Ballot.BALLOT_OBSERVATION_TYPE_INBOUND_TX net_validators
    [Ballot.VOTE_RESULT_SUCCESS; Ballot.VOTE_RESULT_NOT_YET_VOTED; Ballot.VOTE_RESULT_NOT_YET_VOTED]
    3 Ballot.BALLOT_STATUS_PENDING 5 100.
Definition net_voting : World Ledger := net <| uv ::= open_ballot net_ballot |>.
Lemma net_ballots_ok : ballots_inv (uv net).
Proof. by apply no_ballots. Qed.
Lemma net_voting_ok : ballots_inv (uv net_voting).
Proof.
  apply open_ballot_inv; [done|done|done| |apply net_ballots_ok].
  by apply (bool_decide_unpack _).
Qed.

(** A TSS key generation is running among the three validators. *)
Lemma net_tss_ok : tss_inv (tss net).
Proof.
  unfold tss_inv, tss_inv_except, events_ok, pending_ok, pending_event, processes_ok, keys_ok, migrations_ok. cbn.
  split_and!; intros *; rewrite ?lookup_empty; naive_solver.
Qed.
Definition net_keygen : World Ledger := (InitiateTssKeyProcess (at_height 10) Tss.TSS_PROCESS_KEYGEN net).2.
Lemma net_keygen_ok : tss_inv (tss net_keygen).
Proof. apply InitiateTssKeyProcess_inv, net_tss_ok. Qed.

(** A token of Ethereum with its PRC20 representation. *)
Definition usdc : Reg.TokenConfig :=
  Reg.mkTokenConfig "eip155:1" "0xA0b86991c6218b36c1d19D4a2e9Eb0cE3606eB48" "USD Coin" "USDC" 6 true "1000000"
    Reg.ERC20 (Some (Reg.mkNativeRepresentation "" "0x1111111111111111111111111111111111111111")).
(** The rows with an index, as [collections] keeps them. *)
Definition unreferenced (ref : Reg.TokenConfig → string) (k : string) (x : gmap string Reg.TokenConfig * gset (string * string)) :
    gset (string * string) := match x.1 !! k with Some old => x.2 ∖ {[ (ref old, k) ]} | None => x.2 end.
#[export] Instance net_indexed : IndexedMap := {|
  indexed_Set := λ ref k v x, (<[k := v]> x.1, {[ (ref v, k) ]} ∪ unreferenced ref k x);
  indexed_Remove := λ ref k x, (delete k x.1, unreferenced ref k x) |}.
#[export] Instance net_indexed_laws : IndexedMapLaws.
Proof.
  assert (∀ ref k x p, p ∈ unreferenced ref k x ↔ p ∈ x.2 ∧ ∀ old, x.1 !! k = Some old → p ≠ (ref old, k)) as Hu.
  { intros ref k x p. unfold unreferenced. destruct (x.1 !! k) as [old|]; [|naive_solver].
    rewrite elem_of_difference, elem_of_singleton. naive_solver. }
  split; [done| |done|]; intros; cbn; rewrite ?elem_of_union, ?elem_of_singleton, Hu; done.
Qed.
Definition net_tokens : World Ledger := (AddTokenConfig usdc net).2.
Lemma net_reg_ok : reg_inv (reg net).
Proof.
  unfold reg_inv, index_sound, index_complete, keys_canonical. cbn.
  split_and!; [set_solver|..]; intros *; by rewrite lookup_empty.
Qed.
Lemma net_tokens_ok : reg_inv (reg net_tokens).
Proof. exact (tokens_set_inv usdc _ net_reg_ok). Qed.

(** ** Transfers *)

(** A deposit of 100 USDC to an address of Push Chain. *)
Definition deposit : Ux.Inbound :=
  Ux.mkInbound "eip155:1" "0xABCDEF00000000000000000000000000000000000000000000000000000000FF"
    "0x3333333333333333333333333333333333333333" "0x4444444444444444444444444444444444444444" "100"
    "0xA0b86991c6218b36c1d19D4a2e9Eb0cE3606eB48" "7" Ux.FUNDS None "" None false "".
(** The same deposit with an amount that is not a number. *)
Definition bad_deposit : Ux.Inbound := deposit <| Ux.Amount := "many" |>.
Definition withdrawal : Ux.OutboundTx :=
  Ux.empty_OutboundTx <| Ux.DestinationChain := "eip155:1" |> <| Ux.ObAmount := "40" |> <| Ux.ObTxType := Ux.FUNDS |>
    <| Ux.ObId := "ob1" |> <| Ux.OutboundStatus := Ux.PENDING |>.
Definition withdrawal_utx : Ux.UniversalTx := Ux.mkUniversalTx "utx1" None [] [withdrawal] "".
Definition net_withdrawal : World Ledger :=
  net <| ux ::= λ s, s <| UniversalTxs := {[ "utx1" := withdrawal_utx ]} |>
      <| PendingOutbounds := {[ "ob1" := Ux.mkPendingOutboundEntry "ob1" "utx1" 10 0 [] ]} |> |>.
Lemma net_withdrawal_utx key u : (books net_withdrawal).1 !! key = Some u → key = "utx1" ∧ u = withdrawal_utx.
Proof. by intros [<- <-]%(lookup_singleton_Some (M:=gmap string) "utx1" key withdrawal_utx u). Qed.
Lemma net_withdrawal_entry id e :
  (books net_withdrawal).2 !! id = Some e → id = "ob1" ∧ e = Ux.mkPendingOutboundEntry "ob1" "utx1" 10 0 [].
Proof.
  by intros [<- <-]%(lookup_singleton_Some (M:=gmap string) "ob1" id (Ux.mkPendingOutboundEntry "ob1" "utx1" 10 0 []) e).
Qed.
Lemma net_withdrawal_ok : pending_inv (books net_withdrawal).
Proof.
  assert (∀ key ob, outbound_in (books net_withdrawal) key ob → key = "utx1" ∧ ob = withdrawal) as Hin.
  { intros key ob (u & [-> ->]%net_withdrawal_utx & ->%list_elem_of_singleton). done. }
  split.
  - intros id e [-> ->]%net_withdrawal_entry. split; [done|]. exists withdrawal. split_and!; try done.
    exists withdrawal_utx. split; [done|by left].
  - intros key ob [-> ->]%Hin _. by eexists.
  - intros key u [-> ->]%net_withdrawal_utx. apply NoDup_singleton.
Qed.
(** The network saw the withdrawal on Ethereum. *)
Definition seen : Ux.OutboundObservation :=
  Ux.mkOutboundObservation true 19000000 "0xABCDEF00000000000000000000000000000000000000000000000000000000FF" "" "8".

(** Insertion sort. *)
Fixpoint insert_less {A} (less : A → A → bool) (x : A) (l : list A) : list A :=
  match l with
  | [] => [x]
  | y :: l' => if less y x then y :: insert_less less x l' else x :: l
  end.
#[export] Instance net_sort : SortSlice := λ A less l, foldr (insert_less less) [] l.
#[export] Instance net_sort_laws : SortSliceLaws.
Proof.
  split; unfold sort_Slice, net_sort.
  - intros A less l. induction l as [|x l IH]; [done|]. cbn [foldr]. rewrite <- IH at 2. generalize (foldr (insert_less less) [] l).
    intros k. induction k as [|y k IHk]; cbn; [done|]. destruct (less y x); [|done]. rewrite IHk. apply Permutation_swap.
  - intros A key less l Hless. assert (∀ x k, insert_less less x k = insert_by key x k) as Hi.
    { intros x k. induction k as [|y k IH]; cbn; [done|]. rewrite Hless, IH.
      case_decide; [by rewrite bool_decide_false by lia|by rewrite bool_decide_true by lia]. }
    rewrite (foldr_ext _ (insert_by key) [] [] l l (λ b a, Hi b a) eq_refl eq_refl). apply stable_sort_sorted.
Qed.
