(* ===== verification/Witness.v ===== *)
(** * The theorems at work

    Each theorem with hypotheses applied on the concrete network of
    [Scenario.v]: its hypotheses hold there, and its conclusion says something
    about a run of the definitions. *)
From S2P Require Import Prelude GoStrings UvTypes TssTypes UxTypes RegTypes World Canonical.
From S2P Require Import UvValidator UvBallot UvMsg UvAbci Registry Utss TssInv TssVotes TssOps.
From S2P Require Import TssGenesis UxKeys UxPayload UxEvm UxOutbound UxSettle UxInbound UxChainMeta.
From S2P Require Import UxFinality UxPending UxLedger UxInboundSpec UxMsg UxQuery App Scenario.

Lemma net_NoDup : NoDup net_validators.
Proof. by apply (bool_decide_unpack _). Qed.

(** ** Ballots *)
Lemma VoteOnBallot_refines_poll_witness :
  ballots_inv (uv net_voting) ∧ NoDup net_validators ∧
  let '(out, w') := VoteOnBallot (at_height 10) "b1" Ballot.BALLOT_OBSERVATION_TYPE_INBOUND_TX "val2"
    Ballot.VOTE_RESULT_SUCCESS net_validators 3 50 net_voting in
  (∃ b, out = Ok (b, false, false)) ∧ ballots_inv (uv w').
Proof.
  split; [apply net_voting_ok|]. split; [apply net_NoDup|].
  pose proof (VoteOnBallot_refines_poll (at_height 10) "b1" Ballot.BALLOT_OBSERVATION_TYPE_INBOUND_TX "val2"
    Ballot.VOTE_RESULT_SUCCESS net_validators 3 50 net_voting net_voting_ok net_NoDup) as H. cbv zeta in H.
  destruct (VoteOnBallot _ _ _ _ _ _ _ _ _) as [out w']. destruct H as [H Hi]. split; [|exact Hi].
  destruct (cast _ _ _ _) as [p|] eqn:Hc; vm_compute in Hc; [|done]. injection Hc as <-.
  destruct H as [(b & -> & _) _]. by exists b.
Defined.

Lemma ballots_consistent_and_final_witness :
  ballots_inv (uv net_voting) ∧ validators_inv 10 (uv net_voting) ∧
  let ops := [(at_height 10, OpVote "b2" Ballot.BALLOT_OBSERVATION_TYPE_INBOUND_TX "val1"
                 Ballot.VOTE_RESULT_SUCCESS net_validators 3 50);
              (at_height 200, OpExpire 200); (at_height 201, OpRecompute "b2")] in
  Forall (op_ok ∘ snd) ops ∧
  ballots_inv (uv (run_ballot_ops ops net_voting)) ∧ frozen (uv net_voting) (uv (run_ballot_ops ops net_voting)).
Proof.
  split; [apply net_voting_ok|]. split; [by apply net_validators_ok|]. intros ops.
  assert (Forall (op_ok ∘ snd) ops) as Hops by (apply Forall_cons_2; [apply net_NoDup|by repeat constructor]).
  split; [exact Hops|]. apply (ballots_consistent_and_final ops net_voting 10);
    [apply net_voting_ok | by apply net_validators_ok | exact Hops].
Defined.

Lemma ExpireBallotsBeforeHeight_complete_witness :
  ballots_inv (uv net_voting) ∧
  ∃ w', ExpireBallotsBeforeHeight (at_height 200) 200 net_voting = (Ok tt, w') ∧
    (Ballot.Status <$> Ballots (uv w') !! "b1") = Some Ballot.BALLOT_STATUS_EXPIRED.
Proof.
  split; [apply net_voting_ok|].
  destruct (ExpireBallotsBeforeHeight_complete (at_height 200) 200 net_voting net_voting_ok) as (w' & Hr & _ & Hb).
  exists w'. split; [exact Hr|]. rewrite Hb. computed.
Defined.

Lemma late_vote_mark_is_discarded_witness :
  ∃ m, atomically (VoteOnBallot (at_height 100) "b1" Ballot.BALLOT_OBSERVATION_TYPE_INBOUND_TX "val2"
    Ballot.VOTE_RESULT_SUCCESS net_validators 3 50) net_voting = (Err m, net_voting).
Proof.
  apply (late_vote_mark_is_discarded (at_height 100) "b1" Ballot.BALLOT_OBSERVATION_TYPE_INBOUND_TX "val2"
    Ballot.VOTE_RESULT_SUCCESS net_validators 3 50 net_voting net_ballot); [apply net_voting_ok|done|done|done].
Defined.

Lemma RecomputeBallotQuorum_restricts_witness :
  ∃ r w', RecomputeBallotQuorum (at_height 10) "b1" net_voting = (Ok r, w') ∧ newEligibleCount r = 3 ∧
    0 < newThreshold r ≤ 3.
Proof.
  destruct (RecomputeBallotQuorum_restricts (at_height 10) "b1" net_voting 10 net_ballot net_voting_ok
    (net_validators_ok 10 ltac:(done)) eq_refl eq_refl) as (r & w' & Hr & Hn & _ & _ & _ & Ht).
  exists r, w'. assert (newEligibleCount r = 3) as H3 by (rewrite Hn; computed).
  rewrite H3 in Ht. split; [exact Hr|]. split; [exact H3|]. apply Ht. by vm_compute.
Defined.

(** Everyone has voted, one of them against; the ballot needs three votes. *)
Definition split_ballot : Ballot.Ballot :=
  Ballot.mkBallot "b1" Ballot.BALLOT_OBSERVATION_TYPE_INBOUND_TX ["val1"; "val2"; "val3"; "val4"]
    [Ballot.VOTE_RESULT_SUCCESS; Ballot.VOTE_RESULT_SUCCESS; Ballot.VOTE_RESULT_SUCCESS; Ballot.VOTE_RESULT_FAILURE]
    4 Ballot.BALLOT_STATUS_PENDING 5 100.
Definition net_split : World Ledger := net <| uv ::= open_ballot split_ballot |>.
Lemma net_split_ok : ballots_inv (uv net_split).
Proof.
  apply open_ballot_inv; [done|done|done| |apply net_ballots_ok].
  by apply (bool_decide_unpack _).
Qed.
Lemma RecomputeBallotQuorum_strands_witness :
  let w' := (RecomputeBallotQuorum (at_height 10) "b1" net_split).2 in
  (Ballot.Status <$> Ballots (uv w') !! "b1") = Some Ballot.BALLOT_STATUS_PENDING ∧
  is_ok (VoteOnBallot (at_height 11) "b1" Ballot.BALLOT_OBSERVATION_TYPE_INBOUND_TX "val1"
           Ballot.VOTE_RESULT_SUCCESS net_validators 3 50 w').1 = false.
Proof.
  assert (Forall (Ballot.voted split_ballot) (current_voters net_split)) as Hv.
  { replace (current_voters net_split) with net_validators by computed. by repeat constructor. }
  destruct (RecomputeBallotQuorum_strands (at_height 10) "b1" net_split 10 split_ballot net_split_ok
    (net_validators_ok 10 ltac:(done)) eq_refl eq_refl ltac:(by vm_compute) Hv) as [Hst Hno].
  split; [exact Hst|]. apply Hno, net_NoDup.
Defined.

(** ** Validators *)
Lemma validator_lifecycle_invariant_witness :
  let ops := [(at_height 10, OpRemove "val2"); (at_height 11, OpUnbonding "val1"); (at_height 12, OpBonded "val1")] in
  validators_inv 12 (uv (run_uv_ops ops net)) ∧ status_at "val2" (uv (run_uv_ops ops net)) = Some UV.UV_STATUS_PENDING_LEAVE.
Proof.
  intros ops. split; [|computed].
  apply (validator_lifecycle_invariant ops 2 net); [by apply net_validators_ok|]. by repeat constructor.
Defined.

Lemma unbond_rebond_restores_witness :
  let w1 := (HandleBaseValidatorUnbonding (at_height 10) "val1" net).2 in
  status_at "val1" (uv w1) ≠ Some UV.UV_STATUS_ACTIVE ∧
  status_at "val1" (uv (HandleBaseValidatorBonded (at_height 11) "val1" w1).2) = Some UV.UV_STATUS_ACTIVE.
Proof.
  intros w1. assert (status_at "val1" (uv net) = Some UV.UV_STATUS_ACTIVE) as Hst by done.
  destruct (unbond_rebond_restores (at_height 10) (at_height 11) "val1" net w1 w1 eq_refl eq_refl (or_introl Hst))
    as (Hn & _ & Hr). split; [exact Hn|]. rewrite Hr. exact Hst.
Defined.

Lemma admin_removal_is_final_witness :
  let w1 := (RemoveUniversalValidator (at_height 10) "val1" net).2 in
  status_at "val1" (uv w1) = Some UV.UV_STATUS_PENDING_LEAVE ∧
  uv (HandleBaseValidatorBonded (at_height 11) "val1" w1).2 = uv w1.
Proof.
  intros w1. split; [computed|].
  apply (admin_removal_is_final (at_height 10) (at_height 11) "val1" "val1" net w1 w1 tt); [done|ran|done].
Defined.

Lemma admin_messages_gated_witness :
  ∃ e, exec_admin_msg (at_height 10) (AdminRemove (mkMsgRemoveUniversalValidator "mallory" "val1")) net = (Err e, net).
Proof.
  apply (admin_messages_gated (at_height 10) (AdminRemove (mkMsgRemoveUniversalValidator "mallory" "val1")) net). done.
Defined.

Lemma uv_genesis_roundtrip_witness :
  ∃ g w1, ExportGenesis net_voting = (Ok g, net_voting) ∧ InitGenesis g (empty_world (E:=Ledger) ∅) = (Ok tt, w1) ∧
    uv w1 = uv net_voting.
Proof.
  apply (uv_genesis_roundtrip net_voting (empty_world ∅) 10);
    [apply net_bech32_laws | apply net_voting_ok | by apply net_validators_ok | done | by eexists | done].
Defined.

(** Fees of 1148 are collected; two of three validators are universal. *)
Definition net_fees : World Ledger := net <| ext := {[ "fee_collector" := {[ "upc" := 1148%N ]} ]} |>.
Definition net_votes : list VoteInfo := [mkVoteInfo "val1" 10; mkVoteInfo "val2" 10; mkVoteInfo "val3" 10].
Lemma AllocateTokens_conserves_witness :
  let w' := (AllocateTokens net_votes net_fees).2 in
  amt (balance w' FeeCollectorName) "upc" + amt (balance w' DistrModuleName) "upc" = 1148 ∧
  1148 * amt (balance w' DistrModuleName) "upc" ≤ 148 * 1148.
Proof.
  intros w'.
  assert (AllocateTokens net_votes net_fees = (Ok tt, w')) as Hr by ran.
  destruct (AllocateTokens_conserves balance net_votes net_fees w' tt ltac:(by repeat constructor) ltac:(done) Hr "upc")
    as (_ & Hsum & _ & Hle).
  change (amt (balance net_fees FeeCollectorName) "upc") with 1148 in Hsum, Hle.
  change (amt (balance net_fees DistrModuleName) "upc") with 0 in Hsum, Hle. rewrite Z.sub_0_r in Hsum, Hle.
  split; [exact Hsum|exact Hle].
Defined.

(** ** Canonical forms and the registry *)
Lemma EVMHash_faithful_witness :
  let s := "0xABCDEF00000000000000000000000000000000000000000000000000000000FF" in
  let t := " 0xabcdef00000000000000000000000000000000000000000000000000000000ff" in
  CanonicalizeEVMHash s = Ok (with0x (strip0x s).1) ∧ CanonicalizeEVMHash t = Ok (with0x (strip0x s).1) ∧
  hash_bytes s = hash_bytes t.
Proof.
  intros s t. assert (CanonicalizeEVMHash s = Ok (with0x (strip0x s).1)) as Hs by computed.
  assert (CanonicalizeEVMHash t = Ok (with0x (strip0x s).1)) as Ht by computed.
  split; [exact Hs|]. split; [exact Ht|]. by apply (EVMHash_faithful s t _ _ Hs Ht).
Defined.

(** The token is removed under another spelling of its address, and not a second time. *)
Lemma registry_messages_exact_witness :
  let m := RMsgRemoveToken (mkMsgRemoveTokenConfig "admin" "eip155:1" "0xa0b86991c6218b36c1d19d4a2e9eb0ce3606eb48") in
  admissible m (reg net_tokens) ∧ (exec_reg_msg m net_tokens).1 = Ok tt ∧ reg_inv (reg (exec_reg_msg m net_tokens).2) ∧
  (∃ e, (exec_reg_msg m net).1 = Err e) ∧ (exec_reg_msg m net).2 = net.
Proof.
  intros m. assert (admissible m (reg net_tokens)) as Ha.
  { split; [computed|]. eexists. vm_compute. reflexivity. }
  pose proof (registry_messages_exact m net_tokens net_tokens_ok) as H1. pose proof (registry_messages_exact m net net_reg_ok) as H2.
  destruct (exec_reg_msg m net_tokens) as [out1 w1]. destruct (exec_reg_msg m net) as [out2 w2].
  destruct H1 as [(_ & Hout & s' & Hw & Hi & _)|[Hno _]]; [|by destruct Hno]. destruct H2 as [[[_ Hs] _]|(_ & He & Hw2)].
  - exfalso. destruct Hs as [v Hv]. by vm_compute in Hv.
  - rewrite Hw. split_and!; [exact Ha|exact Hout|exact Hi|exact He|exact Hw2].
Defined.

Lemma GetTokenConfigByPRC20_is_scan_witness :
  GetTokenConfigByPRC20 "eip155:1" " 0x1111111111111111111111111111111111111111" net_tokens = (Ok usdc, net_tokens).
Proof.
  rewrite (GetTokenConfigByPRC20_is_scan "eip155:1" " 0x1111111111111111111111111111111111111111" net_tokens
    net_tokens_ok); [computed|]. by vm_compute.
Defined.

Lemma AddTokenConfig_lookup_witness :
  AddTokenConfig usdc net = (Ok tt, net_tokens) ∧
  GetTokenConfig "eip155:1" "0xa0b86991c6218b36c1d19d4a2e9eb0ce3606eb48" net_tokens = (Ok usdc, net_tokens).
Proof.
  assert (AddTokenConfig usdc net = (Ok tt, net_tokens)) as Hr by computed. split; [exact Hr|].
  apply (AddTokenConfig_lookup usdc usdc "0xa0b86991c6218b36c1d19d4a2e9eb0ce3606eb48" net net_tokens tt Hr).
  computed.
Defined.

(** A store written before the index existed. *)
Definition net_unindexed : World Ledger := net_tokens <| reg ::= λ s, s <| PRC20Index := ∅ |> |>.
Lemma RebuildPRC20Index_backfills_witness :
  ∃ w', RebuildPRC20Index net_unindexed = (Ok tt, w') ∧ index_complete (reg w').
Proof.
  assert (index_sound (reg net_unindexed)) as Hs by (intros r k Hin; by apply not_elem_of_empty in Hin).
  destruct (RebuildPRC20Index_backfills net_unindexed Hs) as (w' & Hr & _ & _ & Hc). exists w'. split; [exact Hr|exact Hc].
Defined.

(** ** TSS *)
Lemma net_keygen_uv : uv net_keygen = uv net.
Proof. computed. Qed.
Definition net_process : Tss.TssKeyProcess :=
  Tss.mkTssKeyProcess Tss.TSS_KEY_PROCESS_PENDING net_validators 10 510 Tss.TSS_PROCESS_KEYGEN 1.

Lemma VoteTssKeyProcess_outcome_witness :
  let '(out, w') := VoteTssKeyProcess (at_height 20) "val1" "pub" "key1" 1 net_keygen in
  out = Ok tt ∧ tss w' = tss net_keygen ∧ is_Some (polls (uv w') !! GetTssBallotKey 1 "pub" "key1").
Proof.
  pose proof (VoteTssKeyProcess_outcome (at_height 20) "val1" "pub" "key1" 1 net_keygen net_process net_keygen_ok
    ltac:(rewrite net_keygen_uv; apply net_ballots_ok) ltac:(rewrite net_keygen_uv; by apply net_validators_ok)
    eq_refl net_NoDup) as H.
  destruct (VoteTssKeyProcess _ _ _ _ _ _) as [out w'].
  destruct (accepted_key_vote _ _ _ _ _ _ _) as [p|] eqn:Hp; vm_compute in Hp; [|done].
  injection Hp as <-. destruct H as (Hout & Hpoll & Hst). cbn [phase] in Hst. destruct Hst as [Hst _].
  split; [exact Hout|]. split; [exact Hst|]. eexists. exact Hpoll.
Defined.

(** Two of the three participants have voted for the key. *)
Definition key_ballot : Ballot.Ballot :=
  Ballot.mkBallot (GetTssBallotKey 1 "pub" "key1") Ballot.BALLOT_OBSERVATION_TYPE_TSS_KEY net_validators
    [Ballot.VOTE_RESULT_SUCCESS; Ballot.VOTE_RESULT_SUCCESS; Ballot.VOTE_RESULT_NOT_YET_VOTED]
    3 Ballot.BALLOT_STATUS_PENDING 20 510.
Definition net_key_votes : World Ledger := net_keygen <| uv ::= open_ballot key_ballot |>.
Lemma net_key_votes_ok : ballots_inv (uv net_key_votes).
Proof.
  apply open_ballot_inv; [computed|done|done| |rewrite net_keygen_uv; apply net_ballots_ok].
  by apply (bool_decide_unpack _).
Qed.
Lemma net_key_votes_validators : validators_inv 30 (uv net_key_votes).
Proof.
  assert (UniversalValidatorSet (uv net_key_votes) = UniversalValidatorSet net_uv) as Hv by computed.
  unfold validators_inv. rewrite Hv. by apply (net_validators_ok 30).
Qed.
Definition net_new_key : World Ledger := (VoteTssKeyProcess (at_height 30) "val3" "pub" "key1" 1 net_key_votes).2.
Lemma new_key_is_unanimous_witness :
  CurrentTssKey (tss net_new_key) = Some (final_key (at_height 30) net_process "pub" "key1") ∧
  ∃ p, polls (uv net_new_key) !! GetTssBallotKey 1 "pub" "key1" = Some p ∧ ayes p = list_to_set net_validators.
Proof.
  assert (VoteTssKeyProcess (at_height 30) "val3" "pub" "key1" 1 net_key_votes = (Ok tt, net_new_key)) as Hr by ran.
  assert (CurrentTssKey (tss net_new_key) ≠ CurrentTssKey (tss net_key_votes)) as Hne by (by vm_compute).
  destruct (new_key_is_unanimous (at_height 30) "val3" "pub" "key1" 1 net_key_votes net_new_key tt net_process
    net_keygen_ok net_key_votes_ok net_key_votes_validators eq_refl net_NoDup) as (Hk & p & Hp & _ & Hy);
    [|exact Hr|exact Hne|].
  - intros p Hp. vm_compute in Hp. injection Hp as <-. split; computed.
  - split; [exact Hk|]. exists p. split; [exact Hp|exact Hy].
Defined.

Lemma tss_consistent_and_append_only_witness :
  let w' := exec_tss_op (at_height 40) (OpInitiateMigration (mkMsgInitiateFundMigration "admin" "key0" "eip155:1"))
    (exec_tss_op (at_height 10) (OpInitiateKey (mkMsgInitiateTssKeyProcess "admin" Tss.TSS_PROCESS_KEYGEN)) net) in
  tss_inv (tss w') ∧ tss_grows (tss net) (tss w').
Proof.
  intros w'. apply (tss_consistent_and_append_only net w'); [|apply net_tss_ok].
  unfold w'. repeat apply trace_op. apply trace_start.
Defined.

Definition net_key_genesis : TssGenesis :=
  mkTssGenesis (Tss.mkParams "admin") (Some net_process) [(1%N, net_process)] None [] 2
    (walk_values (TssEvents (tss net_keygen))) 2 [] 1.
Lemma tss_genesis_roundtrip_witness :
  tss_ExportGenesis net_keygen = (Ok net_key_genesis, net_keygen) ∧
  ∃ w', tss_InitGenesis net_key_genesis (empty_world (E:=Ledger) ∅) = (Ok tt, w') ∧ same_tss (tss net_keygen) (tss w').
Proof.
  assert (tss_ExportGenesis net_keygen = (Ok net_key_genesis, net_keygen)) as Hr by computed.
  split; [exact Hr|].
  apply (tss_genesis_roundtrip net_keygen (empty_world ∅) net_key_genesis net_keygen net_keygen_ok Hr);
    [by vm_compute|left; by vm_compute..|done].
Defined.

(** ** Universal transactions *)
Import Ux.
Lemma ballot_keys_identify_votes_witness :
  GetInboundBallotKey deposit ≠ GetInboundBallotKey bad_deposit ∧
  GetInboundBallotKey deposit ≠ GetOutboundBallotKey "utx1" "ob1" seen.
Proof.
  destruct (ballot_keys_identify_votes deposit bad_deposit "utx1" "utx1" "ob1" "ob1" seen seen) as (Hk & _ & _ & Hd).
  split; [|exact Hd]. intros Heq%Hk. by vm_compute in Heq.
Defined.

Lemma Canonicalize_keeps_keys_witness :
  Canonicalize deposit ≠ deposit ∧ GetInboundBallotKey (Canonicalize deposit) = GetInboundBallotKey deposit.
Proof. split; [by vm_compute|]. destruct (Canonicalize_keeps_keys deposit) as (_ & Hk & _). exact Hk. Defined.

Definition call_payload : BorshPayload :=
  mkBorshPayload (replicate 20 68) 5 [1; 2; 3] 21000 1000000000 0 3 (-1) 1.
Lemma solana_payload_exact_witness :
  DecodeUniversalPayloadSolana (hex_string (borsh call_payload)) = Ok (Some (borsh_payload call_payload)).
Proof.
  assert (is_bytes (borsh call_payload)) as Hb.
  { apply (bool_decide_unpack _). by vm_compute. }
  apply (solana_payload_exact (borsh call_payload) Hb); [|done].
  unfold borsh_ok. cbn. split_and!; try done; apply (bool_decide_unpack _); by vm_compute.
Defined.

Lemma median_follows_majority_witness :
  ∃ m, upperMedianUint64 [30; 31; 32; 1; 1000] (λ x, x) = Ok m ∧ 30 ≤ m ≤ 32.
Proof.
  destruct (median_follows_majority [30; 31; 32; 1; 1000] (λ x, x) 30 32 ltac:(by vm_compute)) as (m & Hm & _ & Hb).
  exists m. split; [exact Hm|exact Hb].
Defined.

Lemma net_metas_ok : metas_inv (ux net).
Proof. intros id cm. cbn. by rewrite lookup_empty. Qed.
Lemma VoteChainMeta_refines_oracle_witness :
  let '(out, w') := VoteChainMeta (at_height 10) "val1" "eip155:1" 20 19000000 net in
  out = Ok tt ∧ oracles (ux w') = {[ "eip155:1" := mkOracle {[ "val1" := mkVote 20 19000000 50 ]} 0 ]}.
Proof.
  pose proof (VoteChainMeta_refines_oracle (at_height 10) "val1" "eip155:1" 20 19000000 net net_metas_ok) as H.
  cbv zeta in H. destruct (VoteChainMeta _ _ _ _ _ _) as [out w'].
  replace (vote_meta _ _ _) with (Some ({[ "val1" := mkVote 20 19000000 50 ]} : gmap string Vote)) in H by computed.
  rewrite decide_True in H by (split; [by vm_compute|vm_compute; by repeat constructor]).
  destruct H as (Hout & _ & _ & Ho). split; [exact Hout|].
  rewrite Ho. computed.
Defined.

(** The votes of two validators on Ethereum. *)
Definition eth_meta : ChainMeta :=
  mkChainMeta "eip155:1" ["val1"; "val2"] [20; 22] [19000000; 19000001] [50; 55] 1 18999999.
Definition net_oracle : World Ledger := net <| ux ::= λ s, s <| ChainMetas := {[ "eip155:1" := eth_meta ]} |> |>.
Lemma PruneValidatorVotes_forgets_witness :
  let '(out, w') := PruneValidatorVotes "val1" net_oracle in
  out = Ok tt ∧ oracles (ux w') = {[ "eip155:1" := mkOracle {[ "val2" := mkVote 22 19000001 55 ]} 18999999 ]}.
Proof.
  assert (metas_inv (ux net_oracle)) as Hm.
  { intros id cm [<- <-]%(lookup_singleton_Some (M:=gmap string) "eip155:1" id eth_meta cm).
    unfold wf_meta. cbn. split_and!; try done. by apply (bool_decide_unpack _). }
  pose proof (PruneValidatorVotes_forgets "val1" net_oracle Hm) as H.
  destruct (PruneValidatorVotes "val1" net_oracle) as [out w']. destruct H as (Hout & _ & Ho & _).
  split; [exact Hout|]. rewrite Ho. computed.
Defined.

Lemma VoteOutbound_settles_once_witness :
  let '(out, w') := VoteOutbound (at_height 20) "val1" "utx1" "ob1" seen net_withdrawal in
  out = Ok tt ∧ UniversalTxs (ux w') = UniversalTxs (ux net_withdrawal) ∧
  size (PendingOutbounds (ux w')) = 1%nat.
Proof.
  pose proof (VoteOutbound_settles_once (at_height 20) "val1" "utx1" "ob1" seen net_withdrawal 20
    (net_validators_ok 20 ltac:(done)) net_ballots_ok) as H.
  destruct (VoteOutbound _ _ _ _ _ _) as [out w'].
  replace (outbound_at _ _ _) with (Some (withdrawal_utx, 0%nat, withdrawal)) in H by computed.
  cbv zeta in H. destruct (decide _) as [_|Hn] in H; [|by destruct Hn].
  destruct (PendingOutbounds (ux net_withdrawal) !! "ob1") as [e|] eqn:He in H; [|done].
  destruct (aye _ _ _) as [p|] eqn:Hp in H; vm_compute in Hp; [|done]. injection Hp as <-.
  destruct H as (Hout & _ & _ & Hb). cbn [phase] in Hb. rewrite decide_True in Hb by done.
  split; [exact Hout|]. injection Hb as Hu Hpend. rewrite Hu, Hpend. split; [done|computed].
Defined.

Lemma HasPendingOutboundsForChain_exact_witness :
  ∃ b, HasPendingOutboundsForChain "eip155:1" net_withdrawal = (Ok b, net_withdrawal) ∧ b = true.
Proof.
  destruct (HasPendingOutboundsForChain_exact "eip155:1" net_withdrawal net_withdrawal_ok) as (b & Hb & Hiff).
  exists b. split; [exact Hb|]. apply Hiff. exists "utx1", withdrawal.
  split; [|exact (conj eq_refl eq_refl)].
  exists withdrawal_utx. split; [reflexivity|apply list_elem_of_singleton; reflexivity].
Defined.

(** A second outbound with an identifier of its own keeps the index exact, one with the
    identifier of the first does not. *)
Lemma pending_index_maintained_witness :
  pending_inv (books (VoteOutbound (at_height 20) "val1" "utx1" "ob1" seen net_withdrawal).2) ∧
  (∃ w', attachOutboundsToUtx (at_height 20) "utx1" [withdrawal <| ObId := "ob2" |>] net_withdrawal = (Ok tt, w') ∧
    pending_inv (books w')) ∧
  (∃ w', attachOutboundsToUtx (at_height 20) "utx1" [withdrawal] net_withdrawal = (Ok tt, w') ∧ ¬ pending_inv (books w')).
Proof.
  destruct (pending_index_maintained (at_height 20) net_withdrawal 20 net_withdrawal_ok
    (net_validators_ok 20 ltac:(done)) net_ballots_ok) as [Hattach Hvote].
  split; [apply Hvote|]. split.
  - destruct (Hattach "utx1" withdrawal_utx [withdrawal <| ObId := "ob2" |>] eq_refl) as (w' & Hr & Hi & _).
    exists w'. split; [exact Hr|]. apply Hi. split_and!; [apply NoDup_singleton|by intros ob ->%list_elem_of_singleton|].
    intros key ob ob' (u & [-> ->]%net_withdrawal_utx & ->%list_elem_of_singleton) ->%list_elem_of_singleton. done.
  - destruct (Hattach "utx1" withdrawal_utx [withdrawal] eq_refl) as (w' & Hr & Hi & _).
    exists w'. split; [exact Hr|]. intros (_ & _ & Hused)%Hi.
    destruct (Hused "utx1" withdrawal withdrawal) as [Hne _]; [|by apply list_elem_of_singleton|done|done].
    exists withdrawal_utx. split; [reflexivity|by apply list_elem_of_singleton].
Defined.

Lemma AllPendingOutbounds_exact_witness :
  ∃ e ob, AllPendingOutbounds None net_withdrawal = (Ok (mkPendingPage [e] [ob] 1), net_withdrawal) ∧
    entry_outbound net_withdrawal e ob.
Proof.
  destruct (AllPendingOutbounds_exact None net_withdrawal net_withdrawal_ok) as (all & Hp & _ & H);
    [by vm_compute|by vm_compute|].
  replace (walk_values (PendingOutbounds (ux net_withdrawal))) with [mkPendingOutboundEntry "ob1" "utx1" 10 0 []] in Hp
    by computed.
  apply Permutation_singleton_r in Hp as ->. rewrite decide_True in H by (by vm_compute).
  destruct H as (obs & Hr & Hf). cbv zeta in Hr, Hf.
  replace (take _ _) with [mkPendingOutboundEntry "ob1" "utx1" 10 0 []] in Hr, Hf by computed.
  apply Forall2_cons_inv_l in Hf as (ob & obs' & He & Hn & ->). apply Forall2_nil_inv_l in Hn as ->.
  eexists _, ob. split; [exact Hr|exact He].
Defined.

Lemma ux_genesis_roundtrip_witness :
  ∃ g w1, ux_ExportGenesis (net_withdrawal <| ux ::= λ s, s <| UxParams := Some (mkParams true) |> |>)
      = (Ok g, net_withdrawal <| ux ::= λ s, s <| UxParams := Some (mkParams true) |> |>) ∧
    ux_InitGenesis (throw "deployed twice") g (empty_world (E:=Ledger) ∅) = (Ok tt, w1) ∧
    UniversalTxs (ux w1) = UniversalTxs (ux net_withdrawal).
Proof.
  destruct (ux_genesis_roundtrip (E:=Ledger) (throw "deployed twice")
    (net_withdrawal <| ux ::= λ s, s <| UxParams := Some (mkParams true) |> |>) (empty_world ∅) (mkParams true))
    as (g & w1 & Hx & Hi & [Hs _] & _).
  - reflexivity.
  - split; intros k e He; by destruct (lookup_empty_Some (M:=gmap string) k e).
  - exact net_withdrawal_ok.
  - by vm_compute.
  - reflexivity.
  - exists g, w1. split; [exact Hx|]. split; [exact Hi|]. by apply (f_equal UniversalTxs) in Hs.
Defined.

Lemma ledger_append_only_witness :
  let ops := [(at_height 20, OpVoteOutbound "val1" "utx1" "ob1" seen); (at_height 21, OpVoteInbound "val1" deposit);
              (at_height 22, OpRevertStuckInbound deposit)] in
  ballots_inv (uv (run_ux_ops ops net_withdrawal)) ∧
  ledger_evolves (UniversalTxs (ux net_withdrawal)) (UniversalTxs (ux (run_ux_ops ops net_withdrawal))).
Proof.
  intros ops. apply (ledger_append_only ops net_withdrawal 20);
    [apply net_ballots_ok | by apply (net_validators_ok 20)].
Defined.

Lemma rejected_inbound_is_refunded_witness :
  ∃ w' ob, finalize_inbound (at_height 20) (GetInboundUniversalTxKey bad_deposit) bad_deposit net = (Ok tt, w') ∧
    (OutboundTxs <$> UniversalTxs (ux w') !! GetInboundUniversalTxKey bad_deposit) = Some [ob] ∧ refund_of bad_deposit ob.
Proof.
  set (e := "amount must be a valid non-negative uint256").
  assert (rejection bad_deposit = Some (bad_deposit, e)) as Hrej by computed.
  destruct (rejected_inbound_is_refunded (at_height 20) bad_deposit bad_deposit e net Hrej eq_refl)
    as (w' & obs & Hr & _ & Hu & Hob).
  cbn [IsCEA bad_deposit] in Hob. destruct Hob as (ob & en & -> & Href & _). exists w', ob.
  split; [exact Hr|]. rewrite Hu, lookup_insert_eq. split; [done|exact Href].
Defined.

Lemma VoteInbound_executes_once_witness :
  let '(out, w') := VoteInbound (at_height 20) "val1" deposit net in
  out = Ok tt ∧ books w' = books net ∧ ballots_inv (uv w').
Proof.
  pose proof (VoteInbound_executes_once (at_height 20) "val1" deposit net 20
    (net_validators_ok 20 ltac:(done)) net_ballots_ok) as H. cbv zeta in H.
  destruct (VoteInbound _ _ _ _) as [out w']. replace (chain_open _ _) with true in H by computed.
  replace (UniversalTxs (ux net) !! _) with (@None UniversalTx) in H by computed.
  destruct (aye _ _ _) as [p|] eqn:Hp in H; vm_compute in Hp; [|done]. injection Hp as <-.
  destruct H as (w1 & Hb & Hi & _ & Hd). cbn [phase] in Hd. rewrite decide_True in Hd by done.
  destruct Hd as [Hout ->]. split; [exact Hout|]. split; [exact Hb|exact Hi].
Defined.

(** A deposit of a type that no executor handles. *)
Definition odd_deposit : Inbound := deposit <| InTxType := RESCUE_FUNDS |>.
Lemma unsupported_inbound_never_lands_witness :
  let w' := (VoteInbound (at_height 20) "val1" odd_deposit net).2 in
  VoteInbound (at_height 20) "val1" odd_deposit net = (Ok tt, w') ∧ UniversalTxs (ux w') = UniversalTxs (ux net).
Proof.
  intros w'. assert (VoteInbound (at_height 20) "val1" odd_deposit net = (Ok tt, w')) as Hr by ran.
  split; [exact Hr|].
  apply (unsupported_inbound_never_lands (at_height 20) "val1" odd_deposit net w' tt); [auto|computed|exact Hr].
Defined.

(** ** The application *)
Definition old_key : Tss.TssKey := Tss.mkTssKey "old" "key0" net_validators 5 3 1.
Definition new_key : Tss.TssKey := Tss.mkTssKey "new" "key1" net_validators 9 7 2.
Definition net_rotated : World Ledger :=
  net <| tss ::= λ s, s <| TssKeyHistory := {[ "key0" := old_key; "key1" := new_key ]} |>
      <| CurrentTssKey := Some new_key |> |>.
Lemma net_rotated_ok : tss_inv (tss net_rotated).
Proof.
  destruct net_tss_ok as (He & Hp & Hpr & _ & Hm). split_and!; [exact He|exact Hp|exact Hpr| |exact Hm]. split.
  - intros i k Hk. change ((<["key0" := old_key]> {[ "key1" := new_key ]} : gmap string Tss.TssKey) !! i = Some k) in Hk.
    apply lookup_insert_Some in Hk as [[<- <-]|[_ [<- <-]%lookup_singleton_Some]]; done.
  - intros k [= <-]. done.
Qed.
Lemma net_books_ok : pending_inv (books net).
Proof.
  split.
  - intros id e He. by destruct (lookup_empty_Some (M:=gmap string) id e).
  - intros key ob (u & Hu & _). by destruct (lookup_empty_Some (M:=gmap string) key u).
  - intros key u Hu. by destruct (lookup_empty_Some (M:=gmap string) key u).
Qed.
Lemma fund_migration_waits_for_outbounds_witness :
  let w' := (InitiateFundMigration (at_height 20) "key0" "eip155:1" net_rotated).2 in
  InitiateFundMigration (at_height 20) "key0" "eip155:1" net_rotated = (Ok 1%N, w') ∧
  ∃ k m, CurrentTssKey (tss w') = Some k ∧ FundMigrations (tss w') !! 1%N = Some m ∧ Tss.CurrentTssPubkey m = Tss.TssPubkey k.
Proof.
  intros w'. assert (InitiateFundMigration (at_height 20) "key0" "eip155:1" net_rotated = (Ok 1%N, w')) as Hr by ran.
  split; [exact Hr|].
  destruct (fund_migration_waits_for_outbounds (at_height 20) "key0" "eip155:1" net_rotated w' 1 net_rotated_ok
    net_books_ok Hr) as (_ & _ & _ & k & m & Hk & Hm & _ & Hpub & _).
  exists k, m. split; [exact Hk|]. split; [exact Hm|exact Hpub].
Defined.

(** The audit trail of the open ballot [b1]. *)
Definition deposit_entry : PendingInboundEntry :=
  mkPendingInboundEntry "utxA" [mkInboundVariant "b1" (Some deposit) ["val1"] 5 5 Ballot.BALLOT_STATUS_PENDING] 5.
Definition net_audit : World Ledger :=
  net_keygen <| uv ::= open_ballot net_ballot |> <| ux ::= λ s, s <| PendingInbounds := {[ "utxA" := deposit_entry ]} |> |>.
Lemma net_audit_trail : audited net_audit "utxA" "b1" deposit_entry.
Proof.
  split; [reflexivity|]. split; [by left|]. intros key en Hk _.
  by apply (lookup_singleton_Some (M:=gmap string) "utxA" key deposit_entry en) in Hk as [<- _].
Qed.
Lemma ballot_end_is_audited_witness :
  let '(out, w') := ux_AfterBallotTerminal (at_height 200) "b1" Ballot.BALLOT_OBSERVATION_TYPE_INBOUND_TX
    Ballot.BALLOT_STATUS_EXPIRED net_audit in
  PendingInbounds (ux w') = ∅ ∧ (ExpiredAtHeight <$> ExpiredInbounds (ux w') !! "utxA") = Some 200.
Proof.
  pose proof (ballot_end_is_audited (at_height 200) "b1" Ballot.BALLOT_STATUS_EXPIRED net_audit "utxA" deposit_entry
    net_audit_trail) as H. cbv zeta in H.
  destruct (ux_AfterBallotTerminal _ _ _ _ _) as [out w']. destruct H as [_ ->].
  split; computed.
Defined.

Lemma net_audit_ok : ballots_inv (uv net_audit).
Proof.
  apply open_ballot_inv; [computed|reflexivity|done| |].
  - by apply (bool_decide_unpack _).
  - rewrite net_keygen_uv. apply net_ballots_ok.
Qed.
Lemma utss_sweep_skips_audit_witness :
  let w' := (VoteOnTssBallot (BH := nil_ballot_hooks Ledger) (at_height 200) "val1" 1 "pub" "key1" net_audit).2 in
  (Ballot.Status <$> Ballots (uv w') !! "b1") = Some Ballot.BALLOT_STATUS_EXPIRED ∧
  audited w' "utxA" "b1" deposit_entry ∧ ExpiredInbounds (ux w') = ∅.
Proof.
  intros w'.
  assert (VoteOnTssBallot (BH := nil_ballot_hooks Ledger) (at_height 200) "val1" 1 "pub" "key1" net_audit
          = (Ok (false, true), w')) as Hr by ran.
  destruct (utss_sweep_skips_audit (at_height 200) "val1" 1 "pub" "key1" net_audit w' (false, true) "b1" net_ballot
    "utxA" deposit_entry net_audit_ok) as (Hst & Ha & He & _).
  - intros pr Hpr. assert (pr = net_process) as ->; [|apply net_NoDup].
    assert (CurrentTssProcess (tss net_audit) = Some net_process) as Hc by computed. congruence.
  - exact Hr.
  - computed.
  - computed.
  - reflexivity.
  - by vm_compute.
  - apply net_audit_trail.
  - split; [exact Hst|]. split; [exact Ha|]. rewrite He. computed.
Defined.
