(* ===== verification/UcWitness.v ===== *)
(** * A concrete client

    An outside world small enough to compute with, in which the hypotheses of the
    theorems on the universal client hold. *)
From S2P Require Import Prelude GoStrings UvTypes TssTypes UxTypes RegTypes World Canonical Utss.
From S2P Require Import UcStore UcCoord UcSession UcLogic UcFlow UcFlowSpec UcSessionSpec UcCoordSpec.
From S2P Require Import UcSettled UcDrain UcNonces Scenario.
From Stdlib Require Import Ascii.
Import Uc.

(** ** The world: what it answers *)
Record Outside := mkOutside {
  out_enabled : bool; out_receipt : TxReceipt; out_finalized : Z; out_now : Z; out_block : Z;
  out_validators : list UV.UniversalValidator }.
Definition out_key : Tss.TssKey := Tss.mkTssKey (hex_of (replicate 33 2)) "key-1" [] 0 0 1%N.
Definition reply {A} (c : Call A) (o : Outside) : A :=
  match c with
  | NowUnix => out_now o
  | Now => out_now o
  | RandIntn bound => 0
  | GetLatestBlock => Ok (out_block o)
  | GetCurrentKey => Ok (Some out_key)
  | GetAllUniversalValidators => Ok (out_validators o)
  | IsChainOutboundEnabled _ => out_enabled o
  | IsEVMChain _ => true
  | GetStandardConfirmations _ => 12
  | GetTxBuilder _ => Ok tt
  | BroadcastOutboundSigningRequest _ _ _ _ => ("0xabc", None)
  | BroadcastFundMigrationTx _ _ _ _ => ("0xabc", None)
  | VerifyBroadcastedTx _ _ => Ok (out_receipt o)
  | IsAlreadyExecuted _ _ => (false, out_now o, None)
  | GetGasFeeUsed _ _ => Ok "7"
  | GetNextNonce _ _ _ => Ok (out_finalized o)
  | GetOutboundSigningRequest _ _ nonce => Ok (mkUnsignedSigningReq (replicate 32 7) nonce None)
  | GetFundMigrationSigningRequest _ _ nonce => Ok (mkUnsignedSigningReq (replicate 32 7) nonce (Some 5))
  | VoteOutbound _ _ _ => Ok "vote"
  | VoteFundMigration _ _ _ => Ok "vote"
  | VoteTssKeyProcess _ _ _ => Ok "vote"
  | Send _ _ => Ok tt
  | GetKeyshare _ => Keyshare [1]
  | StoreKeyshare _ _ => Ok tt
  | DklsKeygenSetupMsgNew _ _ => Ok [1]
  | DklsSignSetupMsgNew _ _ _ => Ok [1]
  | DklsKeyshareFromBytes _ => Ok tt
  | DklsQcSetupMsgNew _ _ _ _ => Ok [1]
  | NewKeySession _ _ _ _ _ _ => Ok tt
  | NewSignSession _ _ _ _ _ => Ok tt
  | InputMessage _ _ => Ok tt
  | StepSession _ => Ok ([], true)
  | GetResult _ => Ok (mkDklsResult (replicate 64 1) [2] [3])
  | CloseSession _ => tt
  | ChainHead => Ok (out_block o)
  | FilterLogs _ _ _ _ => Ok []
  | GetTransactionReceipt _ => Err "not found"
  | GetTransactionGasPrice _ => Err "not found"
  | GetSignaturesForAddress _ _ => Ok []
  | GetTransaction _ => Err "not found"
  | GetGasPrice => Ok 1
  | GetBalance _ => Ok 1000000
  | PendingNonceAt _ => Ok 0
  | NonceAt _ _ => Ok 0
  | SendEvmTransaction _ => Ok tt
  | GetAccountData _ => Ok []
  | LatestFinalizedBlockTime => Ok (out_now o)
  | GetRecentBlockhash => Ok (replicate 32 5)
  | GetAddressLookupTable _ => Ok []
  | ReadKeyFile _ => Ok (replicate 64 6)
  | SendSvmTransaction _ => Ok "sig"
  | GetProgramAccounts _ _ => Ok []
  | GetLastSignature _ => Ok []
  | VoteInbound _ => Ok "vote"
  | VoteChainMeta _ _ _ => Ok "vote"
  | GetPendingTssEvents => Ok []
  | GetAllPendingOutbounds => Ok ([], [])
  | GetPendingFundMigrations => Ok []
  end.
#[export] Instance out_env : Env Outside := λ A c o, (reply c o, o).
(** A world that always answers in the same way. *)
Inductive Fixed (o : Outside) := fixed.
Arguments fixed {_}.
#[export] Instance fixed_env o : Env (Fixed o) := λ A c e, (reply c o, e).
#[export] Instance out_config : ClientConfig := {|
  has_chains := true; has_push_signer := true; has_tss_lookup := true; validatorAddress := "val1";
  coordinatorRange := 100; pollInterval := 10; sessionExpiryTime := 300; sessionExpiryBlockDelay := 60 |}.
(** Every key decompresses, every signature verifies: enough to run the code. *)
#[export] Instance out_crypto : Crypto := {|
  DecompressPubkey := λ _, Some (1, 2); ecdsa_Verify := λ _ _ _ _, true;
  Keccak256 := λ _, replicate 32 9; Sum256 := λ _, replicate 32 4 |}.

(** ** An outbound on its way *)
Definition out_outbound : OutboundCreatedEvent :=
  mkOutboundCreatedEvent "utx-1" "tx-1" "eip155:1" "0xaa" "5" "" "0xbb" "" "1" "21000" "1" "" "FUNDS" "" "" "" 900.
Definition out_payload (sd : option SigningData) : Payload := push_payload out_outbound empty_migration 0 sd.
Definition out_signing : SigningData := mkSigningData (hex_of (replicate 64 1)) (hex_of (replicate 32 7)) 4 None.
Definition out_row (st : EventStatus) (sd : option SigningData) (hash : string) : Event :=
  (new_event "tx-1" 10 0 EventTypeSignOutbound (Some (out_payload sd))) <| EvStatus := st |> <| BroadcastedTxHash := hash |>.
Definition out_coord : Coordinator := mkCoordinator [] None ∅ ∅.
Definition out_node (ev : Event) (o : Outside) : Node Outside :=
  mkNode {[ EventID ev := ev ]} ∅ out_coord 0 [] o.

(** A reverted transaction with 20 confirmations is voted on. *)
Definition out_reverted : Outside := mkOutside true (mkTxReceipt true 77 20 0) 5 1000 1000 [].
Lemma out_votes :
  omap (λ l, match asked l with VoteOutbound txID utxID obs => Some (txID, Ux.ObsTxHash obs) | _ => None end)
    (trace (processBroadcasted 3 (out_node (out_row StatusBroadcasted (Some out_signing) "eip155:1:0xabc") out_reverted)).2)
  = [("tx-1", "0xabc")].
Proof. computed. Qed.
Lemma resolver_votes_justified_witness :
  let n := out_node (out_row StatusBroadcasted (Some out_signing) "eip155:1:0xabc") out_reverted in
  ∃ new, trace (processBroadcasted 3 n).2 = new ++ trace n ∧ votes_justified n new.
Proof. intros n. exact (resolver_votes_justified 3 n). Defined.

(** ** A settled transfer *)
Definition out_done : Event := out_row StatusCompleted (Some out_signing) "eip155:1:0xabc".
Lemma out_keyed ev o : keyed (out_node ev o).
Proof. intros id e He. cbn in He. by apply (lookup_singleton_Some (M:=gmap string)) in He as [<- <-]. Qed.
Lemma out_typed ev o : typed (out_node ev o).
Proof. by intros id st e Hs. Qed.
(** A forged signature arrives, the broadcaster and the resolver run, the node restarts. *)
Definition out_forged : Message :=
  mkMessage MessageTypeSignatureBroadcast "tx-1" [] [] None (Some (mkSignedDataPayload [1] [2] 0 None)).
Definition out_run : Node Outside :=
  let n1 := (onReceive "peer" out_forged (out_node out_done out_reverted)).2 in
  let n2 := (processSigned 2 n1).2 in
  let n3 := (processBroadcasted 2 n2).2 in
  ((set_coord (λ _, fresh_coordinator) ;; set_sessions (λ _, ∅) ;; RecoverInProgressEvents) n3).2.
Lemma out_run_ok : rtc client_step (out_node out_done out_reverted) out_run.
Proof.
  eapply rtc_l; [apply (step_receive "peer" out_forged)|]. eapply rtc_l; [apply (step_broadcast 2)|].
  eapply rtc_l; [apply (step_resolve 2)|]. eapply rtc_l; [apply step_restart|]. apply rtc_refl.
Qed.
Lemma settled_transfers_stay_witness : rows out_run !! "tx-1" = Some out_done.
Proof.
  refine (settled_transfers_stay "tx-1" out_done _ _ (out_keyed _ _) (out_typed _ _) _ _ _ _ out_run_ok);
    [reflexivity|reflexivity|left; reflexivity|reflexivity].
Defined.
(** The same transfer, with a session that has not been closed. *)
Definition out_session : sessionState := mkSessionState EventTypeSignOutbound "peer" 10 ["val1"] None.
Lemma expired_session_reopens_witness :
  let n := mkNode {[ "tx-1" := out_done ]} {[ "tx-1" := out_session ]} out_coord 0 [] out_reverted in
  ∃ ev', rows (expire_session 60 "tx-1" n).2 !! "tx-1" = Some ev' ∧ is_signed ev' = true.
Proof.
  intros n. refine (expired_session_reopens 60 "tx-1" n out_session out_done
    (mkSignedDataPayload (replicate 64 1) (replicate 32 7) 4 None) 1000 _ _ _ _ _ _);
    [reflexivity|reflexivity|left; reflexivity|reflexivity|computed|reflexivity].
Defined.

(** ** Many signed rows *)
Definition many_id (i : nat) : string := of_bytes (replicate i "x"%char).
Definition many_row (st : EventStatus) (i : nat) : Event :=
  (new_event (many_id i) 10 0 EventTypeSignOutbound (Some (out_payload (Some out_signing)))) <| EvStatus := st |>.
Fixpoint many (st : EventStatus) (k : nat) : gmap string Event :=
  match k with O => ∅ | S k' => <[ many_id k' := many_row st k' ]> (many st k') end.
Lemma many_id_inj i j : many_id i = many_id j → i = j.
Proof. intros H%(f_equal (length ∘ to_bytes)). unfold many_id in H. cbn in H. by rewrite !to_of_bytes, !length_replicate in H. Qed.
Lemma many_lookup st k id e : many st k !! id = Some e → ∃ i, (i < k)%nat ∧ id = many_id i ∧ e = many_row st i.
Proof.
  induction k as [|k IH]; [done|]. cbn [many]. intros [[<- <-]|[_ He]]%lookup_insert_Some; [eauto|].
  destruct (IH He) as (i & ? & ? & ?). exists i. auto with lia.
Qed.
Lemma many_matching k : matching is_signed (many StatusSigned k) = k.
Proof.
  induction k as [|k IH]; [reflexivity|]. cbn [many]. rewrite matching_fresh, IH; [reflexivity|].
  destruct (many StatusSigned k !! many_id k) as [e|] eqn:He; [|reflexivity]. apply many_lookup in He as (i & Hi & Heq & _).
  apply many_id_inj in Heq. lia.
Qed.
Definition many_node (k : nat) (o : Outside) : Node (Fixed o) := mkNode (many StatusSigned k) ∅ out_coord 0 [] fixed.
Lemma many_keyed k o : keyed (many_node k o).
Proof. intros id e He. cbn in He. by apply many_lookup in He as (i & _ & -> & ->). Qed.
Definition out_disabled : Outside := mkOutside false (mkTxReceipt true 77 20 0) 5 1000 1000 [].
Lemma processSigned_spins_witness : (processSigned 1000 (many_node 100 out_disabled)).1 = Ok false.
Proof.
  refine (processSigned_spins 1000 (many_node 100 out_disabled) _ _ _ _).
  - reflexivity.
  - intros chain e. reflexivity.
  - intros id e He _. apply many_lookup in He as (i & _ & _ & ->). reflexivity.
  - change (rows (many_node 100 out_disabled)) with (many StatusSigned 100). rewrite many_matching. lia.
Defined.
Definition out_open : Outside := mkOutside true (mkTxReceipt true 77 20 1) 5 1000 1000 [].
Lemma processSigned_finishes_witness :
  ∃ n', processSigned 3 (many_node 250 out_open) = (Ok true, n') ∧ ∀ id e, rows n' !! id = Some e → is_signed e = false.
Proof.
  refine (processSigned_finishes 3 (many_node 250 out_open) _ _ (many_keyed _ _) _ _).
  - reflexivity.
  - split; [|split; [|split]]; intros; intros e; reflexivity.
  - intros id e He _. apply many_lookup in He as (i & _ & _ & ->). split; [reflexivity|].
    eexists (out_payload (Some out_signing)), out_signing, _. split; [reflexivity|]. reflexivity.
  - change (rows (many_node 250 out_open)) with (many StatusSigned 250). rewrite many_matching. lia.
Defined.

(** ** Three validators *)
Definition out_validator (addr peer : string) : UV.UniversalValidator :=
  UV.mkUniversalValidator (Some (UV.mkIdentityInfo addr)) (Some (UV.mkNetworkInfo peer []))
    (Some (UV.mkLifecycleInfo UV.UV_STATUS_ACTIVE [])).
Definition out_three : list UV.UniversalValidator :=
  [out_validator "val1" "p1"; out_validator "val2" "p2"; out_validator "val3" "p3"].
Definition three_coord (t : gmap string ackState) : Coordinator := mkCoordinator out_three (Some 1000) t ∅.
Definition three_node (st : EventStatus) (t : gmap string ackState) : Node Outside :=
  mkNode {[ "tx-1" := out_row st None "" ]} ∅ (three_coord t) 0 [] (mkOutside true (mkTxReceipt true 77 20 1) 5 1000 10 out_three).
Lemma invitation_accepted_witness :
  let ev := out_row StatusConfirmed None "" in
  ∃ invited n', invitees (EvType ev) out_three (three_node StatusConfirmed ∅) = (Ok invited, n') ∧
    invited ⊆+ getEligibleForProtocol (EvType ev) out_three ∧
    2 * Z.of_nat (length (getEligibleForProtocol (EvType ev) out_three)) < 3 * Z.of_nat (length invited) ∧
    (is_sign (EvType ev) = false → invited = getEligibleForProtocol (EvType ev) out_three) ∧
    (validateParticipants (addr_of <$> sort_Slice (λ a b, String.ltb (addr_of a) (addr_of b)) invited) ev
       (three_node StatusConfirmed ∅)).1 = Ok tt.
Proof.
  intros ev. refine (invitation_accepted ev out_three (three_node StatusConfirmed ∅) (three_node StatusConfirmed ∅) _ _ _).
  - discriminate.
  - intros v Hv. repeat (apply elem_of_cons in Hv as [->|Hv]; [eexists; reflexivity|]). by apply not_elem_of_nil in Hv.
  - reflexivity.
Defined.
(** Two acknowledged, the third does. *)
Definition two_acks : gmap string ackState := {[ "tx-1" := mkAckState ["val1"; "val2"; "val3"] {[ "p1"; "p2" ]} 2 ]}.
Lemma party_in_three p x :
  party_in out_three p = Some x → p = "p1" ∧ x = "val1" ∨ p = "p2" ∧ x = "val2" ∨ p = "p3" ∧ x = "val3".
Proof.
  unfold party_in, party_of. cbn. repeat (case_decide; subst; cbn; [intros [= <-]; auto|]). discriminate.
Qed.
Lemma begin_needs_every_ack_witness :
  let n := three_node StatusConfirmed two_acks in
  ∃ t, trace (handleUnsignedAck "p3" "tx-1" n).2 = t ++ trace n ∧ acks_ok out_three (handleUnsignedAck "p3" "tx-1" n).2 ∧
    (sent t → ∃ st, ackTracking (coord n) !! "tx-1" = Some st ∧
       ackTracking (coord (handleUnsignedAck "p3" "tx-1" n).2) !! "tx-1" = None ∧
       ∀ party, party ∈ ackParticipants st → ∃ p, (p = "p3" ∨ p ∈ ackedBy st) ∧ party_in out_three p = Some party).
Proof.
  intros n. refine (begin_needs_every_ack "p3" "tx-1" n _ _).
  - intros id st Hst. change (two_acks !! id = Some st) in Hst. unfold two_acks in Hst. apply (lookup_singleton_Some (M:=gmap string)) in Hst as [<- <-]. split; [reflexivity|].
    intros p Hp. apply elem_of_union in Hp as [->%elem_of_singleton| ->%elem_of_singleton]; eexists; (split; [reflexivity|]);
      [apply list_elem_of_here|apply list_elem_of_further, list_elem_of_here].
  - intros p q x Hp Hq. apply party_in_three in Hp, Hq. naive_solver.
Defined.
(** Three confirmed outbounds, block 10, whose coordinator is the first validator. *)
Definition poll_world : Outside := mkOutside true (mkTxReceipt true 77 20 1) 5 1000 30 out_three.
Definition poll_node : Node (Fixed poll_world) := mkNode (many StatusConfirmed 3) ∅ (three_coord ∅) 0 [] fixed.
Lemma poll_node_nonces : nonces "eip155:1" (trace (processConfirmedEvents poll_node).2) = [7; 6; 5].
Proof. computed. Qed.
Lemma poll_nonces_increase_witness :
  ∃ t, trace (processConfirmedEvents poll_node).2 = t ++ trace poll_node ∧
    ∀ chain, StronglySorted (λ a b, b < a) (nonces chain t).
Proof.
  refine (poll_nonces_increase poll_node _ _).
  - intros chain signer fin e x Hx. cbn in Hx. injection Hx as <-. lia.
  - reflexivity.
Defined.
