(* ===== verification/UcWatchWitness.v ===== *)
(** * Concrete watchers

    A small EVM chain with one deposit and a small Solana history, in which the hypotheses
    of the theorems on the watchers hold. *)
From S2P Require Import Prelude GoStrings UvTypes TssTypes UxTypes RegTypes World Canonical Utss UxKeys UxPayload.
From S2P Require Import UcStore UcChain UcEvm UcSvm UcCoord UcLogic UcEvmSpec UcWatch UcEvmWatch UcEvmScan UcSvmWatch UcSvmScan.
From S2P Require Import Scenario UcWitness.
From Stdlib Require Import Ascii.
Import Uc.

(** ** The chain *)
Record Wire := mkWire {
  w_head : Z; w_logs : list EvmLog; w_receipt : res EvmReceipt; w_history : list SvmSignature;
  w_tx : res (option SvmTransaction) }.
Definition wire_reply {A} (c : Call A) (w : Wire) : A :=
  match c with
  | ChainHead => Ok (w_head w)
  | FilterLogs _ _ _ _ => Ok (w_logs w)
  | GetTransactionReceipt _ => w_receipt w
  | GetTransactionGasPrice _ => Ok 3
  | GetSignaturesForAddress _ before =>
      Ok (take 1000 (if decide (before = "") then w_history w else after before (w_history w)))
  | GetTransaction _ => w_tx w
  | c' => reply c' out_reverted
  end.
Inductive On (w : Wire) := on.
Arguments on {_}.
#[export] Instance on_env w : Env (On w) := λ A c e, (wire_reply c w, e).
Definition gateway_key : string := "11111111111111111111111111111111".
#[export] Instance wire_config : WatcherConfig := {|
  watchedChain := "eip155:1"; inboundEnabled := true; outboundEnabled := true;
  watchedGateway := gateway_key; watchedVault := "0xbb";
  watchedGatewayMethods := [Reg.mkGatewayMethods EventTypeSendFunds "" "0x01" Reg.CONFIRMATION_TYPE_FAST;
                            Reg.mkGatewayMethods SvmSendFunds "" "0000000000000000" Reg.CONFIRMATION_TYPE_FAST];
  watchedVaultMethods := []; eventStartFrom := Some 90; fastConfirmations := 5; standardConfirmations := 12;
  retentionPeriodSeconds := None; gasPriceMarkupPercent := 10 |}.
#[export] Instance wire_base58 : Base58Encode := λ bz, hex_string bz.
Definition watcher (w : Wire) : Node (On w) := mkNode ∅ ∅ out_coord 0 [] on.

(** ** A deposit on the EVM chain *)
Definition addr (z : Z) : list Z := replicate 20 z.
Definition deposit : GatewayTx := mkGatewayTx (addr 1) (addr 2) (addr 3) 1000 [7; 8; 9] (addr 4) 2 [] false.
Definition deposit_hash : list Z := replicate 32 17.
Definition deposit_log : EvmLog := gateway_log (evm_HexToHash "0x01") deposit_hash 95 0 deposit 29 0.
Definition one_deposit : Wire := mkWire 120 [deposit_log] (Ok (mkEvmReceipt 1 95 21000)) [] (Err "none").
Definition evm1 : Node (On one_deposit) := (listen_start (watcher one_deposit)).2.
Definition evm2 : Node (On one_deposit) := (listen_tick 90 evm1).2.
Definition evm3 : Node (On one_deposit) := (evm_processPendingEvents evm2).2.
Definition evm4 : Node (On one_deposit) := (ep_processConfirmedEvents evm3).2.
Lemma evm_start_runs : listen_start (watcher one_deposit) = (Ok (Some 90), evm1).
Proof. reflexivity. Qed.
Lemma evm_tick_runs : listen_tick 90 evm1 = (Ok 121, evm2).
Proof. ran. Qed.
Lemma evm_runs : rtc evm_step (None, watcher one_deposit) (Some 121, evm4).
Proof.
  eapply rtc_l; [apply evm_started, evm_start_runs|]. eapply rtc_l; [apply evm_ticked, evm_listened, evm_tick_runs|].
  eapply rtc_l; [apply evm_ticked, evm_confirms|]. eapply rtc_l; [apply evm_ticked, evm_processes|]. apply rtc_refl.
Qed.
Definition deposit_inbound : Ux.Inbound := gateway_inbound "eip155:1" deposit_hash 0 deposit.
Lemma deposit_is_voted : VoteInbound deposit_inbound ⟹ Ok "vote" ∈ trace evm4.
Proof. apply (list_elem_of_lookup_2 _ 1). computed. Qed.
Lemma evm_votes_follow_logs_witness :
  ∃ log ev receipt, fetched (trace evm4) log ∧ parses log ev ∧ deep (trace evm4) ev receipt ∧
    constructInbound ev = Ok deposit_inbound.
Proof.
  refine (proj1 (evm_votes_follow_logs None (watcher one_deposit) (Some 121) evm4 _ evm_runs) deposit_inbound (Ok "vote") deposit_is_voted).
  split; reflexivity.
Defined.
Lemma evm_scans : rtc scan_step (0, None, watcher one_deposit) (90, Some 121, evm4).
Proof.
  eapply rtc_l; [exact (scan_starts 0 None (watcher one_deposit) (Some 90) evm1 evm_start_runs)|].
  eapply rtc_l; [apply scan_ticks, evm_listened, evm_tick_runs|].
  eapply rtc_l; [apply scan_ticks, evm_confirms|]. eapply rtc_l; [apply scan_ticks, evm_processes|]. apply rtc_refl.
Qed.
Lemma evm_no_block_left_out_witness : scanned evm4 95.
Proof.
  refine (proj1 (evm_no_block_left_out 0 (watcher one_deposit) 90 121 evm4 _ _ _ _ evm_scans) 95 _).
  - intros e h [= <-]. split; [discriminate|reflexivity].
  - intros z [= <-]. reflexivity.
  - split; reflexivity.
  - reflexivity.
  - split; [discriminate|reflexivity].
Defined.

(** The endpoint that answers next lags behind the one that gave the receipt. *)
Definition deposit_row : Event := observed_event "eip155:1" deposit_hash 95 0 deposit.
Definition lagging : Node (On one_deposit) := mkNode {[ EventID deposit_row := deposit_row ]} ∅ out_coord 0 [] on.
Lemma evm_lagging_head_confirms_witness :
  ∃ ev', rows (evm_confirm_event 93 deposit_row lagging).2 !! EventID deposit_row = Some ev' ∧ EvStatus ev' = StatusConfirmed.
Proof.
  refine (evm_lagging_head_confirms lagging deposit_row 93 95 21000 _ _ _ _ _ _ _ _ _).
  - apply (lookup_singleton_eq (M:=gmap string)).
  - reflexivity.
  - reflexivity.
  - discriminate.
  - by vm_compute.
  - reflexivity.
  - discriminate.
  - split; reflexivity.
  - discriminate.
Defined.

(** ** The parser *)
Lemma net_address a : length a = 20%nat → is_bytes a → IsHexAddress (hex_string a) = true.
Proof.
  intros Hl Hb. apply hex_address_spec. assert (strip0x (hex_string a) = (of_bytes (hex_encode a), true)) as ->.
  { unfold strip0x, hex_string. rewrite to_bytes_app. cbn. by rewrite to_of_bytes. }
  cbn [fst snd]. rewrite isHexString_spec, to_of_bytes, length_hex_encode, hex_encode_decode by done.
  split_and!; [done| |by eexists|lia]. intros He%(f_equal (length ∘ to_bytes)). cbn in He.
  rewrite to_of_bytes, length_hex_encode, Hl in He. discriminate.
Qed.
Lemma deposit_ok : gateway_ok deposit 29 0.
Proof. split_and!; [repeat constructor|discriminate|reflexivity|discriminate|reflexivity|reflexivity]. Qed.
Lemma small_bytes k z : 0 ≤ z < 256 → is_bytes (replicate k z).
Proof. intros Hz. by apply Forall_replicate. Qed.
Lemma gateway_deposit_voted_witness :
  ∃ ev, evm_ParseEvent deposit_log EventTypeSendFunds "eip155:1" = Ok (Some ev) ∧
    constructInbound ev = Ok deposit_inbound ∧ Inbound_ValidateBasic deposit_inbound = Ok tt.
Proof.
  refine (gateway_deposit_voted net_address (evm_HexToHash "0x01") "eip155:1" deposit_hash 95 0 deposit 29 0 deposit_ok _ _ _ _).
  - repeat (apply Forall_cons_2; [apply small_bytes; lia|]). apply Forall_nil_2.
  - reflexivity.
  - lia.
  - discriminate.
Defined.
Lemma deposit_key_is_its_log_witness :
  GetInboundUniversalTxKey (gateway_inbound "eip155:1" deposit_hash 0 deposit)
  = GetInboundUniversalTxKey (gateway_inbound "eip155:1" deposit_hash 1 deposit) ↔ deposit_hash = deposit_hash ∧ 0 = 1.
Proof.
  refine (deposit_key_is_its_log "eip155:1" deposit_hash deposit_hash 0 1 deposit deposit _ _ _ _ _ _).
  - reflexivity.
  - repeat (apply Forall_cons_2; [apply small_bytes; lia|]). apply Forall_nil_2.
  - reflexivity.
  - reflexivity.
  - lia.
  - lia.
Defined.
(** A payload offset near [2^64]. *)
Definition crash_log : EvmLog :=
  mkEvmLog [evm_HexToHash "0x01"; address_word (addr 1); address_word (addr 2)]
    (mjoin [address_word (addr 3); word 1000; word (2^64 - 8); address_word (addr 4); word 2]) 95 deposit_hash 0.
Lemma gateway_parser_crashes_witness : panics (evm_ParseEvent crash_log EventTypeSendFunds "eip155:1").
Proof.
  refine (proj2 (gateway_parser_crashes crash_log "eip155:1" _ _) _).
  - cbn. lia.
  - reflexivity.
  - split; [|left; split; [|left]]; by vm_compute.
Defined.
Definition one_crash : Wire := mkWire 120 [crash_log] (Err "none") [] (Err "none").
Lemma crash_runs : listen_tick 90 (watcher one_crash) = (Panic "slice bounds out of range", (listen_tick 90 (watcher one_crash)).2).
Proof. ran. Qed.
Lemma evm_listener_stops_only_on_logs_witness :
  ∃ log name, fetched (trace (listen_tick 90 (watcher one_crash)).2) log ∧
    evm_ParseEvent log name watchedChain = Panic "slice bounds out of range".
Proof.
  refine (evm_listener_stops_only_on_logs 90 (watcher one_crash) _ _ _ _ crash_runs).
  - intros e' h [= <-]. split; [discriminate|reflexivity].
  - lia.
Defined.

(** ** A deposit on Solana *)
Definition sig_a : string := of_bytes (replicate 64 "a"%char).
Definition sig_b : string := of_bytes (replicate 64 "b"%char).
Definition two_signatures : list SvmSignature := [mkSvmSignature 110 sig_a; mkSvmSignature 95 sig_b].
(** A hundred zero bytes. *)
Definition svm_line : string := program_data +:+ of_bytes (replicate 134 "A"%char) +:+ "==".
Definition two_txs : Wire := mkWire 120 [] (Err "none") two_signatures (Ok (Some (mkSvmTransaction 95 (Some (false, ["noise"; svm_line]))))).
Definition svm1 : Node (On two_txs) := (svm_listen_tick 3 90 (watcher two_txs)).2.
Definition svm2 : Node (On two_txs) := (svm_processPendingEvents svm1).2.
Definition svm3 : Node (On two_txs) := (ep_processConfirmedEvents svm2).2.
Lemma svm_runs : rtc svm_step (watcher two_txs) svm3.
Proof.
  eapply rtc_l; [apply (svm_listened 3 90)|]. eapply rtc_l; [apply svm_confirms|]. eapply rtc_l; [apply svm_processes|]. apply rtc_refl.
Qed.
Definition svm_inbound : Ux.Inbound :=
  inbound_of (svm_event_id sig_a 1)
    (match decode_line svm_line ≫= λ d, match decodeUniversalTxEvent d with Ok p => Some p | _ => None end with
     | Some p => p <| UtSourceChain := "eip155:1" |> <| UtLogIndex := 1 |> | None => empty_universal_tx end).
Lemma svm_is_voted : VoteInbound svm_inbound ⟹ Ok "vote" ∈ trace svm3.
Proof. apply (list_elem_of_lookup_2 _ 3). computed. Qed.
Lemma svm_votes_follow_lines_witness :
  ∃ sig i line ev, listed (trace svm3) sig ∧ line_of (trace svm3) sig i line ∧ line_parses sig i line ev ∧
    svm_deep (trace svm3) ev ∧ EvType ev = EventTypeInbound ∧ constructInbound ev = Ok svm_inbound.
Proof.
  exact (proj1 (svm_votes_follow_lines (watcher two_txs) svm3 eq_refl eq_refl svm_runs) svm_inbound (Ok "vote") svm_is_voted).
Defined.
Lemma two_history_ok : history_ok two_signatures.
Proof.
  split_and!.
  - change (NoDup [sig_a; sig_b]). apply (bool_decide_unpack _). by vm_compute.
  - change ("" ∉ [sig_a; sig_b]). apply (bool_decide_unpack _). by vm_compute.
  - repeat constructor; cbn; lia.
Qed.
Lemma svm_pages_reach_back_witness :
  ∃ n', svm_listen_tick 3 90 (watcher two_txs) = (Ok 121, n') ∧
    ∀ sig, sig ∈ two_signatures → 90 ≤ SigSlot sig ≤ 120 → visited n' sig.
Proof.
  refine (svm_pages_reach_back two_signatures 3 90 120 (watcher two_txs) two_history_ok _ _ _ _ _ _ _).
  - intros e before. eexists. split; reflexivity.
  - cbn. lia.
  - by vm_compute.
  - reflexivity.
  - lia.
  - lia.
  - reflexivity.
Defined.
Definition no_txs : Wire := mkWire 120 [] (Err "none") two_signatures (Err "rate limited").
Lemma svm_failed_fetch_is_lost_witness :
  ∃ n', svm_listen_tick 3 90 (watcher no_txs) = (Ok 121, n') ∧ rows n' = rows (watcher no_txs) ∧ 120 ≤ dbHeight n'.
Proof.
  refine (svm_failed_fetch_is_lost two_signatures 3 90 120 (watcher no_txs) two_history_ok _ _ _ _ _ _ _ _).
  - intros e before. eexists. split; reflexivity.
  - cbn. lia.
  - by vm_compute.
  - reflexivity.
  - lia.
  - lia.
  - reflexivity.
  - intros e signature. by exists "rate limited".
Defined.
