(* ===== verification/UcTxWitness.v ===== *)
(** * Concrete builders

    Chains small enough to compute with, in which the hypotheses of the theorems on the
    transactions of the universal client hold.  A digest without collisions: the list as
    one number, in an array of 32. *)
From S2P Require Import Prelude GoStrings UvTypes TssTypes UxTypes RegTypes World Canonical Utss UxKeys UxPayload UxMsg.
From S2P Require Import UcStore UcChain UcEvm UcSvm UcCoord UcSession UcEvmTx UcSvmTx UcLogic UcFlow UcFlowSpec UcSessionSpec UcSettled UcAgreed.
From S2P Require Import UcEvmSpec UcEvmTxSpec UcSvmTxSpec UcSvmSent UcBuilders UcFleet Scenario UcWitness.
From Stdlib Require Import Ascii.
Import Uc.

(** ** Libraries *)
Definition digest (bz : list Z) : list Z := Z.pos (encode bz) :: replicate 31 0.
Lemma digest_inj bz bz' : digest bz = digest bz' → bz = bz'.
Proof. unfold digest. generalize (replicate 31 0). intros l [= He]. by apply (inj encode) in He. Qed.
#[export] Instance tx_crypto : Crypto := {|
  DecompressPubkey := λ _, Some (1, 2); ecdsa_Verify := λ _ _ _ _, true; Keccak256 := digest; Sum256 := digest |}.
#[export] Instance tx_keccak : KeccakLaws.
Proof. split; [done|]. intros bz bz'. apply digest_inj. Qed.
Lemma take_digest k bz bz' : (0 < k)%nat → take k (digest bz) = take k (digest bz') → bz = bz'.
Proof. intros Hk. destruct k as [|k]; [lia|]. unfold digest. cbn [take]. generalize (take k (replicate 31 0)). intros l [= He]. by apply (inj encode) in He. Qed.
Definition abi_code (v : AbiValue) : Z * list Z * list Z :=
  match v with
  | AbiBytes32 bz => (0, bz, []) | AbiAddress bz => (1, bz, []) | AbiUint256 z => (2, [z], []) | AbiBytes bz => (3, bz, [])
  | AbiRevertInstructions r m => (4, r, m)
  end.
#[export] Instance abi_code_inj : Inj (=) (=) abi_code.
Proof. intros [] [] [=]; by subst. Qed.
Definition tx_code (tx : LegacyTx) : Z * list Z * Z * Z * Z * list Z := (EtNonce tx, EtTo tx, EtValue tx, EtGas tx, EtGasPrice tx, EtData tx).
#[export] Instance tx_code_inj : Inj (=) (=) tx_code.
Proof. intros [] [] [=]. by subst. Qed.
#[export] Instance tx_lib : EvmTxLib := {|
  abi_Pack := λ vs, Ok [Z.pos (encode (abi_code <$> vs))]; signer_Hash := λ _ tx, [Z.pos (encode (tx_code tx))];
  WithSignature := λ _ _ _, None; tx_Hash := λ _, replicate 32 5 |}.
#[export] Instance tx_laws : EvmTxLaws.
Proof.
  split.
  - intros vs vs' bz _ _ _ [= <-] [= He]. apply (inj encode), (inj (fmap abi_code)) in He. done.
  - intros _ tx tx' _ _ [= He]. by apply (inj encode), (inj tx_code) in He.
  - done.
  - cbn [fmap list_fmap]. unfold funcSelector. rewrite !NoDup_cons, !not_elem_of_cons.
    split_and!; try apply not_elem_of_nil; try apply NoDup_nil_2; intros He%take_digest; try lia; discriminate.
Qed.
#[export] Instance anchor_laws : AnchorLaws.
Proof.
  split; [done|]. cbn [fmap list_fmap]. unfold anchorDiscriminator. rewrite !NoDup_cons, !not_elem_of_cons.
  split_and!; try apply not_elem_of_nil; try apply NoDup_nil_2; intros He%take_digest; try lia; discriminate.
Qed.
#[export] Instance tx_svm_lib : SvmTxLib := {|
  FindProgramAddress := λ seeds _, Ok (replicate 32 (Z.of_nat (length seeds))); PublicKeyOf := λ _, replicate 32 7;
  NewTransaction := λ _, None; SignTransaction := λ _ _, None; MarshalSize := λ _, Some 600%nat;
  SystemProgramID := zero_key; TokenProgramID := replicate 32 21; SPLAssociatedTokenAccountProgramID := replicate 32 22;
  SysVarRentPubkey := replicate 32 23; ComputeBudget := replicate 32 24 |}.

(** ** An EVM chain *)
#[export] Instance evm_config : EvmBuilderConfig := {| chainIDInt := 1; vaultAddress := replicate 20 8 |}.
Definition id_string (c : ascii) : string := of_bytes ("0"%char :: "x"%char :: replicate 64 c).
Definition evm_outbound : OutboundCreatedEvent :=
  mkOutboundCreatedEvent (id_string "1") (id_string "2") "eip155:1" "0xaa" "5" "" "0xbb" "" "1" "21000" "3" "" "FUNDS" "" "" "" 900.
Definition is_ok {A} (r : res A) : bool := match r with Ok _ => true | _ => false end.
Lemma ok_value {A} (r : res A) d : is_ok r = true → r = Ok (match r with Ok a => a | _ => d end).
Proof. by destruct r. Qed.
Definition no_request : UnsignedSigningReq := mkUnsignedSigningReq [] 0 None.
Definition evm_request : UnsignedSigningReq := match evm_GetOutboundSigningRequest evm_outbound 4 with Ok r => r | _ => no_request end.
Lemma evm_request_ok : evm_GetOutboundSigningRequest evm_outbound 4 = Ok evm_request.
Proof. apply ok_value. computed. Qed.
Lemma evm_sent_is_signed_witness :
  let req' := mkUnsignedSigningReq [1] 4 None in let signature := replicate 65 1 in
  let n := out_node (out_row StatusSigned (Some out_signing) "") out_reverted in
  ∃ tx c args, ReqSigningHash evm_request = signer_Hash chainIDInt tx ∧ intent evm_outbound = Some c ∧ abi_Pack (call_of c).2 = Ok args ∧
    EtData tx = (call_of c).1 ++ args ∧ EtTo tx = vaultAddress ∧ EtNonce tx = 4 ∧
    EtValue tx = (if decide (HexToAddress (OcAssetAddr evm_outbound) = zero_address) then call_amount c else 0) ∧
    big_SetString (OcGasPrice evm_outbound) = Some (EtGasPrice tx) ∧
    let '(r, n') := evm_BroadcastOutboundSigningRequest req' evm_outbound signature n in
    match WithSignature chainIDInt tx signature with
    | Some _ => trace n' = trace n ∧ ∃ e, r = Ok ("", Some e)
    | None =>
        let stx := mkSignedEvmTx chainIDInt tx signature in
        ∃ a e, trace n' = Log (SendEvmTransaction stx) a :: trace n ∧ r = Ok (hex_string (tx_Hash stx), e) ∧ (e = None ↔ a = Ok tt)
    end.
Proof. intros req' signature n. exact (evm_sent_is_signed evm_outbound 4 evm_request req' signature n evm_request_ok eq_refl eq_refl). Defined.
(** The same outbound with another fee on Push Chain, which the vault is not told. *)
Definition evm_outbound' : OutboundCreatedEvent :=
  mkOutboundCreatedEvent (id_string "1") (id_string "2") "eip155:1" "0xaa" "5" "" "0xbb" "" "2" "21000" "3" "" "FUNDS" "" "" "" 901.
Lemma evm_request_ok' : evm_GetOutboundSigningRequest evm_outbound' 4 = Ok evm_request.
Proof. transitivity (evm_GetOutboundSigningRequest evm_outbound 4); [reflexivity|apply evm_request_ok]. Qed.
Definition evm_intent : VaultCall :=
  Finalize (replicate 32 34) (replicate 32 17) (HexToAddress "0xbb") (HexToAddress "0xaa") (HexToAddress "") 5 [].
Lemma evm_hash_binds_outbound_witness :
  evm_intent = evm_intent ∧ 4 = 4 ∧ big_SetString (OcGasPrice evm_outbound) = big_SetString (OcGasPrice evm_outbound').
Proof.
  refine (evm_hash_binds_outbound evm_outbound 4 evm_request evm_intent evm_outbound' 4 evm_request evm_intent evm_request_ok evm_request_ok' _ _ _ _ _ _ _ _ eq_refl).
  - reflexivity.
  - reflexivity.
  - split; [done|reflexivity].
  - split; [done|reflexivity].
  - done.
  - done.
  - lia.
  - lia.
Defined.
Definition tx_migration : FundMigrationInitiatedEventData :=
  mkFundMigrationData 3 "key-0" (hex_of (replicate 33 2)) "key-1" (hex_of (replicate 33 3)) "eip155:1" 10 "2" 21000 "100".
Definition migration_node : Node Outside := out_node (out_row StatusSigned (Some out_signing) "") out_reverted.
Definition migration_run := evm_GetFundMigrationSigningRequest (migration_data tx_migration "0xcc" "0xdd" None) 7 migration_node.
Definition migration_request : UnsignedSigningReq := match migration_run.1 with Ok r => r | _ => no_request end.
Lemma migration_request_ok : migration_run = (Ok migration_request, migration_run.2).
Proof. apply run_outcome, ok_value. computed. Qed.
Lemma migration_moves_everything_witness :
  ∃ balance amount, GetBalance (HexToAddress "0xcc") ⟹ Ok balance ∈ trace migration_run.2 ∧ ReqAmount migration_request = Some amount ∧ 0 < amount ∧
    amount + lenient_int (FmGasPrice tx_migration) * FmGasLimit tx_migration + Z.max 0 (lenient_int (FmL1GasFee tx_migration)) = balance ∧
    evm_GetFundMigrationSigningRequest (migration_data tx_migration "0xcc" "0xdd" (Some (claimed_balance tx_migration amount))) 7 migration_node
    = (Ok migration_request, migration_node) ∧
    let tx := mkLegacyTx 7 (HexToAddress "0xdd") amount (FmGasLimit tx_migration) (lenient_int (FmGasPrice tx_migration)) [] in
    ReqSigningHash migration_request = signer_Hash chainIDInt tx ∧
    (WithSignature chainIDInt tx (replicate 65 1) = None → ∃ a,
       trace (evm_BroadcastFundMigrationTx migration_request (migration_data tx_migration "0xcc" "0xdd" None) (replicate 65 1) migration_node).2
       = Log (SendEvmTransaction (mkSignedEvmTx chainIDInt tx (replicate 65 1))) a :: trace migration_node).
Proof. exact (migration_moves_everything tx_migration "0xcc" "0xdd" 7 migration_node _ _ migration_node (replicate 65 1) migration_request_ok eq_refl). Defined.

(** ** Solana *)
#[export] Instance svm_config : SvmBuilderConfig := {|
  svmChainID := "solana:devnet"; gatewayAddress := replicate 32 9; protocolALT := zero_key; tokenALTs := ∅; reclaimMinAge := 0 |}.
Definition tss_message_of (ty : Z) (msg : list Z) : TSSMessage :=
  mkTSSMessage ty [1; 2] 900 5 (replicate 32 1) (replicate 32 2) (replicate 20 3) zero_key 7 (replicate 32 4)
    [mkGatewayAccountMeta (replicate 32 5) true] [6; 6] zero_key zero_key msg.
Lemma tss_message_of_ok ty msg : message_ok (tss_message_of ty msg).
Proof. repeat constructor; cbn; lia. Qed.
(** A withdrawal is not told the reason of a refund. *)
Lemma svm_hash_binds_outbound_witness :
  let m := tss_message_of 1 [] in let m' := tss_message_of 1 [8] in
  MInstructionID m = MInstructionID m' ∧ MDeadline m = MDeadline m' ∧ MAmount m = MAmount m' ∧ MTxID m = MTxID m' ∧
  MUniversalTxID m = MUniversalTxID m' ∧ MGasFee m = MGasFee m' ∧ told m = told m'.
Proof.
  intros m m'. refine (svm_hash_binds_outbound m m' _ (tss_message_of_ok _ _) (tss_message_of_ok _ _) eq_refl (ok_value (constructTSSMessage m) [] eq_refl) _). reflexivity.
Defined.
Definition svm_payload : list Z := encode_payload [(replicate 32 5, 1); (replicate 32 6, 0)] [9; 8; 7] 2 (replicate 32 4).
Lemma svm_payload_bytes : is_bytes svm_payload.
Proof. apply (bool_decide_unpack _). vm_compute. exact I. Qed.
Lemma svm_payload_exact_witness :
  (∀ e, svm_decodePayload svm_payload ≠ Panic e) ∧
  (svm_decodePayload svm_payload
   = Ok ([mkGatewayAccountMeta (replicate 32 5) true; mkGatewayAccountMeta (replicate 32 6) false], [9; 8; 7], 2, replicate 32 4) ↔
   ∃ accs, svm_payload = encode_payload accs [9; 8; 7] 2 (replicate 32 4) ∧
     [mkGatewayAccountMeta (replicate 32 5) true; mkGatewayAccountMeta (replicate 32 6) false] = read_account <$> accs ∧
     fits accs [9; 8; 7] (replicate 32 4) ∧ (2 = 1 ∧ accs = [] ∧ [9; 8; 7] = [] ∨ 2 = 2)).
Proof. exact (svm_payload_exact svm_payload _ _ _ _ svm_payload_bytes). Defined.
(** A cluster on which every account holds the same. *)
Inductive Cluster (account : res (list Z)) := cluster.
Arguments cluster {_}.
#[export] Instance cluster_env account : Env (Cluster account) := λ A c e,
  (match c in Call A return A with GetAccountData _ => account | c' => reply c' out_reverted end, e).
Definition tss_account : res (list Z) := Ok (replicate 28 0 ++ [2; 0; 0; 0] ++ [1; 2] ++ [0]).
Definition cluster_node account : Node (Cluster account) := mkNode ∅ ∅ out_coord 0 [] cluster.
Definition svm_recipient : string := "11111111111111111111111111111111".
(** An execution whose payload names another target than the recipient. *)
Definition svm_outbound : OutboundCreatedEvent :=
  mkOutboundCreatedEvent (id_string "1") (id_string "2") "solana:devnet" svm_recipient "5" ""
    (of_bytes ("0"%char :: "x"%char :: replicate 40 "3"%char)) (hex_of svm_payload) "7" "0" "0" "" "FUNDS_AND_PAYLOAD" "" "" "" 900.
Definition svm_request_run := svm_GetOutboundSigningRequest svm_outbound 0 (cluster_node tss_account).
Definition svm_request : UnsignedSigningReq := match svm_request_run.1 with Ok r => r | _ => no_request end.
Lemma svm_request_ok : svm_request_run = (Ok svm_request, svm_request_run.2).
Proof. apply run_outcome, ok_value. computed. Qed.
Definition svm_build_run := BuildOutboundTransaction svm_request svm_outbound (replicate 65 1) (cluster_node tss_account).
Definition svm_built : SvmTx * Z := match svm_build_run.1 with Ok r => r | _ => (mkSvmTx [] [] [] ∅, 0) end.
Lemma svm_build_ok : svm_build_run = (Ok (svm_built.1, 2), svm_build_run.2).
Proof.
  refine (run_outcome _ _ _). transitivity (Ok svm_built); [apply ok_value; computed|].
  assert (svm_built.2 = 2) as <- by computed. by destruct svm_built.
Qed.
Definition svm_fields_of : SvmFields := match svm_fields svm_outbound with Ok f => f | _ => mkSvmFields [] [] [] [] 0 [] end.
Lemma svm_fields_of_ok : svm_fields svm_outbound = Ok svm_fields_of.
Proof. apply ok_value. computed. Qed.
Lemma svm_mode_of_ok :
  svm_mode svm_outbound Ux.FUNDS_AND_PAYLOAD
  = Ok ([mkGatewayAccountMeta (replicate 32 5) true; mkGatewayAccountMeta (replicate 32 6) false], [9; 8; 7], 2, replicate 32 4).
Proof. computed. Qed.
Lemma svm_sent_is_signed_witness :
  ∃ ix tssPDA chainID msg t, last (StxInstructions svm_built.1) = Some ix ∧ IxProgram ix = gatewayAddress ∧
    FindProgramAddress [tssSeed] gatewayAddress = Ok tssPDA ∧ fetchTSSChainID tssPDA (cluster_node tss_account) = (Ok chainID, svm_request_run.2) ∧
    gateway_reads chainID ix = Some (msg, t) ∧ TlSignature t = take 64 (replicate 65 1) ∧ replicate 65 1 !! 64%nat = Some (TlV t) ∧
    TlHash t = ReqSigningHash svm_request ∧
    (constructTSSMessage msg = Ok (ReqSigningHash svm_request) ↔
     returns_funds Ux.FUNDS_AND_PAYLOAD = true ∨ replicate 32 4 = zero_key ∨ replicate 32 4 = SfRecipient svm_fields_of).
Proof.
  refine (svm_sent_is_signed svm_outbound 0 _ svm_request _ svm_request (replicate 65 1) _ svm_built.1 2 _ svm_fields_of Ux.FUNDS_AND_PAYLOAD
    _ _ _ svm_request_ok svm_build_ok eq_refl svm_fields_of_ok eq_refl svm_mode_of_ok _ _ _ _).
  - discriminate.
  - split; [done|reflexivity].
  - apply Forall_replicate. lia.
  - reflexivity.
Defined.

(** ** Both chains under one client *)
#[export] Instance tx_chains : Chains := λ chain,
  if decide (chain = "eip155:1") then Some (EvmBuilder evm_config)
  else if decide (chain = "solana:devnet") then Some (SvmBuilder svm_config) else None.
Definition fleet_node (account : res (list Z)) (ev : Event) : Node (Fleet (Cluster account) Outside) :=
  mkNode {[ EventID ev := ev ]} ∅ out_coord 0 [] (mkFleet (λ _, cluster_node account) out_reverted).
Definition tx_row (st : EventStatus) (data : OutboundCreatedEvent) (sd : option SigningData) (hash : string) : Event :=
  (new_event "row" 10 0 EventTypeSignOutbound (Some (push_payload data empty_migration 0 sd))) <| EvStatus := st |> <| BroadcastedTxHash := hash |>.
(** The account exists for all we know: the node timed out. *)
Lemma svm_unreadable_is_reverted_witness :
  let n := fleet_node (Err "timeout") (tx_row StatusBroadcasted svm_outbound (Some out_signing) "solana:devnet:sig") in
  ∃ v, trace (resolveSVM (tx_row StatusBroadcasted svm_outbound (Some out_signing) "solana:devnet:sig") "solana:devnet" n).2
       = [Log (VoteOutbound (id_string "2") (id_string "1")
                 (Ux.mkOutboundObservation false 0 "" "tx not executed on destination chain" "0")) v;
          Log NowUnix 1000; Log (IsAlreadyExecuted "solana:devnet" (id_string "2")) (false, 1000, None); Log (GetTxBuilder "solana:devnet") (Ok tt)]
         ++ trace n.
Proof.
  intros n. refine (svm_unreadable_is_reverted (tx_row StatusBroadcasted svm_outbound (Some out_signing) "solana:devnet:sig") "solana:devnet" svm_config
    (id_string "2") (id_string "1") (replicate 32 34) (replicate 32 2) n (Err "timeout") cluster 1000 cluster 1000 out_reverted _ _ _ _ _ _ _ _ _ _ _ _);
    first [reflexivity | discriminate].
Defined.
(** A client from its first event to its first transaction: the event arrives, another
    validator announces the signature, and the broadcaster sends. *)
Module Sent.
#[local] Instance short_hash : EvmTxLib := {|
  abi_Pack := λ vs, Ok [Z.of_nat (length vs)]; signer_Hash := λ _ tx, replicate 32 (EtNonce tx);
  WithSignature := λ _ _ _, None; tx_Hash := λ _, replicate 32 5 |}.
Definition sent_event : Event := tx_row StatusConfirmed evm_outbound None "".
Definition announced : Message :=
  mkMessage MessageTypeSignatureBroadcast "row" [] [] None (Some (mkSignedDataPayload (replicate 65 1) (replicate 32 4) 4 None)).
Definition new_client : Node (Fleet (Cluster (Ok [])) Outside) :=
  mkNode ∅ ∅ out_coord 0 [] (mkFleet (λ _, cluster_node (Ok [])) out_reverted).
Definition with_event := (InsertEventIfNotExists sent_event new_client).2.
Definition signed_client := (onReceive "peer" announced with_event).2.
Definition sent_node := (processSigned 2 signed_client).2.
Definition sent_tx : SignedEvmTx :=
  match assembled_outbound (mkUnsignedSigningReq (replicate 32 4) 4 None) evm_outbound (replicate 65 1) with
  | Ok tx => tx | _ => mkSignedEvmTx 0 (mkLegacyTx 0 [] 0 0 0 []) [] end.
Lemma sent_by_client : SendEvmTransaction sent_tx ⟹ Ok tt ∈ trace (side (env sent_node) "eip155:1").
Proof. apply (list_elem_of_lookup_2 _ 0). vm_compute. reflexivity. Qed.
Lemma sent_run : rtc (listed_step (λ _, sent_event)) new_client sent_node.
Proof.
  eapply rtc_l; [apply (listed_insert _ sent_event); by split; [|intros d [= <-]]|].
  eapply rtc_l; [eapply listed_other; [apply (step_receive "peer" announced)|]|].
  { intros id. change (rows with_event !! id = None → rows signed_client !! id = None).
    destruct (decide (id = "row")) as [->|Hne]; [by vm_compute|]. intros _. destruct (rows signed_client !! id) eqn:Hr; [|done].
    apply (elem_of_map_to_list (M:=gmap string)) in Hr. vm_compute in Hr. apply list_elem_of_singleton in Hr. congruence. }
  eapply rtc_l; [eapply listed_other; [apply (step_broadcast 2)|]|apply rtc_refl].
  intros id. change (rows signed_client !! id = None → rows sent_node !! id = None).
  destruct (decide (id = "row")) as [->|Hne]; [by vm_compute|]. intros _. destruct (rows sent_node !! id) eqn:Hr; [|done].
  apply (elem_of_map_to_list (M:=gmap string)) in Hr. vm_compute in Hr. apply list_elem_of_singleton in Hr. congruence.
Qed.
Lemma client_sends_what_was_signed_witness :
  ∃ (cfg : EvmBuilderConfig) id signature, builder_of "eip155:1" = Some (EvmBuilder cfg) ∧ StChainID sent_tx = chainIDInt ∧
    event_tx cfg sent_event "eip155:1" (StTx sent_tx) ∧ same_bytes signature (StSignature sent_tx) ∧
    signed_by (λ _, sent_event) (trace sent_node) id (signer_Hash chainIDInt (StTx sent_tx)) signature.
Proof.
  exact (client_sends_what_was_signed (λ _, sent_event) new_client sent_node "eip155:1" sent_tx (Ok tt)
    eq_refl eq_refl eq_refl (λ _, eq_refl) sent_run sent_by_client).
Defined.
End Sent.
