(* ===== verification/EdgeWitness.v ===== *)
(** * Witnesses at the edges of the system

    A chain that takes votes in sequence, a manager of chains, and a store of accounts with a toy signature
    scheme, on which the theorems of [UcSigner.v], [UcChains.v] and [AppAnte.v] are evaluated. *)
From S2P Require Import Prelude GoStrings UvTypes TssTypes UxTypes RegTypes UcSigner UcChains AppAnte.

Module Votes.
Import UcSigner.
(** A node: how many transactions of the hot key are in blocks, and those that wait. *)
Record Node := mkNode { in_blocks : nat; waiting : list AuthzTx }.
Definition next_sequence (e : Node) : Z := Z.of_nat (in_blocks e + length (waiting e)).
(** Asking for a transaction lets a block pass. *)
#[local] Instance node : PushCore Node := {
  BroadcastTx tx e :=
    if decide (AxSequence tx = next_sequence e)
    then (Ok (Some (mkTxResponse "0xabc" 0 "")), mkNode (in_blocks e) (waiting e ++ [tx]))
    else (Ok (Some (mkTxResponse "" 32 "Account sequence mismatch, expected another: incorrect account sequence")), e);
  GetAccount _ e := (Ok (7, Z.of_nat (in_blocks e)), e);
  GetTx _ e := (Ok (match waiting e with [] => Some (mkTxResponse "0xabc" 5 "the message was rejected") | _ => None end),
                mkNode (in_blocks e + length (waiting e)) []);
}.
#[local] Instance keyring : Keyring := { hotKeyAddr := Ok "push1hot"; SignTx _ := None }.
#[local] Program Instance mempool : Mempool Node :=
  { grantee := "push1hot"; number := 7; committed e := Z.of_nat (in_blocks e); expected := next_sequence }.
Next Obligation. done. Qed.
Next Obligation. done. Qed.
Next Obligation. intros e. unfold next_sequence. lia. Qed.
Next Obligation. done. Qed.
Next Obligation.
  intros tx e H. cbn. rewrite decide_False by done. split; [|done]. right. eexists. split_and!; [done|done|]. vm_compute. reflexivity.
Qed.
Definition a_vote : VoteMsg := MsgVoteFundMigration "push1val" 3 "0xdef" true.
Definition earlier : AuthzTx := mkAuthzTx "push1hot" [a_vote] "Vote" defaultGasLimit defaultFeeAmount 7 5.
(** A vote waits for its block, so the account query answers 5 and the mempool expects 6. *)
Definition lagging : Signer Node := mkSigner 6 (mkNode 5 [earlier]).
End Votes.

Module Accounts.
Import AppAnte.
Abbreviation Store := (gmap (list Z) Account).
#[local] Instance accounts : AccountKeeper Store := {
  HasAccount a w := bool_decide (is_Some (w !! a));
  GetAccount a w := w !! a;
  NewAccountWithAddress a w := (mkAccount a (Z.of_nat (size w)) 0, w);
  SetAccount acc w := <[AccAddr acc := acc]> w;
  GetModuleAddress _ := Some [0];
}.
#[local] Instance accounts_laws : AccountKeeperLaws Store.
Proof.
  split; [done|done|]. intros acc a w. cbn. destruct (decide (a = AccAddr acc)) as [->|]; [by rewrite lookup_insert_eq|by rewrite lookup_insert_ne].
Qed.
(** A signature is the key and the account number; the address of a key is its reverse. *)
#[local] Instance toy_signing : Signing := {
  VerifySignature pk sd data _ := match data with
                                  | SingleSignature _ sg => if decide (sg = SgAccountNumber sd :: pk) then None else Some "bad signature"
                                  | _ => Some "not a signature"
                                  end;
  address_of_key pk := rev pk;
}.
Definition nobody : Store := ∅.
Definition attacker_key : list Z := [6; 6; 6].
Definition victim : list Z := [1; 2; 3].
Definition forged : SigTx := mkSigTx (Ok [victim]) (Ok [mkSignatureV2 (Some attacker_key) (SingleSignature 1 [0; 6; 6; 6])]) true.
Definition forged_tx : SdkTx := mkSdkTx [AuthzExec ["/uexecutor.v1.MsgVoteInbound"]] None (Some forged) [].
Definition deliver : TxCtx := mkTxCtx false true false 10 "push_42101-1" [] 0.
(** The decorators that would check the key refuse everything, and are not asked. *)
Definition refuse : AnteDecorator (W := Store) := λ _ _ _ _, throw "the key does not match the signer".
(** A transaction in the name of [victim], signed with a key of another address. *)
Lemma new_account_admission_witness :
  address_of_key attacker_key ≠ victim ∧
  (ChainAnteDecorators [account_init_AnteHandle; refuse] deliver forged_tx false nobody).1 = Ok deliver ∧
  ∃ acc, GetAccount victim (ChainAnteDecorators [account_init_AnteHandle; refuse] deliver forged_tx false nobody).2 = Some acc ∧ AccSequence acc = 1.
Proof.
  split; [done|].
  destruct (new_account_admission (W := Store) (AK := accounts) (AL := accounts_laws) deliver forged_tx false [refuse] nobody forged victim eq_refl eq_refl eq_refl
              ltac:(vm_compute; reflexivity)) as (H1 & H2 & _).
  assert (Hok : (ChainAnteDecorators [account_init_AnteHandle; refuse] deliver forged_tx false nobody).1 = Ok deliver).
  { apply H1. exists (mkSignatureV2 (Some attacker_key) (SingleSignature 1 [0; 6; 6; 6])), attacker_key.
    split; [done|]. split; [done|]. intros _. split; reflexivity. }
  split; [exact Hok|exact (H2 Hok)].
Defined.
End Accounts.

Module Clients.
Import UcChains.
(** Clients are named by their chain; Push Chain has one configuration. *)
Definition eth : Reg.ChainConfig := Reg.mkChainConfig "eip155:1" Reg.EVM "" "0xgw" None [] (Some (Reg.mkChainEnabled true false)) 0 [] None.
#[local] Instance clients_by_name : ChainClients string unit := {
  OpenFileDB _ e := (None, e);
  StartClient cfg e := (inr (Reg.Chain cfg), e);
  StartPush e := (inr "push", e);
  StopClient _ e := e;
  GetAllChainConfigs e := (inr [eth], e);
}.
Definition serving (chains : list string) : Manager string unit :=
  mkManager (list_to_map ((λ c, (c, c)) <$> chains)) (list_to_map ((λ c, (c, eth)) <$> chains)) 0 false tt.
Lemma serving_paired chains : paired (serving chains).
Proof.
  intros k. unfold serving. cbn [clients chainConfigs]. induction chains as [|c l IH].
  - change (is_Some ((∅ : gmap string string) !! k) ↔ is_Some ((∅ : gmap string Reg.ChainConfig) !! k)). by rewrite !lookup_empty.
  - rewrite !fmap_cons, !list_to_map_cons.
    destruct (decide (k = c)) as [->|Hne]; [rewrite !lookup_insert_eq|by rewrite !lookup_insert_ne]. split; by eexists.
Qed.
(** A client whose chain is gone from the answer, and a manager with nothing to remove. *)
Lemma manager_follows_registry_witness :
  fetchAndUpdate "push" (serving ["eip155:56"]) = None ∧
  ∃ s', fetchAndUpdate "push" (serving ["push"]) = Some (None, s') ∧ free s' ∧ is_Some (clients s' !! "eip155:1").
Proof.
  assert (Hn : NoDup (Reg.Chain <$> [eth])) by (apply NoDup_singleton).
  split.
  - apply (manager_follows_registry "push" (serving ["eip155:56"]) [eth] tt ltac:(split; done) (serving_paired _) Hn eq_refl).
    exists "eip155:56". split; [by eexists|vm_compute; reflexivity].
  - destruct (manager_follows_registry "push" (serving ["push"]) [eth] tt ltac:(split; done) (serving_paired _) Hn eq_refl) as [_ H].
    destruct H as (s' & H1 & H2 & _ & _ & Hfol & _).
    + intros k [[c Hc] Hk]. unfold serving in Hc. cbn in Hc. destruct (decide (k = "push")) as [->|Hne]; [by vm_compute in Hk|].
      by rewrite lookup_insert_ne in Hc.
    + exists s'. split; [exact H1|]. split; [exact H2|]. destruct (Hfol 0%nat eth eq_refl) as [[H|H]|(si & _ & _ & H)]; [done|done|].
      unfold followed in H. cbn in H. destruct H as [(c & r & Hc & _)|[_ (err & Hs)]]; [by eexists|]. cbn in Hs. done.
Defined.
End Clients.
